(** * A shallow embedding of the ccompiler front-end parser

    The development follows [src/parser.cpp] and [src/source_manager.cpp]:
    the parser-state algebra, node elision, the combinator kernel, the
    grammar rules, the entry point [parse], and the line cache of the
    source manager.  Token iterators are indices into the token vector,
    [tokens.end()] is its length. *)

From Stdlib Require Import List String Ascii Bool Arith PeanoNat Lia.
Import ListNotations.
Open Scope string_scope.
Open Scope list_scope.

Set Implicit Arguments.

(** String concatenation, written apart from list concatenation. *)
Infix "+++" := String.append (at level 60, right associativity).

(** ** Lexer interface: token kinds

    [TokenType] is declared by the lexer.  The constructors below are the
    kinds the parser inspects; [Other] stands for every remaining kind. *)

Module TokenType.

Inductive t : Type :=
  | Alignas | Alignof | Assign | Atomic | Auto | BitwiseAnd
  | BitwiseAndAssign | BitwiseLeftShift | BitwiseLeftShiftAssign | BitwiseNot | BitwiseOr | BitwiseOrAssign
  | BitwiseRightShift | BitwiseRightShiftAssign | BitwiseXor | BitwiseXorAssign | Bool | Break
  | Case | CharConstant | CharType | Colon | Comma | Complex
  | Const | Continue | Declspec | Decrement | Default | Divide
  | DivideAssign | Do | Dot | DoubleType | Ellipsis | Else
  | EncodingPrefix | Enum | Eof | EqualsTo | Extern | FloatConstant
  | FloatType | For | Goto | GreaterEqual | GreaterThan | HexIntegerConstant
  | Identifier | If | Increment | Inline | IntType | IntegerConstant
  | LeftBrace | LeftBracket | LeftParen | LessEqual | LessThan | LogicalAnd
  | LogicalOr | LongType | Minus | MinusAssign | ModuloAssign | Noreturn
  | NotEqualTo | OctIntegerConstant | Percent | Plus | PlusAssign | QuestionMark
  | Register | Restrict | Return | RightArrow | RightBrace | RightBracket
  | RightParen | Semicolon | ShortType | Signed | Sizeof | Static
  | StaticAssert | Stdcall | StringConstant | Struct | Switch | ThreadLocal
  | Times | TimesAssign | Typedef | Union | Unsigned | VectorM128
  | VectorM128d | VectorM128i | VoidType | Volatile | While
  | Other (code : nat).

(** Kinds are compared through their enumerator value. *)
Definition tag (k : t) : nat :=
  match k with
  | Alignas => 0
  | Alignof => 1
  | Assign => 2
  | Atomic => 3
  | Auto => 4
  | BitwiseAnd => 5
  | BitwiseAndAssign => 6
  | BitwiseLeftShift => 7
  | BitwiseLeftShiftAssign => 8
  | BitwiseNot => 9
  | BitwiseOr => 10
  | BitwiseOrAssign => 11
  | BitwiseRightShift => 12
  | BitwiseRightShiftAssign => 13
  | BitwiseXor => 14
  | BitwiseXorAssign => 15
  | Bool => 16
  | Break => 17
  | Case => 18
  | CharConstant => 19
  | CharType => 20
  | Colon => 21
  | Comma => 22
  | Complex => 23
  | Const => 24
  | Continue => 25
  | Declspec => 26
  | Decrement => 27
  | Default => 28
  | Divide => 29
  | DivideAssign => 30
  | Do => 31
  | Dot => 32
  | DoubleType => 33
  | Ellipsis => 34
  | Else => 35
  | EncodingPrefix => 36
  | Enum => 37
  | Eof => 38
  | EqualsTo => 39
  | Extern => 40
  | FloatConstant => 41
  | FloatType => 42
  | For => 43
  | Goto => 44
  | GreaterEqual => 45
  | GreaterThan => 46
  | HexIntegerConstant => 47
  | Identifier => 48
  | If => 49
  | Increment => 50
  | Inline => 51
  | IntType => 52
  | IntegerConstant => 53
  | LeftBrace => 54
  | LeftBracket => 55
  | LeftParen => 56
  | LessEqual => 57
  | LessThan => 58
  | LogicalAnd => 59
  | LogicalOr => 60
  | LongType => 61
  | Minus => 62
  | MinusAssign => 63
  | ModuloAssign => 64
  | Noreturn => 65
  | NotEqualTo => 66
  | OctIntegerConstant => 67
  | Percent => 68
  | Plus => 69
  | PlusAssign => 70
  | QuestionMark => 71
  | Register => 72
  | Restrict => 73
  | Return => 74
  | RightArrow => 75
  | RightBrace => 76
  | RightBracket => 77
  | RightParen => 78
  | Semicolon => 79
  | ShortType => 80
  | Signed => 81
  | Sizeof => 82
  | Static => 83
  | StaticAssert => 84
  | Stdcall => 85
  | StringConstant => 86
  | Struct => 87
  | Switch => 88
  | ThreadLocal => 89
  | Times => 90
  | TimesAssign => 91
  | Typedef => 92
  | Union => 93
  | Unsigned => 94
  | VectorM128 => 95
  | VectorM128d => 96
  | VectorM128i => 97
  | VoidType => 98
  | Volatile => 99
  | While => 100
  | Other code => 101 + code
  end.

Definition of_tag (n : nat) : t :=
  match n with
  | 0 => Alignas
  | 1 => Alignof
  | 2 => Assign
  | 3 => Atomic
  | 4 => Auto
  | 5 => BitwiseAnd
  | 6 => BitwiseAndAssign
  | 7 => BitwiseLeftShift
  | 8 => BitwiseLeftShiftAssign
  | 9 => BitwiseNot
  | 10 => BitwiseOr
  | 11 => BitwiseOrAssign
  | 12 => BitwiseRightShift
  | 13 => BitwiseRightShiftAssign
  | 14 => BitwiseXor
  | 15 => BitwiseXorAssign
  | 16 => Bool
  | 17 => Break
  | 18 => Case
  | 19 => CharConstant
  | 20 => CharType
  | 21 => Colon
  | 22 => Comma
  | 23 => Complex
  | 24 => Const
  | 25 => Continue
  | 26 => Declspec
  | 27 => Decrement
  | 28 => Default
  | 29 => Divide
  | 30 => DivideAssign
  | 31 => Do
  | 32 => Dot
  | 33 => DoubleType
  | 34 => Ellipsis
  | 35 => Else
  | 36 => EncodingPrefix
  | 37 => Enum
  | 38 => Eof
  | 39 => EqualsTo
  | 40 => Extern
  | 41 => FloatConstant
  | 42 => FloatType
  | 43 => For
  | 44 => Goto
  | 45 => GreaterEqual
  | 46 => GreaterThan
  | 47 => HexIntegerConstant
  | 48 => Identifier
  | 49 => If
  | 50 => Increment
  | 51 => Inline
  | 52 => IntType
  | 53 => IntegerConstant
  | 54 => LeftBrace
  | 55 => LeftBracket
  | 56 => LeftParen
  | 57 => LessEqual
  | 58 => LessThan
  | 59 => LogicalAnd
  | 60 => LogicalOr
  | 61 => LongType
  | 62 => Minus
  | 63 => MinusAssign
  | 64 => ModuloAssign
  | 65 => Noreturn
  | 66 => NotEqualTo
  | 67 => OctIntegerConstant
  | 68 => Percent
  | 69 => Plus
  | 70 => PlusAssign
  | 71 => QuestionMark
  | 72 => Register
  | 73 => Restrict
  | 74 => Return
  | 75 => RightArrow
  | 76 => RightBrace
  | 77 => RightBracket
  | 78 => RightParen
  | 79 => Semicolon
  | 80 => ShortType
  | 81 => Signed
  | 82 => Sizeof
  | 83 => Static
  | 84 => StaticAssert
  | 85 => Stdcall
  | 86 => StringConstant
  | 87 => Struct
  | 88 => Switch
  | 89 => ThreadLocal
  | 90 => Times
  | 91 => TimesAssign
  | 92 => Typedef
  | 93 => Union
  | 94 => Unsigned
  | 95 => VectorM128
  | 96 => VectorM128d
  | 97 => VectorM128i
  | 98 => VoidType
  | 99 => Volatile
  | 100 => While
  | _ => Other (n - 101)
  end.

Definition eqb (a b : t) : bool := Nat.eqb (tag a) (tag b).

Lemma of_tag_tag : forall k, of_tag (tag k) = k.
Proof.
  destruct k; try reflexivity.
  cbn. f_equal. apply Nat.sub_0_r.
Qed.

Lemma eqb_eq : forall a b, eqb a b = true <-> a = b.
Proof.
  intros a b. unfold eqb. rewrite Nat.eqb_eq. split.
  - intro H. rewrite <- (of_tag_tag a), <- (of_tag_tag b), H. reflexivity.
  - intros ->. reflexivity.
Qed.

Lemma eqb_refl : forall a, eqb a a = true.
Proof. intro a. apply eqb_eq. reflexivity. Qed.

End TokenType.

(** ** Syntax-tree node kinds, with [to_string(NodeType)] *)

Module NodeType.

Inductive t : Type :=
  | PrimaryExpression | GenericSelection | GenericAssocList | GenericAssociation | PostfixExpression
  | ArgumentExpressionList | UnaryExpression | CastExpression | MultiplicativeExpression | AdditiveExpression
  | ShiftExpression | RelationalExpression | EqualityExpression | AndExpression | ExclusiveOrExpression
  | InclusiveOrExpression | LogicalAndExpression | LogicalOrExpression | ConditionalExpression | AssignmentExpression
  | Expression | ConstantExpression | Declaration | DeclarationSpecifiers | DeclarationSpecifier
  | InitDeclaratorList | InitDeclarator | StorageClassSpecifier | TypeSpecifier | StructOrUnionSpecifier
  | StructOrUnion | StructDeclarationList | StructDeclaration | SpecifierQualifierList | StructDeclaratorList
  | StructDeclarator | EnumSpecifier | EnumeratorList | Enumerator | AtomicTypeSpecifier
  | TypeQualifier | FunctionSpecifier | AlignmentSpecifier | Declarator | DirectDeclarator
  | NestedParenthesesBlock | Pointer | TypeQualifierList | ParameterTypeList | ParameterList
  | ParameterDeclaration | IdentifierList | TypeName | AbstractDeclarator | DirectAbstractDeclarator
  | TypedefName | Initializer | InitializerList | Designation | DesignatorList
  | Designator | StaticAssertDeclaration | Statement | LabeledStatement | CompoundStatement
  | BlockItemList | BlockItem | ExpressionStatement | SelectionStatement | IterationStatement
  | JumpStatement | CompilationUnit | TranslationUnit | ExternalDeclaration | FunctionDefinition
  | DeclarationList | Identifier | Constant | IntegerConstant | FloatingConstant
  | EnumerationConstant | CharacterConstant | EncodingPrefix | StringLiteral | StringLiteralList
  | AsmBlock | CompoundLiteral | ArraySubscripting | FunctionCall | MemberAccess
  | PointerMemberAccess | PostfixIncrement | PostfixDecrement | PointerDeclarator | ArrayDeclarator
  | ArrayStaticDeclarator | ArrayVLADeclarator | FunctionDeclarator | VariadicParameter | Nothing
  | None.

(** [to_string(NodeType::None)] is [Unreachable()] in the source; no rule
    passes [None], the model answers the empty string there. *)
Definition to_string (node_type : t) : string :=
  match node_type with
  | PrimaryExpression => "primary expression"
  | GenericSelection => "generic selection"
  | GenericAssocList => "generic assoc list"
  | GenericAssociation => "generic association"
  | PostfixExpression => "postfix expression"
  | ArgumentExpressionList => "argument expression list"
  | UnaryExpression => "unary expression"
  | CastExpression => "cast expression"
  | MultiplicativeExpression => "multiplicative expression"
  | AdditiveExpression => "additive expression"
  | ShiftExpression => "shift expression"
  | RelationalExpression => "relatioal expression"
  | EqualityExpression => "equality expression"
  | AndExpression => "and expression"
  | ExclusiveOrExpression => "exclusive or expression"
  | InclusiveOrExpression => "inclusive or expression"
  | LogicalAndExpression => "logical and expression"
  | LogicalOrExpression => "logical or expression"
  | ConditionalExpression => "conditional expression"
  | AssignmentExpression => "assignment expression"
  | Expression => "expression"
  | ConstantExpression => "constant expression"
  | Declaration => "declaration"
  | DeclarationSpecifiers => "declaration specifiers"
  | DeclarationSpecifier => "declaration specifier"
  | InitDeclaratorList => "init declarator list"
  | InitDeclarator => "init declarator"
  | StorageClassSpecifier => "storage class specifier"
  | TypeSpecifier => "type specifier"
  | StructOrUnionSpecifier => "struct or union specifier"
  | StructOrUnion => "struct or union"
  | StructDeclarationList => "struct declaration list"
  | StructDeclaration => "struct declaration"
  | SpecifierQualifierList => "specifier qualifier list"
  | StructDeclaratorList => "struct declarator list"
  | StructDeclarator => "struct declarator"
  | EnumSpecifier => "enum specifier"
  | EnumeratorList => "enumerator list"
  | Enumerator => "enumerator"
  | AtomicTypeSpecifier => "atomic type specifier"
  | TypeQualifier => "type qualifier"
  | FunctionSpecifier => "function specifier"
  | AlignmentSpecifier => "alignment specifier"
  | Declarator => "declarator"
  | DirectDeclarator => "direct declarator"
  | NestedParenthesesBlock => "nested parentheses block"
  | Pointer => "pointer"
  | TypeQualifierList => "type qualifier list"
  | ParameterTypeList => "parameter type list"
  | ParameterList => "parameter list"
  | ParameterDeclaration => "parameter declaration"
  | IdentifierList => "identifier list"
  | TypeName => "type name"
  | AbstractDeclarator => "abstract declarator"
  | DirectAbstractDeclarator => "direct abstract declarator"
  | TypedefName => "typedef name"
  | Initializer => "initializer"
  | InitializerList => "initializer list"
  | Designation => "designation"
  | DesignatorList => "designator list"
  | Designator => "designator"
  | StaticAssertDeclaration => "static assert declaration"
  | Statement => "statement"
  | LabeledStatement => "labeled statement"
  | CompoundStatement => "compound statement"
  | BlockItemList => "block item list"
  | BlockItem => "block item"
  | ExpressionStatement => "expression statement"
  | SelectionStatement => "selection statement"
  | IterationStatement => "iteration statement"
  | JumpStatement => "jump statement"
  | CompilationUnit => "compilation unit"
  | TranslationUnit => "translation unit"
  | ExternalDeclaration => "external declaration"
  | FunctionDefinition => "function definition"
  | DeclarationList => "declaration list"
  | Identifier => "identifier"
  | Constant => "constant"
  | IntegerConstant => "integer constant"
  | FloatingConstant => "floating constant"
  | EnumerationConstant => "enumeration constant"
  | CharacterConstant => "character constant"
  | EncodingPrefix => "encoding prefix"
  | StringLiteral => "string literal"
  | StringLiteralList => "string literal list"
  | AsmBlock => "asm block"
  | CompoundLiteral => "compound literal"
  | ArraySubscripting => "array subscripting"
  | FunctionCall => "function call"
  | MemberAccess => "member access"
  | PointerMemberAccess => "pointer member access"
  | PostfixIncrement => "postfix increment"
  | PostfixDecrement => "postfix decrement"
  | PointerDeclarator => "pointer declarator"
  | ArrayDeclarator => "array declarator"
  | ArrayStaticDeclarator => "array (with static) declarator"
  | ArrayVLADeclarator => "variable length array declarator"
  | FunctionDeclarator => "function declarator"
  | VariadicParameter => "'...' (variadic parameter)"
  | Nothing => "empty"
  | None => ""
  end.

End NodeType.
(** ** Source ranges, tokens and syntax trees *)

(** A [SourceLocation] is an offset into the source buffer. *)
Abbreviation SourceLocation := nat (only parsing).

(** A [SourceRange] is a pair of pointers into the source buffer; the model
    keeps them as offsets from the start of the buffer. *)
Record SourceRange : Type := {
  range_begin : SourceLocation;
  range_end : SourceLocation
}.

(** [string_ref(range)]: the characters the range spans, read from the
    buffer the pointers refer to. *)
Definition string_ref (buffer : string) (r : SourceRange) : string :=
  String.substring (range_begin r) (range_end r - range_begin r) buffer.

(** [TokenStream::TokenData]. *)
Record TokenData : Type := {
  type : TokenType.t;
  data : SourceRange
}.

(** A [TokenIterator] is an index into the token vector. *)
Abbreviation TokenIterator := nat (only parsing).

(** Modelled from the spec: the [SyntaxTree] class is declared in parser.hpp,
    which is not part of the sources.  A node has a [NodeType], an optional
    source token, an optional annotation (only its presence matters to the
    parser) and an ordered sequence of owned children. *)
Unset Elimination Schemes.
Inductive SyntaxTree : Type :=
  Node (node_type : NodeType.t) (token : option TokenData)
       (annotation : bool) (children : list SyntaxTree).
Set Elimination Schemes.

Definition node_type (n : SyntaxTree) : NodeType.t :=
  match n with Node ty _ _ _ => ty end.

Definition token (n : SyntaxTree) : option TokenData :=
  match n with Node _ tok _ _ => tok end.

Definition children (n : SyntaxTree) : list SyntaxTree :=
  match n with Node _ _ _ cs => cs end.

(** Modelled from the spec: [has_text()] is true iff the token is present. *)
Definition has_text (n : SyntaxTree) : bool :=
  match token n with Some _ => true | None => false end.

Definition has_annotation (n : SyntaxTree) : bool :=
  match n with Node _ _ ann _ => ann end.

Definition child_count (n : SyntaxTree) : nat := List.length (children n).

(** The three constructors used by the parser: [SyntaxTree()], which is a
    [None] node, [SyntaxTree(type)] and [SyntaxTree(type, token)]. *)
Definition new_tree : SyntaxTree := Node NodeType.None None false [].

Definition new_node (ty : NodeType.t) : SyntaxTree := Node ty None false [].

Definition new_leaf (ty : NodeType.t) (tok : TokenData) : SyntaxTree :=
  Node ty (Some tok) false [].

(** Modelled from the spec: [add_child(n)] appends; [take_children(n)] moves
    the children of [n] onto the receiver; [pop_child()] removes and returns
    the last child. *)
Definition add_child (self n : SyntaxTree) : SyntaxTree :=
  match self with
  | Node ty tok ann cs => Node ty tok ann (cs ++ [n])
  end.

Definition take_children (self n : SyntaxTree) : SyntaxTree :=
  match self with
  | Node ty tok ann cs => Node ty tok ann (cs ++ children n)
  end.

Definition pop_child (self : SyntaxTree) : option SyntaxTree :=
  last (map Some (children self)) None.

(** ** Parser states (parser.cpp, lines 22-133) *)

Inductive ParserStatus : Type :=
  | Error      (* Syntax is partly wrong. *)
  | ErrorNote  (* Note following an [Error]. *)
  | GiveUp.    (* Parser could not make sense at all. *)

Definition is_GiveUp (s : ParserStatus) : bool :=
  match s with GiveUp => true | _ => false end.

Definition is_ErrorNote (s : ParserStatus) : bool :=
  match s with ErrorNote => true | _ => false end.

Record ParserError : Type := {
  status : ParserStatus;
  where_ : TokenIterator;   (* Where it happened. *)
  error : string            (* Error message. *)
}.

Definition ParserFailure := list ParserError.

(** [variant<ParserFailure, ParserSuccess>]; the tree of a [ParserSuccess]
    may be the null pointer. *)
Inductive ParserState : Type :=
  | Failure (errors : ParserFailure)
  | Success (tree : option SyntaxTree).

Definition ParserResult : Type := (TokenIterator * ParserState)%type.

Definition is_success (state : ParserState) : bool :=
  match state with Success _ => true | Failure _ => false end.

Definition is_failure (state : ParserState) : bool :=
  match state with Success _ => false | Failure _ => true end.

Definition make_error (st : ParserStatus) (it : TokenIterator) (msg : string)
  : ParserState :=
  Failure [ {| status := st; where_ := it; error := msg |} ].

(** [add_error(ParserState&, ParserError)]. *)
Definition add_error (state : ParserState) (e : ParserError) : ParserState :=
  match state with
  | Success _ => Failure [e]
  | Failure es => Failure (es ++ [e])
  end.

(** [add_error(ParserState&, ParserFailure)]: one [add_error] per entry. *)
Definition add_errors (state : ParserState) (es : ParserFailure) : ParserState :=
  fold_left add_error es state.

(** [add_error(ParserState&, ParserState)]. *)
Definition add_error_state (state other : ParserState) : ParserState :=
  match other with
  | Failure es => add_errors state es
  | Success _ => state
  end.

Definition is_giveup (state : ParserState) : bool :=
  match state with
  | Failure es => forallb (fun e => is_GiveUp (status e)) es
  | Success _ => false
  end.

(** [giveup_to_expected(ParserState)], the overload without [what]. *)
Definition giveup_to_expected (state : ParserState) : ParserState :=
  match state with
  | Failure es =>
      fold_left
        (fun new_state e =>
           if is_GiveUp (status e)
           then add_error new_state
                  {| status := Error; where_ := where_ e;
                     error := "expected " +++ error e |}
           else add_error new_state e)
        es (Success None)
  | Success _ => state
  end.

(** ** Node elision (parser.cpp, lines 204-273) *)

Definition should_elide (node : SyntaxTree) : bool :=
  match node_type node with
  | NodeType.None => true
  | _ =>
    if has_annotation node then false
    else
      match node_type node with
      | NodeType.GenericAssocList
      | NodeType.ArgumentExpressionList
      | NodeType.Declaration
      | NodeType.DeclarationSpecifiers
      | NodeType.InitDeclaratorList
      | NodeType.StructDeclarationList
      | NodeType.SpecifierQualifierList
      | NodeType.StructDeclaratorList
      | NodeType.EnumeratorList
      | NodeType.FunctionSpecifier
      | NodeType.AlignmentSpecifier
      | NodeType.TypeQualifierList
      | NodeType.ParameterTypeList
      | NodeType.ParameterList
      | NodeType.IdentifierList
      | NodeType.InitializerList
      | NodeType.DesignatorList
      | NodeType.CompilationUnit
      | NodeType.TranslationUnit
      | NodeType.FunctionDeclarator => false
      | _ => negb (has_text node) && Nat.eqb (child_count node) 1
      end
  end.

Definition is_None (ty : NodeType.t) : bool :=
  match ty with NodeType.None => true | _ => false end.

Definition is_Nothing (ty : NodeType.t) : bool :=
  match ty with NodeType.Nothing => true | _ => false end.

(** [add_node]: [Expects(node != nullptr)] holds by the type of [node]. *)
Definition add_node (state : ParserState) (node : SyntaxTree) : ParserState :=
  match state with
  | Success None => Success (Some node)
  | Success (Some tree) =>
      if is_None (node_type node) || should_elide node
      then Success (Some (take_children tree node))
      else Success (Some (add_child tree node))
  | Failure _ => state
  end.

(** ** Outcomes of a run

    The model is executable: recursion and loops are bounded by fuel.  A run
    that stops without a result says why: the fuel ran out, a contract
    ([Expects], [Ensures], [Unreachable]) failed, or an iterator or pointer
    that may not be dereferenced was. *)

Inductive Fault : Type :=
  | OutOfFuel
  | ContractViolation
  | InvalidDereference.

Inductive Outcome (A : Type) : Type :=
  | Ok (a : A)
  | Stuck (f : Fault).

Arguments Stuck {A} f.

(** ** The source manager (source_manager.cpp) *)

Module SourceManager.

Record LineColumn : Type := { line : nat; column : nat }.

Definition newline : ascii := "010"%char.

(** [std::find_if(first, last, [](char c) { return c == '\n'; })]: reads the
    buffer at [first] as long as [first != last]. *)
Fixpoint find_newline (fuel : nat) (buffer : string) (first last : SourceLocation)
  : Outcome SourceLocation :=
  match fuel with
  | 0 => Stuck OutOfFuel
  | S fuel' =>
      if Nat.eqb first last then Ok last
      else match String.get first buffer with
           | Some c =>
               if Ascii.eqb c newline then Ok first
               else find_newline fuel' buffer (S first) last
           | None => Stuck InvalidDereference
           end
  end.

(** The loop of [SourceLineCache::SourceLineCache]. *)
Fixpoint line_cache_loop (fuel : nat) (buffer : string) (range : SourceRange)
    (line_begin line_end : SourceLocation) (offsets : list SourceRange)
  : Outcome (list SourceRange) :=
  match fuel with
  | 0 => Stuck OutOfFuel
  | S fuel' =>
      if Nat.eqb line_end (range_end range) then Ok offsets
      else
        match find_newline fuel' buffer line_end (range_end range) with
        | Ok line_end' =>
            line_cache_loop fuel' buffer range (line_end' + 1) (line_end' + 1)
              (offsets ++ [ {| range_begin := line_begin; range_end := line_end' |} ])
        | Stuck f => Stuck f
        end
  end.

Definition SourceLineCache (fuel : nat) (buffer : string) (range : SourceRange)
  : Outcome (list SourceRange) :=
  line_cache_loop fuel buffer range (range_begin range) (range_begin range) [].

(** A source manager: the buffer and its line cache. *)
Record t : Type := {
  content : string;
  offsets : list SourceRange
}.

Section Lookup.

(** [SourceRange::contains] is declared in source_manager.hpp, which is not
    part of the sources; it is a parameter of the lookup. *)
Variable contains : SourceRange -> SourceLocation -> bool.

(** The [for] loop of [linecol_from_location]; [index] is the distance of the
    iterator from [offsets.begin()]. *)
Fixpoint linecol_scan (ranges : list SourceRange) (index : nat) (loc : SourceLocation)
  : Outcome LineColumn :=
  match ranges with
  | [] => Stuck ContractViolation   (* Unreachable() *)
  | range :: rest =>
      if contains range loc
      then Ok {| line := index + 1; column := loc - range_begin range + 1 |}
      else linecol_scan rest (S index) loc
  end.

Definition linecol_from_location (sm : t) (loc : SourceLocation) : Outcome LineColumn :=
  match offsets sm with
  | [] => Stuck ContractViolation   (* Expects(!std::empty(offsets)) *)
  | front :: _ =>
      if negb (Nat.leb (range_begin front) loc) then Stuck ContractViolation
      else if negb (Nat.leb loc (range_end (last (offsets sm) front))) then Stuck ContractViolation
      else linecol_scan (offsets sm) 0 loc
  end.

Definition line_range_at (sm : t) (line_no : nat) : Outcome SourceRange :=
  match line_no with
  | 0 => Stuck InvalidDereference
  | S index =>
      match nth_error (offsets sm) index with
      | Some r => Ok r
      | None => Stuck InvalidDereference
      end
  end.

End Lookup.

End SourceManager.

(** ** Program context and parser context

    Modelled from the spec: [ProgramContext] is declared in program.hpp,
    which is not part of the sources.  The parser calls [note], [warn],
    [error] and [pedantic], each with a [TokenDebug] and a message, and reads
    [opts.pedantic]; the model records every call as a diagnostic. *)

Inductive DiagnosticKind : Type := DiagNote | DiagWarning | DiagError | DiagPedantic.

Record TokenDebug : Type := {
  pos : SourceManager.LineColumn;
  range : SourceRange
}.

Record Diagnostic : Type := {
  kind : DiagnosticKind;
  info : TokenDebug;
  message : string
}.

Record Options : Type := { pedantic : bool }.

Record ProgramContext : Type := {
  opts : Options;
  diagnostics : list Diagnostic
}.

Definition report (k : DiagnosticKind) (i : TokenDebug) (msg : string)
    (p : ProgramContext) : ProgramContext :=
  {| opts := opts p;
     diagnostics := diagnostics p ++ [ {| kind := k; info := i; message := msg |} ] |}.

(** The lexed tokens together with the source manager they point into. *)
Record TokenStream : Type := {
  token_data : list TokenData;
  source_manager : SourceManager.t
}.

(** [ParserContext]: the program and the flag [is_inside_specifiers]; the
    token stream is constant during a parse. *)
Record ParserContext : Type := {
  program : ProgramContext;
  is_inside_specifiers : bool
}.

(** ** The monad of rules: state [ParserContext], results [Outcome] *)

Definition M (A : Type) : Type := ParserContext -> Outcome (A * ParserContext).

Definition ret {A : Type} (a : A) : M A := fun c => Ok (a, c).

Definition bind {A B : Type} (m : M A) (k : A -> M B) : M B :=
  fun c => match m c with
           | Ok (a, c') => k a c'
           | Stuck f => Stuck f
           end.

Definition stuck {A : Type} (f : Fault) : M A := fun _ => Stuck f.

Definition lift {A : Type} (o : Outcome A) : M A :=
  fun c => match o with
           | Ok a => Ok (a, c)
           | Stuck f => Stuck f
           end.

Declare Scope parser_scope.
Delimit Scope parser_scope with parser.
Bind Scope parser_scope with M.

Notation "x <- m ;; k" := (bind m (fun x => k))
  (at level 61, m at next level, right associativity) : parser_scope.
Notation "' pat <- m ;; k" := (bind m (fun x => match x with pat => k end))
  (at level 61, pat pattern, m at next level, right associativity) : parser_scope.
Notation "m ;;; k" := (bind m (fun _ => k))
  (at level 61, right associativity) : parser_scope.

Open Scope parser_scope.

Definition get_inside_specifiers : M bool :=
  fun c => Ok (is_inside_specifiers c, c).

Definition set_inside_specifiers (b : bool) : M unit :=
  fun c => Ok (tt, {| program := program c; is_inside_specifiers := b |}).

Definition get_pedantic : M bool :=
  fun c => Ok (pedantic (opts (program c)), c).

Definition next (it : TokenIterator) : TokenIterator := S it.

Definition prev (it : TokenIterator) : TokenIterator := Nat.pred it.

Definition Rule : Type := TokenIterator -> M ParserResult.

Section Parser.

(** [to_string(TokenType)] belongs to the lexer; it is a parameter. *)
Variable token_to_string : TokenType.t -> string.

(** [SourceRange::contains], see [SourceManager.linecol_from_location]. *)
Variable contains : SourceRange -> SourceLocation -> bool.

(** The token stream being parsed.  Every rule receives the same [end]
    iterator, [tokens.end()]. *)
Variable token_stream : TokenStream.

Definition tokens : list TokenData := token_data token_stream.

Definition tend : TokenIterator := List.length tokens.

(** [*it]: defined for an iterator inside the vector only. *)
Definition deref (it : TokenIterator) : M TokenData :=
  match nth_error tokens it with
  | Some tok => ret tok
  | None => stuck InvalidDereference
  end.

(** [it != end && it->type == k]. *)
Definition token_is (it : TokenIterator) (k : TokenType.t) : M bool :=
  if Nat.eqb it tend then ret false
  else tok <- deref it ;; ret (TokenType.eqb (type tok) k).

(** [string_ref(it->data)]. *)
Definition token_text (tok : TokenData) : string :=
  string_ref (SourceManager.content (source_manager token_stream)) (data tok).

(** [ParserContext::token_info] and the four reporting members. *)
Definition token_info (it : TokenIterator) : M TokenDebug :=
  tok <- deref it ;;
  p <- lift (SourceManager.linecol_from_location contains
               (source_manager token_stream) (range_begin (data tok))) ;;
  ret {| pos := p; range := data tok |}.

Definition emit (k : DiagnosticKind) (it : TokenIterator) (msg : string) : M unit :=
  i <- token_info it ;;
  fun c => Ok (tt, {| program := report k i msg (program c);
                      is_inside_specifiers := is_inside_specifiers c |}).

Definition note := emit DiagNote.
Definition warning := emit DiagWarning.
Definition error_ := emit DiagError.
Definition pedantic_ := emit DiagPedantic.

(** [giveup_to_expected(ParserState, string_view what)]. *)
Fixpoint giveup_to_expected_loop (what : string) (es : ParserFailure)
    (new_state : ParserState) : M ParserState :=
  match es with
  | [] => ret new_state
  | e :: rest =>
      if is_GiveUp (status e) then
        let new_state :=
          add_error new_state
            {| status := Error; where_ := where_ e; error := "expected " +++ what |} in
        if String.eqb (error e) "" then giveup_to_expected_loop what rest new_state
        else
          tok <- deref (where_ e) ;;
          giveup_to_expected_loop what rest
            (add_error new_state
               {| status := ErrorNote; where_ := where_ e;
                  error := error e +++ " instead of this '"
                           +++ token_to_string (type tok) +++ "'" |})
      else giveup_to_expected_loop what rest (add_error new_state e)
  end.

Definition giveup_to_expected_what (state : ParserState) (what : string)
  : M ParserState :=
  match state with
  | Failure es => giveup_to_expected_loop what es (Success None)
  | Success _ => ret state
  end.

(** [add_state]: accumulates one state into another.  A successful [other]
    with a null tree breaks the [Expects] of [add_node]. *)
Definition add_state (state other : ParserState) : M ParserState :=
  match other with
  | Success (Some tree) => ret (add_node state tree)
  | Success None => stuck ContractViolation
  | Failure _ => ret (add_error_state state other)
  end.

(** [expect_token]: the answer and the updated state. *)
Definition expect_token (state : ParserState) (it : TokenIterator) (tk : TokenType.t)
  : M (bool * ParserState) :=
  if negb (Nat.eqb it tend) then
    tok <- deref it ;;
    if negb (TokenType.eqb (type tok) tk) then
      ret (false,
           add_error_state state
             (make_error Error it
                ("expected '" +++ token_to_string tk +++ "' before '"
                 +++ token_to_string (type tok) +++ "'")))
    else ret (true, state)
  else ret (false, state).

Definition expect_end_token (state : ParserState) (begin it : TokenIterator)
    (tk : TokenType.t) : M (bool * ParserState) :=
  if negb (Nat.eqb it tend) then
    tok <- deref it ;;
    if negb (TokenType.eqb (type tok) tk) then
      let state := add_error_state state
                     (make_error Error it ("expected '" +++ token_to_string tk +++ "'")) in
      open <- deref begin ;;
      ret (false,
           add_error_state state
             (make_error ErrorNote begin
                ("to match this '" +++ token_to_string (type open) +++ "'")))
    else ret (true, state)
  else
    ret (false,
         add_error_state state
           (make_error Error begin ("missing '" +++ token_to_string tk +++ "' for this"))).

(** The rules that parser.cpp declares before it defines them, and the
    rules that call themselves: a call to one of them goes through [self]. *)
Inductive RuleName : Type :=
  | Expression | PrimaryExpression | CastExpression | AssignmentExpression
  | DeclarationSpecifiers | Declarator | AbstractDeclarator | TypeName
  | StructOrUnionSpecifier | EnumSpecifier | ConditionalExpression | Pointer
  | Initializer | InitializerList | UnaryExpression
  | LabeledStatement | CompoundStatement | ExpressionStatement
  | SelectionStatement | IterationStatement | JumpStatement.

Section Rules.

(** Iterations granted to each loop. *)
Variable fuel : nat.

(** The rules reached through a forward declaration. *)
Variable self : RuleName -> Rule.

(** ** Combinator kernel (parser.cpp, lines 339-660) *)

Definition out_of_fuel {A : Type} : M A := stuck OutOfFuel.

(** [return ParserResult(end, make_error(ParserStatus::GiveUp, begin, what))]. *)
Definition giveup_at (begin : TokenIterator) (what : string) : M ParserResult :=
  ret (tend, make_error GiveUp begin what).

(** [parser_one_of]: the rules of the parameter pack, in order. *)
Fixpoint parser_one_of (begin : TokenIterator) (expected_what : string)
    (rules : list Rule) : M ParserResult :=
  match rules with
  | [] => giveup_at begin expected_what
  | rule :: rules' =>
      '(it, state) <- rule begin ;;
      if negb (is_giveup state) then ret (it, state)
      else parser_one_of begin expected_what rules'
  end.

Fixpoint many_of_loop (rule : Rule) (pred : TokenData -> bool) (n : nat)
    (it : TokenIterator) (state : ParserState) : M ParserResult :=
  match n with
  | 0 => out_of_fuel
  | S n' =>
      if Nat.eqb it tend then ret (it, state)
      else
        tok <- deref it ;;
        if pred tok then
          '(r_it, r_state) <- rule it ;;
          state <- add_state state r_state ;;
          many_of_loop rule pred n' r_it state
        else ret (it, state)
  end.

Definition parser_many_of (begin : TokenIterator) (rule : Rule)
    (pred : TokenData -> bool) : M ParserResult :=
  many_of_loop rule pred fuel begin (Success (Some new_tree)).

(** [is_empty_node]: reads the tree of a success through its pointer. *)
Definition is_empty_node (s : ParserState) : M bool :=
  match s with
  | Success (Some tree) => ret (is_Nothing (node_type tree))
  | Success None => stuck InvalidDereference
  | Failure _ => ret false
  end.

Fixpoint one_many_of_loop (rule : Rule) (n : nat) (it : TokenIterator)
    (state : ParserState) : M ParserResult :=
  match n with
  | 0 => out_of_fuel
  | S n' =>
      if Nat.eqb it tend then ret (it, state)
      else
        '(r_it, r_state) <- rule it ;;
        if negb (is_giveup r_state) then
          empty <- is_empty_node r_state ;;
          state <- (if negb empty then add_state state r_state
                    else
                      p <- get_pedantic ;;
                      (if p then pedantic_ it "empty statement" else ret tt) ;;;
                      ret state) ;;
          one_many_of_loop rule n' r_it state
        else ret (it, state)
  end.

Definition parser_one_many_of (begin : TokenIterator) (expected_what : string)
    (rule : Rule) : M ParserResult :=
  if negb (Nat.eqb begin tend) then
    let state := Success (Some new_tree) in
    let it := begin in
    '(r_it, r_state) <- rule it ;;
    if negb (is_giveup r_state) then
      empty <- is_empty_node r_state ;;
      state <- (if negb empty then add_state state r_state
                else pedantic_ it "empty statement" ;;; ret state) ;;
      one_many_of_loop rule fuel r_it state
    else giveup_at begin expected_what
  else giveup_at begin expected_what.

(** The overload with a predicate: a [do ... while (it != end && pred(it))]. *)
Fixpoint one_many_of_while_loop (rule : Rule) (pred : TokenData -> bool) (n : nat)
    (it : TokenIterator) (state : ParserState) : M ParserResult :=
  match n with
  | 0 => out_of_fuel
  | S n' =>
      '(r_it, r_state) <- rule it ;;
      state <- add_state state r_state ;;
      let it := r_it in
      if Nat.eqb it tend then ret (it, state)
      else
        tok <- deref it ;;
        if pred tok then one_many_of_while_loop rule pred n' it state
        else ret (it, state)
  end.

Definition parser_one_many_of_while (begin : TokenIterator) (expected_what : string)
    (rule : Rule) (pred : TokenData -> bool) : M ParserResult :=
  if negb (Nat.eqb begin tend) then
    one_many_of_while_loop rule pred fuel begin (Success (Some new_tree))
  else giveup_at begin expected_what.

Definition parser_operator (op_type : NodeType.t) (op_match : TokenData -> bool)
  : Rule :=
  fun begin =>
    if Nat.eqb begin tend then giveup_at begin (NodeType.to_string op_type)
    else
      tok <- deref begin ;;
      if op_match tok
      then ret (next begin, Success (Some (new_leaf op_type tok)))
      else giveup_at begin (NodeType.to_string op_type).

(** The [while (true)] of [parser_left_binary_operator]. *)
Fixpoint left_binary_loop (op_rule rhs_rule : Rule) (n : nat)
    (lhs_it : TokenIterator) (lhs_state : ParserState) : M ParserResult :=
  match n with
  | 0 => out_of_fuel
  | S n' =>
      '(op_it, op_state) <- op_rule lhs_it ;;
      if negb (is_giveup op_state) then
        op <- deref lhs_it ;;
        let op_token := token_text op in
        '(rhs_it, rhs_state) <- rhs_rule op_it ;;
        let lhs_it := op_it in
        let lhs_it :=
          if is_success rhs_state then rhs_it
          else if negb (Nat.eqb lhs_it tend) then next lhs_it
          else lhs_it in
        let what := "expression for operator '" +++ op_token +++ "'" in
        lhs' <- giveup_to_expected_what lhs_state what ;;
        op_state <- add_state op_state lhs' ;;
        rhs' <- giveup_to_expected_what rhs_state what ;;
        op_state <- add_state op_state rhs' ;;
        left_binary_loop op_rule rhs_rule n' lhs_it op_state
      else ret (lhs_it, lhs_state)
  end.

Definition parser_left_binary_operator (lhs_rule op_rule rhs_rule : Rule) : Rule :=
  fun begin =>
    if Nat.eqb begin tend then giveup_at begin "binary operator"
    else
      '(lhs_it, lhs_state) <- lhs_rule begin ;;
      if is_giveup lhs_state then ret (tend, lhs_state)
      else left_binary_loop op_rule rhs_rule fuel lhs_it lhs_state.

Definition parser_right_binary_operator (lhs_rule op_rule rhs_rule : Rule) : Rule :=
  fun begin =>
    if negb (Nat.eqb begin tend) then
      '(lhs_it, lhs_state) <- lhs_rule begin ;;
      if negb (is_giveup lhs_state) then
        '(op_it, op_state) <- op_rule lhs_it ;;
        if negb (is_giveup op_state) then
          op <- deref lhs_it ;;
          let op_token := token_text op in
          '(rhs_it, rhs_state) <- rhs_rule op_it ;;
          op_state <- add_state op_state lhs_state ;;
          rhs' <- giveup_to_expected_what rhs_state
                    ("expression for operator '" +++ op_token +++ "'") ;;
          op_state <- add_state op_state rhs' ;;
          ret (rhs_it, op_state)
        else giveup_at begin "binary operator"
      else giveup_at begin "binary operator"
    else giveup_at begin "binary operator".

(** Returns an empty ([Nothing]) node on a give-up. *)
Definition parser_opt (rule : Rule) : Rule :=
  fun begin =>
    '(it, state) <- rule begin ;;
    if negb (is_giveup state) then ret (it, state)
    else ret (begin, Success (Some (new_node NodeType.Nothing))).

Definition parser_parens (rule : Rule) (left_brace right_brace : TokenType.t) : Rule :=
  fun begin =>
    opened <- token_is begin left_brace ;;
    if opened then
      '(it, state) <- rule (next begin) ;;
      if negb (is_giveup state) then
        if negb (Nat.eqb it tend) then
          '(closed, state) <- expect_end_token state begin it right_brace ;;
          ret (if closed then next it else it, state)
        else ret (it, state)
      else ret (it, state)
    else giveup_at begin ("'" +++ token_to_string left_brace +++ "'").

Definition is_closing (k : TokenType.t) : bool :=
  match k with
  | TokenType.RightBrace | TokenType.RightBracket | TokenType.RightParen => true
  | _ => false
  end.

Fixpoint list_of_loop (rule : Rule) (allow_trailing_comma : bool) (n : nat)
    (it : TokenIterator) (state : ParserState) : M ParserResult :=
  match n with
  | 0 => out_of_fuel
  | S n' =>
      if Nat.eqb it tend then ret (it, state)
      else
        '(r_it, r_state) <- rule it ;;
        if negb (Nat.leb r_it tend) then stuck ContractViolation   (* Ensures(r_it <= end) *)
        else
          state <- add_state state (giveup_to_expected r_state) ;;
          let it := r_it in
          comma <- token_is it TokenType.Comma ;;
          let it := if comma then next it else it in
          closing <- (if allow_trailing_comma then
                        if negb (Nat.eqb it tend)
                        then tok <- deref it ;; ret (is_closing (type tok))
                        else ret false
                      else ret false) ;;
          if closing then ret (it, state)
          else
            more <- token_is r_it TokenType.Comma ;;
            if negb more then ret (it, state)
            else list_of_loop rule allow_trailing_comma n' it state
  end.

Definition parser_list_of (rule : Rule) (allow_trailing_comma : bool) : Rule :=
  fun begin =>
    if negb (Nat.eqb begin tend) then
      list_of_loop rule allow_trailing_comma fuel begin (Success (Some new_tree))
    else giveup_at begin "parser_list_of".

(** [*std::prev(it)]. *)
Definition deref_prev (it : TokenIterator) : M TokenData :=
  match it with
  | 0 => stuck InvalidDereference
  | S p => deref p
  end.

(** ** Grammar rules (parser.cpp, lines 663-1440) *)

Definition parser_identifier : Rule :=
  fun begin =>
    ident <- token_is begin TokenType.Identifier ;;
    if ident then
      tok <- deref begin ;;
      ret (next begin, Success (Some (new_leaf NodeType.Identifier tok)))
    else giveup_at begin "identifier".

Definition parser_identifier_list : Rule :=
  fun begin =>
    ident <- token_is begin TokenType.Identifier ;;
    if ident then
      '(it, idents) <- parser_list_of parser_identifier false begin ;;
      let ident_list := Success None in
      let ident_list :=
        if is_success idents
        then add_node ident_list (new_node NodeType.IdentifierList)
        else ident_list in
      g <- giveup_to_expected_what idents "identifiers separated by comma" ;;
      ident_list <- add_state ident_list g ;;
      ret (it, ident_list)
    else giveup_at begin "identifier list".

Definition parser_string_literal : Rule :=
  fun begin =>
    prefixed <- token_is begin TokenType.EncodingPrefix ;;
    encoding_prefix <- (if prefixed then tok <- deref begin ;; ret (Some tok)
                        else ret None) ;;
    let it := if prefixed then next begin else begin in
    str <- token_is it TokenType.StringConstant ;;
    if str then
      tok <- deref it ;;
      let tree := new_leaf NodeType.StringLiteral tok in
      let tree :=
        match encoding_prefix with
        | Some p => add_child tree (new_leaf NodeType.EncodingPrefix p)
        | None => tree
        end in
      ret (next it, Success (Some tree))
    else giveup_at it "string literal".

Definition parser_string_literal_list : Rule :=
  fun begin =>
    '(it, strings) <-
      parser_one_many_of_while begin "string literal" parser_string_literal
        (fun t => TokenType.eqb (type t) TokenType.StringConstant) ;;
    let wrap :=
      if negb (is_giveup strings) then
        state <- add_state (Success (Some (new_node NodeType.StringLiteralList))) strings ;;
        ret (it, state)
      else giveup_at begin "string literal list" in
    match strings with
    | Success None => stuck InvalidDereference
    | Success (Some strings_tree) =>
        if Nat.eqb (child_count strings_tree) 1 then
          match pop_child strings_tree with
          | Some child => ret (it, Success (Some child))
          | None => stuck InvalidDereference
          end
        else wrap
    | Failure _ => wrap
    end.

Definition const_type (k : TokenType.t) : NodeType.t :=
  match k with
  | TokenType.IntegerConstant
  | TokenType.OctIntegerConstant
  | TokenType.HexIntegerConstant => NodeType.IntegerConstant
  | TokenType.FloatConstant => NodeType.FloatingConstant
  | TokenType.CharConstant => NodeType.CharacterConstant
  | TokenType.Identifier => NodeType.EnumerationConstant
  | _ => NodeType.None
  end.

Definition parser_constant : Rule :=
  fun begin =>
    if Nat.eqb begin tend then giveup_at begin "constant"
    else
      tok <- deref begin ;;
      if negb (is_None (const_type (type tok)))
      then ret (next begin, Success (Some (new_leaf (const_type (type tok)) tok)))
      else giveup_at begin "constant".

Definition parser_parameter_declaration : Rule :=
  fun begin =>
    if negb (Nat.eqb begin tend) then
      '(it, declspecs) <- self DeclarationSpecifiers begin ;;
      if negb (is_giveup declspecs) then
        let param_decl := Success None in
        let param_decl :=
          if is_success declspecs
          then add_node param_decl (new_node NodeType.ParameterDeclaration)
          else param_decl in
        param_decl <- add_state param_decl declspecs ;;
        '(decl_it, declarator) <- self Declarator it ;;
        if negb (is_giveup declarator) then
          param_decl <- add_state param_decl declarator ;;
          ret (decl_it, param_decl)
        else
          '(abs_it, abstract_decl) <- self AbstractDeclarator it ;;
          if negb (is_giveup abstract_decl) then
            param_decl <- add_state param_decl abstract_decl ;;
            ret (abs_it, param_decl)
          else ret (it, param_decl)
      else giveup_at begin "parameter declaration"
    else giveup_at begin "parameter declaration".

(** The [while (it != end)] of [parser_parameter_type_list]. *)
Fixpoint parameter_list_loop (n : nat) (it : TokenIterator) (parameters : ParserState)
  : M ParserResult :=
  match n with
  | 0 => out_of_fuel
  | S n' =>
      if Nat.eqb it tend then ret (it, parameters)
      else
        '(next_it, param) <- parser_parameter_declaration it ;;
        parameters <- add_state parameters (giveup_to_expected param) ;;
        let it := next_it in
        comma <- token_is it TokenType.Comma ;;
        if comma then
          let it := next it in
          ellipsis <- token_is it TokenType.Ellipsis ;;
          if ellipsis then
            tok <- deref it ;;
            ret (next it, add_node parameters (new_leaf NodeType.VariadicParameter tok))
          else parameter_list_loop n' it parameters
        else ret (it, parameters)
  end.

Definition parser_parameter_type_list : Rule :=
  fun begin =>
    if negb (Nat.eqb begin tend) then
      let parameters := Success (Some (new_node NodeType.ParameterList)) in
      '(next_it, param) <- parser_parameter_declaration begin ;;
      parameters <- add_state parameters param ;;
      let it := next_it in
      comma <- token_is it TokenType.Comma ;;
      if comma then
        let it := next it in
        ellipsis <- token_is it TokenType.Ellipsis ;;
        if ellipsis then
          tok <- deref it ;;
          ret (next it, add_node parameters (new_leaf NodeType.VariadicParameter tok))
        else parameter_list_loop fuel it parameters
      else ret (it, parameters)
    else giveup_at begin "parameter type list".

(** The test of [parser_typedef_name] starts with a hard-coded [false]. *)
Definition parser_typedef_name : Rule :=
  fun begin =>
    ident <- (if false then token_is begin TokenType.Identifier else ret false) ;;
    if ident then
      tok <- deref begin ;;
      ret (next begin, Success (Some (new_leaf NodeType.TypedefName tok)))
    else giveup_at begin "typedef name".

Definition parser_atomic_type_specifier : Rule :=
  fun begin =>
    if negb (Nat.eqb begin tend) && negb (Nat.eqb (next begin) tend) then
      tok <- deref begin ;;
      paren <- deref (next begin) ;;
      if TokenType.eqb (type tok) TokenType.Atomic
         && TokenType.eqb (type paren) TokenType.LeftParen
      then
        '(it, type_name) <-
          parser_parens (self TypeName) TokenType.LeftParen TokenType.RightParen
            (next begin) ;;
        let atomic_type_spec :=
          Success (Some (new_leaf NodeType.AtomicTypeSpecifier tok)) in
        g <- giveup_to_expected_what type_name "type name for atomic type specifier" ;;
        atomic_type_spec <- add_state atomic_type_spec g ;;
        ret (it, atomic_type_spec)
      else giveup_at begin "atomic type specifier"
    else giveup_at begin "atomic type specifier".

Definition is_basic_type (k : TokenType.t) : bool :=
  match k with
  | TokenType.VoidType | TokenType.CharType | TokenType.ShortType
  | TokenType.IntType | TokenType.LongType | TokenType.FloatType
  | TokenType.DoubleType | TokenType.Signed | TokenType.Unsigned
  | TokenType.Bool | TokenType.Complex | TokenType.VectorM128
  | TokenType.VectorM128d | TokenType.VectorM128i => true
  | _ => false
  end.

(** The scope guard of the [default] case restores [is_inside_specifiers]
    when the case is left. *)
Definition parser_type_specifier : Rule :=
  fun begin =>
    if negb (Nat.eqb begin tend) then
      let type_spec := Success None in
      tok <- deref begin ;;
      if is_basic_type (type tok) then
        ret (next begin, add_node type_spec (new_leaf NodeType.TypeSpecifier tok))
      else
        old <- get_inside_specifiers ;;
        set_inside_specifiers true ;;;
        '(type_it, sub_type_spec) <-
          parser_one_of begin "type specifier"
            [ parser_atomic_type_specifier;
              self StructOrUnionSpecifier;
              self EnumSpecifier;
              parser_typedef_name ] ;;
        let type_spec :=
          if is_success sub_type_spec
          then add_node type_spec (new_node NodeType.TypeSpecifier)
          else type_spec in
        type_spec <- add_state type_spec sub_type_spec ;;
        set_inside_specifiers old ;;;
        ret (type_it, type_spec)
    else giveup_at begin "type specifier".

Definition is_type_qualifier (k : TokenType.t) : bool :=
  match k with
  | TokenType.Const | TokenType.Restrict | TokenType.Volatile | TokenType.Atomic => true
  | _ => false
  end.

Definition parser_type_qualifier : Rule :=
  fun begin =>
    if negb (Nat.eqb begin tend) then
      tok <- deref begin ;;
      if is_type_qualifier (type tok)
      then ret (next begin, Success (Some (new_leaf NodeType.TypeQualifier tok)))
      else giveup_at begin "type qualifier"
    else giveup_at begin "type qualifier".

Definition parser_type_qualifier_list : Rule :=
  fun begin =>
    '(it, quals) <-
      parser_one_many_of_while begin "type qualifier list" parser_type_qualifier
        (fun t => is_type_qualifier (type t)) ;;
    let qualifiers := Success None in
    let qualifiers :=
      if is_success quals
      then Success (Some (new_node NodeType.TypeQualifierList))
      else qualifiers in
    qualifiers <- add_state qualifiers quals ;;
    ret (it, qualifiers).

Definition parser_pointer : Rule :=
  fun begin =>
    star <- token_is begin TokenType.Times ;;
    if star then
      tok <- deref begin ;;
      let pointer := Success (Some (new_leaf NodeType.PointerDeclarator tok)) in
      let it := next begin in
      '(qual_it, qual_list) <- parser_type_qualifier_list it ;;
      '(it, pointer) <-
        (if negb (is_giveup qual_list) then
           g <- giveup_to_expected_what qual_list "type qualifier list for pointer type" ;;
           pointer <- add_state pointer g ;;
           ret (qual_it, pointer)
         else ret (it, pointer)) ;;
      nested <- token_is it TokenType.Times ;;
      if nested then
        '(sub_ptr_it, sub_pointer) <- self Pointer it ;;
        g <- giveup_to_expected_what sub_pointer "nested pointer" ;;
        pointer <- add_state pointer g ;;
        ret (sub_ptr_it, pointer)
      else ret (it, pointer)
    else giveup_at begin "pointer".

(** *** Abstract declarators (parser.cpp, lines 1159-1366) *)

(** The lambda [function_declarator] of [parser_direct_abstract_declarator]. *)
Definition abstract_function_declarator : Rule :=
  fun begin =>
    if negb (Nat.eqb begin tend) then
      func_token <- deref_prev begin ;;
      let it := begin in
      tok <- deref it ;;
      if TokenType.eqb (type tok) TokenType.RightParen then
        ret (it, Success (Some (new_leaf NodeType.FunctionDeclarator func_token)))
      else
        '(ad_it, abs_decl) <- self AbstractDeclarator it ;;
        if negb (is_giveup abs_decl) then ret (ad_it, abs_decl)
        else
          '(param_it, params) <- parser_parameter_type_list it ;;
          let func_decl := Success None in
          let func_decl :=
            if is_success params
            then add_node func_decl (new_leaf NodeType.FunctionDeclarator func_token)
            else func_decl in
          func_decl <- add_state func_decl params ;;
          ret (param_it, func_decl)
    else giveup_at begin "function declarator".

(** [it->type == Times && std::next(it) != end && std::next(it)->type == RightBracket]. *)
Definition star_then_bracket (tok : TokenData) (it : TokenIterator) : M bool :=
  if TokenType.eqb (type tok) TokenType.Times
  then token_is (next it) TokenType.RightBracket
  else ret false.

(** The lambda [array_declarator] of [parser_direct_abstract_declarator]. *)
Definition abstract_array_declarator : Rule :=
  fun begin =>
    if negb (Nat.eqb begin tend) then
      array_token <- deref_prev begin ;;
      let it := begin in
      tok <- deref it ;;
      if TokenType.eqb (type tok) TokenType.RightBracket then
        ret (it, Success (Some (new_leaf NodeType.ArrayVLADeclarator array_token)))
      else
        vla <- star_then_bracket tok it ;;
        if vla then
          ret (next it, Success (Some (new_leaf NodeType.ArrayVLADeclarator array_token)))
        else if TokenType.eqb (type tok) TokenType.Static then
          let decl := Success (Some (new_leaf NodeType.ArrayStaticDeclarator array_token)) in
          let it := next it in
          '(qual_it, qual_list) <- parser_type_qualifier_list it ;;
          '(it, decl) <-
            (if negb (is_giveup qual_list) then
               g <- giveup_to_expected_what qual_list "qualifiers for array declarator" ;;
               decl <- add_state decl g ;;
               ret (qual_it, decl)
             else ret (it, decl)) ;;
          '(assign_it, assign_expr) <- self AssignmentExpression it ;;
          g <- giveup_to_expected_what assign_expr "expression for array length" ;;
          decl <- add_state decl g ;;
          ret (assign_it, decl)
        else
          '(qual_it, qualifiers) <- parser_type_qualifier_list it ;;
          static <- (if negb (is_giveup qualifiers)
                     then token_is qual_it TokenType.Static else ret false) ;;
          if static then
            '(assign_it, assign_expr) <- self AssignmentExpression (next qual_it) ;;
            let decl := Success None in
            let it := assign_it in
            let decl :=
              if is_success assign_expr
              then Success (Some (new_leaf NodeType.ArrayStaticDeclarator array_token))
              else decl in
            g <- giveup_to_expected_what qualifiers "qualifiers for array declarator" ;;
            decl <- add_state decl g ;;
            g <- giveup_to_expected_what assign_expr "expression for array length" ;;
            decl <- add_state decl g ;;
            ret (it, decl)
          else
            '(assign_it, assign_expr) <-
              self AssignmentExpression (if negb (Nat.eqb qual_it tend) then qual_it else it) ;;
            let decl := Success (Some (new_leaf NodeType.ArrayDeclarator array_token)) in
            '(it, decl) <-
              (if negb (is_giveup qualifiers) then
                 decl <- add_state decl qualifiers ;; ret (qual_it, decl)
               else ret (it, decl)) ;;
            '(it, decl) <-
              (if negb (is_giveup assign_expr) then
                 decl <- add_state decl assign_expr ;; ret (assign_it, decl)
               else ret (it, decl)) ;;
            ret (it, decl)
    else giveup_at begin "direct abstract declarator".

Definition abstract_array_declarator_production : Rule :=
  parser_parens abstract_array_declarator TokenType.LeftBracket TokenType.RightBracket.

(** The [while (it != end)] of [parser_direct_abstract_declarator]. *)
Fixpoint direct_abstract_declarator_loop (n : nat) (it : TokenIterator)
    (array_decl : ParserState) : M ParserResult :=
  match n with
  | 0 => out_of_fuel
  | S n' =>
      if Nat.eqb it tend then ret (it, array_decl)
      else
        tok <- deref it ;;
        if TokenType.eqb (type tok) TokenType.LeftParen then
          '(params_it, parameters) <-
            parser_parens (parser_opt parser_parameter_type_list)
              TokenType.LeftParen TokenType.RightParen it ;;
          let func_decl := Success (Some (new_node NodeType.FunctionDeclarator)) in
          g <- giveup_to_expected_what array_decl "array declarator" ;;
          func_decl <- add_state func_decl g ;;
          g <- giveup_to_expected_what parameters "parameter type list" ;;
          func_decl <- add_state func_decl g ;;
          direct_abstract_declarator_loop n' params_it func_decl
        else if TokenType.eqb (type tok) TokenType.LeftBracket then
          '(decl_it, declarator) <- abstract_array_declarator_production it ;;
          let direct_decl := Success (Some (new_node NodeType.DirectAbstractDeclarator)) in
          g <- giveup_to_expected_what array_decl "array declarator" ;;
          direct_decl <- add_state direct_decl g ;;
          g <- giveup_to_expected_what declarator "array declarator" ;;
          direct_decl <- add_state direct_decl g ;;
          direct_abstract_declarator_loop n' decl_it direct_decl
        else ret (it, array_decl)
  end.

Definition parser_direct_abstract_declarator : Rule :=
  fun begin =>
    if negb (Nat.eqb begin tend) then
      '(it, array_decl) <-
        parser_one_of begin "function or array declarator"
          [ parser_parens abstract_function_declarator
              TokenType.LeftParen TokenType.RightParen;
            abstract_array_declarator_production ] ;;
      if is_giveup array_decl then ret (it, array_decl)
      else direct_abstract_declarator_loop fuel it array_decl
    else giveup_at begin "direct abstract declarator".

Definition parser_abstract_declarator : Rule :=
  fun begin =>
    if negb (Nat.eqb begin tend) then
      tok <- deref begin ;;
      if TokenType.eqb (type tok) TokenType.Times then
        '(ptr_it, pointer_decl) <- parser_pointer begin ;;
        bracket <- token_is ptr_it TokenType.LeftBracket ;;
        if bracket then
          let abstract_decl := Success None in
          '(decl_it, decl) <- parser_direct_abstract_declarator ptr_it ;;
          let abstract_decl :=
            if negb (is_giveup decl)
            then add_node abstract_decl (new_node NodeType.AbstractDeclarator)
            else abstract_decl in
          abstract_decl <- add_state abstract_decl (giveup_to_expected pointer_decl) ;;
          abstract_decl <- add_state abstract_decl (giveup_to_expected decl) ;;
          ret (decl_it, abstract_decl)
        else ret (ptr_it, pointer_decl)
      else if TokenType.eqb (type tok) TokenType.LeftBracket then
        parser_direct_abstract_declarator begin
      else giveup_at begin "abstract declarator"
    else giveup_at begin "abstract declarator".

(** *** Type names (parser.cpp, lines 1371-1448) *)

Definition specifier_or_qualifier : Rule :=
  fun it =>
    parser_one_of it "type specifier or qualifier"
      [ parser_type_specifier; parser_type_qualifier ].

(** The [while (true)] of [parser_specifier_qualifier_list]. *)
Fixpoint specifier_qualifier_loop (n : nat) (it : TokenIterator)
    (qualifiers : ParserState) : M ParserResult :=
  match n with
  | 0 => out_of_fuel
  | S n' =>
      '(s_it, spec_qual) <- specifier_or_qualifier it ;;
      if negb (is_giveup spec_qual) then
        qualifiers <- add_state qualifiers spec_qual ;;
        specifier_qualifier_loop n' s_it qualifiers
      else ret (it, qualifiers)
  end.

Definition parser_specifier_qualifier_list : Rule :=
  fun begin =>
    if negb (Nat.eqb begin tend) then
      let qualifiers := Success (Some (new_node NodeType.SpecifierQualifierList)) in
      let it := begin in
      '(s_it, spec_qual) <- specifier_or_qualifier it ;;
      if negb (is_giveup spec_qual) then
        qualifiers <- add_state qualifiers spec_qual ;;
        specifier_qualifier_loop fuel s_it qualifiers
      else ret (tend, spec_qual)
    else giveup_at begin "specifier qualifier list".

Definition parser_type_name : Rule :=
  fun begin =>
    if negb (Nat.eqb begin tend) then
      '(spec_it, spec_qual_list) <- parser_specifier_qualifier_list begin ;;
      let it := spec_it in
      if is_giveup spec_qual_list then ret (spec_it, spec_qual_list)
      else
        let type_name := Success (Some (new_node NodeType.TypeName)) in
        type_name <- add_state type_name spec_qual_list ;;
        '(decl_it, abstract_decl) <- parser_abstract_declarator it ;;
        if negb (is_giveup abstract_decl) then
          type_name <- add_state type_name abstract_decl ;;
          ret (decl_it, type_name)
        else ret (it, type_name)
    else giveup_at begin "type name".

Definition parser_constant_expression : Rule :=
  fun begin => self ConditionalExpression begin.

(** *** Declarations and declarators (parser.cpp, lines 1453-1939) *)

(** The lambda [static_assert_args_production]. *)
Definition static_assert_args_production : Rule :=
  fun begin =>
    let args := Success (Some new_tree) in
    let it := begin in
    '(const_it, const_expr) <- parser_constant_expression it ;;
    args <- add_state args (giveup_to_expected const_expr) ;;
    let it := const_it in
    '(comma, args) <- expect_token args it TokenType.Comma ;;
    let it := if comma then next it else it in
    '(strings_it, strings) <- parser_string_literal_list it ;;
    args <- add_state args (giveup_to_expected strings) ;;
    ret (strings_it, args).

Definition parser_static_assert_declaration : Rule :=
  fun begin =>
    is_assert <- token_is begin TokenType.StaticAssert ;;
    if is_assert then
      '(it, arguments) <-
        parser_parens static_assert_args_production
          TokenType.LeftParen TokenType.RightParen (next begin) ;;
      '(it, arguments) <-
        (if is_success arguments then
           '(semi, arguments) <- expect_end_token arguments begin it TokenType.Semicolon ;;
           ret (if semi then next it else it, arguments)
         else ret (it, arguments)) ;;
      let static_assert_decl :=
        Success (Some (new_node NodeType.StaticAssertDeclaration)) in
      static_assert_decl <- add_state static_assert_decl arguments ;;
      ret (it, static_assert_decl)
    else giveup_at begin "static assert declaration".

(** The lambda [array_declarator_production] of [parser_direct_declarator]. *)
Definition array_declarator_production : Rule :=
  fun begin =>
    if negb (Nat.eqb begin tend) then
      array_token <- deref_prev begin ;;
      let it := begin in
      tok <- deref it ;;
      if TokenType.eqb (type tok) TokenType.RightBracket then
        ret (it, Success (Some (new_leaf NodeType.ArrayVLADeclarator array_token)))
      else
        vla <- star_then_bracket tok it ;;
        if vla then
          ret (next it, Success (Some (new_leaf NodeType.ArrayVLADeclarator array_token)))
        else if TokenType.eqb (type tok) TokenType.Static then
          let decl := Success (Some (new_leaf NodeType.ArrayStaticDeclarator array_token)) in
          let it := next it in
          '(qual_it, qual_list) <- parser_type_qualifier_list it ;;
          '(it, decl) <-
            (if negb (is_giveup qual_list) then
               g <- giveup_to_expected_what qual_list
                      "qualifiers for array declarator in direct declarator" ;;
               decl <- add_state decl g ;;
               ret (qual_it, decl)
             else ret (it, decl)) ;;
          '(assign_it, assign_expr) <- self AssignmentExpression it ;;
          g <- giveup_to_expected_what assign_expr
                 "expression for array length in direct declarator" ;;
          decl <- add_state decl g ;;
          ret (assign_it, decl)
        else
          '(qual_it, qualifiers) <- parser_type_qualifier_list it ;;
          static <- (if negb (is_giveup qualifiers)
                     then token_is qual_it TokenType.Static else ret false) ;;
          if static then
            '(assign_it, assign_expr) <- self AssignmentExpression (next qual_it) ;;
            let decl := Success None in
            let it := assign_it in
            let decl :=
              if is_success assign_expr
              then Success (Some (new_leaf NodeType.ArrayStaticDeclarator array_token))
              else decl in
            g <- giveup_to_expected_what qualifiers
                   "qualifiers for array declarator in direct declarator" ;;
            decl <- add_state decl g ;;
            g <- giveup_to_expected_what assign_expr
                   "expression for array length in direct declarator" ;;
            decl <- add_state decl g ;;
            ret (it, decl)
          else
            star <- token_is qual_it TokenType.Times ;;
            if star then
              let decl := Success (Some (new_leaf NodeType.ArrayVLADeclarator array_token)) in
              let it := next qual_it in
              decl <- (if negb (is_giveup qualifiers)
                       then add_state decl qualifiers else ret decl) ;;
              ret (it, decl)
            else
              '(assign_it, assign_expr) <-
                self AssignmentExpression
                  (if negb (Nat.eqb qual_it tend) then qual_it else it) ;;
              let decl := Success (Some (new_leaf NodeType.ArrayDeclarator array_token)) in
              '(it, decl) <-
                (if negb (is_giveup qualifiers) then
                   decl <- add_state decl qualifiers ;; ret (qual_it, decl)
                 else ret (it, decl)) ;;
              '(it, decl) <-
                (if negb (is_giveup assign_expr) then
                   decl <- add_state decl assign_expr ;; ret (assign_it, decl)
                 else ret (it, decl)) ;;
              ret (it, decl)
    else giveup_at begin "direct declarator".

(** The lambda [ident_or_decl_production]. *)
Definition ident_or_decl_production : Rule :=
  fun begin =>
    parser_one_of begin "identifier or declarator inside parentheses"
      [ parser_identifier;
        parser_parens (self Declarator) TokenType.LeftParen TokenType.RightParen ].

(** The [while (it != end)] of [parser_direct_declarator]. *)
Fixpoint direct_declarator_loop (n : nat) (it : TokenIterator)
    (direct_decl : ParserState) : M ParserResult :=
  match n with
  | 0 => out_of_fuel
  | S n' =>
      if Nat.eqb it tend then ret (it, direct_decl)
      else
        tok <- deref it ;;
        if TokenType.eqb (type tok) TokenType.LeftBracket then
          '(arr_it, arr_decl) <-
            parser_parens array_declarator_production
              TokenType.LeftBracket TokenType.RightBracket it ;;
          direct_decl <- add_state direct_decl (giveup_to_expected arr_decl) ;;
          let super_decl := Success (Some (new_node NodeType.DirectDeclarator)) in
          super_decl <- add_state super_decl direct_decl ;;
          direct_declarator_loop n' arr_it super_decl
        else if TokenType.eqb (type tok) TokenType.LeftParen then
          '(param_or_id_it, param_or_id_list) <-
            parser_parens (parser_opt parser_parameter_type_list)
              TokenType.LeftParen TokenType.RightParen it ;;
          direct_decl <- add_state direct_decl (giveup_to_expected param_or_id_list) ;;
          let super_decl := Success (Some (new_node NodeType.DirectDeclarator)) in
          super_decl <- add_state super_decl direct_decl ;;
          direct_declarator_loop n' param_or_id_it super_decl
        else ret (it, direct_decl)
  end.

Definition parser_direct_declarator : Rule :=
  fun begin =>
    if negb (Nat.eqb begin tend) then
      tok <- deref begin ;;
      if TokenType.eqb (type tok) TokenType.Identifier
         || TokenType.eqb (type tok) TokenType.LeftParen
      then
        let direct_decl := Success (Some (new_node NodeType.DirectDeclarator)) in
        let it := begin in
        '(next_it, ident_or_decl) <- ident_or_decl_production it ;;
        if negb (is_giveup ident_or_decl) then
          direct_decl <- add_state direct_decl (giveup_to_expected ident_or_decl) ;;
          direct_declarator_loop fuel next_it direct_decl
        else giveup_at begin "direct declarator"
      else giveup_at begin "direct declarator"
    else giveup_at begin "direct declarator".

Definition parser_is_declarator (begin : TokenIterator) : M bool :=
  if negb (Nat.eqb begin tend) then
    tok <- deref begin ;;
    ret (match type tok with
         | TokenType.Times | TokenType.Identifier | TokenType.LeftParen => true
         | _ => false
         end)
  else ret false.

Definition parser_declarator : Rule :=
  fun begin =>
    if negb (Nat.eqb begin tend) then
      let declarator := Success (Some (new_node NodeType.Declarator)) in
      '(ptr_it, pointer_decl) <- parser_pointer begin ;;
      declarator <- (if negb (is_giveup pointer_decl)
                     then add_state declarator pointer_decl else ret declarator) ;;
      let it := if negb (Nat.eqb ptr_it tend) then ptr_it else begin in
      '(dir_it, direct_decl) <- parser_direct_declarator it ;;
      declarator <- add_state declarator direct_decl ;;
      ret (dir_it, declarator)
    else giveup_at begin "declarator".

Definition parser_init_declarator : Rule :=
  fun begin =>
    if negb (Nat.eqb begin tend) then
      '(decl_it, declarator) <- parser_declarator begin ;;
      if negb (is_giveup declarator) then
        let init_decl := Success (Some (new_node NodeType.InitDeclarator)) in
        let it := decl_it in
        init_decl <- add_state init_decl declarator ;;
        assign <- token_is it TokenType.Assign ;;
        if assign then
          '(init_it, initializer) <- self Initializer (next decl_it) ;;
          g <- giveup_to_expected_what initializer "initializer for init declarator" ;;
          init_decl <- add_state init_decl g ;;
          ret (init_it, init_decl)
        else ret (it, init_decl)
      else giveup_at begin "init declarator"
    else giveup_at begin "init declarator".

Definition parser_init_declarator_list : Rule :=
  parser_list_of parser_init_declarator false.

Definition is_storage_class (k : TokenType.t) : bool :=
  match k with
  | TokenType.Typedef | TokenType.Extern | TokenType.Static
  | TokenType.ThreadLocal | TokenType.Auto | TokenType.Register => true
  | _ => false
  end.

Definition parser_storage_class_specifier : Rule :=
  fun begin =>
    if negb (Nat.eqb begin tend) then
      tok <- deref begin ;;
      if is_storage_class (type tok)
      then ret (next begin, Success (Some (new_leaf NodeType.StorageClassSpecifier tok)))
      else giveup_at begin "storage class specifier"
    else giveup_at begin "storage class specifier".

Definition parser_function_specifier : Rule :=
  fun begin =>
    if negb (Nat.eqb begin tend) then
      tok <- deref begin ;;
      match type tok with
      | TokenType.Inline | TokenType.Noreturn | TokenType.Stdcall =>
          ret (next begin, Success (Some (new_leaf NodeType.FunctionSpecifier tok)))
      | TokenType.Declspec =>
          '(it, identifier) <-
            parser_parens parser_identifier TokenType.LeftParen TokenType.RightParen
              (next begin) ;;
          let func_spec := Success None in
          let func_spec :=
            if is_success identifier
            then Success (Some (new_leaf NodeType.FunctionSpecifier tok))
            else func_spec in
          g <- giveup_to_expected_what identifier "declspec argument" ;;
          func_spec <- add_state func_spec g ;;
          ret (it, func_spec)
      | _ => giveup_at begin "function specifier"
      end
    else giveup_at begin "function specifier".

(** The lambda [alignas_arg_production]. *)
Definition alignas_arg_production : Rule :=
  fun begin =>
    parser_one_of begin "type name or constant expression"
      [ parser_type_name; parser_constant_expression ].

(** The test before [add_node] reads [alignas_spec] itself, as the source
    does. *)
Definition parser_alignment_specifier : Rule :=
  fun begin =>
    is_alignas <- token_is begin TokenType.Alignas ;;
    if is_alignas then
      tok <- deref begin ;;
      '(it, alignas_arg) <-
        parser_parens alignas_arg_production TokenType.LeftParen TokenType.RightParen
          (next begin) ;;
      let alignas_spec := Success None in
      let alignas_spec :=
        if is_success alignas_spec
        then add_node alignas_spec (new_leaf NodeType.AlignmentSpecifier tok)
        else alignas_spec in
      g <- giveup_to_expected_what alignas_arg "alignas argument" ;;
      alignas_spec <- add_state alignas_spec g ;;
      ret (it, alignas_spec)
    else giveup_at begin "alignment specifier".

Definition parser_declaration_specifier : Rule :=
  fun begin =>
    parser_one_of begin "declaration specifier"
      [ parser_storage_class_specifier;
        parser_type_specifier;
        parser_type_qualifier;
        parser_function_specifier;
        parser_alignment_specifier ].

Definition parser_declaration_specifiers : Rule :=
  fun begin =>
    '(it, decl_spec) <-
      parser_one_many_of begin "declaration specifiers" parser_declaration_specifier ;;
    let decl_specs := Success None in
    let decl_specs :=
      if is_success decl_spec
      then add_node decl_specs (new_node NodeType.DeclarationSpecifiers)
      else decl_specs in
    decl_specs <- add_state decl_specs decl_spec ;;
    ret (it, decl_specs).

Definition parser_declaration : Rule :=
  fun begin =>
    if negb (Nat.eqb begin tend) then
      tok <- deref begin ;;
      if TokenType.eqb (type tok) TokenType.StaticAssert then
        parser_static_assert_declaration begin
      else
        let declaration := Success None in
        '(decl_it, decl_specs) <- parser_declaration_specifiers begin ;;
        if negb (is_giveup decl_specs) then
          let declaration := add_node declaration (new_node NodeType.Declaration) in
          declaration <- add_state declaration decl_specs ;;
          let it := decl_it in
          semi <- token_is decl_it TokenType.Semicolon ;;
          '(it, declaration) <-
            (if negb (Nat.eqb decl_it tend) && negb semi then
               '(init_it, init_decl_list) <- parser_init_declarator_list decl_it ;;
               declaration <- add_state declaration (giveup_to_expected init_decl_list) ;;
               ret (init_it, declaration)
             else ret (it, declaration)) ;;
          '(ok, declaration) <- expect_token declaration it TokenType.Semicolon ;;
          ret (if ok then next it else it, declaration)
        else giveup_at begin "declaration"
    else giveup_at begin "declaration".

(** *** Enumerations, structures and unions (parser.cpp, lines 1959-2250) *)

Definition parser_enumeration_constant : Rule :=
  fun begin =>
    ident <- token_is begin TokenType.Identifier ;;
    if ident then
      tok <- deref begin ;;
      ret (next begin, Success (Some (new_leaf NodeType.Enumerator tok)))
    else giveup_at begin "enumerator".

(** The lambda [enumerator_production]. *)
Definition enumerator_production : Rule :=
  fun begin =>
    ident <- token_is begin TokenType.Identifier ;;
    if ident then
      '(it, enumerator) <- parser_enumeration_constant begin ;;
      assign <- token_is it TokenType.Assign ;;
      if assign then
        '(const_it, const_expr) <- parser_constant_expression (next it) ;;
        g <- giveup_to_expected_what const_expr "constant expression" ;;
        enumerator <- add_state enumerator g ;;
        ret (const_it, enumerator)
      else ret (it, enumerator)
    else giveup_at begin "enumerator".

Definition enum_list_production : Rule :=
  parser_parens (parser_list_of enumerator_production true)
    TokenType.LeftBrace TokenType.RightBrace.

(** The check shared by the enum and the struct specifier: inside a
    specifier list, a successful specifier followed by a token that is
    neither [';'] nor the start of a declarator reports a missing [';']. *)
Definition missing_semicolon_check (spec : ParserState) (it : TokenIterator)
    (msg : string) : M ParserState :=
  inside <- get_inside_specifiers ;;
  if inside && is_success spec then
    semi <- token_is it TokenType.Semicolon ;;
    if negb (Nat.eqb it tend) && negb semi then
      declarator <- parser_is_declarator it ;;
      if negb declarator
      then ret (add_error_state spec (make_error Error (prev it) msg))
      else ret spec
    else ret spec
  else ret spec.

Definition parser_enum_specifier : Rule :=
  fun begin =>
    is_enum <- token_is begin TokenType.Enum ;;
    if is_enum then
      tok <- deref begin ;;
      let enum_spec := Success (Some (new_leaf NodeType.EnumSpecifier tok)) in
      let it := next begin in
      if negb (Nat.eqb it tend) then
        after <- deref it ;;
        '(it, enum_spec) <-
          (if TokenType.eqb (type after) TokenType.Identifier then
             '(ident_it, identifier) <- parser_identifier it ;;
             enum_spec <- add_state enum_spec identifier ;;
             let it := ident_it in
             brace <- token_is it TokenType.LeftBrace ;;
             if brace then
               '(enum_list_it, enum_list) <- enum_list_production it ;;
               enum_spec <- add_state enum_spec (giveup_to_expected enum_list) ;;
               ret (enum_list_it, enum_spec)
             else ret (it, enum_spec)
           else if TokenType.eqb (type after) TokenType.LeftBrace then
             '(enum_list_it, enum_list) <- enum_list_production it ;;
             enum_spec <- add_state enum_spec (giveup_to_expected enum_list) ;;
             ret (enum_list_it, enum_spec)
           else
             let enum_spec :=
               add_error_state enum_spec
                 (make_error Error it "expected identifier or '{'") in
             ret (it, add_error_state enum_spec
                        (make_error ErrorNote begin "for this enumerator specifier"))) ;;
        enum_spec <- missing_semicolon_check enum_spec it
                       "missing ';' after enumerator declaration" ;;
        ret (it, enum_spec)
      else giveup_at begin "enumerator specifier"
    else giveup_at begin "enumerator specifier".

(** The lambda [struct_declarator]; [struct_token] is the spelling of the
    [struct] or [union] keyword. *)
Definition struct_declarator (struct_token : string) : Rule :=
  fun begin =>
    if negb (Nat.eqb begin tend) then
      let struct_decl := Success (Some (new_node NodeType.StructDeclarator)) in
      let it := begin in
      tok <- deref begin ;;
      if negb (TokenType.eqb (type tok) TokenType.Colon) then
        '(decl_it, declarator) <- parser_declarator begin ;;
        g <- giveup_to_expected_what declarator "declarator" ;;
        struct_decl <- add_state struct_decl g ;;
        let it := decl_it in
        colon <- token_is it TokenType.Colon ;;
        if colon then
          '(const_expr_it, const_expr) <- parser_constant_expression (next it) ;;
          g <- giveup_to_expected_what const_expr "constant expression" ;;
          struct_decl <- add_state struct_decl g ;;
          ret (const_expr_it, struct_decl)
        else ret (it, struct_decl)
      else
        '(const_expr_it, const_expr) <- parser_constant_expression (next it) ;;
        g <- giveup_to_expected_what const_expr "constant expression" ;;
        struct_decl <- add_state struct_decl g ;;
        ret (const_expr_it, struct_decl)
    else giveup_at begin (struct_token +++ " declarator").

(** The lambda [struct_declaration]. *)
Definition struct_declaration (struct_token : string) : Rule :=
  fun begin =>
    if negb (Nat.eqb begin tend) then
      tok <- deref begin ;;
      if TokenType.eqb (type tok) TokenType.StaticAssert then
        parser_static_assert_declaration begin
      else
        let struct_decl := Success (Some (new_node NodeType.StructDeclaration)) in
        '(spec_qual_it, spec_qual_list) <- parser_specifier_qualifier_list begin ;;
        g <- giveup_to_expected_what spec_qual_list "specifier qualifier list" ;;
        struct_decl <- add_state struct_decl g ;;
        let it := spec_qual_it in
        '(decl_it, decl_list) <-
          parser_list_of (struct_declarator struct_token) false spec_qual_it ;;
        '(it, struct_decl) <-
          (if is_success decl_list then
             struct_decl <- add_state struct_decl decl_list ;; ret (decl_it, struct_decl)
           else ret (it, struct_decl)) ;;
        '(ok, struct_decl) <- expect_token struct_decl it TokenType.Semicolon ;;
        ret (if ok then next it else it, struct_decl)
    else giveup_at begin (struct_token +++ " declaration").

(** The lambda [struct_declaration_list] between braces. *)
Definition struct_decl_list_production (struct_token : string) : Rule :=
  parser_parens
    (fun begin =>
       parser_one_many_of_while begin (struct_token +++ " declaration list")
         (struct_declaration struct_token)
         (fun t => negb (TokenType.eqb (type t) TokenType.RightBrace)))
    TokenType.LeftBrace TokenType.RightBrace.

Definition parser_struct_or_union_specifier : Rule :=
  fun begin =>
    if negb (Nat.eqb begin tend) then
      tok <- deref begin ;;
      if TokenType.eqb (type tok) TokenType.Struct
         || TokenType.eqb (type tok) TokenType.Union
      then
        let struct_token := token_to_string (type tok) in
        let struct_spec := Success (Some (new_leaf NodeType.StructOrUnionSpecifier tok)) in
        let it := next begin in
        if negb (Nat.eqb it tend) then
          after <- deref it ;;
          '(it, struct_spec) <-
            (if TokenType.eqb (type after) TokenType.Identifier then
               '(ident_it, identifier) <- parser_identifier it ;;
               struct_spec <- add_state struct_spec identifier ;;
               let it := ident_it in
               brace <- token_is it TokenType.LeftBrace ;;
               if brace then
                 '(decl_list_it, decl_list) <- struct_decl_list_production struct_token it ;;
                 struct_spec <- add_state struct_spec (giveup_to_expected decl_list) ;;
                 ret (decl_list_it, struct_spec)
               else ret (it, struct_spec)
             else if TokenType.eqb (type after) TokenType.LeftBrace then
               '(decl_list_it, decl_list) <- struct_decl_list_production struct_token it ;;
               struct_spec <- add_state struct_spec (giveup_to_expected decl_list) ;;
               ret (decl_list_it, struct_spec)
             else
               let struct_spec :=
                 add_error_state struct_spec
                   (make_error Error it "expected identifier or '{'") in
               ret (it, add_error_state struct_spec
                          (make_error ErrorNote begin
                             ("for this " +++ struct_token +++ " specifier")))) ;;
          struct_spec <- missing_semicolon_check struct_spec it
                           ("missing ';' after " +++ struct_token +++ " declaration") ;;
          ret (it, struct_spec)
        else giveup_at begin "struct or union specifier"
      else giveup_at begin "struct or union specifier"
    else giveup_at begin "struct or union specifier".

(** *** Initializers (parser.cpp, lines 2260-2415) *)

Definition parser_initializer : Rule :=
  fun begin =>
    if negb (Nat.eqb begin tend) then
      tok <- deref begin ;;
      if TokenType.eqb (type tok) TokenType.LeftBrace then
        parser_parens (self InitializerList) TokenType.LeftBrace TokenType.RightBrace begin
      else self AssignmentExpression begin
    else giveup_at begin "initializer".

(** The lambda [designator_production]. *)
Definition designator_production : Rule :=
  fun begin =>
    if negb (Nat.eqb begin tend) then
      tok <- deref begin ;;
      if TokenType.eqb (type tok) TokenType.LeftBracket then
        '(it, subscript) <-
          parser_parens parser_constant_expression
            TokenType.LeftBracket TokenType.RightBracket begin ;;
        let designator := Success (Some (new_node NodeType.ArraySubscripting)) in
        designator <- add_state designator subscript ;;
        ret (it, designator)
      else if TokenType.eqb (type tok) TokenType.Dot then
        '(it, identifier) <- parser_identifier (next begin) ;;
        let designator := Success (Some (new_node NodeType.MemberAccess)) in
        g <- giveup_to_expected_what identifier "identifier for designator" ;;
        designator <- add_state designator g ;;
        ret (it, designator)
      else giveup_at begin "designator"
    else giveup_at begin "designator".

(** The [while (it != end && it->type != Assign)] of [designation_production]. *)
Fixpoint designation_loop (n : nat) (it : TokenIterator) (designation : ParserState)
  : M ParserResult :=
  match n with
  | 0 => out_of_fuel
  | S n' =>
      assign <- token_is it TokenType.Assign ;;
      if negb (Nat.eqb it tend) && negb assign then
        '(des_it, designator) <- designator_production it ;;
        if is_giveup designator then
          ret (it, add_error_state designation
                     (make_error Error it "expected assignment operator for designator"))
        else
          g <- giveup_to_expected_what designator "designator" ;;
          designation <- add_state designation g ;;
          designation_loop n' des_it designation
      else ret (it, designation)
  end.

Definition designation_production : Rule :=
  fun begin =>
    if negb (Nat.eqb begin tend) then
      let designation := Success (Some (new_node NodeType.Designation)) in
      '(it, designator) <- designator_production begin ;;
      if negb (is_giveup designator) then
        g <- giveup_to_expected_what designator "designator" ;;
        designation <- add_state designation g ;;
        '(it, designation) <- designation_loop fuel it designation ;;
        assign <- token_is it TokenType.Assign ;;
        ret (if assign then next it else it, designation)
      else giveup_at begin "designation"
    else giveup_at begin "designation".

(** The lambda [init_list_production]. *)
Definition init_list_production : Rule :=
  fun begin =>
    if negb (Nat.eqb begin tend) then
      let init_list := Success None in
      '(des_it, designation) <- designation_production begin ;;
      if negb (is_giveup designation) then
        '(init_it, initializer) <- parser_initializer des_it ;;
        init_list <- add_state init_list designation ;;
        g <- giveup_to_expected_what initializer "initializer" ;;
        init_list <- add_state init_list g ;;
        ret (init_it, init_list)
      else
        '(init_it, initializer) <- parser_initializer begin ;;
        init_list <- add_state init_list initializer ;;
        ret (init_it, init_list)
    else giveup_at begin "initializer list".

Definition parser_initializer_list : Rule :=
  fun begin =>
    '(it, inits) <- parser_list_of init_list_production true begin ;;
    if negb (is_giveup inits) then
      let init_list := Success (Some (new_node NodeType.InitializerList)) in
      init_list <- add_state init_list inits ;;
      ret (it, init_list)
    else giveup_at begin "initializer list".

(** *** Expressions (parser.cpp, lines 2441-3197) *)

(** The lambda [compound_literal_production]. *)
Definition compound_literal_production : Rule :=
  fun begin =>
    if negb (Nat.eqb begin tend) then
      '(type_it, type_name) <-
        parser_parens parser_type_name TokenType.LeftParen TokenType.RightParen begin ;;
      if negb (is_giveup type_name) then
        '(init_it, initalizer_list) <-
          parser_parens parser_initializer_list
            TokenType.LeftBrace TokenType.RightBrace type_it ;;
        if negb (is_giveup initalizer_list) then
          let compound_literal := Success (Some (new_node NodeType.CompoundLiteral)) in
          compound_literal <- add_state compound_literal type_name ;;
          compound_literal <- add_state compound_literal initalizer_list ;;
          ret (init_it, compound_literal)
        else giveup_at begin "compound literal"
      else giveup_at begin "compound literal"
    else giveup_at begin "compound literal".

(** The lambda [postfix_production]. *)
Definition postfix_production : Rule :=
  fun begin =>
    if Nat.eqb begin tend then giveup_at begin "postfix operator"
    else
      tok <- deref begin ;;
      match type tok with
      | TokenType.LeftBracket =>
          '(expr_it, expression) <- self Expression (next begin) ;;
          '(closed, expression) <-
            expect_end_token expression begin expr_it TokenType.RightBracket ;;
          if closed then
            let postfix_op := Success (Some (new_leaf NodeType.ArraySubscripting tok)) in
            g <- giveup_to_expected_what expression "expression" ;;
            postfix_op <- add_state postfix_op g ;;
            ret (next expr_it, postfix_op)
          else ret (expr_it, expression)
      | TokenType.LeftParen =>
          let postfix_op := Success (Some (new_leaf NodeType.FunctionCall tok)) in
          empty <- token_is (next begin) TokenType.RightParen ;;
          if empty then ret (next (next begin), postfix_op)
          else
            '(arg_it, argument_list) <-
              parser_parens (parser_list_of (self AssignmentExpression) false)
                TokenType.LeftParen TokenType.RightParen begin ;;
            let arguments := Success (Some (new_node NodeType.ArgumentExpressionList)) in
            g <- giveup_to_expected_what argument_list "argument list" ;;
            arguments <- add_state arguments g ;;
            postfix_op <- add_state postfix_op arguments ;;
            ret (arg_it, postfix_op)
      | TokenType.Dot | TokenType.RightArrow =>
          let node_type :=
            if TokenType.eqb (type tok) TokenType.Dot
            then NodeType.MemberAccess else NodeType.PointerMemberAccess in
          '(ident_it, identifier) <- parser_identifier (next begin) ;;
          let postfix_op := Success (Some (new_leaf node_type tok)) in
          postfix_op <- add_state postfix_op (giveup_to_expected identifier) ;;
          ret (ident_it, postfix_op)
      | TokenType.Increment | TokenType.Decrement =>
          let node_type :=
            if TokenType.eqb (type tok) TokenType.Increment
            then NodeType.PostfixIncrement else NodeType.PostfixDecrement in
          ret (next begin, Success (Some (new_leaf node_type tok)))
      | _ => giveup_at begin "postfix operator"
      end.

(** The [while (true)] of [parser_postfix_expression]. *)
Fixpoint postfix_loop (n : nat) (it : TokenIterator) (expr : ParserState)
  : M ParserResult :=
  match n with
  | 0 => out_of_fuel
  | S n' =>
      '(op_it, postfix_op) <- postfix_production it ;;
      if negb (is_giveup postfix_op) then
        postfix_op <- add_state postfix_op expr ;;
        postfix_loop n' op_it postfix_op
      else ret (it, expr)
  end.

Definition parser_postfix_expression : Rule :=
  fun begin =>
    if negb (Nat.eqb begin tend) then
      '(expr_it, expr) <-
        parser_one_of begin "compound literal or expression"
          [ compound_literal_production; self PrimaryExpression ] ;;
      let it := expr_it in
      if is_giveup expr then ret (tend, expr)
      else postfix_loop fuel it expr
    else giveup_at begin "postfix expression".

(** The lambda [incremental_unary_production]. *)
Definition incremental_unary_production : Rule :=
  fun begin =>
    '(incr_it, incr_op) <-
      parser_operator NodeType.UnaryExpression
        (fun t => TokenType.eqb (type t) TokenType.Increment
                  || TokenType.eqb (type t) TokenType.Decrement) begin ;;
    if negb (is_giveup incr_op) then
      '(unary_it, unary_expr) <- self UnaryExpression incr_it ;;
      g <- giveup_to_expected_what unary_expr "unary expression" ;;
      incr_op <- add_state incr_op g ;;
      ret (unary_it, incr_op)
    else giveup_at begin "unary operator".

(** The unary operators the source accepts; it lists [NotEqualTo]. *)
Definition is_unary_operator (k : TokenType.t) : bool :=
  match k with
  | TokenType.BitwiseAnd | TokenType.BitwiseNot | TokenType.Times
  | TokenType.Plus | TokenType.Minus | TokenType.NotEqualTo => true
  | _ => false
  end.

(** The lambda [unary_cast_production]. *)
Definition unary_cast_production : Rule :=
  fun begin =>
    '(unary_it, unary_op) <-
      parser_operator NodeType.UnaryExpression
        (fun t => is_unary_operator (type t)) begin ;;
    if negb (is_giveup unary_op) then
      '(cast_it, cast_expr) <- self CastExpression unary_it ;;
      unary_op <- add_state unary_op cast_expr ;;
      ret (cast_it, unary_op)
    else giveup_at begin "basic unary expression".

(** The lambda [parens_type_name]; it reads [begin->type] unguarded. *)
Definition parens_type_name : Rule :=
  fun begin =>
    tok <- deref begin ;;
    if TokenType.eqb (type tok) TokenType.LeftParen then
      '(type_it, type_name) <- parser_type_name (next begin) ;;
      let it := type_it in
      if is_success type_name then
        '(closed, type_name) <-
          expect_end_token type_name begin type_it TokenType.RightParen ;;
        ret (if closed then next type_it else it, type_name)
      else ret (it, type_name)
    else giveup_at begin "type name inside parentheses".

(** The lambda [size_of_production]; it reads [begin->type] unguarded. *)
Definition size_of_production : Rule :=
  fun begin =>
    tok <- deref begin ;;
    if TokenType.eqb (type tok) TokenType.Sizeof then
      '(it, unary_expr) <-
        parser_one_of (next begin) "type name, or unary expression"
          [ parens_type_name; self UnaryExpression ] ;;
      let sizeof_op := Success (Some (new_leaf NodeType.UnaryExpression tok)) in
      g <- giveup_to_expected_what unary_expr
             "unary expression or type name inside parentheses" ;;
      sizeof_op <- add_state sizeof_op g ;;
      ret (it, sizeof_op)
    else if TokenType.eqb (type tok) TokenType.Alignof then
      '(it, type_name) <- parens_type_name (next begin) ;;
      let alignof_op := Success (Some (new_leaf NodeType.UnaryExpression tok)) in
      g <- giveup_to_expected_what type_name "type name inside parentheses" ;;
      alignof_op <- add_state alignof_op g ;;
      ret (it, alignof_op)
    else giveup_at begin "sizeof/alignof expression".

Definition parser_unary_expression : Rule :=
  fun begin =>
    if Nat.eqb begin tend then giveup_at begin "unary expression"
    else
      parser_one_of begin "unary expression"
        [ parser_postfix_expression;
          incremental_unary_production;
          size_of_production;
          unary_cast_production ].

(** The lambda [cast_production]. *)
Definition cast_production : Rule :=
  fun begin =>
    paren <- token_is begin TokenType.LeftParen ;;
    if paren then
      '(type_it, type_name) <- parser_type_name (next begin) ;;
      if negb (is_giveup type_name) then
        '(closed, type_name) <-
          expect_end_token type_name begin type_it TokenType.RightParen ;;
        if closed then
          '(cast_it, cast_expr) <- self CastExpression (next type_it) ;;
          brace <- token_is cast_it TokenType.LeftBrace ;;
          if negb (Nat.eqb cast_it tend) && negb brace then
            let cast := Success (Some (new_node NodeType.CastExpression)) in
            cast <- add_state cast type_name ;;
            g <- giveup_to_expected_what cast_expr "cast expression" ;;
            cast <- add_state cast g ;;
            ret (cast_it, cast)
          else giveup_at begin "cast expression"
        else giveup_at begin "cast expression"
      else giveup_at begin "cast expression"
    else giveup_at begin "cast expression".

Definition parser_cast_expression : Rule :=
  fun begin =>
    parser_one_of begin "cast or unary expression"
      [ cast_production; parser_unary_expression ].

(** The ten left-associative levels (parser.cpp, lines 2792-3054). *)

Definition multiplicative_operator : Rule :=
  parser_operator NodeType.MultiplicativeExpression
    (fun t => TokenType.eqb (type t) TokenType.Times
           || TokenType.eqb (type t) TokenType.Divide
           || TokenType.eqb (type t) TokenType.Percent).

Definition parser_multiplicative_expression : Rule :=
  fun begin =>
    if negb (Nat.eqb begin tend) then
      parser_left_binary_operator parser_cast_expression multiplicative_operator parser_cast_expression begin
    else giveup_at begin "multiplicative expression".

Definition additive_operator : Rule :=
  parser_operator NodeType.AdditiveExpression
    (fun t => TokenType.eqb (type t) TokenType.Plus
           || TokenType.eqb (type t) TokenType.Minus).

Definition parser_additive_expression : Rule :=
  fun begin =>
    if negb (Nat.eqb begin tend) then
      parser_left_binary_operator parser_multiplicative_expression additive_operator parser_multiplicative_expression begin
    else giveup_at begin "additive expression".

Definition shift_operator : Rule :=
  parser_operator NodeType.ShiftExpression
    (fun t => TokenType.eqb (type t) TokenType.BitwiseLeftShift
           || TokenType.eqb (type t) TokenType.BitwiseRightShift).

Definition parser_shift_expression : Rule :=
  fun begin =>
    if negb (Nat.eqb begin tend) then
      parser_left_binary_operator parser_additive_expression shift_operator parser_additive_expression begin
    else giveup_at begin "shift expression".

Definition relational_operator : Rule :=
  parser_operator NodeType.RelationalExpression
    (fun t => TokenType.eqb (type t) TokenType.LessThan
           || TokenType.eqb (type t) TokenType.GreaterThan
           || TokenType.eqb (type t) TokenType.LessEqual
           || TokenType.eqb (type t) TokenType.GreaterEqual).

Definition parser_relational_expression : Rule :=
  fun begin =>
    if negb (Nat.eqb begin tend) then
      parser_left_binary_operator parser_shift_expression relational_operator parser_shift_expression begin
    else giveup_at begin "relational expression".

Definition equality_operator : Rule :=
  parser_operator NodeType.EqualityExpression
    (fun t => TokenType.eqb (type t) TokenType.EqualsTo
           || TokenType.eqb (type t) TokenType.NotEqualTo).

Definition parser_equality_expression : Rule :=
  fun begin =>
    if negb (Nat.eqb begin tend) then
      parser_left_binary_operator parser_relational_expression equality_operator parser_relational_expression begin
    else giveup_at begin "equality expression".

Definition and_operator : Rule :=
  parser_operator NodeType.AndExpression
    (fun t => TokenType.eqb (type t) TokenType.BitwiseAnd).

Definition parser_and_expression : Rule :=
  fun begin =>
    if negb (Nat.eqb begin tend) then
      parser_left_binary_operator parser_equality_expression and_operator parser_equality_expression begin
    else giveup_at begin "and expression".

Definition exclusive_or_operator : Rule :=
  parser_operator NodeType.ExclusiveOrExpression
    (fun t => TokenType.eqb (type t) TokenType.BitwiseXor).

Definition parser_exclusive_or_expression : Rule :=
  fun begin =>
    if negb (Nat.eqb begin tend) then
      parser_left_binary_operator parser_and_expression exclusive_or_operator parser_and_expression begin
    else giveup_at begin "exclusive or expression".

Definition inclusive_or_operator : Rule :=
  parser_operator NodeType.InclusiveOrExpression
    (fun t => TokenType.eqb (type t) TokenType.BitwiseOr).

Definition parser_inclusive_or_expression : Rule :=
  fun begin =>
    if negb (Nat.eqb begin tend) then
      parser_left_binary_operator parser_exclusive_or_expression inclusive_or_operator parser_exclusive_or_expression begin
    else giveup_at begin "inclusive or expression".

Definition logical_and_operator : Rule :=
  parser_operator NodeType.LogicalAndExpression
    (fun t => TokenType.eqb (type t) TokenType.LogicalAnd).

Definition parser_logical_and_expression : Rule :=
  fun begin =>
    if negb (Nat.eqb begin tend) then
      parser_left_binary_operator parser_inclusive_or_expression logical_and_operator parser_inclusive_or_expression begin
    else giveup_at begin "logical and expression".

Definition logical_or_operator : Rule :=
  parser_operator NodeType.LogicalOrExpression
    (fun t => TokenType.eqb (type t) TokenType.LogicalOr).

Definition parser_logical_or_expression : Rule :=
  fun begin =>
    if negb (Nat.eqb begin tend) then
      parser_left_binary_operator parser_logical_and_expression logical_or_operator parser_logical_and_expression begin
    else giveup_at begin "logical or expression".

Definition parser_conditional_expression : Rule :=
  fun begin =>
    if negb (Nat.eqb begin tend) then
      '(or_it, or_expr) <- parser_logical_or_expression begin ;;
      if negb (is_giveup or_expr) then
        question <- token_is or_it TokenType.QuestionMark ;;
        if question then
          let ternary_op_it := or_it in
          let condition := Success (Some (new_node NodeType.ConditionalExpression)) in
          condition <- add_state condition or_expr ;;
          '(true_it, true_expr) <- self Expression (next ternary_op_it) ;;
          g <- giveup_to_expected_what true_expr "expression" ;;
          condition <- add_state condition g ;;
          '(colon, condition) <-
            expect_end_token condition ternary_op_it true_it TokenType.Colon ;;
          if colon then
            '(false_it, false_expr) <- self ConditionalExpression (next true_it) ;;
            g <- giveup_to_expected_what false_expr "expression" ;;
            condition <- add_state condition g ;;
            ret (false_it, condition)
          else ret (true_it, condition)
        else ret (or_it, or_expr)
      else giveup_at begin "conditional expression"
    else giveup_at begin "conditional expression".

Definition is_assignment_operator (k : TokenType.t) : bool :=
  match k with
  | TokenType.Assign | TokenType.TimesAssign | TokenType.DivideAssign
  | TokenType.ModuloAssign | TokenType.PlusAssign | TokenType.MinusAssign
  | TokenType.BitwiseLeftShiftAssign | TokenType.BitwiseRightShiftAssign
  | TokenType.BitwiseAndAssign | TokenType.BitwiseXorAssign
  | TokenType.BitwiseOrAssign => true
  | _ => false
  end.

Definition assign_operator : Rule :=
  parser_operator NodeType.AssignmentExpression
    (fun t => is_assignment_operator (type t)).

Definition parser_assignment_expression : Rule :=
  fun begin =>
    if Nat.eqb begin tend then giveup_at begin "assignment expression"
    else
      parser_one_of begin "assignment or conditional expression"
        [ parser_right_binary_operator parser_unary_expression assign_operator
            (self AssignmentExpression);
          parser_conditional_expression ].

Definition comma_operator : Rule :=
  parser_operator NodeType.Expression
    (fun t => TokenType.eqb (type t) TokenType.Comma).

Definition parser_expression : Rule :=
  fun begin =>
    if negb (Nat.eqb begin tend) then
      parser_left_binary_operator parser_assignment_expression comma_operator
        parser_assignment_expression begin
    else giveup_at begin "expression".

(** The lambda [parser_parens_expr]. *)
Definition parser_parens_expr : Rule :=
  fun begin =>
    paren <- token_is begin TokenType.LeftParen ;;
    if paren then
      '(it, expr) <- parser_expression (next begin) ;;
      '(it, expr) <-
        (if negb (is_giveup expr) then
           '(closed, expr) <- expect_end_token expr begin it TokenType.RightParen ;;
           ret (if closed then next it else it, expr)
         else ret (it, expr)) ;;
      g <- giveup_to_expected_what expr "expression" ;;
      ret (it, g)
    else giveup_at begin "expression".

Definition parser_primary_expression : Rule :=
  fun begin =>
    parser_one_of begin "primary expression"
      [ parser_identifier;
        parser_constant;
        parser_string_literal_list;
        parser_parens_expr ].

(** *** Statements (parser.cpp, lines 3214-3681) *)

Definition parser_statement : Rule :=
  fun begin =>
    parser_one_of begin "statement"
      [ self LabeledStatement;
        self CompoundStatement;
        self ExpressionStatement;
        self SelectionStatement;
        self IterationStatement;
        self JumpStatement ].

Definition parser_jump_statement : Rule :=
  fun begin =>
    if negb (Nat.eqb begin tend) then
      tok <- deref begin ;;
      match type tok with
      | TokenType.Goto =>
          let jump_stmt := Success None in
          '(it, ident) <- parser_identifier (next begin) ;;
          let jump_stmt :=
            if is_success ident
            then add_node jump_stmt (new_leaf NodeType.JumpStatement tok)
            else jump_stmt in
          g <- giveup_to_expected_what ident "label for goto statement" ;;
          jump_stmt <- add_state jump_stmt g ;;
          '(ok, jump_stmt) <- expect_token jump_stmt it TokenType.Semicolon ;;
          ret (if ok then next it else it, jump_stmt)
      | TokenType.Continue | TokenType.Break =>
          let jump_stmt := Success None in
          let it := next begin in
          '(ok, jump_stmt) <- expect_token jump_stmt it TokenType.Semicolon ;;
          let it := if ok then next it else it in
          let jump_stmt :=
            if is_success jump_stmt
            then add_node jump_stmt (new_leaf NodeType.JumpStatement tok)
            else jump_stmt in
          ret (it, jump_stmt)
      | TokenType.Return =>
          let jump_stmt := Success (Some (new_leaf NodeType.JumpStatement tok)) in
          '(expr_it, expr) <- parser_expression (next begin) ;;
          let it := next begin in
          '(it, jump_stmt) <-
            (if negb (is_giveup expr) then
               jump_stmt <- add_state jump_stmt expr ;; ret (expr_it, jump_stmt)
             else ret (it, jump_stmt)) ;;
          '(ok, jump_stmt) <- expect_token jump_stmt it TokenType.Semicolon ;;
          ret (if ok then next it else it, jump_stmt)
      | _ => giveup_at begin "jump statement"
      end
    else giveup_at begin "jump statement".

Definition parens_expression : Rule :=
  parser_parens parser_expression TokenType.LeftParen TokenType.RightParen.

(** The lambda [while_statement]; it reads [begin->type] unguarded. *)
Definition while_statement : Rule :=
  fun begin =>
    tok <- deref begin ;;
    if TokenType.eqb (type tok) TokenType.While then
      let iter_stmt := Success (Some (new_leaf NodeType.IterationStatement tok)) in
      let it := next begin in
      '(expr_it, expr) <- parens_expression it ;;
      g <- giveup_to_expected_what expr "condition for while-clause" ;;
      iter_stmt <- add_state iter_stmt g ;;
      '(stmt_it, statement) <- parser_statement expr_it ;;
      g <- giveup_to_expected_what statement "statement for while-clause" ;;
      iter_stmt <- add_state iter_stmt g ;;
      ret (stmt_it, iter_stmt)
    else giveup_at begin "".

(** The lambda [do_while_statement]. *)
Definition do_while_statement : Rule :=
  fun begin =>
    tok <- deref begin ;;
    if TokenType.eqb (type tok) TokenType.Do then
      let iter_stmt := Success (Some (new_leaf NodeType.IterationStatement tok)) in
      let it := next begin in
      '(stmt_it, statement) <- parser_statement it ;;
      g <- giveup_to_expected_what statement "statement for do-while-clause" ;;
      iter_stmt <- add_state iter_stmt g ;;
      let it := stmt_it in
      '(ok, iter_stmt) <- expect_token iter_stmt it TokenType.While ;;
      let it := if ok then next it else it in
      '(expr_it, expr) <- parens_expression it ;;
      g <- giveup_to_expected_what expr "condition for do-while-clause" ;;
      iter_stmt <- add_state iter_stmt g ;;
      let it := expr_it in
      '(ok, iter_stmt) <- expect_token iter_stmt it TokenType.Semicolon ;;
      ret (if ok then next it else it, iter_stmt)
    else giveup_at begin "".

(** One optional expression of a [for] clause: the expression, or a
    [Nothing] node in its place. *)
Definition for_clause_expression (it : TokenIterator) (expressions : ParserState)
  : M ParserResult :=
  '(expr_it, expr) <- parser_expression it ;;
  if negb (is_giveup expr) then
    expressions <- add_state expressions expr ;; ret (expr_it, expressions)
  else ret (it, add_node expressions (new_node NodeType.Nothing)).

(** The lambda [for_exprs_production]. *)
Definition for_exprs_production : Rule :=
  fun begin =>
    if negb (Nat.eqb begin tend) then
      let expressions := Success (Some new_tree) in
      let it := begin in
      '(decl_it, declaration) <- parser_declaration it ;;
      '(it, expressions) <-
        (if negb (is_giveup declaration) then
           expressions <- add_state expressions declaration ;;
           ret (decl_it, expressions)
         else
           '(it, expressions) <- for_clause_expression it expressions ;;
           '(ok, expressions) <- expect_token expressions it TokenType.Semicolon ;;
           ret (if ok then next it else it, expressions)) ;;
      '(it, expressions) <- for_clause_expression it expressions ;;
      '(ok, expressions) <- expect_token expressions it TokenType.Semicolon ;;
      let it := if ok then next it else it in
      for_clause_expression it expressions
    else giveup_at begin "".

(** The lambda [for_statement]. *)
Definition for_statement : Rule :=
  fun begin =>
    tok <- deref begin ;;
    if TokenType.eqb (type tok) TokenType.For then
      let iter_stmt := Success (Some (new_leaf NodeType.IterationStatement tok)) in
      let it := next begin in
      '(exprs_it, expressions) <-
        parser_parens for_exprs_production TokenType.LeftParen TokenType.RightParen it ;;
      g <- giveup_to_expected_what expressions "expressions separated by ';'" ;;
      iter_stmt <- add_state iter_stmt g ;;
      '(stmt_it, statement) <- parser_statement exprs_it ;;
      g <- giveup_to_expected_what statement "statement for for-clause" ;;
      iter_stmt <- add_state iter_stmt g ;;
      ret (stmt_it, iter_stmt)
    else giveup_at begin "".

Definition parser_iteration_statement : Rule :=
  fun begin =>
    if negb (Nat.eqb begin tend) then
      parser_one_of begin "iteration statement"
        [ while_statement; do_while_statement; for_statement ]
    else giveup_at begin "iteration statement".

(** The lambda [if_statement]. *)
Definition if_statement : Rule :=
  fun begin =>
    tok <- deref begin ;;
    if TokenType.eqb (type tok) TokenType.If then
      let if_stmt := Success (Some (new_leaf NodeType.SelectionStatement tok)) in
      let it := next begin in
      '(expr_it, expression) <- parens_expression it ;;
      g <- giveup_to_expected_what expression "condition for if-clause" ;;
      if_stmt <- add_state if_stmt g ;;
      '(stmt_it, statement) <- parser_statement expr_it ;;
      g <- giveup_to_expected_what statement "statement for if-clause" ;;
      if_stmt <- add_state if_stmt g ;;
      let it := stmt_it in
      has_else <- token_is it TokenType.Else ;;
      if has_else then
        '(estmt_it, else_stmt) <- parser_statement (next it) ;;
        g <- giveup_to_expected_what else_stmt "statement for else-clause" ;;
        if_stmt <- add_state if_stmt g ;;
        ret (estmt_it, if_stmt)
      else ret (it, if_stmt)
    else giveup_at begin "".

(** The lambda [switch_statement]. *)
Definition switch_statement : Rule :=
  fun begin =>
    tok <- deref begin ;;
    if TokenType.eqb (type tok) TokenType.Switch then
      let switch_stmt := Success (Some (new_leaf NodeType.SelectionStatement tok)) in
      let it := next begin in
      '(expr_it, expression) <- parens_expression it ;;
      g <- giveup_to_expected_what expression "expression for switch-clause" ;;
      switch_stmt <- add_state switch_stmt g ;;
      '(stmt_it, statement) <- parser_statement expr_it ;;
      g <- giveup_to_expected_what statement "statement for switch-clause" ;;
      switch_stmt <- add_state switch_stmt g ;;
      ret (stmt_it, switch_stmt)
    else giveup_at begin "".

Definition parser_selection_statement : Rule :=
  fun begin =>
    if negb (Nat.eqb begin tend) then
      parser_one_of begin "selection statement" [ if_statement; switch_statement ]
    else giveup_at begin "selection statement".

Definition parser_expression_statement : Rule :=
  fun begin =>
    if negb (Nat.eqb begin tend) then
      tok <- deref begin ;;
      if TokenType.eqb (type tok) TokenType.Semicolon then
        ret (next begin, Success (Some (new_leaf NodeType.Nothing tok)))
      else
        '(it, expr) <- parser_expression begin ;;
        '(ok, expr) <- expect_token expr it TokenType.Semicolon ;;
        ret (if ok then next it else it, expr)
    else giveup_at begin "expression statement".

(** The lambda [decl_or_stmt]. *)
Definition decl_or_stmt : Rule :=
  fun begin =>
    parser_one_of begin "declaration or statement"
      [ parser_declaration; parser_statement ].

(** The lambda [block_item_list_production]. *)
Definition block_item_list_production : Rule :=
  fun begin =>
    '(it, block_item_list) <-
      parser_one_many_of begin "list of block items inside compound statement"
        decl_or_stmt ;;
    if is_giveup block_item_list
    then ret (begin, Success (Some (new_node NodeType.Nothing)))
    else ret (it, block_item_list).

Definition parser_compound_statement : Rule :=
  fun begin =>
    brace <- token_is begin TokenType.LeftBrace ;;
    if brace then
      tok <- deref begin ;;
      '(it, items) <-
        parser_parens block_item_list_production
          TokenType.LeftBrace TokenType.RightBrace begin ;;
      let compound_stmt := Success None in
      let compound_stmt :=
        if is_success items
        then add_node compound_stmt (new_leaf NodeType.CompoundStatement tok)
        else compound_stmt in
      compound_stmt <- add_state compound_stmt (giveup_to_expected items) ;;
      ret (it, compound_stmt)
    else giveup_at begin "compound statement".

Definition parser_labeled_statement : Rule :=
  fun begin =>
    if negb (Nat.eqb begin tend) then
      tok <- deref begin ;;
      if TokenType.eqb (type tok) TokenType.Case then
        let label_stmt := Success None in
        '(expr_it, expr) <- parser_constant_expression (next begin) ;;
        '(ok, expr) <- expect_token expr expr_it TokenType.Colon ;;
        let expr_it := if ok then next expr_it else expr_it in
        '(stmt_it, statement) <- parser_statement expr_it ;;
        let label_stmt :=
          if is_success expr && is_success statement
          then add_node label_stmt (new_leaf NodeType.LabeledStatement tok)
          else label_stmt in
        g <- giveup_to_expected_what expr "constant expression for case-label" ;;
        label_stmt <- add_state label_stmt g ;;
        g <- giveup_to_expected_what statement "statement after case-label" ;;
        label_stmt <- add_state label_stmt g ;;
        ret (stmt_it, label_stmt)
      else if TokenType.eqb (type tok) TokenType.Default then
        let label_stmt := Success (Some (new_leaf NodeType.LabeledStatement tok)) in
        let it := next begin in
        '(ok, label_stmt) <- expect_token label_stmt it TokenType.Colon ;;
        let it := if ok then next it else it in
        '(stmt_it, statement) <- parser_statement it ;;
        g <- giveup_to_expected_what statement "statement after default-label" ;;
        label_stmt <- add_state label_stmt g ;;
        ret (stmt_it, label_stmt)
      else
        colon <- (if TokenType.eqb (type tok) TokenType.Identifier
                  then token_is (next begin) TokenType.Colon else ret false) ;;
        if colon then
          let label_stmt := Success None in
          '(stmt_it, statement) <- parser_statement (next (next begin)) ;;
          let label_stmt :=
            if is_success statement
            then add_node label_stmt (new_leaf NodeType.LabeledStatement tok)
            else label_stmt in
          g <- giveup_to_expected_what statement "statement after label" ;;
          label_stmt <- add_state label_stmt g ;;
          ret (stmt_it, label_stmt)
        else giveup_at begin "labeled statement"
    else giveup_at begin "labeled statement".

(** *** Function definitions and the compilation unit (lines 3691-3809) *)

(** The lambda [declaration_list]. *)
Definition declaration_list : Rule :=
  fun begin =>
    '(it, decls) <- parser_one_many_of begin "declarations" parser_declaration ;;
    if is_success decls then
      let decl_list := Success (Some (new_node NodeType.DeclarationList)) in
      decl_list <- add_state decl_list decls ;;
      ret (it, decl_list)
    else ret (it, decls).

Definition parser_function_definition : Rule :=
  fun begin =>
    if negb (Nat.eqb begin tend) then
      let func_def := Success None in
      '(declspecs_it, declspecs) <- parser_declaration_specifiers begin ;;
      let it := declspecs_it in
      if is_giveup declspecs then ret (it, declspecs)
      else
        '(decl_it, declarator) <- parser_declarator it ;;
        let it := decl_it in
        if is_giveup declarator then ret (it, declarator)
        else
          '(decls_it, decls) <- declaration_list it ;;
          let declarations := if negb (is_giveup decls) then Some decls else None in
          let it := if negb (is_giveup decls) then decls_it else it in
          '(comp_it, compound_stmt) <- parser_compound_statement it ;;
          let it := comp_it in
          let func_def :=
            if is_success declarator && is_success compound_stmt
            then add_node func_def (new_node NodeType.FunctionDefinition)
            else func_def in
          func_def <- add_state func_def declspecs ;;
          func_def <- add_state func_def declarator ;;
          func_def <- add_state func_def compound_stmt ;;
          func_def <- (match declarations with
                       | Some d => add_state func_def d
                       | None => ret func_def
                       end) ;;
          ret (it, func_def)
    else giveup_at begin "function definition".

(** The [while (it != end)] of [parser_compilation_unit]. *)
Fixpoint compilation_unit_loop (n : nat) (it : TokenIterator)
    (compilation_unit : ParserState) : M ParserResult :=
  match n with
  | 0 => out_of_fuel
  | S n' =>
      if Nat.eqb it tend then ret (it, compilation_unit)
      else
        tok <- deref it ;;
        if TokenType.eqb (type tok) TokenType.Eof then
          ret (next it, compilation_unit)
        else if TokenType.eqb (type tok) TokenType.Semicolon then
          compilation_unit_loop n' (next it) compilation_unit
        else
          '(next_it, extern_decl) <-
            parser_one_of it "external declaration"
              [ parser_function_definition; parser_declaration ] ;;
          compilation_unit <-
            add_state compilation_unit (giveup_to_expected extern_decl) ;;
          compilation_unit_loop n' next_it compilation_unit
  end.

Definition parser_compilation_unit : Rule :=
  fun begin =>
    if negb (Nat.eqb begin tend) then
      let compilation_unit := Success (Some (new_node NodeType.CompilationUnit)) in
      let it := begin in
      tok <- deref it ;;
      if negb (TokenType.eqb (type tok) TokenType.Eof)
      then compilation_unit_loop fuel it compilation_unit
      else ret (next it, compilation_unit)
    else giveup_at begin "compilation unit".

End Rules.

(** ** Tying the knot: forward-declared rules by name *)

Definition dispatch (fuel : nat) (self : RuleName -> Rule) (r : RuleName) : Rule :=
  match r with
  | Expression => parser_expression fuel self
  | PrimaryExpression => parser_primary_expression fuel self
  | CastExpression => parser_cast_expression fuel self
  | AssignmentExpression => parser_assignment_expression fuel self
  | DeclarationSpecifiers => parser_declaration_specifiers fuel self
  | Declarator => parser_declarator fuel self
  | AbstractDeclarator => parser_abstract_declarator fuel self
  | TypeName => parser_type_name fuel self
  | StructOrUnionSpecifier => parser_struct_or_union_specifier fuel self
  | EnumSpecifier => parser_enum_specifier fuel self
  | ConditionalExpression => parser_conditional_expression fuel self
  | Pointer => parser_pointer fuel self
  | Initializer => parser_initializer self
  | InitializerList => parser_initializer_list fuel self
  | UnaryExpression => parser_unary_expression fuel self
  | LabeledStatement => parser_labeled_statement self
  | CompoundStatement => parser_compound_statement fuel self
  | ExpressionStatement => parser_expression_statement fuel self
  | SelectionStatement => parser_selection_statement fuel self
  | IterationStatement => parser_iteration_statement fuel self
  | JumpStatement => parser_jump_statement fuel self
  end.

(** [run n r]: rule [r] with recursion depth and loop iterations bounded
    by [n]. *)
Fixpoint run (n : nat) (r : RuleName) : Rule :=
  match n with
  | 0 => fun _ => out_of_fuel
  | S n' => dispatch n' (run n') r
  end.

(** ** The entry point [SyntaxTree::parse] (parser.cpp, lines 3813-3842) *)

(** The [for] loop over the failures: an entry whose iterator is
    [tokens.end()] is skipped. *)
Fixpoint emit_failures (fails : ParserFailure) : M unit :=
  match fails with
  | [] => ret tt
  | fail :: rest =>
      (let context := where_ fail in
       if negb (Nat.eqb context tend) then
         if is_ErrorNote (status fail)
         then note context (error fail)
         else error_ context (error fail)
       else ret tt) ;;;
      emit_failures rest
  end.

Definition parse_with (n : nat) : M (option SyntaxTree) :=
  '(it, ast) <- parser_compilation_unit n (run n) 0 ;;
  let ast := giveup_to_expected ast in
  if negb (Nat.eqb it tend) then stuck ContractViolation   (* Ensures(it == tokens.end()) *)
  else
    match ast with
    | Success tree => ret tree
    | Failure fails => emit_failures fails ;;; ret None
    end.

Definition parse (n : nat) (prog : ProgramContext)
  : Outcome (option SyntaxTree * ProgramContext) :=
  match parse_with n {| program := prog; is_inside_specifiers := false |} with
  | Ok (tree, parser) => Ok (tree, program parser)
  | Stuck f => Stuck f
  end.

End Parser.

(** * Definitions used by the statements *)

(** ** Parser states *)

Definition errors_of (state : ParserState) : ParserFailure :=
  match state with
  | Failure es => es
  | Success _ => []
  end.

Definition tree_of (state : ParserState) : option SyntaxTree :=
  match state with
  | Failure _ => None
  | Success tree => tree
  end.

(** The states the merging operations build from fresh successes and
    [make_error]. *)
Inductive reachable : ParserState -> Prop :=
  | reach_success : forall tree, reachable (Success tree)
  | reach_make_error : forall st it msg, reachable (make_error st it msg)
  | reach_add_error : forall s e, reachable s -> reachable (add_error s e)
  | reach_add_errors : forall s es, reachable s -> reachable (add_errors s es)
  | reach_add_error_state :
      forall s o, reachable s -> reachable o -> reachable (add_error_state s o)
  | reach_add_node : forall s n, reachable s -> reachable (add_node s n)
  | reach_add_state :
      forall s o s' c c',
        reachable s -> reachable o -> add_state s o c = Ok (s', c') -> reachable s'
  | reach_giveup_to_expected :
      forall s, reachable s -> reachable (giveup_to_expected s).

(** ** Node kinds and trees *)

(** The kinds whose name ends in [List]. *)
Definition is_list_kind (ty : NodeType.t) : bool :=
  match ty with
  | NodeType.GenericAssocList | NodeType.ArgumentExpressionList
  | NodeType.InitDeclaratorList | NodeType.StructDeclarationList
  | NodeType.SpecifierQualifierList | NodeType.StructDeclaratorList
  | NodeType.EnumeratorList | NodeType.TypeQualifierList
  | NodeType.ParameterTypeList | NodeType.ParameterList
  | NodeType.IdentifierList | NodeType.InitializerList
  | NodeType.DesignatorList | NodeType.BlockItemList
  | NodeType.DeclarationList | NodeType.StringLiteralList => true
  | _ => false
  end.

(** The preserved kinds as the specification words them: every [*List]
    kind plus nine structural kinds. *)
Definition spec_preserved (ty : NodeType.t) : bool :=
  is_list_kind ty ||
  match ty with
  | NodeType.Declaration | NodeType.DeclarationSpecifiers
  | NodeType.ParameterTypeList | NodeType.ParameterList
  | NodeType.FunctionSpecifier | NodeType.AlignmentSpecifier
  | NodeType.TranslationUnit | NodeType.CompilationUnit
  | NodeType.FunctionDeclarator => true
  | _ => false
  end.

(** [should_elide] as the specification words it. *)
Definition spec_should_elide (n : SyntaxTree) : bool :=
  is_None (node_type n) ||
  (negb (has_annotation n) && negb (spec_preserved (node_type n))
   && negb (has_text n) && Nat.eqb (child_count n) 1).

(** The preserved kinds of the [switch] in [should_elide]: the [*List]
    kinds except [BlockItemList], [DeclarationList] and [StringLiteralList],
    plus seven structural kinds. *)
Definition preserved (ty : NodeType.t) : bool :=
  match ty with
  | NodeType.BlockItemList | NodeType.DeclarationList
  | NodeType.StringLiteralList => false
  | NodeType.Declaration | NodeType.DeclarationSpecifiers
  | NodeType.FunctionSpecifier | NodeType.AlignmentSpecifier
  | NodeType.CompilationUnit | NodeType.TranslationUnit
  | NodeType.FunctionDeclarator => true
  | _ => is_list_kind ty
  end.

(** The nodes of a tree, root first. *)
Fixpoint nodes (t : SyntaxTree) : list SyntaxTree :=
  match t with
  | Node _ _ _ cs => t :: flat_map nodes cs
  end.

(** A tree is settled when no node below its root is an elision
    candidate. *)
Fixpoint settled (t : SyntaxTree) : bool :=
  match t with
  | Node _ _ _ cs => forallb (fun c => negb (should_elide c) && settled c) cs
  end.

Definition settled_state (state : ParserState) : Prop :=
  match state with
  | Success (Some tree) => settled tree = true
  | _ => True
  end.

(** Partial correctness in the monad: every result of [m] satisfies [Q]. *)
Definition safe {A : Type} (m : M A) (Q : A -> Prop) : Prop :=
  forall c a c', m c = Ok (a, c') -> Q a.

Definition ok_state (state : ParserState) : Prop := settled_state state.

Definition ok_result (result : ParserResult) : Prop := ok_state (snd result).

Definition ok_flag (answer : bool * ParserState) : Prop := ok_state (snd answer).

Definition any {A : Type} (a : A) : Prop := True.

Definition safe_rule (rule : Rule) : Prop := forall it, safe (rule it) ok_result.

(** The state of [parser_compilation_unit]: a failure, or a settled tree
    under a [CompilationUnit] root. *)
Definition unit_state (state : ParserState) : Prop :=
  match state with
  | Success (Some tree) =>
      node_type tree = NodeType.CompilationUnit /\ settled tree = true
  | Success None => False
  | Failure _ => True
  end.

Definition unit_result (result : ParserResult) : Prop := unit_state (snd result).

(** ** Operator levels *)

(** The level of a binary operator token, read off the predicates of the
    eleven [parser_left_binary_operator] rules. *)
Definition left_level (k : TokenType.t) : option NodeType.t :=
  match k with
  | TokenType.Times | TokenType.Divide | TokenType.Percent =>
      Some NodeType.MultiplicativeExpression
  | TokenType.Plus | TokenType.Minus => Some NodeType.AdditiveExpression
  | TokenType.BitwiseLeftShift | TokenType.BitwiseRightShift =>
      Some NodeType.ShiftExpression
  | TokenType.LessThan | TokenType.GreaterThan
  | TokenType.LessEqual | TokenType.GreaterEqual =>
      Some NodeType.RelationalExpression
  | TokenType.EqualsTo | TokenType.NotEqualTo => Some NodeType.EqualityExpression
  | TokenType.BitwiseAnd => Some NodeType.AndExpression
  | TokenType.BitwiseXor => Some NodeType.ExclusiveOrExpression
  | TokenType.BitwiseOr => Some NodeType.InclusiveOrExpression
  | TokenType.LogicalAnd => Some NodeType.LogicalAndExpression
  | TokenType.LogicalOr => Some NodeType.LogicalOrExpression
  | TokenType.Comma => Some NodeType.Expression
  | _ => None
  end.

(** The tokens of [a OP1 b OP2 c], three identifiers around two operators,
    closed by [Eof]; the source ranges are arbitrary. *)
Definition identifier_token (r : SourceRange) : TokenData :=
  {| type := TokenType.Identifier; data := r |}.

Definition operator_token (k : TokenType.t) (r : SourceRange) : TokenData :=
  {| type := k; data := r |}.

Definition two_operators (k1 k2 : TokenType.t) (a o1 b o2 c e : SourceRange)
    (sm : SourceManager.t) : TokenStream :=
  {| token_data :=
       [ identifier_token a; operator_token k1 o1; identifier_token b;
         operator_token k2 o2; identifier_token c;
         {| type := TokenType.Eof; data := e |} ];
     source_manager := sm |}.

Definition identifier_leaf (r : SourceRange) : SyntaxTree :=
  new_leaf NodeType.Identifier (identifier_token r).

(** An operator node over two operands. *)
Definition binary_node (level : NodeType.t) (op : TokenData) (lhs rhs : SyntaxTree)
  : SyntaxTree :=
  Node level (Some op) false [lhs; rhs].

(** ** Example inputs *)

Module Examples.

(** Modelled from the spec: [to_string(TokenType)] belongs to the lexer.
    The diagnostics the specification quotes spell a punctuator as in C
    (["expected ')'"], ["to match this '('"], ["expected ';'"]). *)
Definition token_spelling (k : TokenType.t) : string :=
  match k with
  | TokenType.LeftParen => "("
  | TokenType.RightParen => ")"
  | TokenType.LeftBrace => "{"
  | TokenType.RightBrace => "}"
  | TokenType.LeftBracket => "["
  | TokenType.RightBracket => "]"
  | TokenType.Semicolon => ";"
  | TokenType.Comma => ","
  | TokenType.Colon => ":"
  | TokenType.Eof => "eof"
  | TokenType.Identifier => "identifier"
  | _ => "token"
  end.

(** An instance of [SourceRange::contains]: both ends included, as the
    [Expects] of [linecol_from_location] take them. *)
Definition range_contains (r : SourceRange) (loc : SourceLocation) : bool :=
  Nat.leb (range_begin r) loc && Nat.leb loc (range_end r).

(** Tokens laid out on one line, each followed by a blank. *)
Fixpoint layout (items : list (TokenType.t * string)) (offset : nat)
  : list TokenData * string :=
  match items with
  | [] => ([], String SourceManager.newline "")
  | (k, text) :: rest =>
      let '(toks, src) := layout rest (offset + String.length text + 1) in
      ({| type := k;
          data := {| range_begin := offset;
                     range_end := offset + String.length text |} |} :: toks,
       text +++ " " +++ src)
  end.

Definition stream (items : list (TokenType.t * string)) : TokenStream :=
  let '(toks, src) := layout items 0 in
  {| token_data := toks;
     source_manager :=
       {| SourceManager.content := src;
          SourceManager.offsets :=
            match SourceManager.SourceLineCache (S (S (String.length src))) src
                    {| range_begin := 0; range_end := String.length src |} with
            | Ok lines => lines
            | Stuck _ => []
            end |} |}.

Definition no_diagnostics : ProgramContext :=
  {| opts := {| pedantic := false |}; diagnostics := [] |}.

Definition fresh_context : ParserContext :=
  {| program := no_diagnostics; is_inside_specifiers := false |}.

(** [while (x { }] *)
Definition while_unclosed : TokenStream :=
  stream [ (TokenType.While, "while"); (TokenType.LeftParen, "(");
           (TokenType.Identifier, "x"); (TokenType.LeftBrace, "{");
           (TokenType.RightBrace, "}"); (TokenType.Eof, "") ].

(** [( )] *)
Definition empty_parens : TokenStream :=
  stream [ (TokenType.LeftParen, "("); (TokenType.RightParen, ")");
           (TokenType.Eof, "") ].

(** [int ;] *)
Definition int_semicolon : TokenStream :=
  stream [ (TokenType.IntType, "int"); (TokenType.Semicolon, ";");
           (TokenType.Eof, "") ].

(** [f ( )] and [f ( a , b )] *)
Definition call_without_arguments : TokenStream :=
  stream [ (TokenType.Identifier, "f"); (TokenType.LeftParen, "(");
           (TokenType.RightParen, ")"); (TokenType.Eof, "") ].

Definition call_with_arguments : TokenStream :=
  stream [ (TokenType.Identifier, "f"); (TokenType.LeftParen, "(");
           (TokenType.Identifier, "a"); (TokenType.Comma, ",");
           (TokenType.Identifier, "b"); (TokenType.RightParen, ")");
           (TokenType.Eof, "") ].

(** [a + ;] *)
Definition dangling_plus : TokenStream :=
  stream [ (TokenType.Identifier, "a"); (TokenType.Plus, "+");
           (TokenType.Semicolon, ";"); (TokenType.Eof, "") ].

(** [void f ( ) { while ( a +], cut off by the end of the file. *)
Definition unfinished_while : TokenStream :=
  stream [ (TokenType.VoidType, "void"); (TokenType.Identifier, "f");
           (TokenType.LeftParen, "("); (TokenType.RightParen, ")");
           (TokenType.LeftBrace, "{"); (TokenType.While, "while");
           (TokenType.LeftParen, "("); (TokenType.Identifier, "a");
           (TokenType.Plus, "+"); (TokenType.Eof, "") ].

(** [_Static_assert ( a +], cut off by the end of the file. *)
Definition unfinished_static_assert : TokenStream :=
  stream [ (TokenType.StaticAssert, "_Static_assert"); (TokenType.LeftParen, "(");
           (TokenType.Identifier, "a"); (TokenType.Plus, "+");
           (TokenType.Eof, "") ].

(** Two [Eof] tokens: not a stream the lexer produces. *)
Definition two_eofs : TokenStream :=
  stream [ (TokenType.Eof, ""); (TokenType.Eof, "") ].

(** [int f ( ) int a ; { }] and [int f ( ) int a ; int b ; { }]: function
    definitions with a declaration list. *)
Definition one_declaration : TokenStream :=
  stream [ (TokenType.IntType, "int"); (TokenType.Identifier, "f");
           (TokenType.LeftParen, "("); (TokenType.RightParen, ")");
           (TokenType.IntType, "int"); (TokenType.Identifier, "a");
           (TokenType.Semicolon, ";");
           (TokenType.LeftBrace, "{"); (TokenType.RightBrace, "}");
           (TokenType.Eof, "") ].

Definition two_declarations : TokenStream :=
  stream [ (TokenType.IntType, "int"); (TokenType.Identifier, "f");
           (TokenType.LeftParen, "("); (TokenType.RightParen, ")");
           (TokenType.IntType, "int"); (TokenType.Identifier, "a");
           (TokenType.Semicolon, ";");
           (TokenType.IntType, "int"); (TokenType.Identifier, "b");
           (TokenType.Semicolon, ";");
           (TokenType.LeftBrace, "{"); (TokenType.RightBrace, "}");
           (TokenType.Eof, "") ].

(** [x ;] for the type-specifier context. *)
Definition lone_identifier : TokenStream :=
  stream [ (TokenType.Identifier, "x"); (TokenType.Semicolon, ";");
           (TokenType.Eof, "") ].

End Examples.

(** ** Diagnostics of the entry point *)

Section Emission.

Variable contains : SourceRange -> nat -> bool.
Variable token_stream : TokenStream.

(** The position of a token as [token_info] resolves it through the source
    manager. *)
Definition token_debug (it : nat) : Outcome TokenDebug :=
  match nth_error (tokens token_stream) it with
  | Some tok =>
      match SourceManager.linecol_from_location contains
              (source_manager token_stream) (range_begin (data tok)) with
      | Ok p => Ok {| pos := p; range := data tok |}
      | Stuck f => Stuck f
      end
  | None => Stuck InvalidDereference
  end.

(** An [ErrorNote] is reported as a note, any other entry as an error. *)
Definition diagnostic_of (fail : ParserError) (i : TokenDebug) : Diagnostic :=
  {| kind := if is_ErrorNote (status fail) then DiagNote else DiagError;
     info := i;
     message := error fail |}.

(** The diagnostics of a failure list, in list order; an entry stored at
    [tokens.end()] has none. *)
Fixpoint emitted (fails : ParserFailure) : Outcome (list Diagnostic) :=
  match fails with
  | [] => Ok []
  | fail :: rest =>
      if Nat.eqb (where_ fail) (tend token_stream) then emitted rest
      else
        match token_debug (where_ fail) with
        | Ok i =>
            match emitted rest with
            | Ok ds => Ok (diagnostic_of fail i :: ds)
            | Stuck f => Stuck f
            end
        | Stuck f => Stuck f
        end
  end.

End Emission.

(** ** Claims read literally *)

(** The reading of "once [open] is consumed it commits": whenever the
    current token is [open], the result is no give-up. *)
Definition claimed_parens_commit : Prop :=
  forall token_to_string token_stream rule open close begin c result c',
    token_is token_stream begin open c = Ok (true, c) ->
    parser_parens token_to_string token_stream rule open close begin c
    = Ok (result, c') ->
    is_giveup (snd result) = false.

(** ** Promotion of give-ups *)

(** The entry that [giveup_to_expected] (the overload without [what]) adds
    for an entry of a failure. *)
Definition promoted (e : ParserError) : ParserError :=
  if is_GiveUp (status e)
  then {| status := Error; where_ := where_ e; error := "expected " +++ error e |}
  else e.

(** ** What a rule may do to the context *)

(** The one report the rules themselves make (parser.cpp, lines 403 and
    416). *)
Definition empty_statement_report (d : Diagnostic) : Prop :=
  kind d = DiagPedantic /\ message d = "empty statement".

(** [c'] is [c] with such reports added and nothing else changed. *)
Definition extends (c c' : ParserContext) : Prop :=
  is_inside_specifiers c' = is_inside_specifiers c /\
  opts (program c') = opts (program c) /\
  exists ds,
    diagnostics (program c') = diagnostics (program c) ++ ds /\
    Forall empty_statement_report ds.

Definition framed {A : Type} (m : M A) : Prop :=
  forall c a c', m c = Ok (a, c') -> extends c c'.

Definition framed_rule (rule : Rule) : Prop := forall it, framed (rule it).

(** ** More example inputs *)

Module Inputs.

(** [void f ( ) { ; }] *)
Definition empty_body : TokenStream :=
  Examples.stream
    [ (TokenType.VoidType, "void"); (TokenType.Identifier, "f");
      (TokenType.LeftParen, "("); (TokenType.RightParen, ")");
      (TokenType.LeftBrace, "{"); (TokenType.Semicolon, ";");
      (TokenType.RightBrace, "}"); (TokenType.Eof, "") ].

End Inputs.

(** ** Line tables *)

(** [offsets] is the line table of the characters from [b] up to [e]: each
    line begins where the one before it ended, and ends at the first newline
    after its beginning. *)
Fixpoint line_table (buffer : string) (b e : SourceLocation)
    (offsets : list SourceRange) : Prop :=
  match offsets with
  | [] => b = e
  | r :: rest =>
      range_begin r = b /\ b <= range_end r /\ range_end r < e /\
      String.get (range_end r) buffer = Some SourceManager.newline /\
      (forall i, b <= i < range_end r ->
         String.get i buffer <> Some SourceManager.newline) /\
      line_table buffer (S (range_end r)) e rest
  end.

(** [SourceManager::line_range_from_location] (source_manager.cpp, lines
    43-47). *)
Definition line_range_from_location (contains : SourceRange -> SourceLocation -> bool)
    (sm : SourceManager.t) (loc : SourceLocation) : Outcome SourceRange :=
  match SourceManager.linecol_from_location contains sm loc with
  | Ok lc => SourceManager.line_range_at sm (SourceManager.line lc)
  | Stuck f => Stuck f
  end.

(** ** Iterators stay in range *)

(** The iterator of a result lies between [lo] and [tokens.end()]. *)
Definition in_range (token_stream : TokenStream) (lo : TokenIterator)
    (result : ParserResult) : Prop :=
  lo <= fst result /\ fst result <= tend token_stream.

Definition ranged_rule (token_stream : TokenStream) (rule : Rule) : Prop :=
  forall it, it <= tend token_stream -> safe (rule it) (in_range token_stream it).

(** ** States a rule may return *)

(** Any state but the failure without an error. *)
Definition not_empty (state : ParserState) : Prop :=
  match state with
  | Failure [] => False
  | _ => True
  end.

(** A failure that holds an error, or a success that holds a tree. *)
Definition whole (state : ParserState) : Prop :=
  match state with
  | Failure [] => False
  | Success None => False
  | _ => True
  end.

Definition whole_result (result : ParserResult) : Prop := whole (snd result).

Definition whole_rule (rule : Rule) : Prop := forall it, safe (rule it) whole_result.

(** The entries that [giveup_to_expected] with [what] adds for an entry of a
    failure: the error, and a note naming the token found when the give-up
    came with a message. *)
Definition expected_entries (token_to_string : TokenType.t -> string)
    (token_stream : TokenStream) (what : string) (e : ParserError)
  : list ParserError :=
  if is_GiveUp (status e) then
    {| status := Error; where_ := where_ e; error := "expected " +++ what |}
    :: (if String.eqb (error e) "" then []
        else match nth_error (tokens token_stream) (where_ e) with
             | Some tok =>
                 [ {| status := ErrorNote; where_ := where_ e;
                      error := error e +++ " instead of this '"
                               +++ token_to_string (type tok) +++ "'" |} ]
             | None => []
             end)
  else [e].

(** ** Errors point into the tokens *)

(** Every entry of a failure sits at an iterator of the token vector,
    [tokens.end()] included. *)
Definition placed (token_stream : TokenStream) (state : ParserState) : Prop :=
  Forall (fun e => where_ e <= tend token_stream) (errors_of state).

Definition placed_result (token_stream : TokenStream) (lo : TokenIterator)
    (result : ParserResult) : Prop :=
  in_range token_stream lo result /\ placed token_stream (snd result).

Definition placed_rule (token_stream : TokenStream) (rule : Rule) : Prop :=
  forall it,
    it <= tend token_stream -> safe (rule it) (placed_result token_stream it).

(** ** Alternatives tried in turn *)

(** The rules of [rules], run at [begin] one after the other starting in
    context [c], all gave up, and the last one left context [c']. *)
Fixpoint all_gave_up (rules : list Rule) (begin : TokenIterator)
    (c c' : ParserContext) : Prop :=
  match rules with
  | [] => c' = c
  | rule :: rest =>
      exists it state c1,
        rule begin c = Ok ((it, state), c1) /\ is_giveup state = true /\
        all_gave_up rest begin c1 c'
  end.

(** ** Roots of expression trees *)

(** The tree of a success is no elision candidate: [add_node] adds it as a
    child. *)
Definition rooted (state : ParserState) : Prop :=
  match state with
  | Success (Some tree) => should_elide tree = false
  | _ => True
  end.

(** The tree of a success has a kind other than [None] and a text. *)
Definition texted (state : ParserState) : Prop :=
  match state with
  | Success (Some tree) => is_None (node_type tree) = false /\ has_text tree = true
  | Success None => False
  | Failure _ => True
  end.

(** The tree of a success has a kind other than [None] and at least [k]
    children. *)
Definition wide (k : nat) (state : ParserState) : Prop :=
  match state with
  | Success (Some tree) => is_None (node_type tree) = false /\ k <= child_count tree
  | Success None => False
  | Failure _ => True
  end.

(** [add_node] gets at least one child out of the tree of a success. *)
Definition filled (state : ParserState) : Prop :=
  match state with
  | Success (Some tree) => should_elide tree = false \/ 1 <= child_count tree
  | _ => True
  end.

(** The tree of a success has kind [ty]. *)
Definition kinded (ty : NodeType.t) (state : ParserState) : Prop :=
  match state with
  | Success (Some tree) => node_type tree = ty
  | Success None => False
  | Failure _ => True
  end.

(** A predicate that every failure satisfies. *)
Definition lenient (P : ParserState -> Prop) : Prop :=
  forall es : ParserFailure, P (Failure es).

(** Every state that [rule] returns satisfies [P]. *)
Definition yields (P : ParserState -> Prop) (rule : Rule) : Prop :=
  forall it c result c', rule it c = Ok (result, c') -> P (snd result).

(** The forward-declared rules that parse an expression. *)
Definition expression_rule (r : RuleName) : bool :=
  match r with
  | Expression | PrimaryExpression | CastExpression | AssignmentExpression
  | ConditionalExpression | UnaryExpression => true
  | _ => false
  end.

(** * Properties *)

(** ** Running the monad *)

Lemma bind_Ok : forall (A B : Type) (m : M A) (k : A -> M B) c a c',
  m c = Ok (a, c') -> bind m k c = k a c'.
Proof. intros A B m k c a c' H. unfold bind. rewrite H. reflexivity. Qed.

Lemma bind_Stuck : forall (A B : Type) (m : M A) (k : A -> M B) c f,
  m c = Stuck f -> bind m k c = Stuck f.
Proof. intros A B m k c f H. unfold bind. rewrite H. reflexivity. Qed.

Lemma bind_ret : forall (A B : Type) (a : A) (k : A -> M B) c,
  bind (ret a) k c = k a c.
Proof. reflexivity. Qed.

Section TokenFacts.

Variable token_stream : TokenStream.

Lemma in_range_not_end : forall it tok,
  nth_error (tokens token_stream) it = Some tok ->
  Nat.eqb it (tend token_stream) = false.
Proof.
  intros it tok H. apply Nat.eqb_neq. unfold tend.
  assert (it < List.length (tokens token_stream)) by (apply nth_error_Some; congruence).
  lia.
Qed.

Lemma deref_in_range : forall it tok c,
  nth_error (tokens token_stream) it = Some tok ->
  deref token_stream it c = Ok (tok, c).
Proof. intros it tok c H. unfold deref. rewrite H. reflexivity. Qed.

Lemma deref_end : forall c,
  deref token_stream (tend token_stream) c = Stuck InvalidDereference.
Proof.
  intro c. unfold deref.
  replace (nth_error (tokens token_stream) (tend token_stream)) with (@None TokenData).
  - reflexivity.
  - symmetry. apply nth_error_None. unfold tend. lia.
Qed.

Lemma token_is_in_range : forall it tok k c,
  nth_error (tokens token_stream) it = Some tok ->
  token_is token_stream it k c = Ok (TokenType.eqb (type tok) k, c).
Proof.
  intros it tok k c H. unfold token_is.
  rewrite (in_range_not_end _ H). unfold bind. rewrite (deref_in_range _ c H).
  reflexivity.
Qed.

Lemma token_is_end : forall k c,
  token_is token_stream (tend token_stream) k c = Ok (false, c).
Proof. intros k c. unfold token_is. rewrite Nat.eqb_refl. reflexivity. Qed.

End TokenFacts.

(** ** The state algebra *)

Lemma add_errors_Failure : forall es es0,
  add_errors (Failure es0) es = Failure (es0 ++ es).
Proof.
  induction es as [|e es IH]; intro es0; simpl.
  - rewrite app_nil_r. reflexivity.
  - unfold add_errors in *. simpl. rewrite IH, <- app_assoc. reflexivity.
Qed.

Lemma add_errors_Success : forall es tree,
  es <> [] -> add_errors (Success tree) es = Failure es.
Proof.
  intros [|e es] tree H; [congruence|].
  unfold add_errors. simpl. apply (add_errors_Failure es [e]).
Qed.

Lemma add_error_errors_of : forall s e,
  add_error s e = Failure (errors_of s ++ [e]).
Proof. intros [es|t] e; reflexivity. Qed.

Lemma add_errors_errors_of : forall es s,
  es <> [] -> add_errors s es = Failure (errors_of s ++ es).
Proof.
  intros es [es0|t] H; simpl.
  - apply add_errors_Failure.
  - apply add_errors_Success. exact H.
Qed.

(** C3. A success never coexists with accumulated errors: [add_error] on a
    success replaces it by a failure holding that one error, [add_error] on a
    failure appends the error, and every state built through the merging
    operations is a success without errors or a failure without a tree. *)
Theorem success_never_coexists_with_errors :
  (forall tree e, add_error (Success tree) e = Failure [e]) /\
  (forall es e, add_error (Failure es) e = Failure (es ++ [e])) /\
  (forall s, reachable s ->
     (is_success s = true /\ errors_of s = []) \/
     (is_success s = false /\ tree_of s = None)).
Proof.
  split; [reflexivity|]. split; [reflexivity|].
  intros s _. destruct s as [es|tree]; [right|left]; split; reflexivity.
Qed.

Lemma success_never_coexists_with_errors_witness :
  let e := {| status := Error; where_ := 0; error := "expected ';'" |} in
  reachable (add_error (Success None) e) /\
  ((is_success (add_error (Success None) e) = true
    /\ errors_of (add_error (Success None) e) = []) \/
   (is_success (add_error (Success None) e) = false
    /\ tree_of (add_error (Success None) e) = None)).
Proof.
  intro e. split.
  - apply reach_add_error. apply reach_success.
  - apply (proj2 (proj2 success_never_coexists_with_errors)).
    apply reach_add_error. apply reach_success.
Defined.

(** ** Elision *)

Lemma should_elide_spec : forall n,
  should_elide n = true <->
  (node_type n = NodeType.None \/
   (has_annotation n = false /\ preserved (node_type n) = false /\
    has_text n = false /\ child_count n = 1)).
Proof.
  intros [ty tok ann cs]. unfold should_elide, has_text, child_count. simpl.
  destruct ty; destruct ann; destruct tok; simpl;
    rewrite ?Nat.eqb_eq; intuition (try discriminate; try congruence).
Qed.

(** ** The source manager *)

(** C9, at the failing input: a buffer that does not end in a newline.  The
    loop of the line cache records the last line, steps one past the end of
    the buffer and reads there: no amount of fuel yields a line table. *)
Theorem line_cache_needs_final_newline :
  forall fuel,
    exists f,
      SourceManager.SourceLineCache fuel "ab" {| range_begin := 0; range_end := 2 |}
      = Stuck f.
Proof.
  intro fuel. unfold SourceManager.SourceLineCache.
  do 8 (destruct fuel as [|fuel]; [eexists; reflexivity|]).
  eexists. reflexivity.
Qed.

Lemma line_cache_with_final_newline :
  SourceManager.SourceLineCache 10 ("ab" +++ String SourceManager.newline "cd"
                                    +++ String SourceManager.newline "")
    {| range_begin := 0; range_end := 6 |}
  = Ok [ {| range_begin := 0; range_end := 2 |};
         {| range_begin := 3; range_end := 5 |} ].
Proof. reflexivity. Qed.

Lemma linecol_scan_one_based : forall contains ranges index loc lc,
  SourceManager.linecol_scan contains ranges index loc = Ok lc ->
  1 <= SourceManager.line lc /\ 1 <= SourceManager.column lc.
Proof.
  intros contains ranges.
  induction ranges as [|r rs IH]; intros index loc lc H; simpl in H; [discriminate|].
  destruct (contains r loc).
  - inversion H; subst; simpl. lia.
  - apply (IH _ _ _ H).
Qed.

Lemma linecol_one_based : forall contains sm loc lc,
  SourceManager.linecol_from_location contains sm loc = Ok lc ->
  1 <= SourceManager.line lc /\ 1 <= SourceManager.column lc.
Proof.
  intros contains sm loc lc. unfold SourceManager.linecol_from_location.
  destruct (SourceManager.offsets sm) as [|front rest]; [discriminate|].
  destruct (negb _); [discriminate|]. destruct (negb _); [discriminate|].
  apply linecol_scan_one_based.
Qed.

(** ** Typedef names *)

Ltac deref_step :=
  erewrite bind_Ok by (apply deref_in_range; eassumption).

Ltac token_is_step :=
  erewrite bind_Ok by (apply token_is_in_range; eassumption).

Ltac rule_step lemma :=
  erewrite bind_Ok by (eapply lemma; eassumption).

Section TypedefName.

Variable token_to_string : TokenType.t -> string.
Variable contains : SourceRange -> nat -> bool.
Variable token_stream : TokenStream.

Lemma typedef_name_gives_up : forall begin c,
  parser_typedef_name token_stream begin c
  = Ok ((tend token_stream, make_error GiveUp begin "typedef name"), c).
Proof. reflexivity. Qed.

Lemma atomic_type_specifier_needs_atomic : forall self begin tok c,
  nth_error (tokens token_stream) begin = Some tok ->
  type tok = TokenType.Identifier ->
  parser_atomic_type_specifier token_to_string token_stream self begin c
  = Ok ((tend token_stream, make_error GiveUp begin "atomic type specifier"), c).
Proof.
  intros self begin tok c Htok Hid. unfold parser_atomic_type_specifier.
  erewrite in_range_not_end by eassumption. cbn [negb andb].
  destruct (Nat.eqb (next begin) (tend token_stream)) eqn:Hnext; simpl; [reflexivity|].
  deref_step.
  destruct (nth_error (tokens token_stream) (next begin)) as [paren|] eqn:Hparen.
  - deref_step.
    rewrite Hid. reflexivity.
  - exfalso. apply nth_error_None in Hparen. apply Nat.eqb_neq in Hnext.
    assert (begin < List.length (tokens token_stream))
      by (apply nth_error_Some; congruence).
    unfold tend, next in *. lia.
Qed.

Lemma struct_or_union_specifier_needs_keyword : forall n self begin tok c,
  nth_error (tokens token_stream) begin = Some tok ->
  type tok = TokenType.Identifier ->
  parser_struct_or_union_specifier token_to_string token_stream n self begin c
  = Ok ((tend token_stream, make_error GiveUp begin "struct or union specifier"), c).
Proof.
  intros n self begin tok c Htok Hid. unfold parser_struct_or_union_specifier.
  erewrite in_range_not_end by eassumption. cbn [negb].
  deref_step.
  rewrite Hid. reflexivity.
Qed.

Lemma enum_specifier_needs_keyword : forall n self begin tok c,
  nth_error (tokens token_stream) begin = Some tok ->
  type tok = TokenType.Identifier ->
  parser_enum_specifier token_to_string token_stream n self begin c
  = Ok ((tend token_stream, make_error GiveUp begin "enumerator specifier"), c).
Proof.
  intros n self begin tok c Htok Hid. unfold parser_enum_specifier.
  token_is_step.
  rewrite Hid. reflexivity.
Qed.

Lemma type_specifier_alternatives_giveup : forall n begin tok c,
  nth_error (tokens token_stream) begin = Some tok ->
  type tok = TokenType.Identifier ->
  parser_one_of token_stream begin "type specifier"
    [ parser_atomic_type_specifier token_to_string token_stream
        (run token_to_string contains token_stream (S n));
      run token_to_string contains token_stream (S n) StructOrUnionSpecifier;
      run token_to_string contains token_stream (S n) EnumSpecifier;
      parser_typedef_name token_stream ] c
  = Ok ((tend token_stream, make_error GiveUp begin "type specifier"), c).
Proof.
  intros n begin tok c Htok Hid. unfold parser_one_of.
  rule_step atomic_type_specifier_needs_atomic.
  cbn [is_giveup make_error forallb status is_GiveUp negb andb].
  erewrite bind_Ok
    by (simpl run; unfold dispatch;
        eapply struct_or_union_specifier_needs_keyword; eassumption).
  cbn [is_giveup make_error forallb status is_GiveUp negb andb].
  erewrite bind_Ok
    by (simpl run; unfold dispatch;
        eapply enum_specifier_needs_keyword; eassumption).
  reflexivity.
Qed.

(** C7. [parser_typedef_name] gives up on every input and so builds no
    [TypedefName] node; a type specifier that starts at an identifier finds
    no alternative and gives up too, leaving the parser context as it was. *)
Theorem typedef_name_never_matches :
  (forall begin c,
     parser_typedef_name token_stream begin c
     = Ok ((tend token_stream, make_error GiveUp begin "typedef name"), c)) /\
  (forall n begin tok c,
     nth_error (tokens token_stream) begin = Some tok ->
     type tok = TokenType.Identifier ->
     parser_type_specifier token_to_string token_stream
       (run token_to_string contains token_stream (S n)) begin c
     = Ok ((tend token_stream, make_error GiveUp begin "type specifier"),
           {| program := program c;
              is_inside_specifiers := is_inside_specifiers c |})).
Proof.
  split; [exact typedef_name_gives_up|].
  intros n begin tok c Htok Hid. unfold parser_type_specifier.
  erewrite in_range_not_end by eassumption. cbn [negb].
  deref_step.
  rewrite Hid. cbn [is_basic_type].
  unfold get_inside_specifiers, set_inside_specifiers, bind.
  erewrite type_specifier_alternatives_giveup by eassumption.
  reflexivity.
Qed.

End TypedefName.

Lemma typedef_name_never_matches_witness :
  let tok := {| type := TokenType.Identifier;
                data := {| range_begin := 0; range_end := 1 |} |} in
  nth_error (tokens Examples.lone_identifier) 0 = Some tok /\
  type tok = TokenType.Identifier /\
  parser_type_specifier Examples.token_spelling Examples.lone_identifier
    (run Examples.token_spelling Examples.range_contains Examples.lone_identifier 1)
    0 Examples.fresh_context
  = Ok ((3, make_error GiveUp 0 "type specifier"), Examples.fresh_context).
Proof.
  intro tok. split; [reflexivity|]. split; [reflexivity|].
  apply (proj2 (typedef_name_never_matches Examples.token_spelling
                  Examples.range_contains Examples.lone_identifier)
           0 0 tok Examples.fresh_context); reflexivity.
Defined.

(** ** Promotion of give-ups *)

Section Promotion.

Variable token_to_string : TokenType.t -> string.
Variable token_stream : TokenStream.

Lemma add_errors_cons : forall s e es,
  add_errors s (e :: es) = add_errors (add_error s e) es.
Proof. reflexivity. Qed.

Lemma add_errors_app : forall es1 es2 s,
  add_errors s (es1 ++ es2) = add_errors (add_errors s es1) es2.
Proof. intros es1 es2 s. unfold add_errors. apply fold_left_app. Qed.

(** What the loop of [giveup_to_expected] appends: an [Error] with the
    message ["expected <what>"] for each give-up, and no give-up. *)
Lemma giveup_to_expected_loop_converts : forall what es s0 c s' c',
  giveup_to_expected_loop token_to_string token_stream what es s0 c = Ok (s', c') ->
  c' = c /\
  exists added,
    s' = add_errors s0 added /\
    (es <> [] -> added <> []) /\
    (forall e, In e es -> status e = GiveUp ->
       In {| status := Error; where_ := where_ e; error := "expected " +++ what |} added) /\
    (forall e', In e' added -> status e' <> GiveUp).
Proof.
  intros what es. induction es as [|e es IH]; intros s0 c s' c' H.
  - inversion H; subst. split; [reflexivity|]. exists []. repeat split.
    + intro Hne. congruence.
    + intros e [].
    + intros e' [].
  - cbn [giveup_to_expected_loop] in H.
    destruct (is_GiveUp (status e)) eqn:Hg.
    + destruct (String.eqb (error e) "").
      * destruct (IH _ _ _ _ H) as (Hc & added & Hs & _ & Hin & Hout).
        split; [exact Hc|].
        exists ({| status := Error; where_ := where_ e; error := "expected " +++ what |}
                  :: added).
        split; [rewrite add_errors_cons; exact Hs|]. split; [congruence|]. split.
        -- intros e0 [He0|He0] Hst; [subst e0; left; reflexivity|right; auto].
        -- intros e' [He'|He']; [subst e'; discriminate|auto].
      * unfold bind in H.
        destruct (deref token_stream (where_ e) c) as [[tok c1]|f] eqn:Hd; [|discriminate].
        assert (c1 = c).
        { unfold deref in Hd. destruct (nth_error _ _); inversion Hd; reflexivity. }
        subst c1.
        destruct (IH _ _ _ _ H) as (Hc & added & Hs & _ & Hin & Hout).
        split; [exact Hc|].
        eexists (_ :: _ :: added).
        split; [rewrite !add_errors_cons; exact Hs|]. split; [congruence|]. split.
        -- intros e0 [He0|He0] Hst; [subst e0; left; reflexivity|right; right; auto].
        -- intros e' [He'|[He'|He']]; [subst e'; discriminate|subst e'; discriminate|auto].
    + destruct (IH _ _ _ _ H) as (Hc & added & Hs & _ & Hin & Hout).
      split; [exact Hc|].
      exists (e :: added).
      split; [rewrite add_errors_cons; exact Hs|]. split; [congruence|]. split.
      * intros e0 [He0|He0] Hst; [subst e0; rewrite Hst in Hg; discriminate|right; auto].
      * intros e' [He'|He']; [subst e'; intro Hst; rewrite Hst in Hg; discriminate|auto].
Qed.

Lemma no_giveup_entries : forall es,
  es <> [] -> (forall e, In e es -> status e <> GiveUp) ->
  is_giveup (Failure es) = false.
Proof.
  intros [|e es] Hne Hall; [congruence|]. simpl.
  destruct (status e) eqn:Hst; try reflexivity.
  exfalso. apply (Hall e); [left; reflexivity|exact Hst].
Qed.

(** [giveup_to_expected] with [what], on a failure: every give-up becomes
    the error ["expected <what>"] at the same token, and the result is no
    give-up any more. *)
Lemma giveup_to_expected_what_converts : forall es what c s' c',
  giveup_to_expected_what token_to_string token_stream (Failure es) what c = Ok (s', c') ->
  c' = c /\
  is_giveup s' = false /\
  (es <> [] -> is_success s' = false) /\
  (forall e, In e es -> status e = GiveUp ->
     In {| status := Error; where_ := where_ e; error := "expected " +++ what |}
        (errors_of s')).
Proof.
  intros es what c s' c' H. unfold giveup_to_expected_what in H.
  destruct (giveup_to_expected_loop_converts _ _ _ _ H)
    as (Hc & added & Hs & Hne & Hin & Hout).
  split; [exact Hc|].
  destruct added as [|a added].
  - subst s'. simpl. split; [reflexivity|]. split.
    + intro Hes. exfalso. apply (Hne Hes). reflexivity.
    + intros e He Hst. destruct (Hin e He Hst).
  - rewrite add_errors_Success in Hs by congruence. subst s'.
    split; [apply no_giveup_entries; [congruence|exact Hout]|].
    split; [reflexivity|]. exact Hin.
Qed.

(** ** The fold of [parser_left_binary_operator] *)

(** C8. In the loop of [parser_left_binary_operator], when the operator rule
    matched at [lhs_it] and stopped at [op_it] and the right-hand side did not
    succeed, both operands go through [giveup_to_expected] with the message
    ["expression for operator '<op>'"], so that each give-up of the right-hand
    side becomes the error ["expected expression for operator '<op>'"]; they
    are merged into the operator's state, and the loop continues one token
    after [op_it], or at [op_it] when that is the end. *)
Theorem left_binary_recovery_hop :
  forall op_rule rhs_rule n lhs_it lhs_state c op_it op_state c1 op rhs_it rhs_state c2,
    op_rule lhs_it c = Ok ((op_it, op_state), c1) ->
    is_giveup op_state = false ->
    nth_error (tokens token_stream) lhs_it = Some op ->
    rhs_rule op_it c1 = Ok ((rhs_it, rhs_state), c2) ->
    is_success rhs_state = false ->
    let what := "expression for operator '" +++ token_text token_stream op +++ "'" in
    left_binary_loop token_to_string token_stream op_rule rhs_rule (S n)
      lhs_it lhs_state c
    = (lhs' <- giveup_to_expected_what token_to_string token_stream lhs_state what ;;
       merged <- add_state op_state lhs' ;;
       rhs' <- giveup_to_expected_what token_to_string token_stream rhs_state what ;;
       merged <- add_state merged rhs' ;;
       left_binary_loop token_to_string token_stream op_rule rhs_rule n
         (if Nat.eqb op_it (tend token_stream) then op_it else next op_it)
         merged) c2
    /\
    (forall rhs' c3,
       giveup_to_expected_what token_to_string token_stream rhs_state what c2
       = Ok (rhs', c3) ->
       is_giveup rhs' = false /\
       forall e, In e (errors_of rhs_state) -> status e = GiveUp ->
         In {| status := Error; where_ := where_ e;
               error := "expected expression for operator '"
                        +++ token_text token_stream op +++ "'" |}
            (errors_of rhs')).
Proof.
  intros op_rule rhs_rule n lhs_it lhs_state c op_it op_state c1 op rhs_it rhs_state c2
         Hop Hcommitted Htok Hrhs Hfailed what.
  split.
  - cbn [left_binary_loop].
    erewrite bind_Ok by eassumption. cbv beta iota.
    rewrite Hcommitted. cbn [negb].
    unfold bind at 1. unfold deref. rewrite Htok. unfold ret at 1.
    erewrite bind_Ok by eassumption. cbv beta iota. rewrite Hfailed.
    destruct (Nat.eqb op_it (tend token_stream)); reflexivity.
  - intros rhs' c3 Hconv.
    destruct rhs_state as [es|t]; [|discriminate].
    destruct (giveup_to_expected_what_converts _ _ _ Hconv) as (_ & Hg & _ & Hin).
    split; [exact Hg|]. exact Hin.
Qed.

End Promotion.

Lemma left_binary_recovery_hop_witness :
  left_binary_loop Examples.token_spelling Examples.dangling_plus
    (additive_operator Examples.dangling_plus)
    (parser_multiplicative_expression Examples.token_spelling Examples.dangling_plus 30
       (run Examples.token_spelling Examples.range_contains Examples.dangling_plus 30))
    2 1
    (Success (Some (new_leaf NodeType.Identifier
                      {| type := TokenType.Identifier;
                         data := {| range_begin := 0; range_end := 1 |} |})))
    Examples.fresh_context
  = Ok ((3, Failure
              [ {| status := Error; where_ := 2;
                   error := "expected expression for operator '+'" |};
                {| status := ErrorNote; where_ := 2;
                   error := "cast or unary expression instead of this ';'" |} ]),
        Examples.fresh_context).
Proof.
  edestruct (left_binary_recovery_hop Examples.token_spelling Examples.dangling_plus
               (additive_operator Examples.dangling_plus)
               (parser_multiplicative_expression Examples.token_spelling
                  Examples.dangling_plus 30
                  (run Examples.token_spelling Examples.range_contains
                     Examples.dangling_plus 30))
               1 1
               (Success (Some (new_leaf NodeType.Identifier
                                 {| type := TokenType.Identifier;
                                    data := {| range_begin := 0; range_end := 1 |} |})))
               Examples.fresh_context) as [Hstep _].
  - vm_compute. reflexivity.
  - reflexivity.
  - reflexivity.
  - vm_compute. reflexivity.
  - reflexivity.
  - rewrite Hstep. vm_compute. reflexivity.
Defined.

(** ** Parenthesised rules *)

Section Parens.

Variable token_to_string : TokenType.t -> string.
Variable token_stream : TokenStream.
Variable rule : Rule.
Variables open close : TokenType.t.

Lemma parens_without_open : forall begin c,
  token_is token_stream begin open c = Ok (false, c) ->
  parser_parens token_to_string token_stream rule open close begin c
  = Ok ((tend token_stream,
         make_error GiveUp begin ("'" +++ token_to_string open +++ "'")), c).
Proof.
  intros begin c H. unfold parser_parens.
  erewrite bind_Ok by eassumption. reflexivity.
Qed.

Lemma parens_inner_giveup : forall begin c it state c1,
  token_is token_stream begin open c = Ok (true, c) ->
  rule (next begin) c = Ok ((it, state), c1) ->
  is_giveup state = true ->
  parser_parens token_to_string token_stream rule open close begin c
  = Ok ((it, state), c1).
Proof.
  intros begin c it state c1 Hopen Hrule Hg. unfold parser_parens.
  erewrite bind_Ok by eassumption. cbv beta iota.
  erewrite bind_Ok by eassumption. cbv beta iota.
  rewrite Hg. reflexivity.
Qed.

Lemma parens_closed : forall begin c it state c1 tok,
  token_is token_stream begin open c = Ok (true, c) ->
  rule (next begin) c = Ok ((it, state), c1) ->
  is_giveup state = false ->
  nth_error (tokens token_stream) it = Some tok ->
  type tok = close ->
  parser_parens token_to_string token_stream rule open close begin c
  = Ok ((next it, state), c1).
Proof.
  intros begin c it state c1 tok Hopen Hrule Hg Htok Hclose. unfold parser_parens.
  erewrite bind_Ok by eassumption. cbv beta iota.
  erewrite bind_Ok by eassumption. cbv beta iota.
  rewrite Hg. cbn [negb]. unfold expect_end_token.
  erewrite in_range_not_end by eassumption. cbn [negb].
  unfold bind at 1. unfold bind at 1. unfold deref. rewrite Htok. unfold ret at 1.
  rewrite Hclose, TokenType.eqb_refl. reflexivity.
Qed.

Lemma parens_missing_close : forall begin c it state c1 tok open_tok,
  token_is token_stream begin open c = Ok (true, c) ->
  rule (next begin) c = Ok ((it, state), c1) ->
  is_giveup state = false ->
  nth_error (tokens token_stream) it = Some tok ->
  type tok <> close ->
  nth_error (tokens token_stream) begin = Some open_tok ->
  parser_parens token_to_string token_stream rule open close begin c
  = Ok ((it,
         add_error
           (add_error state
              {| status := Error; where_ := it;
                 error := "expected '" +++ token_to_string close +++ "'" |})
           {| status := ErrorNote; where_ := begin;
              error := "to match this '" +++ token_to_string (type open_tok) +++ "'" |}),
        c1).
Proof.
  intros begin c it state c1 tok open_tok Hopen Hrule Hg Htok Hclose Hbegin.
  unfold parser_parens.
  erewrite bind_Ok by eassumption. cbv beta iota.
  erewrite bind_Ok by eassumption. cbv beta iota.
  rewrite Hg. cbn [negb]. unfold expect_end_token.
  erewrite in_range_not_end by eassumption. cbn [negb].
  unfold bind at 1. unfold bind at 1. unfold deref at 1. rewrite Htok. unfold ret at 1.
  assert (Hne : TokenType.eqb (type tok) close = false).
  { destruct (TokenType.eqb (type tok) close) eqn:E; [|reflexivity].
    apply TokenType.eqb_eq in E. contradiction. }
  rewrite Hne. cbn [negb].
  unfold bind at 1. unfold deref. rewrite Hbegin. reflexivity.
Qed.

Lemma parens_at_end : forall begin c state c1,
  token_is token_stream begin open c = Ok (true, c) ->
  rule (next begin) c = Ok ((tend token_stream, state), c1) ->
  parser_parens token_to_string token_stream rule open close begin c
  = Ok ((tend token_stream, state), c1).
Proof.
  intros begin c state c1 Hopen Hrule. unfold parser_parens.
  erewrite bind_Ok by eassumption. cbv beta iota.
  erewrite bind_Ok by eassumption. cbv beta iota.
  rewrite Nat.eqb_refl. destruct (is_giveup state); reflexivity.
Qed.

End Parens.

Lemma while_unclosed_diagnostics :
  parser_statement Examples.while_unclosed
    (run Examples.token_spelling Examples.range_contains Examples.while_unclosed 40)
    0 Examples.fresh_context
  = Ok ((5, Failure
              [ {| status := Error; where_ := 3; error := "expected ')'" |};
                {| status := ErrorNote; where_ := 1; error := "to match this '('" |} ]),
        Examples.fresh_context).
Proof. vm_compute. reflexivity. Qed.

(** C6, as the code has it.  [parser_parens] gives up at [begin] with the
    message ['<open>'] unless the current token is [open].  After [open] it
    runs the rule behind it: a give-up of that rule is handed on unchanged,
    so the whole is still a give-up; otherwise the [close] token is
    consumed, and a different token in its place adds an [Error]
    ["expected '<close>'"] at that token and an [ErrorNote]
    ["to match this '<open>'"] at the open token, without moving on; at the
    end of the tokens nothing is added.  For [while (x { }] the statement rule
    reports ["expected ')'"] at the brace and ["to match this '('"] at the
    parenthesis. *)
Theorem parens_contract :
  forall token_to_string token_stream rule open close,
    (forall begin c,
       token_is token_stream begin open c = Ok (false, c) ->
       parser_parens token_to_string token_stream rule open close begin c
       = Ok ((tend token_stream,
              make_error GiveUp begin ("'" +++ token_to_string open +++ "'")), c)) /\
    (forall begin c it state c1,
       token_is token_stream begin open c = Ok (true, c) ->
       rule (next begin) c = Ok ((it, state), c1) ->
       is_giveup state = true ->
       parser_parens token_to_string token_stream rule open close begin c
       = Ok ((it, state), c1)) /\
    (forall begin c it state c1 tok open_tok,
       token_is token_stream begin open c = Ok (true, c) ->
       rule (next begin) c = Ok ((it, state), c1) ->
       is_giveup state = false ->
       nth_error (tokens token_stream) it = Some tok ->
       nth_error (tokens token_stream) begin = Some open_tok ->
       parser_parens token_to_string token_stream rule open close begin c
       = Ok (if TokenType.eqb (type tok) close
             then (next it, state)
             else (it,
                   add_error
                     (add_error state
                        {| status := Error; where_ := it;
                           error := "expected '" +++ token_to_string close +++ "'" |})
                     {| status := ErrorNote; where_ := begin;
                        error := "to match this '"
                                 +++ token_to_string (type open_tok) +++ "'" |}),
             c1)) /\
    (forall begin c state c1,
       token_is token_stream begin open c = Ok (true, c) ->
       rule (next begin) c = Ok ((tend token_stream, state), c1) ->
       parser_parens token_to_string token_stream rule open close begin c
       = Ok ((tend token_stream, state), c1)) /\
    parser_statement Examples.while_unclosed
      (run Examples.token_spelling Examples.range_contains Examples.while_unclosed 40)
      0 Examples.fresh_context
    = Ok ((5, Failure
                [ {| status := Error; where_ := 3; error := "expected ')'" |};
                  {| status := ErrorNote; where_ := 1;
                     error := "to match this '('" |} ]),
          Examples.fresh_context).
Proof.
  intros token_to_string token_stream rule open close.
  split; [apply parens_without_open|].
  split; [apply parens_inner_giveup|].
  split.
  - intros begin c it state c1 tok open_tok Hopen Hrule Hg Htok Hbegin.
    destruct (TokenType.eqb (type tok) close) eqn:E.
    + apply TokenType.eqb_eq in E. eapply parens_closed; eassumption.
    + eapply parens_missing_close; try eassumption.
      intro Heq. rewrite Heq, TokenType.eqb_refl in E. discriminate.
  - split; [apply parens_at_end|]. exact while_unclosed_diagnostics.
Qed.

Lemma parens_contract_witness :
  parser_parens Examples.token_spelling Examples.while_unclosed
    (parser_expression Examples.token_spelling Examples.while_unclosed 40
       (run Examples.token_spelling Examples.range_contains Examples.while_unclosed 40))
    TokenType.LeftParen TokenType.RightParen 1 Examples.fresh_context
  = Ok ((3, Failure
              [ {| status := Error; where_ := 3; error := "expected ')'" |};
                {| status := ErrorNote; where_ := 1; error := "to match this '('" |} ]),
        Examples.fresh_context).
Proof.
  refine (proj1 (proj2 (proj2 (parens_contract Examples.token_spelling
            Examples.while_unclosed
            (parser_expression Examples.token_spelling Examples.while_unclosed 40
               (run Examples.token_spelling Examples.range_contains
                  Examples.while_unclosed 40))
            TokenType.LeftParen TokenType.RightParen)))
          1 Examples.fresh_context 3
          (Success (Some (new_leaf NodeType.Identifier
                            {| type := TokenType.Identifier;
                               data := {| range_begin := 8; range_end := 9 |} |})))
          Examples.fresh_context
          {| type := TokenType.LeftBrace; data := {| range_begin := 10; range_end := 11 |} |}
          {| type := TokenType.LeftParen; data := {| range_begin := 6; range_end := 7 |} |}
          _ _ _ _ _).
  - reflexivity.
  - vm_compute. reflexivity.
  - reflexivity.
  - reflexivity.
  - reflexivity.
Defined.

(** The claim read literally fails: after ['('] the identifier rule gives up
    at [')'], and [parser_parens] hands the give-up on. *)
Lemma parens_gives_up_after_open : ~ claimed_parens_commit.
Proof.
  intro H.
  assert (Hrun :
    parser_parens Examples.token_spelling Examples.empty_parens
      (parser_identifier Examples.empty_parens)
      TokenType.LeftParen TokenType.RightParen 0 Examples.fresh_context
    = Ok ((3, Failure [ {| status := GiveUp; where_ := 1; error := "identifier" |} ]),
          Examples.fresh_context)) by reflexivity.
  assert (Hopen :
    token_is Examples.empty_parens 0 TokenType.LeftParen Examples.fresh_context
    = Ok (true, Examples.fresh_context)) by reflexivity.
  specialize (H _ _ _ _ _ _ _ _ _ Hopen Hrun). discriminate H.
Qed.

(** ** Function calls *)

Lemma elide_covers_None : forall n,
  is_None (node_type n) || should_elide n = should_elide n.
Proof.
  intros [ty tok ann cs]. unfold should_elide. simpl.
  destruct ty; reflexivity.
Qed.

Section FunctionCall.

Variable token_to_string : TokenType.t -> string.
Variable token_stream : TokenStream.


Lemma call_absorbs_callee : forall tok callee c,
  add_state (Success (Some (new_leaf NodeType.FunctionCall tok)))
            (Success (Some callee)) c
  = Ok (Success (Some (Node NodeType.FunctionCall (Some tok) false
                         (if should_elide callee then children callee
                          else [callee]))), c).
Proof.
  intros tok callee c. unfold add_state, add_node, ret.
  rewrite elide_covers_None.
  destruct (should_elide callee); reflexivity.
Qed.

Lemma argument_list_is_kept : forall args,
  should_elide (Node NodeType.ArgumentExpressionList None false args) = false.
Proof. reflexivity. Qed.

Lemma postfix_nonempty_call : forall n self begin tok c it tree c',
  nth_error (tokens token_stream) begin = Some tok ->
  type tok = TokenType.LeftParen ->
  token_is token_stream (next begin) TokenType.RightParen c = Ok (false, c) ->
  postfix_production token_to_string token_stream n self begin c
  = Ok ((it, Success (Some tree)), c') ->
  exists args,
    tree = Node NodeType.FunctionCall (Some tok) false
             [ Node NodeType.ArgumentExpressionList None false args ].
Proof.
  intros n self begin tok c it tree c' Htok Hparen Hnonempty Hrun.
  unfold postfix_production in Hrun.
  erewrite in_range_not_end in Hrun by eassumption.
  erewrite bind_Ok in Hrun by (apply deref_in_range; eassumption).
  rewrite Hparen in Hrun.
  erewrite bind_Ok in Hrun by eassumption. cbv beta iota in Hrun.
  unfold bind at 1 in Hrun.
  destruct (parser_parens _ _ _ _ _ _ _) as [[[arg_it argument_list] c1]|f];
    [|discriminate].
  unfold bind at 1 in Hrun.
  destruct (giveup_to_expected_what _ _ _ _ _) as [[g c2]|f]; [|discriminate].
  unfold bind at 1 in Hrun.
  destruct g as [es|[node|]]; cbn [add_state] in Hrun.
  - unfold ret at 1 in Hrun. unfold add_error_state in Hrun.
    destruct es as [|e es].
    + cbn in Hrun. inversion Hrun; subst. eexists. reflexivity.
    + rewrite add_errors_cons in Hrun. cbn [add_error] in Hrun.
      rewrite add_errors_Failure in Hrun.
      unfold bind, add_state, ret, add_error_state in Hrun.
      rewrite add_errors_Success in Hrun by (simpl; congruence). discriminate.
  - unfold ret at 1 in Hrun. unfold add_node at 1 in Hrun.
    rewrite elide_covers_None in Hrun.
    destruct (should_elide node); cbn in Hrun; inversion Hrun; subst;
      eexists; reflexivity.
  - discriminate.
Qed.

End FunctionCall.

Lemma call_without_arguments_tree :
  parser_expression Examples.token_spelling Examples.call_without_arguments 40
    (run Examples.token_spelling Examples.range_contains
       Examples.call_without_arguments 40)
    0 Examples.fresh_context
  = Ok ((3, Success (Some
           (Node NodeType.FunctionCall
              (Some {| type := TokenType.LeftParen;
                       data := {| range_begin := 2; range_end := 3 |} |})
              false
              [ new_leaf NodeType.Identifier
                  {| type := TokenType.Identifier;
                     data := {| range_begin := 0; range_end := 1 |} |} ]))),
        Examples.fresh_context).
Proof. vm_compute. reflexivity. Qed.

Lemma call_with_arguments_tree :
  parser_expression Examples.token_spelling Examples.call_with_arguments 40
    (run Examples.token_spelling Examples.range_contains
       Examples.call_with_arguments 40)
    0 Examples.fresh_context
  = Ok ((6, Success (Some
           (Node NodeType.FunctionCall
              (Some {| type := TokenType.LeftParen;
                       data := {| range_begin := 2; range_end := 3 |} |})
              false
              [ Node NodeType.ArgumentExpressionList None false
                  [ new_leaf NodeType.Identifier
                      {| type := TokenType.Identifier;
                         data := {| range_begin := 4; range_end := 5 |} |};
                    new_leaf NodeType.Identifier
                      {| type := TokenType.Identifier;
                         data := {| range_begin := 8; range_end := 9 |} |} ];
                new_leaf NodeType.Identifier
                  {| type := TokenType.Identifier;
                     data := {| range_begin := 0; range_end := 1 |} |} ]))),
        Examples.fresh_context).
Proof. vm_compute. reflexivity. Qed.

(** ** The entry point *)

Section EntryPoint.

Variable token_to_string : TokenType.t -> string.
Variable contains : SourceRange -> nat -> bool.
Variable token_stream : TokenStream.

Lemma token_info_debug : forall it c,
  token_info contains token_stream it c
  = match token_debug contains token_stream it with
    | Ok i => Ok (i, c)
    | Stuck f => Stuck f
    end.
Proof.
  intros it c. unfold token_info, token_debug, bind, deref, lift, ret, stuck.
  destruct (nth_error (tokens token_stream) it) as [tok|]; [|reflexivity].
  destruct (SourceManager.linecol_from_location _ _ _); reflexivity.
Qed.

Lemma emit_failures_emitted : forall fails c,
  emit_failures contains token_stream fails c
  = match emitted contains token_stream fails with
    | Ok ds =>
        Ok (tt, {| program := {| opts := opts (program c);
                                 diagnostics := diagnostics (program c) ++ ds |};
                   is_inside_specifiers := is_inside_specifiers c |})
    | Stuck f => Stuck f
    end.
Proof.
  induction fails as [|fail rest IH]; intro c.
  - destruct c as [[o ds] inside]. simpl. rewrite app_nil_r. reflexivity.
  - cbn [emit_failures emitted].
    destruct (Nat.eqb (where_ fail) (tend token_stream)).
    + cbn [negb]. rewrite bind_ret. apply IH.
    + cbn [negb]. unfold bind at 1.
      assert (Hemit : forall k,
        emit contains token_stream k (where_ fail) (error fail) c
        = match token_debug contains token_stream (where_ fail) with
          | Ok i => Ok (tt, {| program := report k i (error fail) (program c);
                               is_inside_specifiers := is_inside_specifiers c |})
          | Stuck f => Stuck f
          end).
      { intro k. unfold emit, bind. rewrite token_info_debug.
        destruct (token_debug _ _ _); reflexivity. }
      unfold note, error_. unfold diagnostic_of.
      destruct (is_ErrorNote (status fail)); rewrite Hemit;
        (destruct (token_debug contains token_stream (where_ fail)) as [i|f];
         [|reflexivity]);
        rewrite IH; (destruct (emitted contains token_stream rest) as [ds|f];
                     [|reflexivity]);
        cbn [program report opts diagnostics is_inside_specifiers];
        rewrite <- app_assoc; reflexivity.
Qed.

(** C4, as the code has it.  When the compilation unit was parsed up to
    [tokens.end()]: if the promoted state is a success, [parse] returns its
    tree and reports nothing; if it is a failure, [parse] returns null and
    reports, in list order, every entry whose iterator is not
    [tokens.end()], an [ErrorNote] as a note and any other entry as an error,
    at the position the source manager resolves for the entry's token. *)
Theorem parse_reports_failures :
  forall n prog ast c1,
    parser_compilation_unit token_to_string contains token_stream n
      (run token_to_string contains token_stream n) 0
      {| program := prog; is_inside_specifiers := false |}
    = Ok ((tend token_stream, ast), c1) ->
    (forall tree,
       giveup_to_expected ast = Success tree ->
       parse token_to_string contains token_stream n prog = Ok (tree, program c1)) /\
    (forall fails,
       giveup_to_expected ast = Failure fails ->
       parse token_to_string contains token_stream n prog
       = match emitted contains token_stream fails with
         | Ok ds =>
             Ok (None, {| opts := opts (program c1);
                          diagnostics := diagnostics (program c1) ++ ds |})
         | Stuck f => Stuck f
         end).
Proof.
  intros n prog ast c1 Hunit. split.
  - intros tree Hast. unfold parse, parse_with.
    erewrite bind_Ok by eassumption. cbv beta iota.
    rewrite Nat.eqb_refl. cbn [negb]. rewrite Hast. reflexivity.
  - intros fails Hast. unfold parse, parse_with.
    erewrite bind_Ok by eassumption. cbv beta iota.
    rewrite Nat.eqb_refl. cbn [negb]. rewrite Hast.
    unfold bind. rewrite emit_failures_emitted.
    destruct (emitted contains token_stream fails); reflexivity.
Qed.

End EntryPoint.

Lemma parse_reports_failures_witness :
  parse Examples.token_spelling Examples.range_contains
    Examples.unfinished_static_assert 40 Examples.no_diagnostics
  = Ok (None,
        {| opts := {| pedantic := false |};
           diagnostics :=
             [ {| kind := DiagError;
                  info := {| pos := {| SourceManager.line := 1;
                                       SourceManager.column := 22 |};
                             range := {| range_begin := 21; range_end := 21 |} |};
                  message := "expected expression for operator '+'" |};
               {| kind := DiagNote;
                  info := {| pos := {| SourceManager.line := 1;
                                       SourceManager.column := 22 |};
                             range := {| range_begin := 21; range_end := 21 |} |};
                  message := "cast or unary expression instead of this 'eof'" |} ] |}).
Proof.
  assert (Hunit :
    parser_compilation_unit Examples.token_spelling Examples.range_contains
      Examples.unfinished_static_assert 40
      (run Examples.token_spelling Examples.range_contains
         Examples.unfinished_static_assert 40) 0
      {| program := Examples.no_diagnostics; is_inside_specifiers := false |}
    = Ok ((tend Examples.unfinished_static_assert,
           Failure
             [ {| status := Error; where_ := 4;
                  error := "expected expression for operator '+'" |};
               {| status := ErrorNote; where_ := 4;
                  error := "cast or unary expression instead of this 'eof'" |};
               {| status := Error; where_ := 5;
                  error := "expected string literal list" |} ]),
          Examples.fresh_context)) by (vm_compute; reflexivity).
  exact (proj2 (parse_reports_failures _ _ _ _ _ Hunit) _ eq_refl).
Defined.

(** The claim read literally fails: the failure list of
    [_Static_assert ( a +] ends with an [Error] stored at [tokens.end()],
    and [parse] does not report it. *)
Lemma error_at_end_is_not_reported :
  exists fails prog,
    parser_compilation_unit Examples.token_spelling Examples.range_contains
      Examples.unfinished_static_assert 40
      (run Examples.token_spelling Examples.range_contains
         Examples.unfinished_static_assert 40) 0 Examples.fresh_context
    = Ok ((5, Failure fails), Examples.fresh_context) /\
    giveup_to_expected (Failure fails) = Failure fails /\
    parse Examples.token_spelling Examples.range_contains
      Examples.unfinished_static_assert 40 Examples.no_diagnostics
    = Ok (None, prog) /\
    exists e,
      In e fails /\ status e = Error /\
      ~ In (error e) (map message (diagnostics prog)).
Proof.
  eexists. eexists. split; [vm_compute; reflexivity|].
  split; [reflexivity|]. split; [vm_compute; reflexivity|].
  exists {| status := Error; where_ := 5; error := "expected string literal list" |}.
  split; [right; right; left; reflexivity|]. split; [reflexivity|].
  simpl. intros [H|[H|[]]]; discriminate H.
Qed.

(** ** Associativity *)

(** C5. For two operators of one left-associative level, [a OP1 b OP2 c]
    parses to the node of [OP2] over the node of [OP1] over [a] and [b], and
    [c]: ((a OP1 b) OP2 c).  For two assignment operators it parses to the
    node of [OP1] over [a] and the node of [OP2] over [b] and [c]:
    (a OP1 (b OP2 c)). *)
Theorem binary_operators_associate :
  forall token_to_string contains a o1 b o2 c e sm ctx,
    (forall k1 k2 level,
       left_level k1 = Some level ->
       left_level k2 = Some level ->
       parser_expression token_to_string (two_operators k1 k2 a o1 b o2 c e sm) 40
         (run token_to_string contains (two_operators k1 k2 a o1 b o2 c e sm) 40)
         0 ctx
       = Ok ((5, Success (Some
                (binary_node level (operator_token k2 o2)
                   (binary_node level (operator_token k1 o1)
                      (identifier_leaf a) (identifier_leaf b))
                   (identifier_leaf c)))), ctx)) /\
    (forall k1 k2,
       is_assignment_operator k1 = true ->
       is_assignment_operator k2 = true ->
       parser_expression token_to_string (two_operators k1 k2 a o1 b o2 c e sm) 40
         (run token_to_string contains (two_operators k1 k2 a o1 b o2 c e sm) 40)
         0 ctx
       = Ok ((5, Success (Some
                (binary_node NodeType.AssignmentExpression (operator_token k1 o1)
                   (identifier_leaf a)
                   (binary_node NodeType.AssignmentExpression (operator_token k2 o2)
                      (identifier_leaf b) (identifier_leaf c))))), ctx)).
Proof.
  intros token_to_string contains a o1 b o2 c e sm ctx. split.
  - intros k1 k2 level H1 H2.
    destruct k1; simpl in H1; try discriminate H1;
      inversion H1; subst level;
      destruct k2; simpl in H2; try discriminate H2;
      vm_compute; reflexivity.
  - intros k1 k2 H1 H2.
    destruct k1; simpl in H1; try discriminate H1;
      destruct k2; simpl in H2; try discriminate H2;
      vm_compute; reflexivity.
Qed.

Lemma binary_operators_associate_witness :
  let r n := {| range_begin := 2 * n; range_end := 2 * n + 1 |} in
  let sm := {| SourceManager.content := "a + b + c";
               SourceManager.offsets := [ {| range_begin := 0; range_end := 9 |} ] |} in
  left_level TokenType.Plus = Some NodeType.AdditiveExpression /\
  is_assignment_operator TokenType.Assign = true /\
  parser_expression Examples.token_spelling
    (two_operators TokenType.Plus TokenType.Plus (r 0) (r 1) (r 2) (r 3) (r 4) (r 5) sm) 40
    (run Examples.token_spelling Examples.range_contains
       (two_operators TokenType.Plus TokenType.Plus (r 0) (r 1) (r 2) (r 3) (r 4) (r 5) sm)
       40)
    0 Examples.fresh_context
  = Ok ((5, Success (Some
           (binary_node NodeType.AdditiveExpression (operator_token TokenType.Plus (r 3))
              (binary_node NodeType.AdditiveExpression (operator_token TokenType.Plus (r 1))
                 (identifier_leaf (r 0)) (identifier_leaf (r 2)))
              (identifier_leaf (r 4))))), Examples.fresh_context) /\
  parser_expression Examples.token_spelling
    (two_operators TokenType.Assign TokenType.Assign (r 0) (r 1) (r 2) (r 3) (r 4) (r 5) sm)
    40
    (run Examples.token_spelling Examples.range_contains
       (two_operators TokenType.Assign TokenType.Assign
          (r 0) (r 1) (r 2) (r 3) (r 4) (r 5) sm) 40)
    0 Examples.fresh_context
  = Ok ((5, Success (Some
           (binary_node NodeType.AssignmentExpression
              (operator_token TokenType.Assign (r 1))
              (identifier_leaf (r 0))
              (binary_node NodeType.AssignmentExpression
                 (operator_token TokenType.Assign (r 3))
                 (identifier_leaf (r 2)) (identifier_leaf (r 4)))))),
        Examples.fresh_context).
Proof.
  intros r sm. split; [reflexivity|]. split; [reflexivity|]. split.
  - apply (proj1 (binary_operators_associate Examples.token_spelling
                    Examples.range_contains (r 0) (r 1) (r 2) (r 3) (r 4) (r 5) sm
                    Examples.fresh_context)); reflexivity.
  - apply (proj2 (binary_operators_associate Examples.token_spelling
                    Examples.range_contains (r 0) (r 1) (r 2) (r 3) (r 4) (r 5) sm
                    Examples.fresh_context)); reflexivity.
Defined.

(** ** Reading past the last token *)

Section PastTheEnd.

Variable token_to_string : TokenType.t -> string.
Variable token_stream : TokenStream.

(** A give-up recorded at [tokens.end()] with a message cannot be promoted
    with [what]: the note reads the kind of the token at that iterator. *)
Lemma promotion_reads_the_token : forall msg what c,
  String.eqb msg "" = false ->
  giveup_to_expected_what token_to_string token_stream
    (make_error GiveUp (tend token_stream) msg) what c
  = Stuck InvalidDereference.
Proof.
  intros msg what c Hmsg.
  unfold giveup_to_expected_what, make_error.
  cbn [giveup_to_expected_loop status is_GiveUp error where_].
  rewrite Hmsg. apply bind_Stuck. apply deref_end.
Qed.

End PastTheEnd.

(** C1, at the failing input.  On the tokens of [void f() { while (a +]
    followed by [Eof], the recovery hop of the binary-operator fold consumes
    [Eof]; the statement after the condition is then parsed at
    [tokens.end()], gives up there, and the promotion of that give-up
    dereferences [tokens.end()].  On a stream with a token behind [Eof] the
    [Ensures(it == tokens.end())] of [parse] fails. *)
Theorem parse_reads_past_the_end :
  parser_statement Examples.unfinished_while
    (run Examples.token_spelling Examples.range_contains Examples.unfinished_while 60)
    (tend Examples.unfinished_while) Examples.fresh_context
  = Ok ((tend Examples.unfinished_while,
         make_error GiveUp (tend Examples.unfinished_while) "statement"),
        Examples.fresh_context)
  /\
  parse Examples.token_spelling Examples.range_contains Examples.unfinished_while 60
    Examples.no_diagnostics
  = Stuck InvalidDereference
  /\
  parse Examples.token_spelling Examples.range_contains Examples.two_eofs 60
    Examples.no_diagnostics
  = Stuck ContractViolation.
Proof.
  split; [vm_compute; reflexivity|].
  split; vm_compute; reflexivity.
Qed.

(** ** Elision: list nodes with one child *)

(** C2.  The switch of [should_elide] names thirteen of the sixteen list
    kinds: a node without text and annotation that has exactly one child is
    an elision candidate although its kind is a list kind exactly for
    [BlockItemList], [DeclarationList] and [StringLiteralList].  So the
    declaration list of [int f ( ) int a ; { }] is elided, and the
    [FunctionDefinition] holds the bare [Declaration] as its fourth child;
    with two declarations the [DeclarationList] stays. *)
Theorem lone_declaration_list_is_elided :
  (forall ty child,
     let n := Node ty None false [child] in
     (should_elide n = true /\ spec_should_elide n = false) <->
     In ty [ NodeType.BlockItemList; NodeType.DeclarationList;
             NodeType.StringLiteralList ]) /\
  (exists definition prog,
     parse Examples.token_spelling Examples.range_contains
       Examples.one_declaration 20 Examples.no_diagnostics
     = Ok (Some (Node NodeType.CompilationUnit None false [definition]), prog) /\
     node_type definition = NodeType.FunctionDefinition /\
     map node_type (children definition)
     = [ NodeType.DeclarationSpecifiers; NodeType.DirectDeclarator;
         NodeType.CompoundStatement; NodeType.Declaration ]) /\
  (exists definition prog,
     parse Examples.token_spelling Examples.range_contains
       Examples.two_declarations 20 Examples.no_diagnostics
     = Ok (Some (Node NodeType.CompilationUnit None false [definition]), prog) /\
     node_type definition = NodeType.FunctionDefinition /\
     map node_type (children definition)
     = [ NodeType.DeclarationSpecifiers; NodeType.DirectDeclarator;
         NodeType.CompoundStatement; NodeType.DeclarationList ]).
Proof.
  split; [|split].
  - intros ty child n. subst n. split.
    + intros [He Hs]. destruct ty; cbn in He, Hs; try discriminate;
        cbn; tauto.
    + intros [<-|[<-|[<-|[]]]]; split; reflexivity.
  - eexists. eexists. split; [vm_compute; reflexivity|]. split; reflexivity.
  - eexists. eexists. split; [vm_compute; reflexivity|]. split; reflexivity.
Qed.

(** ** Settled trees: the elision invariant of the whole parser *)

Lemma SyntaxTree_induction : forall P : SyntaxTree -> Prop,
  (forall ty tok ann cs, Forall P cs -> P (Node ty tok ann cs)) ->
  forall t, P t.
Proof.
  intros P H. fix IH 1. intros [ty tok ann cs]. apply H.
  induction cs as [|c cs IHcs]; constructor; [apply IH|exact IHcs].
Qed.

Lemma settled_children : forall ty tok ann cs,
  settled (Node ty tok ann cs) = true <->
  Forall (fun c => should_elide c = false /\ settled c = true) cs.
Proof.
  intros ty tok ann cs. cbn [settled]. rewrite forallb_forall, Forall_forall.
  split; intros H c Hc; specialize (H c Hc).
  - apply andb_true_iff in H. destruct H as [H1 H2].
    apply negb_true_iff in H1. split; assumption.
  - destruct H as [H1 H2]. rewrite H1, H2. reflexivity.
Qed.

Lemma settled_add_child : forall t n,
  settled t = true -> settled n = true -> should_elide n = false ->
  settled (add_child t n) = true.
Proof.
  intros [ty tok ann cs] n Ht Hn He. unfold add_child.
  apply settled_children. apply settled_children in Ht.
  apply Forall_app. split; [exact Ht|]. constructor; [split; assumption|constructor].
Qed.

Lemma settled_take_children : forall t n,
  settled t = true -> settled n = true -> settled (take_children t n) = true.
Proof.
  intros [ty tok ann cs] [ty' tok' ann' cs'] Ht Hn. unfold take_children.
  apply settled_children. apply settled_children in Ht. apply settled_children in Hn.
  apply Forall_app. split; assumption.
Qed.

Lemma settled_pop_child : forall t c,
  pop_child t = Some c -> settled t = true -> settled c = true.
Proof.
  intros [ty tok ann cs] c Hpop Ht. apply settled_children in Ht.
  unfold pop_child in Hpop. cbn [children] in Hpop.
  induction Ht as [|x l [_ Hx] Hl IH]; [discriminate Hpop|].
  destruct l as [|y l]; [cbn in Hpop; congruence|].
  apply IH. exact Hpop.
Qed.

Lemma settled_new_leaf : forall ty tok, settled (new_leaf ty tok) = true.
Proof. reflexivity. Qed.

Lemma settled_new_node : forall ty, settled (new_node ty) = true.
Proof. reflexivity. Qed.

Lemma text_is_kept : forall ty tok,
  is_None ty = false -> should_elide (new_leaf ty tok) = false.
Proof. intros ty tok H. destruct ty; try reflexivity; discriminate H. Qed.

Lemma ok_Failure : forall es, ok_state (Failure es).
Proof. intro es. exact I. Qed.

Lemma ok_null : ok_state (Success None).
Proof. exact I. Qed.

Lemma ok_leaf : forall ty tok, ok_state (Success (Some (new_leaf ty tok))).
Proof. intros ty tok. reflexivity. Qed.

Lemma ok_node : forall ty, ok_state (Success (Some (new_node ty))).
Proof. intro ty. reflexivity. Qed.

Lemma ok_tree : ok_state (Success (Some new_tree)).
Proof. reflexivity. Qed.

Lemma ok_make_error : forall st it msg, ok_state (make_error st it msg).
Proof. intros st it msg. exact I. Qed.

Lemma ok_add_node : forall s n,
  ok_state s -> settled n = true -> ok_state (add_node s n).
Proof.
  intros [es|[t|]] n Hs Hn; cbn [add_node]; [exact I| |exact Hn].
  rewrite elide_covers_None. destruct (should_elide n) eqn:He.
  - apply settled_take_children; assumption.
  - apply settled_add_child; assumption.
Qed.

Lemma ok_add_error : forall s e, ok_state (add_error s e).
Proof. intros [es|t] e; exact I. Qed.

Lemma ok_add_errors : forall es s, ok_state s -> ok_state (add_errors s es).
Proof.
  induction es as [|e es IH]; intros s Hs; [exact Hs|].
  rewrite add_errors_cons. apply IH. apply ok_add_error.
Qed.

Lemma ok_add_error_state : forall s o, ok_state s -> ok_state (add_error_state s o).
Proof.
  intros s [es|t] Hs; cbn [add_error_state]; [apply ok_add_errors|]; exact Hs.
Qed.

Lemma ok_giveup_to_expected : forall s, ok_state s -> ok_state (giveup_to_expected s).
Proof.
  intros [es|t] Hs; [|exact Hs]. unfold giveup_to_expected.
  assert (H : forall es0 s0, ok_state s0 ->
             ok_state (fold_left
               (fun new_state e =>
                  if is_GiveUp (status e)
                  then add_error new_state
                         {| status := Error; where_ := where_ e;
                            error := "expected " +++ error e |}
                  else add_error new_state e) es0 s0)).
  { induction es0 as [|e es0 IH]; intros s0 H0; [exact H0|].
    cbn [fold_left]. apply IH. destruct (is_GiveUp (status e)); apply ok_add_error. }
  apply H. exact I.
Qed.

(** *** The monad *)

Lemma safe_ret : forall (A : Type) (a : A) (Q : A -> Prop), Q a -> safe (ret a) Q.
Proof. intros A a Q H c a' c' E. inversion E; subst. exact H. Qed.

Lemma safe_bind : forall (A B : Type) (m : M A) (k : A -> M B) (P : A -> Prop)
    (Q : B -> Prop),
  safe m P -> (forall a, P a -> safe (k a) Q) -> safe (bind m k) Q.
Proof.
  intros A B m k P Q Hm Hk c b c' E. unfold bind in E.
  destruct (m c) as [[a c1]|f] eqn:Em; [|discriminate].
  exact (Hk a (Hm _ _ _ Em) _ _ _ E).
Qed.

Lemma safe_any : forall (A : Type) (m : M A), safe m any.
Proof. intros A m c a c' _. exact I. Qed.

Lemma safe_stuck : forall (A : Type) (f : Fault) (Q : A -> Prop), safe (stuck f) Q.
Proof. intros A f Q c a c' E. discriminate E. Qed.

Lemma safe_out_of_fuel : forall (A : Type) (Q : A -> Prop), safe (@out_of_fuel A) Q.
Proof. intros A Q. apply safe_stuck. Qed.

Lemma safe_add_state : forall s o,
  ok_state s -> ok_state o -> safe (add_state s o) ok_state.
Proof.
  intros s [es|[t|]] Hs Ho; cbn [add_state].
  - apply safe_ret. apply ok_add_error_state. exact Hs.
  - apply safe_ret. apply ok_add_node; assumption.
  - apply safe_stuck.
Qed.

Section SettledPrimitives.

Variable token_to_string : TokenType.t -> string.
Variable token_stream : TokenStream.

Lemma safe_giveup_at : forall begin what,
  safe (giveup_at token_stream begin what) ok_result.
Proof. intros begin what. apply safe_ret. exact I. Qed.

Lemma safe_giveup_to_expected_loop : forall what es s0,
  ok_state s0 ->
  safe (giveup_to_expected_loop token_to_string token_stream what es s0) ok_state.
Proof.
  intros what es. induction es as [|e es IH]; intros s0 H0.
  - apply safe_ret. exact H0.
  - cbn [giveup_to_expected_loop].
    destruct (is_GiveUp (status e)).
    + destruct (String.eqb (error e) "").
      * apply IH. apply ok_add_error.
      * eapply safe_bind; [apply safe_any|]. intros tok _.
        apply IH. apply ok_add_error.
    + apply IH. apply ok_add_error.
Qed.

Lemma safe_giveup_to_expected_what : forall s what,
  ok_state s ->
  safe (giveup_to_expected_what token_to_string token_stream s what) ok_state.
Proof.
  intros [es|t] what Hs; cbn [giveup_to_expected_what].
  - apply safe_giveup_to_expected_loop. exact I.
  - apply safe_ret. exact Hs.
Qed.

Lemma safe_expect_token : forall s it k,
  ok_state s -> safe (expect_token token_to_string token_stream s it k) ok_flag.
Proof.
  intros s it k Hs. unfold expect_token.
  destruct (negb _).
  - eapply safe_bind; [apply safe_any|]. intros tok _.
    destruct (negb _); apply safe_ret; unfold ok_flag; cbn [snd];
      [apply ok_add_error_state|]; exact Hs.
  - apply safe_ret. exact Hs.
Qed.

Lemma safe_expect_end_token : forall s begin it k,
  ok_state s ->
  safe (expect_end_token token_to_string token_stream s begin it k) ok_flag.
Proof.
  intros s begin it k Hs. unfold expect_end_token.
  destruct (negb _).
  - eapply safe_bind; [apply safe_any|]. intros tok _.
    destruct (negb _).
    + eapply safe_bind; [apply safe_any|]. intros open _.
      apply safe_ret. unfold ok_flag. cbn [snd].
      apply ok_add_error_state. apply ok_add_error_state. exact Hs.
    + apply safe_ret. exact Hs.
  - apply safe_ret. unfold ok_flag. cbn [snd]. apply ok_add_error_state. exact Hs.
Qed.

End SettledPrimitives.

(** *** The root of a compilation unit *)

Lemma unit_add_error : forall s e, unit_state s -> unit_state (add_error s e).
Proof. intros [es|t] e _; exact I. Qed.

Lemma unit_add_errors : forall es s, unit_state s -> unit_state (add_errors s es).
Proof.
  induction es as [|e es IH]; intros s Hs; [exact Hs|].
  rewrite add_errors_cons. apply IH. apply unit_add_error. exact Hs.
Qed.

Lemma unit_add_node : forall s n,
  unit_state s -> settled n = true -> unit_state (add_node s n).
Proof.
  intros [es|[[ty tok ann cs]|]] n Hs Hn; cbn [add_node]; [exact I| |destruct Hs].
  destruct Hs as [Hty Hs]. rewrite elide_covers_None.
  destruct (should_elide n) eqn:He; split.
  - destruct n. exact Hty.
  - apply settled_take_children; assumption.
  - exact Hty.
  - apply settled_add_child; assumption.
Qed.

Lemma unit_giveup_to_expected : forall s tree,
  unit_state s -> giveup_to_expected s = Success (Some tree) ->
  node_type tree = NodeType.CompilationUnit /\ settled tree = true.
Proof.
  intros [es|t] tree Hs E.
  - exfalso. unfold giveup_to_expected in E.
    assert (H : forall es0 s0, (forall t0, s0 <> Success (Some t0)) ->
               forall t0,
               fold_left
                 (fun new_state e =>
                    if is_GiveUp (status e)
                    then add_error new_state
                           {| status := Error; where_ := where_ e;
                              error := "expected " +++ error e |}
                    else add_error new_state e) es0 s0 <> Success (Some t0)).
    { induction es0 as [|e es0 IH]; intros s0 H0 t0; [apply H0|].
      cbn [fold_left]. apply IH.
      intros t1. destruct (is_GiveUp (status e)); destruct s0; discriminate. }
    eapply H; [|exact E]. intros t0. discriminate.
  - cbn in E. injection E as ->. exact Hs.
Qed.

Lemma settled_nodes : forall t,
  settled t = true ->
  forall d, In d (nodes t) -> d = t \/ should_elide d = false.
Proof.
  induction t as [ty tok ann cs IH] using SyntaxTree_induction.
  intros Ht d Hd. cbn [nodes] in Hd. destruct Hd as [Hd|Hd]; [left; symmetry; exact Hd|].
  right. apply settled_children in Ht. apply in_flat_map in Hd.
  destruct Hd as [c [Hc Hd]]. rewrite Forall_forall in IH, Ht.
  destruct (Ht c Hc) as [Hkeep Hset].
  destruct (IH c Hc Hset d Hd) as [->|H]; assumption.
Qed.

Lemma unit_root_is_kept : forall t,
  node_type t = NodeType.CompilationUnit -> should_elide t = false.
Proof.
  intros t Hty. destruct (should_elide t) eqn:E; [|reflexivity].
  apply should_elide_spec in E. rewrite Hty in E.
  destruct E as [E|[_ [E _]]]; discriminate E.
Qed.

(** *** One step of a rule *)

Ltac post_of m :=
  let T := type of m in
  let T := eval cbv [M ParserResult Rule] in T in
  lazymatch T with
  | ParserContext -> Outcome ((nat * ParserState) * ParserContext) => constr:(ok_result)
  | ParserContext -> Outcome (ParserState * ParserContext) => constr:(ok_state)
  | ParserContext -> Outcome ((bool * ParserState) * ParserContext) => constr:(ok_flag)
  | ParserContext -> Outcome (?A * ParserContext) => constr:(@any A)
  end.

Ltac ok_norm := unfold ok_result, ok_flag; cbn [snd fst].

Ltac ok_solve :=
  ok_norm; cbv zeta;
  repeat first
    [ assumption
    | exact I
    | reflexivity
    | apply ok_add_node
    | apply ok_add_error_state
    | apply ok_add_error
    | apply ok_giveup_to_expected
    | match goal with
      | E : pop_child ?t = Some ?c |- ok_state (Success (Some ?c)) =>
          apply (settled_pop_child t E); assumption
      end
    | match goal with
      | |- context [if ?b then _ else _] => destruct b
      | |- context [match ?x with _ => _ end] => destruct x
      end ].

Ltac split_result a H :=
  let T := type of a in
  let T := eval hnf in T in
  lazymatch T with
  | prod _ _ => destruct a; unfold ok_result, ok_flag in H; cbn [snd fst] in H
  | _ => idtac
  end.

Ltac safe_go :=
  cbv beta iota zeta;
  lazymatch goal with
  | |- safe _ any => apply safe_any
  | |- safe (ret _) _ => apply safe_ret; ok_solve
  | |- safe (bind ?m _) _ =>
      let P := post_of m in
      let a := fresh "a" in
      let H := fresh "H" in
      apply (@safe_bind _ _ m _ P);
      [ safe_go | intros a H; split_result a H; safe_go ]
  | |- safe (stuck _) _ => apply safe_stuck
  | |- safe out_of_fuel _ => apply safe_out_of_fuel
  | |- safe (if ?b then _ else _) _ => destruct b; safe_go
  | |- safe (match (if ?b then _ else _) with _ => _ end) _ => destruct b; safe_go
  | |- safe (match pop_child ?t with _ => _ end) _ =>
      destruct (pop_child t) eqn:?; safe_go
  | |- safe (match ?x with _ => _ end) _ => destruct x; safe_go
  | |- safe (add_state _ _) _ => apply safe_add_state; ok_solve
  | |- safe (giveup_to_expected_what _ _ _ _) _ =>
      apply safe_giveup_to_expected_what; ok_solve
  | |- safe (expect_token _ _ _ _ _) _ => apply safe_expect_token; ok_solve
  | |- safe (expect_end_token _ _ _ _ _ _) _ => apply safe_expect_end_token; ok_solve
  | |- safe (giveup_at _ _ _) _ => apply safe_giveup_at
  | |- _ =>
      first
        [ solve [auto with safe nocore]
        | match goal with
          | IH : forall _ _, _ -> safe _ _ |- _ => apply IH; ok_solve
          end ]
  end.

Ltac safe_rule_go :=
  unfold safe_rule; let it := fresh "it" in intro it; safe_go.

Create HintDb safe.

#[export] Hint Extern 1 (ok_state _) => solve [ok_solve] : safe.
#[export] Hint Extern 1 (safe_rule _) => solve [safe_rule_go] : safe.
#[export] Hint Extern 1 (Forall safe_rule _) =>
  repeat first [apply Forall_cons | apply Forall_nil] : safe.

Section SettledCombinators.

Variable token_to_string : TokenType.t -> string.
Variable contains : SourceRange -> SourceLocation -> bool.
Variable token_stream : TokenStream.
Variable fuel : nat.

Lemma safe_parser_one_of : forall rules begin what,
  Forall safe_rule rules ->
  safe (parser_one_of token_stream begin what rules) ok_result.
Proof.
  induction rules as [|rule rules IH]; intros begin what Hall; cbn [parser_one_of].
  - apply safe_giveup_at.
  - inversion Hall as [|? ? Hrule Hrest]; subst.
    eapply safe_bind; [apply Hrule|]. intros [it state] Hres.
    destruct (negb _); [apply safe_ret; exact Hres|]. apply IH. exact Hrest.
Qed.

Lemma safe_many_of_loop : forall rule pred,
  safe_rule rule ->
  forall n it s, ok_state s ->
  safe (many_of_loop token_stream rule pred n it s) ok_result.
Proof.
  intros rule pred Hrule. induction n as [|n IH]; intros it s Hs; cbn [many_of_loop].
  - apply safe_out_of_fuel.
  - safe_go.
Qed.

Lemma safe_parser_many_of : forall rule pred begin,
  safe_rule rule ->
  safe (parser_many_of token_stream fuel begin rule pred) ok_result.
Proof.
  intros rule pred begin Hrule. unfold parser_many_of.
  apply safe_many_of_loop; [exact Hrule|reflexivity].
Qed.

Lemma safe_one_many_of_loop : forall rule,
  safe_rule rule ->
  forall n it s, ok_state s ->
  safe (one_many_of_loop contains token_stream rule n it s) ok_result.
Proof.
  intros rule Hrule. induction n as [|n IH]; intros it s Hs; cbn [one_many_of_loop].
  - apply safe_out_of_fuel.
  - safe_go.
Qed.

Lemma safe_parser_one_many_of : forall rule begin what,
  safe_rule rule ->
  safe (parser_one_many_of contains token_stream fuel begin what rule) ok_result.
Proof.
  intros rule begin what Hrule. unfold parser_one_many_of.
  pose proof (safe_one_many_of_loop Hrule) as Hloop. safe_go.
Qed.

Lemma safe_one_many_of_while_loop : forall rule pred,
  safe_rule rule ->
  forall n it s, ok_state s ->
  safe (one_many_of_while_loop token_stream rule pred n it s) ok_result.
Proof.
  intros rule pred Hrule. induction n as [|n IH]; intros it s Hs;
    cbn [one_many_of_while_loop].
  - apply safe_out_of_fuel.
  - safe_go.
Qed.

Lemma safe_parser_one_many_of_while : forall rule pred begin what,
  safe_rule rule ->
  safe (parser_one_many_of_while token_stream fuel begin what rule pred) ok_result.
Proof.
  intros rule pred begin what Hrule. unfold parser_one_many_of_while.
  pose proof (safe_one_many_of_while_loop pred Hrule) as Hloop. safe_go.
Qed.

Lemma safe_parser_operator : forall op_type op_match,
  safe_rule (parser_operator token_stream op_type op_match).
Proof. intros op_type op_match it. unfold parser_operator. safe_go. Qed.

Lemma safe_left_binary_loop : forall op_rule rhs_rule,
  safe_rule op_rule -> safe_rule rhs_rule ->
  forall n it s, ok_state s ->
  safe (left_binary_loop token_to_string token_stream op_rule rhs_rule n it s) ok_result.
Proof.
  intros op_rule rhs_rule Hop Hrhs. induction n as [|n IH]; intros it s Hs;
    cbn [left_binary_loop].
  - apply safe_out_of_fuel.
  - safe_go.
Qed.

Lemma safe_parser_left_binary_operator : forall lhs_rule op_rule rhs_rule,
  safe_rule lhs_rule -> safe_rule op_rule -> safe_rule rhs_rule ->
  safe_rule (parser_left_binary_operator token_to_string token_stream fuel
               lhs_rule op_rule rhs_rule).
Proof.
  intros lhs_rule op_rule rhs_rule Hlhs Hop Hrhs it.
  unfold parser_left_binary_operator.
  pose proof (safe_left_binary_loop Hop Hrhs) as Hloop. safe_go.
Qed.

Lemma safe_parser_right_binary_operator : forall lhs_rule op_rule rhs_rule,
  safe_rule lhs_rule -> safe_rule op_rule -> safe_rule rhs_rule ->
  safe_rule (parser_right_binary_operator token_to_string token_stream
               lhs_rule op_rule rhs_rule).
Proof.
  intros lhs_rule op_rule rhs_rule Hlhs Hop Hrhs it.
  unfold parser_right_binary_operator. safe_go.
Qed.

Lemma safe_parser_opt : forall rule, safe_rule rule -> safe_rule (parser_opt rule).
Proof. intros rule Hrule it. unfold parser_opt. safe_go. Qed.

Lemma safe_parser_parens : forall rule left_brace right_brace,
  safe_rule rule ->
  safe_rule (parser_parens token_to_string token_stream rule left_brace right_brace).
Proof. intros rule l r Hrule it. unfold parser_parens. safe_go. Qed.

Lemma safe_list_of_loop : forall rule allow,
  safe_rule rule ->
  forall n it s, ok_state s ->
  safe (list_of_loop token_stream rule allow n it s) ok_result.
Proof.
  intros rule allow Hrule. induction n as [|n IH]; intros it s Hs; cbn [list_of_loop].
  - apply safe_out_of_fuel.
  - safe_go.
Qed.

Lemma safe_parser_list_of : forall rule allow,
  safe_rule rule -> safe_rule (parser_list_of token_stream fuel rule allow).
Proof.
  intros rule allow Hrule it. unfold parser_list_of.
  pose proof (safe_list_of_loop allow Hrule) as Hloop. safe_go.
Qed.

End SettledCombinators.

#[export] Hint Extern 1 (safe (parser_one_of _ _ _ _) _) =>
  apply safe_parser_one_of : safe.
#[export] Hint Extern 1 (safe (parser_many_of _ _ _ _ _) _) =>
  apply safe_parser_many_of : safe.
#[export] Hint Extern 1 (safe (parser_one_many_of _ _ _ _ _ _) _) =>
  apply safe_parser_one_many_of : safe.
#[export] Hint Extern 1 (safe (parser_one_many_of_while _ _ _ _ _ _) _) =>
  apply safe_parser_one_many_of_while : safe.
#[export] Hint Extern 1 (safe (parser_operator _ _ _ _) _) =>
  apply safe_parser_operator : safe.
#[export] Hint Extern 1 (safe (parser_left_binary_operator _ _ _ _ _ _ _) _) =>
  apply safe_parser_left_binary_operator : safe.
#[export] Hint Extern 1 (safe (parser_right_binary_operator _ _ _ _ _ _) _) =>
  apply safe_parser_right_binary_operator : safe.
#[export] Hint Extern 1 (safe (parser_opt _ _) _) => apply safe_parser_opt : safe.
#[export] Hint Extern 1 (safe (parser_parens _ _ _ _ _ _) _) =>
  apply safe_parser_parens : safe.
#[export] Hint Extern 1 (safe (parser_list_of _ _ _ _ _) _) =>
  apply safe_parser_list_of : safe.

(** *** Every grammar rule keeps its tree settled *)

Section SettledRules.

Variable token_to_string : TokenType.t -> string.
Variable contains : SourceRange -> SourceLocation -> bool.
Variable token_stream : TokenStream.
Variable fuel : nat.
Variable self : RuleName -> Rule.
Hypothesis safe_self : forall r it, safe (self r it) ok_result.

Lemma safe_parser_identifier : forall it,
  safe (parser_identifier token_stream it) ok_result.
Proof. intros it. unfold parser_identifier. safe_go. Qed.

#[local] Hint Resolve safe_parser_identifier : safe.

Lemma safe_parser_identifier_list : forall it,
  safe (parser_identifier_list token_to_string token_stream fuel it) ok_result.
Proof. intros it. unfold parser_identifier_list. safe_go. Qed.

#[local] Hint Resolve safe_parser_identifier_list : safe.

Lemma safe_parser_string_literal : forall it,
  safe (parser_string_literal token_stream it) ok_result.
Proof. intros it. unfold parser_string_literal. safe_go. Qed.

#[local] Hint Resolve safe_parser_string_literal : safe.

Lemma safe_parser_string_literal_list : forall it,
  safe (parser_string_literal_list token_stream fuel it) ok_result.
Proof. intros it. unfold parser_string_literal_list. safe_go. Qed.

#[local] Hint Resolve safe_parser_string_literal_list : safe.

Lemma safe_parser_constant : forall it,
  safe (parser_constant token_stream it) ok_result.
Proof. intros it. unfold parser_constant. safe_go. Qed.

#[local] Hint Resolve safe_parser_constant : safe.

Lemma safe_parser_parameter_declaration : forall it,
  safe (parser_parameter_declaration token_stream self it) ok_result.
Proof. intros it. unfold parser_parameter_declaration. safe_go. Qed.

#[local] Hint Resolve safe_parser_parameter_declaration : safe.

Lemma safe_parameter_list_loop : forall n it s,
  ok_state s ->
  safe (parameter_list_loop token_stream self n it s)
    ok_result.
Proof.
  induction n as [|n IH]; intros it s Hs; cbn [parameter_list_loop]; [apply safe_out_of_fuel|].
  safe_go.
Qed.

#[local] Hint Resolve safe_parameter_list_loop : safe.

Lemma safe_parser_parameter_type_list : forall it,
  safe (parser_parameter_type_list token_stream fuel self it) ok_result.
Proof. intros it. unfold parser_parameter_type_list. safe_go. Qed.

#[local] Hint Resolve safe_parser_parameter_type_list : safe.

Lemma safe_parser_typedef_name : forall it,
  safe (parser_typedef_name token_stream it) ok_result.
Proof. intros it. unfold parser_typedef_name. safe_go. Qed.

#[local] Hint Resolve safe_parser_typedef_name : safe.

Lemma safe_parser_atomic_type_specifier : forall it,
  safe (parser_atomic_type_specifier token_to_string token_stream self it)
    ok_result.
Proof. intros it. unfold parser_atomic_type_specifier. safe_go. Qed.

#[local] Hint Resolve safe_parser_atomic_type_specifier : safe.

Lemma safe_parser_type_specifier : forall it,
  safe (parser_type_specifier token_to_string token_stream self it) ok_result.
Proof. intros it. unfold parser_type_specifier. safe_go. Qed.

#[local] Hint Resolve safe_parser_type_specifier : safe.

Lemma safe_parser_type_qualifier : forall it,
  safe (parser_type_qualifier token_stream it) ok_result.
Proof. intros it. unfold parser_type_qualifier. safe_go. Qed.

#[local] Hint Resolve safe_parser_type_qualifier : safe.

Lemma safe_parser_type_qualifier_list : forall it,
  safe (parser_type_qualifier_list token_stream fuel it) ok_result.
Proof. intros it. unfold parser_type_qualifier_list. safe_go. Qed.

#[local] Hint Resolve safe_parser_type_qualifier_list : safe.

Lemma safe_parser_pointer : forall it,
  safe (parser_pointer token_to_string token_stream fuel self it) ok_result.
Proof. intros it. unfold parser_pointer. safe_go. Qed.

#[local] Hint Resolve safe_parser_pointer : safe.

Lemma safe_abstract_function_declarator : forall it,
  safe (abstract_function_declarator token_stream fuel self it) ok_result.
Proof. intros it. unfold abstract_function_declarator. safe_go. Qed.

#[local] Hint Resolve safe_abstract_function_declarator : safe.

Lemma safe_abstract_array_declarator : forall it,
  safe (abstract_array_declarator token_to_string token_stream fuel self it)
    ok_result.
Proof. intros it. unfold abstract_array_declarator. safe_go. Qed.

#[local] Hint Resolve safe_abstract_array_declarator : safe.

Lemma safe_abstract_array_declarator_production : forall it,
  safe (abstract_array_declarator_production token_to_string token_stream fuel self it)
    ok_result.
Proof. intros it. unfold abstract_array_declarator_production. safe_go. Qed.

#[local] Hint Resolve safe_abstract_array_declarator_production : safe.

Lemma safe_direct_abstract_declarator_loop : forall n it s,
  ok_state s ->
  safe (direct_abstract_declarator_loop token_to_string token_stream fuel self n it s)
    ok_result.
Proof.
  induction n as [|n IH]; intros it s Hs; cbn [direct_abstract_declarator_loop]; [apply safe_out_of_fuel|].
  safe_go.
Qed.

#[local] Hint Resolve safe_direct_abstract_declarator_loop : safe.

Lemma safe_parser_direct_abstract_declarator : forall it,
  safe (parser_direct_abstract_declarator token_to_string token_stream fuel self it)
    ok_result.
Proof. intros it. unfold parser_direct_abstract_declarator. safe_go. Qed.

#[local] Hint Resolve safe_parser_direct_abstract_declarator : safe.

Lemma safe_parser_abstract_declarator : forall it,
  safe (parser_abstract_declarator token_to_string token_stream fuel self it)
    ok_result.
Proof. intros it. unfold parser_abstract_declarator. safe_go. Qed.

#[local] Hint Resolve safe_parser_abstract_declarator : safe.

Lemma safe_specifier_or_qualifier : forall it,
  safe (specifier_or_qualifier token_to_string token_stream self it) ok_result.
Proof. intros it. unfold specifier_or_qualifier. safe_go. Qed.

#[local] Hint Resolve safe_specifier_or_qualifier : safe.

Lemma safe_specifier_qualifier_loop : forall n it s,
  ok_state s ->
  safe (specifier_qualifier_loop token_to_string token_stream self n it s)
    ok_result.
Proof.
  induction n as [|n IH]; intros it s Hs; cbn [specifier_qualifier_loop]; [apply safe_out_of_fuel|].
  safe_go.
Qed.

#[local] Hint Resolve safe_specifier_qualifier_loop : safe.

Lemma safe_parser_specifier_qualifier_list : forall it,
  safe (parser_specifier_qualifier_list token_to_string token_stream fuel self it)
    ok_result.
Proof. intros it. unfold parser_specifier_qualifier_list. safe_go. Qed.

#[local] Hint Resolve safe_parser_specifier_qualifier_list : safe.

Lemma safe_parser_type_name : forall it,
  safe (parser_type_name token_to_string token_stream fuel self it) ok_result.
Proof. intros it. unfold parser_type_name. safe_go. Qed.

#[local] Hint Resolve safe_parser_type_name : safe.

Lemma safe_parser_constant_expression : forall it,
  safe (parser_constant_expression self it) ok_result.
Proof. intros it. unfold parser_constant_expression. safe_go. Qed.

#[local] Hint Resolve safe_parser_constant_expression : safe.

Lemma safe_static_assert_args_production : forall it,
  safe (static_assert_args_production token_to_string token_stream fuel self it)
    ok_result.
Proof. intros it. unfold static_assert_args_production. safe_go. Qed.

#[local] Hint Resolve safe_static_assert_args_production : safe.

Lemma safe_parser_static_assert_declaration : forall it,
  safe (parser_static_assert_declaration token_to_string token_stream fuel self it)
    ok_result.
Proof. intros it. unfold parser_static_assert_declaration. safe_go. Qed.

#[local] Hint Resolve safe_parser_static_assert_declaration : safe.

Lemma safe_array_declarator_production : forall it,
  safe (array_declarator_production token_to_string token_stream fuel self it)
    ok_result.
Proof. intros it. unfold array_declarator_production. safe_go. Qed.

#[local] Hint Resolve safe_array_declarator_production : safe.

Lemma safe_ident_or_decl_production : forall it,
  safe (ident_or_decl_production token_to_string token_stream self it) ok_result.
Proof. intros it. unfold ident_or_decl_production. safe_go. Qed.

#[local] Hint Resolve safe_ident_or_decl_production : safe.

Lemma safe_direct_declarator_loop : forall n it s,
  ok_state s ->
  safe (direct_declarator_loop token_to_string token_stream fuel self n it s)
    ok_result.
Proof.
  induction n as [|n IH]; intros it s Hs; cbn [direct_declarator_loop]; [apply safe_out_of_fuel|].
  safe_go.
Qed.

#[local] Hint Resolve safe_direct_declarator_loop : safe.

Lemma safe_parser_direct_declarator : forall it,
  safe (parser_direct_declarator token_to_string token_stream fuel self it)
    ok_result.
Proof. intros it. unfold parser_direct_declarator. safe_go. Qed.

#[local] Hint Resolve safe_parser_direct_declarator : safe.

Lemma safe_parser_declarator : forall it,
  safe (parser_declarator token_to_string token_stream fuel self it) ok_result.
Proof. intros it. unfold parser_declarator. safe_go. Qed.

#[local] Hint Resolve safe_parser_declarator : safe.

Lemma safe_parser_init_declarator : forall it,
  safe (parser_init_declarator token_to_string token_stream fuel self it)
    ok_result.
Proof. intros it. unfold parser_init_declarator. safe_go. Qed.

#[local] Hint Resolve safe_parser_init_declarator : safe.

Lemma safe_parser_init_declarator_list : forall it,
  safe (parser_init_declarator_list token_to_string token_stream fuel self it)
    ok_result.
Proof. intros it. unfold parser_init_declarator_list. safe_go. Qed.

#[local] Hint Resolve safe_parser_init_declarator_list : safe.

Lemma safe_parser_storage_class_specifier : forall it,
  safe (parser_storage_class_specifier token_stream it) ok_result.
Proof. intros it. unfold parser_storage_class_specifier. safe_go. Qed.

#[local] Hint Resolve safe_parser_storage_class_specifier : safe.

Lemma safe_parser_function_specifier : forall it,
  safe (parser_function_specifier token_to_string token_stream it) ok_result.
Proof. intros it. unfold parser_function_specifier. safe_go. Qed.

#[local] Hint Resolve safe_parser_function_specifier : safe.

Lemma safe_alignas_arg_production : forall it,
  safe (alignas_arg_production token_to_string token_stream fuel self it)
    ok_result.
Proof. intros it. unfold alignas_arg_production. safe_go. Qed.

#[local] Hint Resolve safe_alignas_arg_production : safe.

Lemma safe_parser_alignment_specifier : forall it,
  safe (parser_alignment_specifier token_to_string token_stream fuel self it)
    ok_result.
Proof. intros it. unfold parser_alignment_specifier. safe_go. Qed.

#[local] Hint Resolve safe_parser_alignment_specifier : safe.

Lemma safe_parser_declaration_specifier : forall it,
  safe (parser_declaration_specifier token_to_string token_stream fuel self it)
    ok_result.
Proof. intros it. unfold parser_declaration_specifier. safe_go. Qed.

#[local] Hint Resolve safe_parser_declaration_specifier : safe.

Lemma safe_parser_declaration_specifiers : forall it,
  safe (parser_declaration_specifiers token_to_string contains token_stream fuel self it)
    ok_result.
Proof. intros it. unfold parser_declaration_specifiers. safe_go. Qed.

#[local] Hint Resolve safe_parser_declaration_specifiers : safe.

Lemma safe_parser_declaration : forall it,
  safe (parser_declaration token_to_string contains token_stream fuel self it)
    ok_result.
Proof. intros it. unfold parser_declaration. safe_go. Qed.

#[local] Hint Resolve safe_parser_declaration : safe.

Lemma safe_parser_enumeration_constant : forall it,
  safe (parser_enumeration_constant token_stream it) ok_result.
Proof. intros it. unfold parser_enumeration_constant. safe_go. Qed.

#[local] Hint Resolve safe_parser_enumeration_constant : safe.

Lemma safe_enumerator_production : forall it,
  safe (enumerator_production token_to_string token_stream self it) ok_result.
Proof. intros it. unfold enumerator_production. safe_go. Qed.

#[local] Hint Resolve safe_enumerator_production : safe.

Lemma safe_enum_list_production : forall it,
  safe (enum_list_production token_to_string token_stream fuel self it) ok_result.
Proof. intros it. unfold enum_list_production. safe_go. Qed.

#[local] Hint Resolve safe_enum_list_production : safe.

Lemma safe_missing_semicolon_check : forall s it msg,
  ok_state s -> safe (missing_semicolon_check token_stream s it msg) ok_state.
Proof. intros s it msg Hs. unfold missing_semicolon_check. safe_go. Qed.

#[local] Hint Resolve safe_missing_semicolon_check : safe.

Lemma safe_parser_enum_specifier : forall it,
  safe (parser_enum_specifier token_to_string token_stream fuel self it) ok_result.
Proof. intros it. unfold parser_enum_specifier. safe_go. Qed.

#[local] Hint Resolve safe_parser_enum_specifier : safe.

Lemma safe_struct_declarator : forall (x0 : String.string) it,
  safe (struct_declarator token_to_string token_stream fuel self x0 it) ok_result.
Proof. intros x0 it. unfold struct_declarator. safe_go. Qed.

#[local] Hint Resolve safe_struct_declarator : safe.

Lemma safe_struct_declaration : forall (x0 : String.string) it,
  safe (struct_declaration token_to_string token_stream fuel self x0 it) ok_result.
Proof. intros x0 it. unfold struct_declaration. safe_go. Qed.

#[local] Hint Resolve safe_struct_declaration : safe.

Lemma safe_struct_decl_list_production : forall (x0 : String.string) it,
  safe (struct_decl_list_production token_to_string token_stream fuel self x0 it)
    ok_result.
Proof. intros x0 it. unfold struct_decl_list_production. safe_go. Qed.

#[local] Hint Resolve safe_struct_decl_list_production : safe.

Lemma safe_parser_struct_or_union_specifier : forall it,
  safe (parser_struct_or_union_specifier token_to_string token_stream fuel self it)
    ok_result.
Proof. intros it. unfold parser_struct_or_union_specifier. safe_go. Qed.

#[local] Hint Resolve safe_parser_struct_or_union_specifier : safe.

Lemma safe_parser_initializer : forall it,
  safe (parser_initializer token_to_string token_stream self it) ok_result.
Proof. intros it. unfold parser_initializer. safe_go. Qed.

#[local] Hint Resolve safe_parser_initializer : safe.

Lemma safe_designator_production : forall it,
  safe (designator_production token_to_string token_stream self it) ok_result.
Proof. intros it. unfold designator_production. safe_go. Qed.

#[local] Hint Resolve safe_designator_production : safe.

Lemma safe_designation_loop : forall n it s,
  ok_state s ->
  safe (designation_loop token_to_string token_stream self n it s)
    ok_result.
Proof.
  induction n as [|n IH]; intros it s Hs; cbn [designation_loop]; [apply safe_out_of_fuel|].
  safe_go.
Qed.

#[local] Hint Resolve safe_designation_loop : safe.

Lemma safe_designation_production : forall it,
  safe (designation_production token_to_string token_stream fuel self it)
    ok_result.
Proof. intros it. unfold designation_production. safe_go. Qed.

#[local] Hint Resolve safe_designation_production : safe.

Lemma safe_init_list_production : forall it,
  safe (init_list_production token_to_string token_stream fuel self it) ok_result.
Proof. intros it. unfold init_list_production. safe_go. Qed.

#[local] Hint Resolve safe_init_list_production : safe.

Lemma safe_parser_initializer_list : forall it,
  safe (parser_initializer_list token_to_string token_stream fuel self it)
    ok_result.
Proof. intros it. unfold parser_initializer_list. safe_go. Qed.

#[local] Hint Resolve safe_parser_initializer_list : safe.

Lemma safe_compound_literal_production : forall it,
  safe (compound_literal_production token_to_string token_stream fuel self it)
    ok_result.
Proof. intros it. unfold compound_literal_production. safe_go. Qed.

#[local] Hint Resolve safe_compound_literal_production : safe.

Lemma safe_postfix_production : forall it,
  safe (postfix_production token_to_string token_stream fuel self it) ok_result.
Proof. intros it. unfold postfix_production. safe_go. Qed.

#[local] Hint Resolve safe_postfix_production : safe.

Lemma safe_postfix_loop : forall n it s,
  ok_state s ->
  safe (postfix_loop token_to_string token_stream fuel self n it s)
    ok_result.
Proof.
  induction n as [|n IH]; intros it s Hs; cbn [postfix_loop]; [apply safe_out_of_fuel|].
  safe_go.
Qed.

#[local] Hint Resolve safe_postfix_loop : safe.

Lemma safe_parser_postfix_expression : forall it,
  safe (parser_postfix_expression token_to_string token_stream fuel self it)
    ok_result.
Proof. intros it. unfold parser_postfix_expression. safe_go. Qed.

#[local] Hint Resolve safe_parser_postfix_expression : safe.

Lemma safe_incremental_unary_production : forall it,
  safe (incremental_unary_production token_to_string token_stream self it)
    ok_result.
Proof. intros it. unfold incremental_unary_production. safe_go. Qed.

#[local] Hint Resolve safe_incremental_unary_production : safe.

Lemma safe_unary_cast_production : forall it,
  safe (unary_cast_production token_stream self it) ok_result.
Proof. intros it. unfold unary_cast_production. safe_go. Qed.

#[local] Hint Resolve safe_unary_cast_production : safe.

Lemma safe_parens_type_name : forall it,
  safe (parens_type_name token_to_string token_stream fuel self it) ok_result.
Proof. intros it. unfold parens_type_name. safe_go. Qed.

#[local] Hint Resolve safe_parens_type_name : safe.

Lemma safe_size_of_production : forall it,
  safe (size_of_production token_to_string token_stream fuel self it) ok_result.
Proof. intros it. unfold size_of_production. safe_go. Qed.

#[local] Hint Resolve safe_size_of_production : safe.

Lemma safe_parser_unary_expression : forall it,
  safe (parser_unary_expression token_to_string token_stream fuel self it)
    ok_result.
Proof. intros it. unfold parser_unary_expression. safe_go. Qed.

#[local] Hint Resolve safe_parser_unary_expression : safe.

Lemma safe_cast_production : forall it,
  safe (cast_production token_to_string token_stream fuel self it) ok_result.
Proof. intros it. unfold cast_production. safe_go. Qed.

#[local] Hint Resolve safe_cast_production : safe.

Lemma safe_parser_cast_expression : forall it,
  safe (parser_cast_expression token_to_string token_stream fuel self it)
    ok_result.
Proof. intros it. unfold parser_cast_expression. safe_go. Qed.

#[local] Hint Resolve safe_parser_cast_expression : safe.

Lemma safe_multiplicative_operator : forall it,
  safe (multiplicative_operator token_stream it) ok_result.
Proof. intros it. unfold multiplicative_operator. safe_go. Qed.

#[local] Hint Resolve safe_multiplicative_operator : safe.

Lemma safe_parser_multiplicative_expression : forall it,
  safe (parser_multiplicative_expression token_to_string token_stream fuel self it)
    ok_result.
Proof. intros it. unfold parser_multiplicative_expression. safe_go. Qed.

#[local] Hint Resolve safe_parser_multiplicative_expression : safe.

Lemma safe_additive_operator : forall it,
  safe (additive_operator token_stream it) ok_result.
Proof. intros it. unfold additive_operator. safe_go. Qed.

#[local] Hint Resolve safe_additive_operator : safe.

Lemma safe_parser_additive_expression : forall it,
  safe (parser_additive_expression token_to_string token_stream fuel self it)
    ok_result.
Proof. intros it. unfold parser_additive_expression. safe_go. Qed.

#[local] Hint Resolve safe_parser_additive_expression : safe.

Lemma safe_shift_operator : forall it,
  safe (shift_operator token_stream it) ok_result.
Proof. intros it. unfold shift_operator. safe_go. Qed.

#[local] Hint Resolve safe_shift_operator : safe.

Lemma safe_parser_shift_expression : forall it,
  safe (parser_shift_expression token_to_string token_stream fuel self it)
    ok_result.
Proof. intros it. unfold parser_shift_expression. safe_go. Qed.

#[local] Hint Resolve safe_parser_shift_expression : safe.

Lemma safe_relational_operator : forall it,
  safe (relational_operator token_stream it) ok_result.
Proof. intros it. unfold relational_operator. safe_go. Qed.

#[local] Hint Resolve safe_relational_operator : safe.

Lemma safe_parser_relational_expression : forall it,
  safe (parser_relational_expression token_to_string token_stream fuel self it)
    ok_result.
Proof. intros it. unfold parser_relational_expression. safe_go. Qed.

#[local] Hint Resolve safe_parser_relational_expression : safe.

Lemma safe_equality_operator : forall it,
  safe (equality_operator token_stream it) ok_result.
Proof. intros it. unfold equality_operator. safe_go. Qed.

#[local] Hint Resolve safe_equality_operator : safe.

Lemma safe_parser_equality_expression : forall it,
  safe (parser_equality_expression token_to_string token_stream fuel self it)
    ok_result.
Proof. intros it. unfold parser_equality_expression. safe_go. Qed.

#[local] Hint Resolve safe_parser_equality_expression : safe.

Lemma safe_and_operator : forall it,
  safe (and_operator token_stream it) ok_result.
Proof. intros it. unfold and_operator. safe_go. Qed.

#[local] Hint Resolve safe_and_operator : safe.

Lemma safe_parser_and_expression : forall it,
  safe (parser_and_expression token_to_string token_stream fuel self it) ok_result.
Proof. intros it. unfold parser_and_expression. safe_go. Qed.

#[local] Hint Resolve safe_parser_and_expression : safe.

Lemma safe_exclusive_or_operator : forall it,
  safe (exclusive_or_operator token_stream it) ok_result.
Proof. intros it. unfold exclusive_or_operator. safe_go. Qed.

#[local] Hint Resolve safe_exclusive_or_operator : safe.

Lemma safe_parser_exclusive_or_expression : forall it,
  safe (parser_exclusive_or_expression token_to_string token_stream fuel self it)
    ok_result.
Proof. intros it. unfold parser_exclusive_or_expression. safe_go. Qed.

#[local] Hint Resolve safe_parser_exclusive_or_expression : safe.

Lemma safe_inclusive_or_operator : forall it,
  safe (inclusive_or_operator token_stream it) ok_result.
Proof. intros it. unfold inclusive_or_operator. safe_go. Qed.

#[local] Hint Resolve safe_inclusive_or_operator : safe.

Lemma safe_parser_inclusive_or_expression : forall it,
  safe (parser_inclusive_or_expression token_to_string token_stream fuel self it)
    ok_result.
Proof. intros it. unfold parser_inclusive_or_expression. safe_go. Qed.

#[local] Hint Resolve safe_parser_inclusive_or_expression : safe.

Lemma safe_logical_and_operator : forall it,
  safe (logical_and_operator token_stream it) ok_result.
Proof. intros it. unfold logical_and_operator. safe_go. Qed.

#[local] Hint Resolve safe_logical_and_operator : safe.

Lemma safe_parser_logical_and_expression : forall it,
  safe (parser_logical_and_expression token_to_string token_stream fuel self it)
    ok_result.
Proof. intros it. unfold parser_logical_and_expression. safe_go. Qed.

#[local] Hint Resolve safe_parser_logical_and_expression : safe.

Lemma safe_logical_or_operator : forall it,
  safe (logical_or_operator token_stream it) ok_result.
Proof. intros it. unfold logical_or_operator. safe_go. Qed.

#[local] Hint Resolve safe_logical_or_operator : safe.

Lemma safe_parser_logical_or_expression : forall it,
  safe (parser_logical_or_expression token_to_string token_stream fuel self it)
    ok_result.
Proof. intros it. unfold parser_logical_or_expression. safe_go. Qed.

#[local] Hint Resolve safe_parser_logical_or_expression : safe.

Lemma safe_parser_conditional_expression : forall it,
  safe (parser_conditional_expression token_to_string token_stream fuel self it)
    ok_result.
Proof. intros it. unfold parser_conditional_expression. safe_go. Qed.

#[local] Hint Resolve safe_parser_conditional_expression : safe.

Lemma safe_assign_operator : forall it,
  safe (assign_operator token_stream it) ok_result.
Proof. intros it. unfold assign_operator. safe_go. Qed.

#[local] Hint Resolve safe_assign_operator : safe.

Lemma safe_parser_assignment_expression : forall it,
  safe (parser_assignment_expression token_to_string token_stream fuel self it)
    ok_result.
Proof. intros it. unfold parser_assignment_expression. safe_go. Qed.

#[local] Hint Resolve safe_parser_assignment_expression : safe.

Lemma safe_comma_operator : forall it,
  safe (comma_operator token_stream it) ok_result.
Proof. intros it. unfold comma_operator. safe_go. Qed.

#[local] Hint Resolve safe_comma_operator : safe.

Lemma safe_parser_expression : forall it,
  safe (parser_expression token_to_string token_stream fuel self it) ok_result.
Proof. intros it. unfold parser_expression. safe_go. Qed.

#[local] Hint Resolve safe_parser_expression : safe.

Lemma safe_parser_parens_expr : forall it,
  safe (parser_parens_expr token_to_string token_stream fuel self it) ok_result.
Proof. intros it. unfold parser_parens_expr. safe_go. Qed.

#[local] Hint Resolve safe_parser_parens_expr : safe.

Lemma safe_parser_primary_expression : forall it,
  safe (parser_primary_expression token_to_string token_stream fuel self it)
    ok_result.
Proof. intros it. unfold parser_primary_expression. safe_go. Qed.

#[local] Hint Resolve safe_parser_primary_expression : safe.

Lemma safe_parser_statement : forall it,
  safe (parser_statement token_stream self it) ok_result.
Proof. intros it. unfold parser_statement. safe_go. Qed.

#[local] Hint Resolve safe_parser_statement : safe.

Lemma safe_parser_jump_statement : forall it,
  safe (parser_jump_statement token_to_string token_stream fuel self it) ok_result.
Proof. intros it. unfold parser_jump_statement. safe_go. Qed.

#[local] Hint Resolve safe_parser_jump_statement : safe.

Lemma safe_parens_expression : forall it,
  safe (parens_expression token_to_string token_stream fuel self it) ok_result.
Proof. intros it. unfold parens_expression. safe_go. Qed.

#[local] Hint Resolve safe_parens_expression : safe.

Lemma safe_while_statement : forall it,
  safe (while_statement token_to_string token_stream fuel self it) ok_result.
Proof. intros it. unfold while_statement. safe_go. Qed.

#[local] Hint Resolve safe_while_statement : safe.

Lemma safe_do_while_statement : forall it,
  safe (do_while_statement token_to_string token_stream fuel self it) ok_result.
Proof. intros it. unfold do_while_statement. safe_go. Qed.

#[local] Hint Resolve safe_do_while_statement : safe.

Lemma safe_for_clause_expression : forall it s,
  ok_state s ->
  safe (for_clause_expression token_to_string token_stream fuel self it s)
    ok_result.
Proof. intros it s Hs. unfold for_clause_expression. safe_go. Qed.

#[local] Hint Resolve safe_for_clause_expression : safe.

Lemma safe_for_exprs_production : forall it,
  safe (for_exprs_production token_to_string contains token_stream fuel self it)
    ok_result.
Proof. intros it. unfold for_exprs_production. safe_go. Qed.

#[local] Hint Resolve safe_for_exprs_production : safe.

Lemma safe_for_statement : forall it,
  safe (for_statement token_to_string contains token_stream fuel self it)
    ok_result.
Proof. intros it. unfold for_statement. safe_go. Qed.

#[local] Hint Resolve safe_for_statement : safe.

Lemma safe_parser_iteration_statement : forall it,
  safe (parser_iteration_statement token_to_string contains token_stream fuel self it)
    ok_result.
Proof. intros it. unfold parser_iteration_statement. safe_go. Qed.

#[local] Hint Resolve safe_parser_iteration_statement : safe.

Lemma safe_if_statement : forall it,
  safe (if_statement token_to_string token_stream fuel self it) ok_result.
Proof. intros it. unfold if_statement. safe_go. Qed.

#[local] Hint Resolve safe_if_statement : safe.

Lemma safe_switch_statement : forall it,
  safe (switch_statement token_to_string token_stream fuel self it) ok_result.
Proof. intros it. unfold switch_statement. safe_go. Qed.

#[local] Hint Resolve safe_switch_statement : safe.

Lemma safe_parser_selection_statement : forall it,
  safe (parser_selection_statement token_to_string token_stream fuel self it)
    ok_result.
Proof. intros it. unfold parser_selection_statement. safe_go. Qed.

#[local] Hint Resolve safe_parser_selection_statement : safe.

Lemma safe_parser_expression_statement : forall it,
  safe (parser_expression_statement token_to_string token_stream fuel self it)
    ok_result.
Proof. intros it. unfold parser_expression_statement. safe_go. Qed.

#[local] Hint Resolve safe_parser_expression_statement : safe.

Lemma safe_decl_or_stmt : forall it,
  safe (decl_or_stmt token_to_string contains token_stream fuel self it) ok_result.
Proof. intros it. unfold decl_or_stmt. safe_go. Qed.

#[local] Hint Resolve safe_decl_or_stmt : safe.

Lemma safe_block_item_list_production : forall it,
  safe (block_item_list_production token_to_string contains token_stream fuel self it)
    ok_result.
Proof. intros it. unfold block_item_list_production. safe_go. Qed.

#[local] Hint Resolve safe_block_item_list_production : safe.

Lemma safe_parser_compound_statement : forall it,
  safe (parser_compound_statement token_to_string contains token_stream fuel self it)
    ok_result.
Proof. intros it. unfold parser_compound_statement. safe_go. Qed.

#[local] Hint Resolve safe_parser_compound_statement : safe.

Lemma safe_parser_labeled_statement : forall it,
  safe (parser_labeled_statement token_to_string token_stream self it) ok_result.
Proof. intros it. unfold parser_labeled_statement. safe_go. Qed.

#[local] Hint Resolve safe_parser_labeled_statement : safe.

Lemma safe_declaration_list : forall it,
  safe (declaration_list token_to_string contains token_stream fuel self it)
    ok_result.
Proof. intros it. unfold declaration_list. safe_go. Qed.

#[local] Hint Resolve safe_declaration_list : safe.

Lemma safe_parser_function_definition : forall it,
  safe (parser_function_definition token_to_string contains token_stream fuel self it)
    ok_result.
Proof. intros it. unfold parser_function_definition. safe_go. Qed.

#[local] Hint Resolve safe_parser_function_definition : safe.

Lemma safe_dispatch : forall r it,
  safe (dispatch token_to_string contains token_stream fuel self r it) ok_result.
Proof. intros r it. destruct r; cbn [dispatch]; auto with safe nocore. Qed.

(** The root of the compilation unit. *)

Lemma safe_unit_add_state : forall s o,
  unit_state s -> ok_state o -> safe (add_state s o) unit_state.
Proof.
  intros s [es|[t|]] Hs Ho; cbn [add_state].
  - apply safe_ret. cbn [add_error_state]. apply unit_add_errors. exact Hs.
  - apply safe_ret. apply unit_add_node; assumption.
  - apply safe_stuck.
Qed.

Lemma safe_compilation_unit_loop : forall n it s,
  unit_state s ->
  safe (compilation_unit_loop token_to_string contains token_stream fuel self n it s)
    unit_result.
Proof.
  induction n as [|n IH]; intros it s Hs; cbn [compilation_unit_loop];
    [apply safe_out_of_fuel|].
  destruct (Nat.eqb it _); [apply safe_ret; exact Hs|].
  eapply safe_bind; [apply safe_any|]. intros tok _.
  destruct (TokenType.eqb _ _); [apply safe_ret; exact Hs|].
  destruct (TokenType.eqb _ _); [apply IH; exact Hs|].
  apply (@safe_bind _ _ _ _ ok_result); [auto with safe nocore|].
  intros [next_it extern_decl] Hdecl.
  eapply safe_bind.
  - apply safe_unit_add_state; [exact Hs|]. apply ok_giveup_to_expected. exact Hdecl.
  - intros unit Hunit. apply IH. exact Hunit.
Qed.

Lemma safe_compilation_unit_root : forall it,
  safe (parser_compilation_unit token_to_string contains token_stream fuel self it)
    unit_result.
Proof.
  intro it. unfold parser_compilation_unit.
  destruct (negb _); [|apply safe_ret; exact I].
  eapply safe_bind; [apply safe_any|]. intros tok _.
  destruct (negb _).
  - apply safe_compilation_unit_loop. split; reflexivity.
  - apply safe_ret. split; reflexivity.
Qed.

End SettledRules.

Section SettledParse.

Variable token_to_string : TokenType.t -> string.
Variable contains : SourceRange -> SourceLocation -> bool.
Variable token_stream : TokenStream.

Lemma safe_run : forall n r it,
  safe (run token_to_string contains token_stream n r it) ok_result.
Proof.
  induction n as [|n IH]; intros r it; cbn [run].
  - apply safe_out_of_fuel.
  - apply safe_dispatch. exact IH.
Qed.

Lemma parse_with_unit : forall n c tree c',
  parse_with token_to_string contains token_stream n c = Ok (Some tree, c') ->
  node_type tree = NodeType.CompilationUnit /\ settled tree = true.
Proof.
  intros n c tree c' E. unfold parse_with, bind in E.
  destruct (parser_compilation_unit _ _ _ _ _ _ c) as [[[it ast] c1]|f] eqn:Eunit;
    [|discriminate E].
  pose proof (@safe_compilation_unit_root token_to_string contains token_stream n _
                (safe_run n) 0 _ _ _ Eunit) as Hunit.
  unfold unit_result in Hunit. cbn [snd] in Hunit.
  destruct (negb _); [discriminate E|].
  destruct (giveup_to_expected ast) as [fails|t] eqn:Eg.
  - destruct (emit_failures _ _ fails c1) as [[u c2]|f]; discriminate E.
  - unfold ret in E. inversion E; subst. exact (unit_giveup_to_expected _ Hunit Eg).
Qed.

End SettledParse.

(** X23.  No node of a tree returned by [parse] is an elision candidate:
    the root is a [CompilationUnit], which [should_elide] keeps, and
    whatever hangs below it went through [add_node], which takes the
    children of a candidate instead of the candidate. *)
Theorem parsed_trees_hold_no_elision_candidate :
  forall token_to_string contains token_stream n prog tree prog',
    parse token_to_string contains token_stream n prog = Ok (Some tree, prog') ->
    node_type tree = NodeType.CompilationUnit /\
    forall d, In d (nodes tree) -> should_elide d = false.
Proof.
  intros spell contains ts n prog tree prog' E. unfold parse in E.
  destruct (parse_with _ _ _ _ _) as [[t c]|f] eqn:Ew; [|discriminate E].
  inversion E; subst.
  destruct (parse_with_unit _ _ _ _ _ Ew) as [Hty Hset].
  split; [exact Hty|]. intros d Hd.
  destruct (settled_nodes _ Hset _ Hd) as [->|H]; [|exact H].
  apply unit_root_is_kept. exact Hty.
Qed.

Lemma parsed_trees_hold_no_elision_candidate_witness :
  exists tree prog,
    parse Examples.token_spelling Examples.range_contains Examples.one_declaration 20
      Examples.no_diagnostics = Ok (Some tree, prog) /\
    node_type tree = NodeType.CompilationUnit /\
    forall d, In d (nodes tree) -> should_elide d = false.
Proof.
  eexists. eexists.
  assert (Hrun : parse Examples.token_spelling Examples.range_contains
                   Examples.one_declaration 20 Examples.no_diagnostics
                 = Ok (Some _, _)) by (vm_compute; reflexivity).
  split; [exact Hrun|].
  exact (parsed_trees_hold_no_elision_candidate _ _ _ _ _ Hrun).
Defined.


(** * Further properties of the parser kernel *)

(** ** Inverting a run *)

Lemma bind_inv : forall (A B : Type) (m : M A) (k : A -> M B) c b c',
  bind m k c = Ok (b, c') ->
  exists a c1, m c = Ok (a, c1) /\ k a c1 = Ok (b, c').
Proof.
  intros A B m k c b c' H. unfold bind in H.
  destruct (m c) as [[a c1]|f]; [|discriminate H].
  exists a, c1. split; [reflexivity|exact H].
Qed.

Lemma ret_inv : forall (A : Type) (a b : A) c c',
  ret a c = Ok (b, c') -> b = a /\ c' = c.
Proof. intros A a b c c' H. inversion H. split; reflexivity. Qed.

Ltac bind_inv H :=
  let a := fresh "a" in
  let c := fresh "c" in
  let Hm := fresh "Hm" in
  apply bind_inv in H; destruct H as (a & c & Hm & H); cbv beta iota in H.

Tactic Notation "bind_inv_as" hyp(H) ident(a) ident(c) ident(Hm) :=
  apply bind_inv in H; destruct H as (a & c & Hm & H); cbv beta iota in H.

Ltac ret_inv H :=
  apply ret_inv in H;
  let Hv := fresh "Hv" in
  let Hc := fresh "Hc" in
  destruct H as [Hv Hc];
  first [ injection Hv as ? ?; subst | subst ].

(** ** Promotion of give-ups without [what] *)

Lemma giveup_to_expected_fold : forall es s0,
  fold_left
    (fun new_state e =>
       if is_GiveUp (status e)
       then add_error new_state
              {| status := Error; where_ := where_ e; error := "expected " +++ error e |}
       else add_error new_state e) es s0
  = add_errors s0 (map promoted es).
Proof.
  induction es as [|e es IH]; intro s0; [reflexivity|].
  cbn [fold_left map]. rewrite IH, add_errors_cons. unfold promoted.
  destruct (is_GiveUp (status e)); reflexivity.
Qed.

Lemma promoted_is_no_giveup : forall e, is_GiveUp (status (promoted e)) = false.
Proof.
  intro e. unfold promoted. destruct (is_GiveUp (status e)) eqn:E; [reflexivity|exact E].
Qed.

Lemma promoted_twice : forall e, promoted (promoted e) = promoted e.
Proof.
  intro e. unfold promoted at 1. rewrite promoted_is_no_giveup. reflexivity.
Qed.

Lemma promoted_list_is_no_giveup : forall e es,
  is_giveup (Failure (map promoted (e :: es))) = false.
Proof.
  intros e es. cbn [is_giveup map forallb]. rewrite promoted_is_no_giveup. reflexivity.
Qed.

Lemma giveup_to_expected_cons : forall e es,
  giveup_to_expected (Failure (e :: es)) = Failure (map promoted (e :: es)).
Proof.
  intros e es. unfold giveup_to_expected. rewrite giveup_to_expected_fold.
  apply add_errors_Success. discriminate.
Qed.

Lemma giveup_to_expected_no_giveup : forall state,
  is_giveup (giveup_to_expected state) = false.
Proof.
  intros [[|e es]|t]; [reflexivity| |reflexivity].
  rewrite giveup_to_expected_cons. apply promoted_list_is_no_giveup.
Qed.

(** X1. [giveup_to_expected] without [what] rewrites a non-empty failure
    entry by entry: the list keeps its length and order, every [GiveUp]
    becomes an [Error] at the same token whose message is the old one behind
    ["expected "], and every other entry is kept as it is. *)
Theorem giveup_to_expected_promotes : forall e es,
  giveup_to_expected (Failure (e :: es)) = Failure (map promoted (e :: es)) /\
  List.length (errors_of (giveup_to_expected (Failure (e :: es)))) = S (List.length es) /\
  forall i x, nth_error (e :: es) i = Some x ->
    exists y, nth_error (errors_of (giveup_to_expected (Failure (e :: es)))) i = Some y /\
              where_ y = where_ x /\
              (status x = GiveUp ->
                 status y = Error /\ error y = "expected " +++ error x) /\
              (status x <> GiveUp -> y = x).
Proof.
  intros e es. rewrite giveup_to_expected_cons. split; [reflexivity|]. split.
  - cbn [errors_of]. rewrite length_map. reflexivity.
  - intros i x Hx. exists (promoted x). cbn [errors_of]. split.
    + rewrite nth_error_map, Hx. reflexivity.
    + unfold promoted. destruct (status x) eqn:Hst; cbn [is_GiveUp];
        (split; [reflexivity|]); split; intro H; try discriminate H;
        try reflexivity; try (split; reflexivity); congruence.
Qed.

(** X2. After [giveup_to_expected] no state is a give-up, and promoting
    twice is promoting once; the empty failure, which [is_giveup] accepts, is
    turned into a success with a null tree. *)
Theorem giveup_to_expected_settles : forall state,
  is_giveup (giveup_to_expected state) = false /\
  giveup_to_expected (giveup_to_expected state) = giveup_to_expected state /\
  is_giveup (Failure []) = true /\
  giveup_to_expected (Failure []) = Success None.
Proof.
  intro state. split; [apply giveup_to_expected_no_giveup|].
  split; [|split; reflexivity].
  destruct state as [[|e es]|t]; [reflexivity| |reflexivity].
  rewrite giveup_to_expected_cons. cbn [map]. rewrite giveup_to_expected_cons.
  cbn [map]. rewrite promoted_twice, map_map. f_equal. f_equal.
  apply map_ext. intro a. apply promoted_twice.
Qed.

(** ** Merging states *)

Lemma add_node_errors_of : forall state node,
  errors_of (add_node state node) = errors_of state /\
  is_success (add_node state node) = is_success state.
Proof.
  intros [es|[t|]] node; cbn [add_node]; [split; reflexivity| |split; reflexivity].
  destruct (_ || _); split; reflexivity.
Qed.

(** X3. [add_state] never loses an error: the errors of the result are those
    of the state followed by those of the other state, the context is not
    touched, and the result is a success only if the state was one and the
    other state brought no error.  A successful other state with a null tree
    breaks the [Expects] of [add_node]. *)
Theorem add_state_accumulates :
  (forall state other c result c',
     add_state state other c = Ok (result, c') ->
     c' = c /\
     errors_of result = errors_of state ++ errors_of other /\
     is_success result
     = is_success state && match errors_of other with [] => true | _ => false end) /\
  (forall state c, add_state state (Success None) c = Stuck ContractViolation).
Proof.
  split; [|reflexivity].
  intros state other c result c' H. destruct other as [es|[t|]]; cbn [add_state] in H.
  - ret_inv H. split; [reflexivity|]. cbn [add_error_state errors_of].
    destruct es as [|e es].
    + cbn. rewrite app_nil_r, andb_true_r. split; reflexivity.
    + rewrite add_errors_errors_of by discriminate. cbn [errors_of is_success].
      rewrite andb_false_r. split; reflexivity.
  - ret_inv H. split; [reflexivity|]. cbn [errors_of].
    destruct (add_node_errors_of state t) as [He Hs].
    rewrite He, Hs, app_nil_r, andb_true_r. split; reflexivity.
  - discriminate H.
Qed.

Lemma giveup_to_expected_promotes_witness :
  exists y,
    nth_error (errors_of (giveup_to_expected
                            (Failure [ {| status := GiveUp; where_ := 4;
                                          error := "identifier" |} ]))) 0
    = Some y /\
    where_ y = 4 /\
    (GiveUp = GiveUp -> status y = Error /\ error y = "expected identifier") /\
    (GiveUp <> GiveUp ->
     y = {| status := GiveUp; where_ := 4; error := "identifier" |}).
Proof.
  exact (proj2 (proj2 (giveup_to_expected_promotes
                         {| status := GiveUp; where_ := 4; error := "identifier" |} []))
           0 {| status := GiveUp; where_ := 4; error := "identifier" |} eq_refl).
Defined.

Lemma add_state_accumulates_witness :
  Examples.fresh_context = Examples.fresh_context /\
  errors_of (make_error Error 2 "expected ';'")
  = errors_of (Success (Some new_tree)) ++ errors_of (make_error Error 2 "expected ';'") /\
  is_success (make_error Error 2 "expected ';'")
  = is_success (Success (Some new_tree))
    && match errors_of (make_error Error 2 "expected ';'") with
       | [] => true
       | _ => false
       end.
Proof.
  exact (proj1 add_state_accumulates (Success (Some new_tree))
           (make_error Error 2 "expected ';'") Examples.fresh_context
           (make_error Error 2 "expected ';'") Examples.fresh_context eq_refl).
Defined.

(** ** Reading tokens *)

Section Reading.

Variable token_to_string : TokenType.t -> string.
Variable token_stream : TokenStream.

Lemma deref_inv : forall it c tok c',
  deref token_stream it c = Ok (tok, c') ->
  c' = c /\ nth_error (tokens token_stream) it = Some tok /\ it < tend token_stream.
Proof.
  intros it c tok c' H. unfold deref in H.
  destruct (nth_error (tokens token_stream) it) as [t|] eqn:E; [|discriminate H].
  ret_inv H. split; [reflexivity|]. split; [reflexivity|].
  unfold tend. apply nth_error_Some. congruence.
Qed.

Lemma token_is_inv : forall it k c b c',
  token_is token_stream it k c = Ok (b, c') ->
  c' = c /\
  (b = true ->
   it < tend token_stream /\
   exists tok, nth_error (tokens token_stream) it = Some tok /\ type tok = k).
Proof.
  intros it k c b c' H. unfold token_is in H.
  destruct (Nat.eqb it (tend token_stream)) eqn:E.
  - ret_inv H. split; [reflexivity|]. discriminate.
  - bind_inv H. apply deref_inv in Hm. destruct Hm as (-> & Htok & Hlt).
    ret_inv H. split; [reflexivity|]. intro Hb. split; [exact Hlt|].
    exists a. split; [exact Htok|]. apply TokenType.eqb_eq. exact Hb.
Qed.

(** ** Alternatives *)

(** X4. [parser_one_of] returns the result of the first of its rules that
    does not give up, each rule being run at [begin] in the context the
    rules before it left; it gives up only when every rule gave up, and
    then with a single [GiveUp] at [begin] that carries the message of the
    caller, returned with [tokens.end()]: the give-ups of the alternatives
    are discarded.  Nothing else is a result of [parser_one_of]. *)
Theorem one_of_picks_a_rule : forall rules begin what c result c',
  parser_one_of token_stream begin what rules c = Ok (result, c') <->
  (exists before rule after c1,
     rules = before ++ rule :: after /\
     all_gave_up before begin c c1 /\
     rule begin c1 = Ok (result, c') /\ is_giveup (snd result) = false) \/
  (all_gave_up rules begin c c' /\
   result = (tend token_stream, make_error GiveUp begin what)).
Proof.
  induction rules as [|rule rules IH]; intros begin what c result c';
    cbn [parser_one_of].
  - unfold giveup_at, ret. split.
    + intros H. inversion H; subst. right. split; reflexivity.
    + intros [(before & rule & after & c1 & Hl & _)|[Hc ->]].
      * destruct before; discriminate Hl.
      * cbn [all_gave_up] in Hc. subst c'. reflexivity.
  - unfold bind at 1.
    destruct (rule begin c) as [[[it state] c0]|f] eqn:Hrule.
    + destruct (is_giveup state) eqn:Hg; cbn [negb].
      * rewrite IH. split.
        -- intros [(before & r & after & c1 & Hl & Hb & Hr & Hn)|[Hall Hres]].
           ++ left. exists (rule :: before), r, after, c1.
              split; [rewrite Hl; reflexivity|].
              split; [|split; assumption].
              cbn [all_gave_up]. exists it, state, c0. auto.
           ++ right. split; [|exact Hres].
              cbn [all_gave_up]. exists it, state, c0. auto.
        -- intros [(before & r & after & c1 & Hl & Hb & Hr & Hn)|[Hall Hres]].
           ++ destruct before as [|r0 before]; cbn [app] in Hl;
                injection Hl as <- ->.
              ** cbn [all_gave_up] in Hb. subst c1.
                 rewrite Hrule in Hr. inversion Hr; subst.
                 cbn [snd] in Hn. rewrite Hg in Hn. discriminate Hn.
              ** cbn [all_gave_up] in Hb.
                 destruct Hb as (it' & state' & c1' & Hr' & _ & Hb).
                 rewrite Hrule in Hr'. inversion Hr'; subst.
                 left. exists before, r, after, c1. auto.
           ++ cbn [all_gave_up] in Hall.
              destruct Hall as (it' & state' & c1' & Hr' & _ & Hb).
              rewrite Hrule in Hr'. inversion Hr'; subst.
              right. auto.
      * unfold ret. split.
        -- intros H. inversion H; subst. left.
           exists [], rule, rules, c. cbn [app all_gave_up snd]. auto.
        -- intros [(before & r & after & c1 & Hl & Hb & Hr & Hn)|[Hall Hres]].
           ++ destruct before as [|r0 before]; cbn [app] in Hl;
                injection Hl as <- ->.
              ** cbn [all_gave_up] in Hb. subst c1.
                 rewrite Hrule in Hr. exact Hr.
              ** cbn [all_gave_up] in Hb.
                 destruct Hb as (it' & state' & c1' & Hr' & Hg' & _).
                 rewrite Hrule in Hr'. inversion Hr'; subst.
                 rewrite Hg in Hg'. discriminate Hg'.
           ++ cbn [all_gave_up] in Hall.
              destruct Hall as (it' & state' & c1' & Hr' & Hg' & _).
              rewrite Hrule in Hr'. inversion Hr'; subst.
              rewrite Hg in Hg'. discriminate Hg'.
    + split; [discriminate|].
      intros [(before & r & after & c1 & Hl & Hb & Hr & Hn)|[Hall Hres]].
      * destruct before as [|r0 before]; cbn [app] in Hl;
          injection Hl as <- ->.
        -- cbn [all_gave_up] in Hb. subst c1. rewrite Hrule in Hr. discriminate Hr.
        -- cbn [all_gave_up] in Hb.
           destruct Hb as (it' & state' & c1' & Hr' & _).
           rewrite Hrule in Hr'. discriminate Hr'.
      * cbn [all_gave_up] in Hall.
        destruct Hall as (it' & state' & c1' & Hr' & _).
        rewrite Hrule in Hr'. discriminate Hr'.
Qed.

(** ** The two token checks *)

(** X5. [expect_token] answers [true] exactly when the token at [it] has the
    expected kind, and then leaves the state alone.  A wrong token adds one
    [Error] at [it]; at [tokens.end()] the answer is [false] and nothing is
    added. *)
Theorem expect_token_answers : forall state it tk c answer state' c',
  expect_token token_to_string token_stream state it tk c = Ok ((answer, state'), c') ->
  c' = c /\
  (answer = true ->
   state' = state /\
   exists tok, nth_error (tokens token_stream) it = Some tok /\ type tok = tk) /\
  (answer = false -> it = tend token_stream -> state' = state) /\
  (answer = false -> it <> tend token_stream ->
   exists tok,
     nth_error (tokens token_stream) it = Some tok /\ type tok <> tk /\
     state' = add_error state
                {| status := Error; where_ := it;
                   error := "expected '" +++ token_to_string tk +++ "' before '"
                            +++ token_to_string (type tok) +++ "'" |}).
Proof.
  intros state it tk c answer state' c' H. unfold expect_token in H.
  destruct (Nat.eqb it (tend token_stream)) eqn:Eend; cbn [negb] in H.
  - ret_inv H. apply Nat.eqb_eq in Eend.
    split; [reflexivity|]. split; [discriminate|]. split; [reflexivity|].
    intros _ Hne. contradiction.
  - bind_inv H. apply deref_inv in Hm. destruct Hm as (-> & Htok & _).
    apply Nat.eqb_neq in Eend.
    destruct (TokenType.eqb (type a) tk) eqn:Ek; cbn [negb] in H; ret_inv H;
      (split; [reflexivity|]).
    + apply TokenType.eqb_eq in Ek. split.
      * intros _. split; [reflexivity|]. exists a. split; assumption.
      * split; discriminate.
    + split; [discriminate|]. split; [intros _ He; contradiction|].
      intros _ _. exists a. split; [exact Htok|]. split; [|reflexivity].
      intro Heq. rewrite Heq, TokenType.eqb_refl in Ek. discriminate Ek.
Qed.

(** X6. [expect_end_token] answers [true] only on the expected token, and
    every [false] answer leaves a failure behind: a wrong token adds an
    [Error] at that token and an [ErrorNote] at the opening token, and at
    [tokens.end()] the [Error] is put on the opening token. *)
Theorem expect_end_token_answers : forall state begin it tk c answer state' c',
  expect_end_token token_to_string token_stream state begin it tk c
  = Ok ((answer, state'), c') ->
  c' = c /\
  (answer = true ->
   state' = state /\
   exists tok, nth_error (tokens token_stream) it = Some tok /\ type tok = tk) /\
  (answer = false ->
   is_failure state' = true /\
   if Nat.eqb it (tend token_stream)
   then state' = add_error state
                   {| status := Error; where_ := begin;
                      error := "missing '" +++ token_to_string tk +++ "' for this" |}
   else exists open,
          nth_error (tokens token_stream) begin = Some open /\
          state' = add_error
                     (add_error state
                        {| status := Error; where_ := it;
                           error := "expected '" +++ token_to_string tk +++ "'" |})
                     {| status := ErrorNote; where_ := begin;
                        error := "to match this '"
                                 +++ token_to_string (type open) +++ "'" |}).
Proof.
  intros state begin it tk c answer state' c' H. unfold expect_end_token in H.
  destruct (Nat.eqb it (tend token_stream)) eqn:Eend; cbn [negb] in H.
  - ret_inv H. split; [reflexivity|]. split; [discriminate|].
    intros _. split; [destruct state; reflexivity|]. destruct state; reflexivity.
  - bind_inv H. apply deref_inv in Hm. destruct Hm as (-> & Htok & _).
    destruct (TokenType.eqb (type a) tk) eqn:Ek; cbn [negb] in H.
    + ret_inv H. apply TokenType.eqb_eq in Ek.
      split; [reflexivity|]. split; [|discriminate].
      intros _. split; [reflexivity|]. exists a. split; assumption.
    + bind_inv H. apply deref_inv in Hm. destruct Hm as (-> & Hopen & _).
      ret_inv H. split; [reflexivity|]. split; [discriminate|].
      intros _. split; [destruct state; reflexivity|].
      exists a0. split; [exact Hopen|]. destruct state; reflexivity.
Qed.

End Reading.

(** ** Lists *)

Lemma forallb_app_false_r : forall (A : Type) (f : A -> bool) l1 l2,
  forallb f l2 = false -> forallb f (l1 ++ l2) = false.
Proof.
  intros A f l1 l2 H. rewrite forallb_app, H. apply andb_false_r.
Qed.

Lemma add_node_no_giveup : forall state node,
  is_giveup state = false -> is_giveup (add_node state node) = false.
Proof.
  intros [es|[t|]] node H; cbn [add_node]; [exact H| |reflexivity].
  destruct (_ || _); reflexivity.
Qed.

Lemma add_state_no_giveup : forall state other c result c',
  is_giveup state = false ->
  is_giveup other = false ->
  add_state state other c = Ok (result, c') ->
  c' = c /\ is_giveup result = false.
Proof.
  intros state other c result c' Hs Ho H.
  destruct other as [es|[t|]]; cbn [add_state] in H.
  - ret_inv H. split; [reflexivity|]. cbn [add_error_state].
    destruct es as [|e es]; [discriminate Ho|].
    rewrite add_errors_errors_of by discriminate. cbn [is_giveup].
    apply forallb_app_false_r. exact Ho.
  - ret_inv H. split; [reflexivity|]. apply add_node_no_giveup. exact Hs.
  - discriminate H.
Qed.

Section Lists.

Variable token_stream : TokenStream.

Lemma list_of_loop_no_giveup : forall rule allow n it state c result c',
  is_giveup state = false ->
  it <= tend token_stream ->
  list_of_loop token_stream rule allow n it state c = Ok (result, c') ->
  is_giveup (snd result) = false /\ fst result <= tend token_stream.
Proof.
  intros rule allow. induction n as [|n IH]; intros it state c result c' Hs Hit H;
    cbn [list_of_loop] in H; [discriminate H|].
  destruct (Nat.eqb it (tend token_stream)); [ret_inv H; split; assumption|].
  bind_inv H. destruct a as [r_it r_state].
  destruct (Nat.leb r_it (tend token_stream)) eqn:Hle; cbn [negb] in H;
    [|discriminate H].
  apply Nat.leb_le in Hle.
  bind_inv H.
  apply add_state_no_giveup in Hm0;
    [|exact Hs|apply giveup_to_expected_no_giveup].
  destruct Hm0 as [-> Hg].
  bind_inv H. apply token_is_inv in Hm0. destruct Hm0 as [-> Hcomma].
  assert (Hnext : (if a0 then next r_it else r_it) <= tend token_stream).
  { destruct a0; [|exact Hle]. destruct (Hcomma eq_refl) as [Hlt _].
    unfold next. lia. }
  bind_inv H.
  destruct a1.
  - ret_inv H. split; assumption.
  - bind_inv H. destruct (negb a1).
    + ret_inv H. split; assumption.
    + eapply IH; [exact Hg|exact Hnext|exact H].
Qed.

(** X7. A list never gives up once there is a token to look at: the
    give-ups of its items are promoted to errors before they are merged, so
    the result of [parser_list_of] is a success or a failure holding a real
    error, and its iterator is not behind [tokens.end()].  On no token at all
    the rule gives up with its own name. *)
Theorem list_of_never_gives_up : forall n rule allow begin c result c',
  begin <= tend token_stream ->
  parser_list_of token_stream n rule allow begin c = Ok (result, c') ->
  if Nat.eqb begin (tend token_stream)
  then result = (tend token_stream, make_error GiveUp begin "parser_list_of") /\ c' = c
  else is_giveup (snd result) = false /\ fst result <= tend token_stream.
Proof.
  intros n rule allow begin c result c' Hbegin H. unfold parser_list_of in H.
  destruct (Nat.eqb begin (tend token_stream)); cbn [negb] in H.
  - unfold giveup_at in H. ret_inv H. split; reflexivity.
  - apply (@list_of_loop_no_giveup rule allow n begin (Success (Some new_tree))
             c result c' eq_refl Hbegin H).
Qed.

End Lists.

(** * The context during a parse *)

Lemma extends_refl : forall c, extends c c.
Proof.
  intro c. split; [reflexivity|]. split; [reflexivity|].
  exists []. split; [symmetry; apply app_nil_r|constructor].
Qed.

Lemma extends_trans : forall c1 c2 c3, extends c1 c2 -> extends c2 c3 -> extends c1 c3.
Proof.
  intros c1 c2 c3 (Hf1 & Ho1 & ds1 & Hd1 & Hall1) (Hf2 & Ho2 & ds2 & Hd2 & Hall2).
  split; [congruence|]. split; [congruence|].
  exists (ds1 ++ ds2). split.
  - rewrite Hd2, Hd1, app_assoc. reflexivity.
  - apply Forall_app. split; assumption.
Qed.

Lemma framed_ret : forall (A : Type) (a : A), framed (ret a).
Proof. intros A a c b c' H. ret_inv H. apply extends_refl. Qed.

Lemma framed_bind : forall (A B : Type) (m : M A) (k : A -> M B),
  framed m -> (forall a, framed (k a)) -> framed (bind m k).
Proof.
  intros A B m k Hm Hk c b c' H. bind_inv H.
  eapply extends_trans; [exact (Hm _ _ _ Hm0)|exact (Hk _ _ _ _ H)].
Qed.

Lemma framed_stuck : forall (A : Type) (f : Fault), framed (@stuck A f).
Proof. intros A f c a c' H. discriminate H. Qed.

Lemma framed_lift : forall (A : Type) (o : Outcome A), framed (lift o).
Proof.
  intros A o c a c' H. unfold lift in H. destruct o; [|discriminate H].
  inversion H; subst. apply extends_refl.
Qed.

Lemma framed_get_inside_specifiers : framed get_inside_specifiers.
Proof. intros c a c' H. inversion H; subst. apply extends_refl. Qed.

Lemma framed_get_pedantic : framed get_pedantic.
Proof. intros c a c' H. inversion H; subst. apply extends_refl. Qed.

Lemma framed_add_state : forall state other, framed (add_state state other).
Proof.
  intros state [es|[t|]]; cbn [add_state];
    [apply framed_ret|apply framed_ret|apply framed_stuck].
Qed.

Lemma framed_is_empty_node : forall state, framed (is_empty_node state).
Proof.
  intros [es|[t|]]; cbn [is_empty_node];
    [apply framed_ret|apply framed_ret|apply framed_stuck].
Qed.

Ltac frame_go :=
  cbv beta iota zeta;
  lazymatch goal with
  | |- framed (ret _) => apply framed_ret
  | |- framed (bind _ _) =>
      apply framed_bind;
      [ frame_go
      | let a := fresh "a" in
        intro a;
        let T := type of a in
        let T := eval hnf in T in
        lazymatch T with
        | prod _ _ => destruct a
        | _ => idtac
        end;
        frame_go ]
  | |- framed (stuck _) => apply framed_stuck
  | |- framed out_of_fuel => apply framed_stuck
  | |- framed (lift _) => apply framed_lift
  | |- framed get_inside_specifiers => apply framed_get_inside_specifiers
  | |- framed get_pedantic => apply framed_get_pedantic
  | |- framed (add_state _ _) => apply framed_add_state
  | |- framed (is_empty_node _) => apply framed_is_empty_node
  | |- framed (if ?b then _ else _) => destruct b; frame_go
  | |- framed (match ?x with _ => _ end) => destruct x; frame_go
  | |- _ => solve [auto with frame nocore]
  end.

Ltac framed_rule_go :=
  unfold framed_rule; let it := fresh "it" in intro it; frame_go.

Create HintDb frame.

#[export] Hint Extern 1 (framed_rule _) => solve [framed_rule_go] : frame.
#[export] Hint Extern 1 (Forall framed_rule _) =>
  repeat first [apply Forall_cons | apply Forall_nil] : frame.

Section FramedKernel.

Variable token_to_string : TokenType.t -> string.
Variable contains : SourceRange -> SourceLocation -> bool.
Variable token_stream : TokenStream.
Variable fuel : nat.

Lemma framed_deref : forall it, framed (deref token_stream it).
Proof. intro it. unfold deref. frame_go. Qed.

Lemma framed_deref_prev : forall it, framed (deref_prev token_stream it).
Proof. intros [|it]; cbn [deref_prev]; [apply framed_stuck|apply framed_deref]. Qed.

#[local] Hint Resolve framed_deref framed_deref_prev : frame.

Lemma framed_token_is : forall it k, framed (token_is token_stream it k).
Proof. intros it k. unfold token_is. frame_go. Qed.

Lemma framed_token_info : forall it, framed (token_info contains token_stream it).
Proof. intro it. unfold token_info. frame_go. Qed.

(** The report of the rules: one pedantic ["empty statement"]. *)
Lemma framed_pedantic_empty_statement : forall it,
  framed (pedantic_ contains token_stream it "empty statement").
Proof.
  intros it c a c' H. unfold pedantic_, emit in H. bind_inv H.
  apply framed_token_info in Hm. inversion H; subst; clear H.
  eapply extends_trans; [exact Hm|].
  split; [reflexivity|]. split; [reflexivity|].
  eexists. split; [reflexivity|]. constructor; [split; reflexivity|constructor].
Qed.

Lemma framed_giveup_at : forall begin what, framed (giveup_at token_stream begin what).
Proof. intros begin what. apply framed_ret. Qed.

#[local] Hint Resolve framed_token_is framed_pedantic_empty_statement
  framed_giveup_at : frame.

Lemma framed_giveup_to_expected_loop : forall what es s0,
  framed (giveup_to_expected_loop token_to_string token_stream what es s0).
Proof.
  intros what es. induction es as [|e es IH]; intro s0;
    cbn [giveup_to_expected_loop]; frame_go.
Qed.

#[local] Hint Resolve framed_giveup_to_expected_loop : frame.

Lemma framed_giveup_to_expected_what : forall state what,
  framed (giveup_to_expected_what token_to_string token_stream state what).
Proof. intros state what. unfold giveup_to_expected_what. frame_go. Qed.

Lemma framed_expect_token : forall state it k,
  framed (expect_token token_to_string token_stream state it k).
Proof. intros state it k. unfold expect_token. frame_go. Qed.

Lemma framed_expect_end_token : forall state begin it k,
  framed (expect_end_token token_to_string token_stream state begin it k).
Proof. intros state begin it k. unfold expect_end_token. frame_go. Qed.

#[local] Hint Resolve framed_giveup_to_expected_what framed_expect_token
  framed_expect_end_token : frame.

Lemma framed_parser_one_of : forall rules begin what,
  Forall framed_rule rules -> framed (parser_one_of token_stream begin what rules).
Proof.
  induction rules as [|rule rules IH]; intros begin what Hall; cbn [parser_one_of].
  - apply framed_giveup_at.
  - inversion Hall as [|? ? Hrule Hrest]; subst.
    apply framed_bind; [apply Hrule|]. intros [it state].
    destruct (negb _); [apply framed_ret|]. apply IH. exact Hrest.
Qed.

Lemma framed_many_of_loop : forall rule pred,
  framed_rule rule ->
  forall n it s, framed (many_of_loop token_stream rule pred n it s).
Proof.
  intros rule pred Hrule. induction n as [|n IH]; intros it s; cbn [many_of_loop];
    frame_go.
Qed.

Lemma framed_one_many_of_loop : forall rule,
  framed_rule rule ->
  forall n it s, framed (one_many_of_loop contains token_stream rule n it s).
Proof.
  intros rule Hrule. induction n as [|n IH]; intros it s; cbn [one_many_of_loop];
    frame_go.
Qed.

Lemma framed_one_many_of_while_loop : forall rule pred,
  framed_rule rule ->
  forall n it s, framed (one_many_of_while_loop token_stream rule pred n it s).
Proof.
  intros rule pred Hrule. induction n as [|n IH]; intros it s;
    cbn [one_many_of_while_loop]; frame_go.
Qed.

Lemma framed_left_binary_loop : forall op_rule rhs_rule,
  framed_rule op_rule -> framed_rule rhs_rule ->
  forall n it s,
    framed (left_binary_loop token_to_string token_stream op_rule rhs_rule n it s).
Proof.
  intros op_rule rhs_rule Hop Hrhs. induction n as [|n IH]; intros it s;
    cbn [left_binary_loop]; frame_go.
Qed.

Lemma framed_list_of_loop : forall rule allow,
  framed_rule rule ->
  forall n it s, framed (list_of_loop token_stream rule allow n it s).
Proof.
  intros rule allow Hrule. induction n as [|n IH]; intros it s; cbn [list_of_loop];
    frame_go.
Qed.

#[local] Hint Resolve framed_many_of_loop framed_one_many_of_loop
  framed_one_many_of_while_loop framed_left_binary_loop framed_list_of_loop : frame.

Lemma framed_parser_many_of : forall rule pred begin,
  framed_rule rule -> framed (parser_many_of token_stream fuel begin rule pred).
Proof. intros rule pred begin Hrule. unfold parser_many_of. frame_go. Qed.

Lemma framed_parser_one_many_of : forall rule begin what,
  framed_rule rule ->
  framed (parser_one_many_of contains token_stream fuel begin what rule).
Proof. intros rule begin what Hrule. unfold parser_one_many_of. frame_go. Qed.

Lemma framed_parser_one_many_of_while : forall rule pred begin what,
  framed_rule rule ->
  framed (parser_one_many_of_while token_stream fuel begin what rule pred).
Proof. intros rule pred begin what Hrule. unfold parser_one_many_of_while. frame_go. Qed.

Lemma framed_parser_operator : forall op_type op_match,
  framed_rule (parser_operator token_stream op_type op_match).
Proof. intros op_type op_match it. unfold parser_operator. frame_go. Qed.

Lemma framed_parser_left_binary_operator : forall lhs_rule op_rule rhs_rule,
  framed_rule lhs_rule -> framed_rule op_rule -> framed_rule rhs_rule ->
  framed_rule (parser_left_binary_operator token_to_string token_stream fuel
                 lhs_rule op_rule rhs_rule).
Proof.
  intros lhs_rule op_rule rhs_rule Hlhs Hop Hrhs it.
  unfold parser_left_binary_operator. frame_go.
Qed.

Lemma framed_parser_right_binary_operator : forall lhs_rule op_rule rhs_rule,
  framed_rule lhs_rule -> framed_rule op_rule -> framed_rule rhs_rule ->
  framed_rule (parser_right_binary_operator token_to_string token_stream
                 lhs_rule op_rule rhs_rule).
Proof.
  intros lhs_rule op_rule rhs_rule Hlhs Hop Hrhs it.
  unfold parser_right_binary_operator. frame_go.
Qed.

Lemma framed_parser_opt : forall rule, framed_rule rule -> framed_rule (parser_opt rule).
Proof. intros rule Hrule it. unfold parser_opt. frame_go. Qed.

Lemma framed_parser_parens : forall rule left_brace right_brace,
  framed_rule rule ->
  framed_rule (parser_parens token_to_string token_stream rule left_brace right_brace).
Proof. intros rule l r Hrule it. unfold parser_parens. frame_go. Qed.

Lemma framed_parser_list_of : forall rule allow,
  framed_rule rule -> framed_rule (parser_list_of token_stream fuel rule allow).
Proof. intros rule allow Hrule it. unfold parser_list_of. frame_go. Qed.

End FramedKernel.

#[export] Hint Resolve framed_deref framed_deref_prev framed_token_is
  framed_pedantic_empty_statement framed_giveup_at framed_giveup_to_expected_what
  framed_expect_token framed_expect_end_token : frame.

#[export] Hint Extern 1 (framed (parser_one_of _ _ _ _)) =>
  apply framed_parser_one_of : frame.
#[export] Hint Extern 1 (framed (parser_many_of _ _ _ _ _)) =>
  apply framed_parser_many_of : frame.
#[export] Hint Extern 1 (framed (parser_one_many_of _ _ _ _ _ _)) =>
  apply framed_parser_one_many_of : frame.
#[export] Hint Extern 1 (framed (parser_one_many_of_while _ _ _ _ _ _)) =>
  apply framed_parser_one_many_of_while : frame.
#[export] Hint Extern 1 (framed (parser_operator _ _ _ _)) =>
  apply framed_parser_operator : frame.
#[export] Hint Extern 1 (framed (parser_left_binary_operator _ _ _ _ _ _ _)) =>
  apply framed_parser_left_binary_operator : frame.
#[export] Hint Extern 1 (framed (parser_right_binary_operator _ _ _ _ _ _)) =>
  apply framed_parser_right_binary_operator : frame.
#[export] Hint Extern 1 (framed (parser_opt _ _)) => apply framed_parser_opt : frame.
#[export] Hint Extern 1 (framed (parser_parens _ _ _ _ _ _)) =>
  apply framed_parser_parens : frame.
#[export] Hint Extern 1 (framed (parser_list_of _ _ _ _ _)) =>
  apply framed_parser_list_of : frame.

(** ** Every grammar rule is framed *)

Section FramedRules.

Variable token_to_string : TokenType.t -> string.
Variable contains : SourceRange -> SourceLocation -> bool.
Variable token_stream : TokenStream.
Variable fuel : nat.
Variable self : RuleName -> Rule.
Hypothesis framed_self : forall r it, framed (self r it).

Lemma framed_parser_identifier : forall begin,
  framed (parser_identifier token_stream begin).
Proof. intros begin. unfold parser_identifier. frame_go. Qed.

#[local] Hint Resolve framed_parser_identifier : frame.

Lemma framed_parser_identifier_list : forall begin,
  framed (parser_identifier_list token_to_string token_stream fuel begin).
Proof. intros begin. unfold parser_identifier_list. frame_go. Qed.

#[local] Hint Resolve framed_parser_identifier_list : frame.

Lemma framed_parser_string_literal : forall begin,
  framed (parser_string_literal token_stream begin).
Proof. intros begin. unfold parser_string_literal. frame_go. Qed.

#[local] Hint Resolve framed_parser_string_literal : frame.

Lemma framed_parser_string_literal_list : forall begin,
  framed (parser_string_literal_list token_stream fuel begin).
Proof. intros begin. unfold parser_string_literal_list. frame_go. Qed.

#[local] Hint Resolve framed_parser_string_literal_list : frame.

Lemma framed_parser_constant : forall begin,
  framed (parser_constant token_stream begin).
Proof. intros begin. unfold parser_constant. frame_go. Qed.

#[local] Hint Resolve framed_parser_constant : frame.

Lemma framed_parser_parameter_declaration : forall begin,
  framed (parser_parameter_declaration token_stream self begin).
Proof. intros begin. unfold parser_parameter_declaration. frame_go. Qed.

#[local] Hint Resolve framed_parser_parameter_declaration : frame.

Lemma framed_parameter_list_loop : forall n it s,
  framed (parameter_list_loop token_stream self n it s).
Proof.
  induction n as [|n IH]; intros it s; cbn [parameter_list_loop]; [apply framed_stuck|].
  frame_go.
Qed.

#[local] Hint Resolve framed_parameter_list_loop : frame.

Lemma framed_parser_parameter_type_list : forall begin,
  framed (parser_parameter_type_list token_stream fuel self begin).
Proof. intros begin. unfold parser_parameter_type_list. frame_go. Qed.

#[local] Hint Resolve framed_parser_parameter_type_list : frame.

Lemma framed_parser_typedef_name : forall begin,
  framed (parser_typedef_name token_stream begin).
Proof. intros begin. unfold parser_typedef_name. frame_go. Qed.

#[local] Hint Resolve framed_parser_typedef_name : frame.

Lemma framed_parser_atomic_type_specifier : forall begin,
  framed (parser_atomic_type_specifier token_to_string token_stream self begin).
Proof. intros begin. unfold parser_atomic_type_specifier. frame_go. Qed.

#[local] Hint Resolve framed_parser_atomic_type_specifier : frame.

Lemma framed_parser_type_specifier : forall begin,
  framed (parser_type_specifier token_to_string token_stream self begin).
Proof.
  intros begin c result c' H. unfold parser_type_specifier in H.
  destruct (negb _); [|ret_inv H; apply extends_refl].
  bind_inv_as H tok c1 Htok. apply framed_deref in Htok.
  destruct (is_basic_type _); [ret_inv H; exact Htok|].
  bind_inv_as H old c2 Hget. inversion Hget; subst; clear Hget.
  bind_inv_as H u c3 Hset. inversion Hset; subst; clear Hset.
  bind_inv_as H sub c4 Hsub. destruct sub as [type_it sub_type_spec].
  assert (Hone : extends
                   {| program := program c2; is_inside_specifiers := true |} c4).
  { eapply framed_parser_one_of; [|exact Hsub].
    repeat first [apply Forall_cons | apply Forall_nil]; auto with frame nocore. }
  bind_inv_as H type_spec c5 Hadd. apply framed_add_state in Hadd.
  bind_inv_as H u' c6 Hreset. inversion Hreset; subst; clear Hreset. ret_inv H.
  destruct Htok as (Hf & Ho & ds & Hd & Hall).
  destruct Hone as (_ & Ho1 & ds1 & Hd1 & Hall1).
  destruct Hadd as (_ & Ho2 & ds2 & Hd2 & Hall2).
  unfold extends. cbn [program is_inside_specifiers] in *.
  split; [exact Hf|]. split; [congruence|].
  exists (ds ++ ds1 ++ ds2). split.
  - rewrite Hd2, Hd1, Hd, !app_assoc. reflexivity.
  - repeat (apply Forall_app; split); assumption.
Qed.

#[local] Hint Resolve framed_parser_type_specifier : frame.

Lemma framed_parser_type_qualifier : forall begin,
  framed (parser_type_qualifier token_stream begin).
Proof. intros begin. unfold parser_type_qualifier. frame_go. Qed.

#[local] Hint Resolve framed_parser_type_qualifier : frame.

Lemma framed_parser_type_qualifier_list : forall begin,
  framed (parser_type_qualifier_list token_stream fuel begin).
Proof. intros begin. unfold parser_type_qualifier_list. frame_go. Qed.

#[local] Hint Resolve framed_parser_type_qualifier_list : frame.

Lemma framed_parser_pointer : forall begin,
  framed (parser_pointer token_to_string token_stream fuel self begin).
Proof. intros begin. unfold parser_pointer. frame_go. Qed.

#[local] Hint Resolve framed_parser_pointer : frame.

Lemma framed_abstract_function_declarator : forall begin,
  framed (abstract_function_declarator token_stream fuel self begin).
Proof. intros begin. unfold abstract_function_declarator. frame_go. Qed.

#[local] Hint Resolve framed_abstract_function_declarator : frame.

Lemma framed_star_then_bracket : forall tok it,
  framed (star_then_bracket token_stream tok it).
Proof. intros tok it. unfold star_then_bracket. frame_go. Qed.

#[local] Hint Resolve framed_star_then_bracket : frame.

Lemma framed_abstract_array_declarator : forall begin,
  framed (abstract_array_declarator token_to_string token_stream fuel self begin).
Proof. intros begin. unfold abstract_array_declarator. frame_go. Qed.

#[local] Hint Resolve framed_abstract_array_declarator : frame.

Lemma framed_abstract_array_declarator_production : forall begin,
  framed
    (abstract_array_declarator_production token_to_string token_stream fuel self begin).
Proof. intros begin. unfold abstract_array_declarator_production. frame_go. Qed.

#[local] Hint Resolve framed_abstract_array_declarator_production : frame.

Lemma framed_direct_abstract_declarator_loop : forall n it s,
  framed (direct_abstract_declarator_loop token_to_string token_stream fuel self n it s).
Proof.
  induction n as [|n IH]; intros it s; cbn [direct_abstract_declarator_loop]; [apply framed_stuck|].
  frame_go.
Qed.

#[local] Hint Resolve framed_direct_abstract_declarator_loop : frame.

Lemma framed_parser_direct_abstract_declarator : forall begin,
  framed
    (parser_direct_abstract_declarator token_to_string token_stream fuel self begin).
Proof. intros begin. unfold parser_direct_abstract_declarator. frame_go. Qed.

#[local] Hint Resolve framed_parser_direct_abstract_declarator : frame.

Lemma framed_parser_abstract_declarator : forall begin,
  framed (parser_abstract_declarator token_to_string token_stream fuel self begin).
Proof. intros begin. unfold parser_abstract_declarator. frame_go. Qed.

#[local] Hint Resolve framed_parser_abstract_declarator : frame.

Lemma framed_specifier_or_qualifier : forall begin,
  framed (specifier_or_qualifier token_to_string token_stream self begin).
Proof. intros begin. unfold specifier_or_qualifier. frame_go. Qed.

#[local] Hint Resolve framed_specifier_or_qualifier : frame.

Lemma framed_specifier_qualifier_loop : forall n it s,
  framed (specifier_qualifier_loop token_to_string token_stream self n it s).
Proof.
  induction n as [|n IH]; intros it s; cbn [specifier_qualifier_loop]; [apply framed_stuck|].
  frame_go.
Qed.

#[local] Hint Resolve framed_specifier_qualifier_loop : frame.

Lemma framed_parser_specifier_qualifier_list : forall begin,
  framed (parser_specifier_qualifier_list token_to_string token_stream fuel self begin).
Proof. intros begin. unfold parser_specifier_qualifier_list. frame_go. Qed.

#[local] Hint Resolve framed_parser_specifier_qualifier_list : frame.

Lemma framed_parser_type_name : forall begin,
  framed (parser_type_name token_to_string token_stream fuel self begin).
Proof. intros begin. unfold parser_type_name. frame_go. Qed.

#[local] Hint Resolve framed_parser_type_name : frame.

Lemma framed_parser_constant_expression : forall begin,
  framed (parser_constant_expression self begin).
Proof. intros begin. unfold parser_constant_expression. frame_go. Qed.

#[local] Hint Resolve framed_parser_constant_expression : frame.

Lemma framed_static_assert_args_production : forall begin,
  framed (static_assert_args_production token_to_string token_stream fuel self begin).
Proof. intros begin. unfold static_assert_args_production. frame_go. Qed.

#[local] Hint Resolve framed_static_assert_args_production : frame.

Lemma framed_parser_static_assert_declaration : forall begin,
  framed (parser_static_assert_declaration token_to_string token_stream fuel self begin).
Proof. intros begin. unfold parser_static_assert_declaration. frame_go. Qed.

#[local] Hint Resolve framed_parser_static_assert_declaration : frame.

Lemma framed_array_declarator_production : forall begin,
  framed (array_declarator_production token_to_string token_stream fuel self begin).
Proof. intros begin. unfold array_declarator_production. frame_go. Qed.

#[local] Hint Resolve framed_array_declarator_production : frame.

Lemma framed_ident_or_decl_production : forall begin,
  framed (ident_or_decl_production token_to_string token_stream self begin).
Proof. intros begin. unfold ident_or_decl_production. frame_go. Qed.

#[local] Hint Resolve framed_ident_or_decl_production : frame.

Lemma framed_direct_declarator_loop : forall n it s,
  framed (direct_declarator_loop token_to_string token_stream fuel self n it s).
Proof.
  induction n as [|n IH]; intros it s; cbn [direct_declarator_loop]; [apply framed_stuck|].
  frame_go.
Qed.

#[local] Hint Resolve framed_direct_declarator_loop : frame.

Lemma framed_parser_direct_declarator : forall begin,
  framed (parser_direct_declarator token_to_string token_stream fuel self begin).
Proof. intros begin. unfold parser_direct_declarator. frame_go. Qed.

#[local] Hint Resolve framed_parser_direct_declarator : frame.

Lemma framed_parser_is_declarator : forall it,
  framed (parser_is_declarator token_stream it).
Proof. intros it. unfold parser_is_declarator. frame_go. Qed.

#[local] Hint Resolve framed_parser_is_declarator : frame.

Lemma framed_parser_declarator : forall begin,
  framed (parser_declarator token_to_string token_stream fuel self begin).
Proof. intros begin. unfold parser_declarator. frame_go. Qed.

#[local] Hint Resolve framed_parser_declarator : frame.

Lemma framed_parser_init_declarator : forall begin,
  framed (parser_init_declarator token_to_string token_stream fuel self begin).
Proof. intros begin. unfold parser_init_declarator. frame_go. Qed.

#[local] Hint Resolve framed_parser_init_declarator : frame.

Lemma framed_parser_init_declarator_list : forall begin,
  framed (parser_init_declarator_list token_to_string token_stream fuel self begin).
Proof. intros begin. unfold parser_init_declarator_list. frame_go. Qed.

#[local] Hint Resolve framed_parser_init_declarator_list : frame.

Lemma framed_parser_storage_class_specifier : forall begin,
  framed (parser_storage_class_specifier token_stream begin).
Proof. intros begin. unfold parser_storage_class_specifier. frame_go. Qed.

#[local] Hint Resolve framed_parser_storage_class_specifier : frame.

Lemma framed_parser_function_specifier : forall begin,
  framed (parser_function_specifier token_to_string token_stream begin).
Proof. intros begin. unfold parser_function_specifier. frame_go. Qed.

#[local] Hint Resolve framed_parser_function_specifier : frame.

Lemma framed_alignas_arg_production : forall begin,
  framed (alignas_arg_production token_to_string token_stream fuel self begin).
Proof. intros begin. unfold alignas_arg_production. frame_go. Qed.

#[local] Hint Resolve framed_alignas_arg_production : frame.

Lemma framed_parser_alignment_specifier : forall begin,
  framed (parser_alignment_specifier token_to_string token_stream fuel self begin).
Proof. intros begin. unfold parser_alignment_specifier. frame_go. Qed.

#[local] Hint Resolve framed_parser_alignment_specifier : frame.

Lemma framed_parser_declaration_specifier : forall begin,
  framed (parser_declaration_specifier token_to_string token_stream fuel self begin).
Proof. intros begin. unfold parser_declaration_specifier. frame_go. Qed.

#[local] Hint Resolve framed_parser_declaration_specifier : frame.

Lemma framed_parser_declaration_specifiers : forall begin,
  framed
    (parser_declaration_specifiers token_to_string contains token_stream fuel self begin).
Proof. intros begin. unfold parser_declaration_specifiers. frame_go. Qed.

#[local] Hint Resolve framed_parser_declaration_specifiers : frame.

Lemma framed_parser_declaration : forall begin,
  framed (parser_declaration token_to_string contains token_stream fuel self begin).
Proof. intros begin. unfold parser_declaration. frame_go. Qed.

#[local] Hint Resolve framed_parser_declaration : frame.

Lemma framed_parser_enumeration_constant : forall begin,
  framed (parser_enumeration_constant token_stream begin).
Proof. intros begin. unfold parser_enumeration_constant. frame_go. Qed.

#[local] Hint Resolve framed_parser_enumeration_constant : frame.

Lemma framed_enumerator_production : forall begin,
  framed (enumerator_production token_to_string token_stream self begin).
Proof. intros begin. unfold enumerator_production. frame_go. Qed.

#[local] Hint Resolve framed_enumerator_production : frame.

Lemma framed_enum_list_production : forall begin,
  framed (enum_list_production token_to_string token_stream fuel self begin).
Proof. intros begin. unfold enum_list_production. frame_go. Qed.

#[local] Hint Resolve framed_enum_list_production : frame.

Lemma framed_missing_semicolon_check : forall state it msg,
  framed (missing_semicolon_check token_stream state it msg).
Proof. intros state it msg. unfold missing_semicolon_check. frame_go. Qed.

#[local] Hint Resolve framed_missing_semicolon_check : frame.

Lemma framed_parser_enum_specifier : forall begin,
  framed (parser_enum_specifier token_to_string token_stream fuel self begin).
Proof. intros begin. unfold parser_enum_specifier. frame_go. Qed.

#[local] Hint Resolve framed_parser_enum_specifier : frame.

Lemma framed_struct_declarator : forall msg begin,
  framed (struct_declarator token_to_string token_stream fuel self msg begin).
Proof. intros msg begin. unfold struct_declarator. frame_go. Qed.

#[local] Hint Resolve framed_struct_declarator : frame.

Lemma framed_struct_declaration : forall msg begin,
  framed (struct_declaration token_to_string token_stream fuel self msg begin).
Proof. intros msg begin. unfold struct_declaration. frame_go. Qed.

#[local] Hint Resolve framed_struct_declaration : frame.

Lemma framed_struct_decl_list_production : forall msg begin,
  framed (struct_decl_list_production token_to_string token_stream fuel self msg begin).
Proof. intros msg begin. unfold struct_decl_list_production. frame_go. Qed.

#[local] Hint Resolve framed_struct_decl_list_production : frame.

Lemma framed_parser_struct_or_union_specifier : forall begin,
  framed (parser_struct_or_union_specifier token_to_string token_stream fuel self begin).
Proof. intros begin. unfold parser_struct_or_union_specifier. frame_go. Qed.

#[local] Hint Resolve framed_parser_struct_or_union_specifier : frame.

Lemma framed_parser_initializer : forall begin,
  framed (parser_initializer token_to_string token_stream self begin).
Proof. intros begin. unfold parser_initializer. frame_go. Qed.

#[local] Hint Resolve framed_parser_initializer : frame.

Lemma framed_designator_production : forall begin,
  framed (designator_production token_to_string token_stream self begin).
Proof. intros begin. unfold designator_production. frame_go. Qed.

#[local] Hint Resolve framed_designator_production : frame.

Lemma framed_designation_loop : forall n it s,
  framed (designation_loop token_to_string token_stream self n it s).
Proof.
  induction n as [|n IH]; intros it s; cbn [designation_loop]; [apply framed_stuck|].
  frame_go.
Qed.

#[local] Hint Resolve framed_designation_loop : frame.

Lemma framed_designation_production : forall begin,
  framed (designation_production token_to_string token_stream fuel self begin).
Proof. intros begin. unfold designation_production. frame_go. Qed.

#[local] Hint Resolve framed_designation_production : frame.

Lemma framed_init_list_production : forall begin,
  framed (init_list_production token_to_string token_stream fuel self begin).
Proof. intros begin. unfold init_list_production. frame_go. Qed.

#[local] Hint Resolve framed_init_list_production : frame.

Lemma framed_parser_initializer_list : forall begin,
  framed (parser_initializer_list token_to_string token_stream fuel self begin).
Proof. intros begin. unfold parser_initializer_list. frame_go. Qed.

#[local] Hint Resolve framed_parser_initializer_list : frame.

Lemma framed_compound_literal_production : forall begin,
  framed (compound_literal_production token_to_string token_stream fuel self begin).
Proof. intros begin. unfold compound_literal_production. frame_go. Qed.

#[local] Hint Resolve framed_compound_literal_production : frame.

Lemma framed_postfix_production : forall begin,
  framed (postfix_production token_to_string token_stream fuel self begin).
Proof. intros begin. unfold postfix_production. frame_go. Qed.

#[local] Hint Resolve framed_postfix_production : frame.

Lemma framed_postfix_loop : forall n it s,
  framed (postfix_loop token_to_string token_stream fuel self n it s).
Proof.
  induction n as [|n IH]; intros it s; cbn [postfix_loop]; [apply framed_stuck|].
  frame_go.
Qed.

#[local] Hint Resolve framed_postfix_loop : frame.

Lemma framed_parser_postfix_expression : forall begin,
  framed (parser_postfix_expression token_to_string token_stream fuel self begin).
Proof. intros begin. unfold parser_postfix_expression. frame_go. Qed.

#[local] Hint Resolve framed_parser_postfix_expression : frame.

Lemma framed_incremental_unary_production : forall begin,
  framed (incremental_unary_production token_to_string token_stream self begin).
Proof. intros begin. unfold incremental_unary_production. frame_go. Qed.

#[local] Hint Resolve framed_incremental_unary_production : frame.

Lemma framed_unary_cast_production : forall begin,
  framed (unary_cast_production token_stream self begin).
Proof. intros begin. unfold unary_cast_production. frame_go. Qed.

#[local] Hint Resolve framed_unary_cast_production : frame.

Lemma framed_parens_type_name : forall begin,
  framed (parens_type_name token_to_string token_stream fuel self begin).
Proof. intros begin. unfold parens_type_name. frame_go. Qed.

#[local] Hint Resolve framed_parens_type_name : frame.

Lemma framed_size_of_production : forall begin,
  framed (size_of_production token_to_string token_stream fuel self begin).
Proof. intros begin. unfold size_of_production. frame_go. Qed.

#[local] Hint Resolve framed_size_of_production : frame.

Lemma framed_parser_unary_expression : forall begin,
  framed (parser_unary_expression token_to_string token_stream fuel self begin).
Proof. intros begin. unfold parser_unary_expression. frame_go. Qed.

#[local] Hint Resolve framed_parser_unary_expression : frame.

Lemma framed_cast_production : forall begin,
  framed (cast_production token_to_string token_stream fuel self begin).
Proof. intros begin. unfold cast_production. frame_go. Qed.

#[local] Hint Resolve framed_cast_production : frame.

Lemma framed_parser_cast_expression : forall begin,
  framed (parser_cast_expression token_to_string token_stream fuel self begin).
Proof. intros begin. unfold parser_cast_expression. frame_go. Qed.

#[local] Hint Resolve framed_parser_cast_expression : frame.

Lemma framed_multiplicative_operator : forall begin,
  framed (multiplicative_operator token_stream begin).
Proof. intros begin. unfold multiplicative_operator. frame_go. Qed.

#[local] Hint Resolve framed_multiplicative_operator : frame.

Lemma framed_parser_multiplicative_expression : forall begin,
  framed (parser_multiplicative_expression token_to_string token_stream fuel self begin).
Proof. intros begin. unfold parser_multiplicative_expression. frame_go. Qed.

#[local] Hint Resolve framed_parser_multiplicative_expression : frame.

Lemma framed_additive_operator : forall begin,
  framed (additive_operator token_stream begin).
Proof. intros begin. unfold additive_operator. frame_go. Qed.

#[local] Hint Resolve framed_additive_operator : frame.

Lemma framed_parser_additive_expression : forall begin,
  framed (parser_additive_expression token_to_string token_stream fuel self begin).
Proof. intros begin. unfold parser_additive_expression. frame_go. Qed.

#[local] Hint Resolve framed_parser_additive_expression : frame.

Lemma framed_shift_operator : forall begin,
  framed (shift_operator token_stream begin).
Proof. intros begin. unfold shift_operator. frame_go. Qed.

#[local] Hint Resolve framed_shift_operator : frame.

Lemma framed_parser_shift_expression : forall begin,
  framed (parser_shift_expression token_to_string token_stream fuel self begin).
Proof. intros begin. unfold parser_shift_expression. frame_go. Qed.

#[local] Hint Resolve framed_parser_shift_expression : frame.

Lemma framed_relational_operator : forall begin,
  framed (relational_operator token_stream begin).
Proof. intros begin. unfold relational_operator. frame_go. Qed.

#[local] Hint Resolve framed_relational_operator : frame.

Lemma framed_parser_relational_expression : forall begin,
  framed (parser_relational_expression token_to_string token_stream fuel self begin).
Proof. intros begin. unfold parser_relational_expression. frame_go. Qed.

#[local] Hint Resolve framed_parser_relational_expression : frame.

Lemma framed_equality_operator : forall begin,
  framed (equality_operator token_stream begin).
Proof. intros begin. unfold equality_operator. frame_go. Qed.

#[local] Hint Resolve framed_equality_operator : frame.

Lemma framed_parser_equality_expression : forall begin,
  framed (parser_equality_expression token_to_string token_stream fuel self begin).
Proof. intros begin. unfold parser_equality_expression. frame_go. Qed.

#[local] Hint Resolve framed_parser_equality_expression : frame.

Lemma framed_and_operator : forall begin,
  framed (and_operator token_stream begin).
Proof. intros begin. unfold and_operator. frame_go. Qed.

#[local] Hint Resolve framed_and_operator : frame.

Lemma framed_parser_and_expression : forall begin,
  framed (parser_and_expression token_to_string token_stream fuel self begin).
Proof. intros begin. unfold parser_and_expression. frame_go. Qed.

#[local] Hint Resolve framed_parser_and_expression : frame.

Lemma framed_exclusive_or_operator : forall begin,
  framed (exclusive_or_operator token_stream begin).
Proof. intros begin. unfold exclusive_or_operator. frame_go. Qed.

#[local] Hint Resolve framed_exclusive_or_operator : frame.

Lemma framed_parser_exclusive_or_expression : forall begin,
  framed (parser_exclusive_or_expression token_to_string token_stream fuel self begin).
Proof. intros begin. unfold parser_exclusive_or_expression. frame_go. Qed.

#[local] Hint Resolve framed_parser_exclusive_or_expression : frame.

Lemma framed_inclusive_or_operator : forall begin,
  framed (inclusive_or_operator token_stream begin).
Proof. intros begin. unfold inclusive_or_operator. frame_go. Qed.

#[local] Hint Resolve framed_inclusive_or_operator : frame.

Lemma framed_parser_inclusive_or_expression : forall begin,
  framed (parser_inclusive_or_expression token_to_string token_stream fuel self begin).
Proof. intros begin. unfold parser_inclusive_or_expression. frame_go. Qed.

#[local] Hint Resolve framed_parser_inclusive_or_expression : frame.

Lemma framed_logical_and_operator : forall begin,
  framed (logical_and_operator token_stream begin).
Proof. intros begin. unfold logical_and_operator. frame_go. Qed.

#[local] Hint Resolve framed_logical_and_operator : frame.

Lemma framed_parser_logical_and_expression : forall begin,
  framed (parser_logical_and_expression token_to_string token_stream fuel self begin).
Proof. intros begin. unfold parser_logical_and_expression. frame_go. Qed.

#[local] Hint Resolve framed_parser_logical_and_expression : frame.

Lemma framed_logical_or_operator : forall begin,
  framed (logical_or_operator token_stream begin).
Proof. intros begin. unfold logical_or_operator. frame_go. Qed.

#[local] Hint Resolve framed_logical_or_operator : frame.

Lemma framed_parser_logical_or_expression : forall begin,
  framed (parser_logical_or_expression token_to_string token_stream fuel self begin).
Proof. intros begin. unfold parser_logical_or_expression. frame_go. Qed.

#[local] Hint Resolve framed_parser_logical_or_expression : frame.

Lemma framed_parser_conditional_expression : forall begin,
  framed (parser_conditional_expression token_to_string token_stream fuel self begin).
Proof. intros begin. unfold parser_conditional_expression. frame_go. Qed.

#[local] Hint Resolve framed_parser_conditional_expression : frame.

Lemma framed_assign_operator : forall begin,
  framed (assign_operator token_stream begin).
Proof. intros begin. unfold assign_operator. frame_go. Qed.

#[local] Hint Resolve framed_assign_operator : frame.

Lemma framed_parser_assignment_expression : forall begin,
  framed (parser_assignment_expression token_to_string token_stream fuel self begin).
Proof. intros begin. unfold parser_assignment_expression. frame_go. Qed.

#[local] Hint Resolve framed_parser_assignment_expression : frame.

Lemma framed_comma_operator : forall begin,
  framed (comma_operator token_stream begin).
Proof. intros begin. unfold comma_operator. frame_go. Qed.

#[local] Hint Resolve framed_comma_operator : frame.

Lemma framed_parser_expression : forall begin,
  framed (parser_expression token_to_string token_stream fuel self begin).
Proof. intros begin. unfold parser_expression. frame_go. Qed.

#[local] Hint Resolve framed_parser_expression : frame.

Lemma framed_parser_parens_expr : forall begin,
  framed (parser_parens_expr token_to_string token_stream fuel self begin).
Proof. intros begin. unfold parser_parens_expr. frame_go. Qed.

#[local] Hint Resolve framed_parser_parens_expr : frame.

Lemma framed_parser_primary_expression : forall begin,
  framed (parser_primary_expression token_to_string token_stream fuel self begin).
Proof. intros begin. unfold parser_primary_expression. frame_go. Qed.

#[local] Hint Resolve framed_parser_primary_expression : frame.

Lemma framed_parser_statement : forall begin,
  framed (parser_statement token_stream self begin).
Proof. intros begin. unfold parser_statement. frame_go. Qed.

#[local] Hint Resolve framed_parser_statement : frame.

Lemma framed_parser_jump_statement : forall begin,
  framed (parser_jump_statement token_to_string token_stream fuel self begin).
Proof. intros begin. unfold parser_jump_statement. frame_go. Qed.

#[local] Hint Resolve framed_parser_jump_statement : frame.

Lemma framed_parens_expression : forall begin,
  framed (parens_expression token_to_string token_stream fuel self begin).
Proof. intros begin. unfold parens_expression. frame_go. Qed.

#[local] Hint Resolve framed_parens_expression : frame.

Lemma framed_while_statement : forall begin,
  framed (while_statement token_to_string token_stream fuel self begin).
Proof. intros begin. unfold while_statement. frame_go. Qed.

#[local] Hint Resolve framed_while_statement : frame.

Lemma framed_do_while_statement : forall begin,
  framed (do_while_statement token_to_string token_stream fuel self begin).
Proof. intros begin. unfold do_while_statement. frame_go. Qed.

#[local] Hint Resolve framed_do_while_statement : frame.

Lemma framed_for_clause_expression : forall it state,
  framed (for_clause_expression token_to_string token_stream fuel self it state).
Proof. intros it state. unfold for_clause_expression. frame_go. Qed.

#[local] Hint Resolve framed_for_clause_expression : frame.

Lemma framed_for_exprs_production : forall begin,
  framed (for_exprs_production token_to_string contains token_stream fuel self begin).
Proof. intros begin. unfold for_exprs_production. frame_go. Qed.

#[local] Hint Resolve framed_for_exprs_production : frame.

Lemma framed_for_statement : forall begin,
  framed (for_statement token_to_string contains token_stream fuel self begin).
Proof. intros begin. unfold for_statement. frame_go. Qed.

#[local] Hint Resolve framed_for_statement : frame.

Lemma framed_parser_iteration_statement : forall begin,
  framed
    (parser_iteration_statement token_to_string contains token_stream fuel self begin).
Proof. intros begin. unfold parser_iteration_statement. frame_go. Qed.

#[local] Hint Resolve framed_parser_iteration_statement : frame.

Lemma framed_if_statement : forall begin,
  framed (if_statement token_to_string token_stream fuel self begin).
Proof. intros begin. unfold if_statement. frame_go. Qed.

#[local] Hint Resolve framed_if_statement : frame.

Lemma framed_switch_statement : forall begin,
  framed (switch_statement token_to_string token_stream fuel self begin).
Proof. intros begin. unfold switch_statement. frame_go. Qed.

#[local] Hint Resolve framed_switch_statement : frame.

Lemma framed_parser_selection_statement : forall begin,
  framed (parser_selection_statement token_to_string token_stream fuel self begin).
Proof. intros begin. unfold parser_selection_statement. frame_go. Qed.

#[local] Hint Resolve framed_parser_selection_statement : frame.

Lemma framed_parser_expression_statement : forall begin,
  framed (parser_expression_statement token_to_string token_stream fuel self begin).
Proof. intros begin. unfold parser_expression_statement. frame_go. Qed.

#[local] Hint Resolve framed_parser_expression_statement : frame.

Lemma framed_decl_or_stmt : forall begin,
  framed (decl_or_stmt token_to_string contains token_stream fuel self begin).
Proof. intros begin. unfold decl_or_stmt. frame_go. Qed.

#[local] Hint Resolve framed_decl_or_stmt : frame.

Lemma framed_block_item_list_production : forall begin,
  framed
    (block_item_list_production token_to_string contains token_stream fuel self begin).
Proof. intros begin. unfold block_item_list_production. frame_go. Qed.

#[local] Hint Resolve framed_block_item_list_production : frame.

Lemma framed_parser_compound_statement : forall begin,
  framed
    (parser_compound_statement token_to_string contains token_stream fuel self begin).
Proof. intros begin. unfold parser_compound_statement. frame_go. Qed.

#[local] Hint Resolve framed_parser_compound_statement : frame.

Lemma framed_parser_labeled_statement : forall begin,
  framed (parser_labeled_statement token_to_string token_stream self begin).
Proof. intros begin. unfold parser_labeled_statement. frame_go. Qed.

#[local] Hint Resolve framed_parser_labeled_statement : frame.

Lemma framed_declaration_list : forall begin,
  framed (declaration_list token_to_string contains token_stream fuel self begin).
Proof. intros begin. unfold declaration_list. frame_go. Qed.

#[local] Hint Resolve framed_declaration_list : frame.

Lemma framed_parser_function_definition : forall begin,
  framed
    (parser_function_definition token_to_string contains token_stream fuel self begin).
Proof. intros begin. unfold parser_function_definition. frame_go. Qed.

#[local] Hint Resolve framed_parser_function_definition : frame.

Lemma framed_compilation_unit_loop : forall n it s,
  framed (compilation_unit_loop token_to_string contains token_stream fuel self n it s).
Proof.
  induction n as [|n IH]; intros it s; cbn [compilation_unit_loop]; [apply framed_stuck|].
  frame_go.
Qed.

#[local] Hint Resolve framed_compilation_unit_loop : frame.

Lemma framed_parser_compilation_unit : forall begin,
  framed (parser_compilation_unit token_to_string contains token_stream fuel self begin).
Proof. intros begin. unfold parser_compilation_unit. frame_go. Qed.

#[local] Hint Resolve framed_parser_compilation_unit : frame.

Lemma framed_dispatch : forall r it,
  framed (dispatch token_to_string contains token_stream fuel self r it).
Proof. intros r it. destruct r; cbn [dispatch]; auto with frame nocore. Qed.

End FramedRules.

(** ** The context after a rule and after [parse] *)

Section FramedParse.

Variable token_to_string : TokenType.t -> string.
Variable contains : SourceRange -> SourceLocation -> bool.
Variable token_stream : TokenStream.

Lemma framed_run : forall n r it,
  framed (run token_to_string contains token_stream n r it).
Proof.
  induction n as [|n IH]; intros r it; cbn [run].
  - apply framed_stuck.
  - apply framed_dispatch. exact IH.
Qed.

Lemma framed_compilation_unit : forall n it,
  framed (parser_compilation_unit token_to_string contains token_stream n
            (run token_to_string contains token_stream n) it).
Proof. intros n it. apply framed_parser_compilation_unit. apply framed_run. Qed.

(** X8. Whatever rule is run, wherever, the parser context comes back with
    the flag [is_inside_specifiers] as it was, the options untouched, and
    the diagnostics extended by nothing but pedantic ["empty statement"]
    reports: the rules keep every syntax error in the state they return. *)
Theorem rules_report_only_empty_statements : forall n r it c result c',
  run token_to_string contains token_stream n r it c = Ok (result, c') ->
  is_inside_specifiers c' = is_inside_specifiers c /\
  opts (program c') = opts (program c) /\
  exists ds,
    diagnostics (program c') = diagnostics (program c) ++ ds /\
    Forall empty_statement_report ds.
Proof. intros n r it c result c' H. exact (framed_run n r it _ H). Qed.

(** X9. When [parse] returns a tree it has reported no error and no note:
    the options are as before and the diagnostics have grown by pedantic
    ["empty statement"] reports only. *)
Theorem parse_with_a_tree_reports_no_error : forall n prog tree prog',
  parse token_to_string contains token_stream n prog = Ok (Some tree, prog') ->
  opts prog' = opts prog /\
  exists ds,
    diagnostics prog' = diagnostics prog ++ ds /\
    Forall empty_statement_report ds.
Proof.
  intros n prog tree prog' H. unfold parse in H.
  destruct (parse_with _ _ _ _ _) as [[t c]|f] eqn:Ew; [|discriminate H].
  inversion H; subst; clear H. unfold parse_with in Ew.
  bind_inv_as Ew unit c1 Hunit. destruct unit as [it ast].
  apply framed_compilation_unit in Hunit.
  destruct (negb _); [discriminate Ew|].
  destruct (giveup_to_expected ast) as [fails|t].
  - bind_inv_as Ew u c2 Hemit. ret_inv Ew. discriminate.
  - ret_inv Ew. destruct Hunit as (_ & Ho & Hd). split; [exact Ho|exact Hd].
Qed.

End FramedParse.

Lemma rules_report_only_empty_statements_witness :
  exists c',
    is_inside_specifiers c' = is_inside_specifiers Examples.fresh_context /\
    opts (program c') = opts (program Examples.fresh_context) /\
    exists ds,
      diagnostics (program c') = diagnostics (program Examples.fresh_context) ++ ds /\
      Forall empty_statement_report ds.
Proof.
  assert (Hrun :
    run Examples.token_spelling Examples.range_contains Inputs.empty_body 40
      CompoundStatement 4 Examples.fresh_context
    = Ok ((7, Success (Some (new_leaf NodeType.CompoundStatement
                               {| type := TokenType.LeftBrace;
                                  data := {| range_begin := 11; range_end := 12 |} |}))),
          {| program :=
               {| opts := {| pedantic := false |};
                  diagnostics :=
                    [ {| kind := DiagPedantic;
                         info := {| pos := {| SourceManager.line := 1;
                                              SourceManager.column := 14 |};
                                    range := {| range_begin := 13; range_end := 14 |} |};
                         message := "empty statement" |} ] |};
             is_inside_specifiers := false |}))
    by (vm_compute; reflexivity).
  eexists.
  exact (rules_report_only_empty_statements _ _ _ _ _ _ _ Hrun).
Defined.

Lemma parse_with_a_tree_reports_no_error_witness :
  exists prog',
    opts prog' = opts Examples.no_diagnostics /\
    exists ds,
      diagnostics prog' = diagnostics Examples.no_diagnostics ++ ds /\
      Forall empty_statement_report ds.
Proof.
  assert (Hrun :
    exists tree,
      parse Examples.token_spelling Examples.range_contains Inputs.empty_body 40
        Examples.no_diagnostics
      = Ok (Some tree,
            {| opts := {| pedantic := false |};
               diagnostics :=
                 [ {| kind := DiagPedantic;
                      info := {| pos := {| SourceManager.line := 1;
                                           SourceManager.column := 14 |};
                                 range := {| range_begin := 13; range_end := 14 |} |};
                      message := "empty statement" |} ] |}))
    by (eexists; vm_compute; reflexivity).
  destruct Hrun as [tree Hrun]. eexists.
  exact (parse_with_a_tree_reports_no_error _ _ _ _ _ Hrun).
Defined.

(** * The source manager *)

Lemma get_in_range : forall s i, i < String.length s -> exists c, String.get i s = Some c.
Proof.
  induction s as [|a s IH]; intros i H; cbn [String.length] in H; [lia|].
  destruct i as [|i]; cbn [String.get]; [exists a; reflexivity|].
  apply IH. lia.
Qed.

(** [find_newline] stops at the first newline, or at [last]. *)
Lemma find_newline_finds : forall buffer last fuel first,
  first <= last -> last <= String.length buffer -> last - first < fuel ->
  exists p,
    SourceManager.find_newline fuel buffer first last = Ok p /\
    first <= p <= last /\
    (p < last -> String.get p buffer = Some SourceManager.newline) /\
    (forall i, first <= i < p -> String.get i buffer <> Some SourceManager.newline).
Proof.
  intros buffer last. induction fuel as [|fuel IH]; intros first Hle Hlen Hfuel; [lia|].
  cbn [SourceManager.find_newline].
  destruct (Nat.eqb_spec first last) as [->|Hne].
  - exists last. split; [reflexivity|]. split; [lia|]. split; intros; lia.
  - destruct (@get_in_range buffer first) as [ch Hch]; [lia|]. rewrite Hch.
    destruct (Ascii.eqb_spec ch SourceManager.newline) as [->|Hch'].
    + exists first. split; [reflexivity|]. split; [lia|].
      split; [intros _; exact Hch|]. intros; lia.
    + destruct (IH (S first)) as (p & Hp & Hrange & Hnl & Hnone); try lia.
      exists p. split; [exact Hp|]. split; [lia|]. split; [exact Hnl|].
      intros i Hi. destruct (Nat.eq_dec i first) as [->|Hi'].
      * rewrite Hch. congruence.
      * apply Hnone. lia.
Qed.

Lemma line_cache_loop_builds : forall buffer range fuel line_end acc,
  line_end <= range_end range ->
  range_end range <= String.length buffer ->
  (line_end < range_end range ->
   String.get (range_end range - 1) buffer = Some SourceManager.newline) ->
  range_end range - line_end + 2 <= fuel ->
  exists lines,
    SourceManager.line_cache_loop fuel buffer range line_end line_end acc
    = Ok (acc ++ lines) /\
    line_table buffer line_end (range_end range) lines.
Proof.
  intros buffer range. induction fuel as [|fuel IH]; intros line_end acc Hle Hlen Hlast Hfuel;
    [lia|].
  cbn [SourceManager.line_cache_loop].
  destruct (Nat.eqb_spec line_end (range_end range)) as [Heq|Hne].
  - exists []. split; [rewrite app_nil_r; reflexivity|exact Heq].
  - destruct (@find_newline_finds buffer (range_end range) fuel line_end)
      as (p & Hp & Hrange & Hnl & Hnone); try lia.
    rewrite Hp.
    assert (Hin : p < range_end range).
    { destruct (Nat.eq_dec p (range_end range)) as [->|]; [|lia].
      exfalso. apply (Hnone (range_end range - 1)); [lia|]. apply Hlast. lia. }
    destruct (IH (p + 1) (acc ++ [ {| range_begin := line_end; range_end := p |} ]))
      as (lines & Hloop & Htable); try lia.
    { intros _. apply Hlast. lia. }
    exists ({| range_begin := line_end; range_end := p |} :: lines).
    split.
    + rewrite Hloop, <- app_assoc. reflexivity.
    + cbn [line_table range_begin range_end]. split; [reflexivity|].
      split; [lia|]. split; [exact Hin|]. split; [apply Hnl; exact Hin|].
      split; [exact Hnone|]. replace (S p) with (p + 1) by lia. exact Htable.
Qed.

(** X10. For a range of the buffer that is empty or ends in a newline, the
    line cache is built (with fuel for every character) and is the line
    table of the range: lines follow each other without gaps, each ends at
    the first newline behind its beginning, and the newline is not part of
    it. *)
Theorem line_cache_is_the_line_table : forall fuel buffer range,
  range_begin range <= range_end range ->
  range_end range <= String.length buffer ->
  (range_begin range < range_end range ->
   String.get (range_end range - 1) buffer = Some SourceManager.newline) ->
  range_end range - range_begin range + 2 <= fuel ->
  exists lines,
    SourceManager.SourceLineCache fuel buffer range = Ok lines /\
    line_table buffer (range_begin range) (range_end range) lines.
Proof.
  intros fuel buffer range Hle Hlen Hlast Hfuel. unfold SourceManager.SourceLineCache.
  destruct (@line_cache_loop_builds buffer range fuel (range_begin range) []
              Hle Hlen Hlast Hfuel) as (lines & Hloop & Htable).
  exists lines. split; [exact Hloop|exact Htable].
Qed.

Lemma line_cache_is_the_line_table_witness :
  exists lines,
    SourceManager.SourceLineCache 6 ("a" +++ String SourceManager.newline
                                     ("b" +++ String SourceManager.newline ""))
      {| range_begin := 0; range_end := 4 |} = Ok lines /\
    line_table ("a" +++ String SourceManager.newline
                ("b" +++ String SourceManager.newline "")) 0 4 lines.
Proof.
  apply (@line_cache_is_the_line_table 6
           ("a" +++ String SourceManager.newline
            ("b" +++ String SourceManager.newline ""))
           {| range_begin := 0; range_end := 4 |}).
  - cbn. lia.
  - cbn. lia.
  - intros _. reflexivity.
  - cbn. lia.
Defined.

(** Behind the end of the range the loop never comes back to it. *)
Lemma find_newline_moves_on : forall buffer last fuel first p,
  SourceManager.find_newline fuel buffer first last = Ok p ->
  last < first -> first <= p.
Proof.
  intros buffer last. induction fuel as [|fuel IH]; intros first p H Hlt;
    cbn [SourceManager.find_newline] in H; [discriminate H|].
  destruct (Nat.eqb_spec first last) as [Heq|_]; [lia|].
  destruct (String.get first buffer) as [ch|]; [|discriminate H].
  destruct (Ascii.eqb ch SourceManager.newline).
  - inversion H; subst. lia.
  - apply IH in H; lia.
Qed.

Lemma line_cache_loop_overshot : forall buffer range fuel line_begin line_end acc lines,
  range_end range < line_end ->
  SourceManager.line_cache_loop fuel buffer range line_begin line_end acc <> Ok lines.
Proof.
  intros buffer range. induction fuel as [|fuel IH];
    intros line_begin line_end acc lines Hlt H;
    cbn [SourceManager.line_cache_loop] in H; [discriminate H|].
  destruct (Nat.eqb_spec line_end (range_end range)) as [Heq|_]; [lia|].
  destruct (SourceManager.find_newline fuel buffer line_end (range_end range))
    as [p|f] eqn:Hp; [|discriminate H].
  apply find_newline_moves_on in Hp; [|exact Hlt].
  apply IH in H; [exact H|lia].
Qed.

Lemma find_newline_result : forall buffer last fuel first p,
  SourceManager.find_newline fuel buffer first last = Ok p ->
  first <= last ->
  first <= p <= last /\
  (p < last -> String.get p buffer = Some SourceManager.newline).
Proof.
  intros buffer last. induction fuel as [|fuel IH]; intros first p H Hle;
    cbn [SourceManager.find_newline] in H; [discriminate H|].
  destruct (Nat.eqb_spec first last) as [Heq|Hne].
  - inversion H; subst. split; [lia|]. intro; lia.
  - destruct (String.get first buffer) as [ch|] eqn:Hch; [|discriminate H].
    destruct (Ascii.eqb_spec ch SourceManager.newline) as [->|_].
    + inversion H; subst. split; [lia|]. intros _. exact Hch.
    + apply IH in H; [|lia]. destruct H as [Hr Hnl]. split; [lia|exact Hnl].
Qed.

Lemma line_cache_loop_unterminated : forall buffer range fuel line_begin line_end acc lines,
  line_end < range_end range ->
  String.get (range_end range - 1) buffer <> Some SourceManager.newline ->
  SourceManager.line_cache_loop fuel buffer range line_begin line_end acc <> Ok lines.
Proof.
  intros buffer range. induction fuel as [|fuel IH];
    intros line_begin line_end acc lines Hlt Hlast H;
    cbn [SourceManager.line_cache_loop] in H; [discriminate H|].
  destruct (Nat.eqb_spec line_end (range_end range)) as [Heq|_]; [lia|].
  destruct (SourceManager.find_newline fuel buffer line_end (range_end range))
    as [p|f] eqn:Hp; [|discriminate H].
  apply find_newline_result in Hp; [|lia]. destruct Hp as [Hrange Hnl].
  destruct (Nat.eq_dec p (range_end range)) as [->|Hp].
  - apply line_cache_loop_overshot in H; [exact H|lia].
  - assert (Hin : p < range_end range) by lia.
    assert (p <> range_end range - 1) by (intros ->; apply Hlast, Hnl, Hin).
    apply IH in H; [exact H|lia|exact Hlast].
Qed.

(** X11. For a range that is not empty and does not end in a newline the
    line cache is never built, whatever the fuel: after the last line the
    loop steps over the end of the range and cannot return. *)
Theorem line_cache_needs_a_final_newline : forall fuel buffer range,
  range_begin range < range_end range ->
  String.get (range_end range - 1) buffer <> Some SourceManager.newline ->
  exists f, SourceManager.SourceLineCache fuel buffer range = Stuck f.
Proof.
  intros fuel buffer range Hne Hlast.
  destruct (SourceManager.SourceLineCache fuel buffer range) as [lines|f] eqn:H.
  - exfalso. unfold SourceManager.SourceLineCache in H.
    exact (@line_cache_loop_unterminated buffer range fuel _ _ _ _ Hne Hlast H).
  - exists f. reflexivity.
Qed.

Lemma line_cache_needs_a_final_newline_witness :
  exists f,
    SourceManager.SourceLineCache 9 ("a" +++ String SourceManager.newline "b")
      {| range_begin := 0; range_end := 3 |} = Stuck f.
Proof.
  apply (@line_cache_needs_a_final_newline 9 ("a" +++ String SourceManager.newline "b")
           {| range_begin := 0; range_end := 3 |}).
  - cbn. lia.
  - cbn. discriminate.
Defined.

(** ** Looking a location up *)

Section Lookup.

Variable contains : SourceRange -> SourceLocation -> bool.

Lemma linecol_scan_finds : forall ranges index loc lc,
  SourceManager.linecol_scan contains ranges index loc = Ok lc ->
  exists k r,
    SourceManager.line lc = index + k + 1 /\
    nth_error ranges k = Some r /\
    contains r loc = true /\
    SourceManager.column lc = loc - range_begin r + 1 /\
    forall i r', i < k -> nth_error ranges i = Some r' -> contains r' loc = false.
Proof.
  induction ranges as [|range rest IH]; intros index loc lc H;
    cbn [SourceManager.linecol_scan] in H; [discriminate H|].
  destruct (contains range loc) eqn:Hc.
  - inversion H; subst; clear H. exists 0, range. cbn.
    split; [lia|]. split; [reflexivity|]. split; [exact Hc|]. split; [reflexivity|].
    intros i r' Hi. lia.
  - apply IH in H. destruct H as (k & r & Hline & Hnth & Hr & Hcol & Hfirst).
    exists (S k), r. split; [lia|]. split; [exact Hnth|]. split; [exact Hr|].
    split; [exact Hcol|]. intros [|i] r' Hi Hnth'; cbn in Hnth'.
    + inversion Hnth'; subst. exact Hc.
    + apply (Hfirst i r'); [lia|exact Hnth'].
Qed.

Lemma linecol_scan_misses : forall ranges index loc,
  (forall r, In r ranges -> contains r loc = false) ->
  SourceManager.linecol_scan contains ranges index loc = Stuck ContractViolation.
Proof.
  induction ranges as [|range rest IH]; intros index loc Hnone;
    cbn [SourceManager.linecol_scan]; [reflexivity|].
  rewrite (Hnone range (or_introl eq_refl)). apply IH.
  intros r Hr. apply Hnone. right. exact Hr.
Qed.

Lemma linecol_scan_hits : forall ranges index loc r,
  In r ranges -> contains r loc = true ->
  exists lc, SourceManager.linecol_scan contains ranges index loc = Ok lc.
Proof.
  induction ranges as [|range rest IH]; intros index loc r Hin Hr; [destruct Hin|].
  cbn [SourceManager.linecol_scan]. destruct (contains range loc) eqn:Hc.
  - eexists. reflexivity.
  - destruct Hin as [->|Hin]; [congruence|]. exact (@IH _ _ _ Hin Hr).
Qed.

(** X12. The line that [linecol_from_location] reports is one
    [line_range_at] has: [line_range_from_location] then returns the first
    cached line that contains the location, and the column counts from the
    beginning of that line, starting at one. *)
Theorem line_range_of_a_location : forall sm loc lc,
  SourceManager.linecol_from_location contains sm loc = Ok lc ->
  exists r,
    line_range_from_location contains sm loc = Ok r /\
    SourceManager.line_range_at sm (SourceManager.line lc) = Ok r /\
    1 <= SourceManager.line lc <= List.length (SourceManager.offsets sm) /\
    contains r loc = true /\
    SourceManager.column lc = loc - range_begin r + 1 /\
    forall i r',
      i < SourceManager.line lc - 1 ->
      nth_error (SourceManager.offsets sm) i = Some r' -> contains r' loc = false.
Proof.
  intros sm loc lc H. unfold line_range_from_location. rewrite H.
  unfold SourceManager.linecol_from_location in H.
  destruct (SourceManager.offsets sm) as [|front rest] eqn:Hoff; [discriminate H|].
  destruct (negb _); [discriminate H|]. destruct (negb _); [discriminate H|].
  apply linecol_scan_finds in H.
  destruct H as (k & r & Hline & Hnth & Hr & Hcol & Hfirst).
  exists r. rewrite Hline. cbn [Nat.add].
  assert (Hat : SourceManager.line_range_at sm (k + 1) = Ok r).
  { unfold SourceManager.line_range_at. replace (k + 1) with (S k) by lia.
    rewrite Hoff, Hnth. reflexivity. }
  split; [exact Hat|]. split; [exact Hat|]. split.
  - assert (k < List.length (front :: rest)) by (apply nth_error_Some; congruence).
    lia.
  - split; [exact Hr|]. split; [exact Hcol|].
    intros i r' Hi. apply Hfirst. lia.
Qed.

(** X13. [linecol_from_location] has a result exactly when the cache is not
    empty, the location lies between the beginning of the first line and the
    end of the last, and some line contains it; in every other case a
    contract of the function fails. *)
Theorem linecol_domain : forall sm loc,
  ((exists lc, SourceManager.linecol_from_location contains sm loc = Ok lc) <->
   (exists front rest,
      SourceManager.offsets sm = front :: rest /\
      range_begin front <= loc /\
      loc <= range_end (last (SourceManager.offsets sm) front) /\
      exists r, In r (SourceManager.offsets sm) /\ contains r loc = true)) /\
  ((forall lc, SourceManager.linecol_from_location contains sm loc <> Ok lc) ->
   SourceManager.linecol_from_location contains sm loc = Stuck ContractViolation).
Proof.
  intros sm loc. unfold SourceManager.linecol_from_location.
  destruct (SourceManager.offsets sm) as [|front rest] eqn:Hoff.
  - split; [|reflexivity]. split; [intros [lc H]; discriminate H|].
    intros (f & r & H & _). discriminate H.
  - destruct (Nat.leb_spec (range_begin front) loc) as [Hb|Hb]; cbn [negb].
    + destruct (Nat.leb_spec loc (range_end (last (front :: rest) front))) as [He|He];
        cbn [negb].
      * split.
        -- split.
           ++ intros [lc H]. exists front, rest. split; [reflexivity|].
              split; [exact Hb|]. split; [exact He|].
              apply linecol_scan_finds in H.
              destruct H as (k & r & _ & Hnth & Hr & _).
              exists r. split; [eapply nth_error_In; exact Hnth|exact Hr].
           ++ intros (f & rs & _ & _ & _ & r & Hin & Hr).
              exact (@linecol_scan_hits (front :: rest) 0 loc r Hin Hr).
        -- intros Hnone.
           destruct (SourceManager.linecol_scan contains (front :: rest) 0 loc)
             as [lc|f] eqn:Hscan; [exfalso; exact (Hnone lc eq_refl)|].
           destruct (existsb (fun r => contains r loc) (front :: rest)) eqn:Hex.
           ++ apply existsb_exists in Hex. destruct Hex as (r & Hin & Hr).
              destruct (@linecol_scan_hits (front :: rest) 0 loc r Hin Hr) as [lc Hlc]. congruence.
           ++ rewrite <- Hscan. apply linecol_scan_misses. intros r Hin.
              destruct (contains r loc) eqn:Hr; [|reflexivity].
              assert (existsb (fun r => contains r loc) (front :: rest) = true)
                by (apply existsb_exists; exists r; split; assumption).
              congruence.
      * split; [|reflexivity]. split; [intros [lc H]; discriminate H|].
        intros (f & rs & H & _ & Hle & _). inversion H; subst. lia.
    + split; [|reflexivity]. split; [intros [lc H]; discriminate H|].
      intros (f & rs & H & Hle & _). inversion H; subst. lia.
Qed.

End Lookup.

Lemma line_range_of_a_location_witness :
  exists r,
    line_range_from_location Examples.range_contains
      {| SourceManager.content := "";
         SourceManager.offsets := [ {| range_begin := 0; range_end := 2 |};
                                    {| range_begin := 3; range_end := 5 |} ] |} 4
    = Ok r /\
    SourceManager.line_range_at
      {| SourceManager.content := "";
         SourceManager.offsets := [ {| range_begin := 0; range_end := 2 |};
                                    {| range_begin := 3; range_end := 5 |} ] |}
      (SourceManager.line {| SourceManager.line := 2; SourceManager.column := 2 |})
    = Ok r /\
    1 <= SourceManager.line {| SourceManager.line := 2; SourceManager.column := 2 |}
      <= List.length
           (SourceManager.offsets
              {| SourceManager.content := "";
                 SourceManager.offsets := [ {| range_begin := 0; range_end := 2 |};
                                            {| range_begin := 3; range_end := 5 |} ] |}) /\
    Examples.range_contains r 4 = true /\
    SourceManager.column {| SourceManager.line := 2; SourceManager.column := 2 |}
    = 4 - range_begin r + 1 /\
    forall i r',
      i < SourceManager.line {| SourceManager.line := 2; SourceManager.column := 2 |} - 1 ->
      nth_error
        (SourceManager.offsets
           {| SourceManager.content := "";
              SourceManager.offsets := [ {| range_begin := 0; range_end := 2 |};
                                         {| range_begin := 3; range_end := 5 |} ] |}) i
      = Some r' ->
      Examples.range_contains r' 4 = false.
Proof.
  exact (@line_range_of_a_location Examples.range_contains
           {| SourceManager.content := "";
              SourceManager.offsets := [ {| range_begin := 0; range_end := 2 |};
                                         {| range_begin := 3; range_end := 5 |} ] |}
           4 {| SourceManager.line := 2; SourceManager.column := 2 |} eq_refl).
Defined.

Lemma linecol_domain_witness :
  SourceManager.linecol_from_location Examples.range_contains
    {| SourceManager.content := ""; SourceManager.offsets := [] |} 0
  = Stuck ContractViolation.
Proof.
  apply (proj2 (linecol_domain Examples.range_contains
                  {| SourceManager.content := ""; SourceManager.offsets := [] |} 0)).
  intros lc H. discriminate H.
Defined.

(** * The compilation unit *)

Section TopLevel.

Variable token_to_string : TokenType.t -> string.
Variable contains : SourceRange -> SourceLocation -> bool.
Variable sm : SourceManager.t.

Lemma nth_error_middle : forall (A : Type) (pre : list A) x rest,
  nth_error (pre ++ x :: rest) (List.length pre) = Some x.
Proof.
  intros A pre x rest. rewrite nth_error_app2 by lia.
  rewrite Nat.sub_diag. reflexivity.
Qed.

Lemma unit_loop_skips_semicolons : forall fuel self semis eof pre n unit c,
  Forall (fun t => type t = TokenType.Semicolon) semis ->
  type eof = TokenType.Eof ->
  List.length semis < n ->
  compilation_unit_loop token_to_string contains
    {| token_data := pre ++ semis ++ [eof]; source_manager := sm |}
    fuel self n (List.length pre) unit c
  = Ok ((List.length (pre ++ semis ++ [eof]), unit), c).
Proof.
  intros fuel self. induction semis as [|semi semis IH];
    intros eof pre n unit c Hsemis Heof Hn.
  - destruct n as [|n]; [cbn in Hn; lia|]. cbn [compilation_unit_loop app].
    unfold tend, tokens. cbn [token_data].
    replace (Nat.eqb (List.length pre) (List.length (pre ++ [eof]))) with false
      by (symmetry; apply Nat.eqb_neq; rewrite length_app; cbn; lia).
    unfold bind, deref, tokens. cbn [token_data]. rewrite nth_error_middle.
    unfold ret at 1. rewrite Heof. cbn [TokenType.eqb].
    rewrite TokenType.eqb_refl. unfold ret, next. rewrite length_app. cbn.
    replace (S (List.length pre)) with (List.length pre + 1) by lia. reflexivity.
  - destruct n as [|n]; [cbn in Hn; lia|]. cbn [compilation_unit_loop].
    inversion Hsemis as [|? ? Hsemi Hrest]; subst.
    unfold tend, tokens. cbn [token_data].
    replace (Nat.eqb (List.length pre) (List.length (pre ++ (semi :: semis) ++ [eof])))
      with false
      by (symmetry; apply Nat.eqb_neq; rewrite !length_app; cbn; lia).
    unfold bind at 1. unfold deref, tokens. cbn [token_data app].
    rewrite nth_error_middle. unfold ret at 1. rewrite Hsemi.
    replace (TokenType.eqb TokenType.Semicolon TokenType.Eof) with false by reflexivity.
    rewrite TokenType.eqb_refl.
    specialize (IH eof (pre ++ [semi]) n unit c Hrest Heof).
    rewrite length_app in IH. cbn [List.length] in IH.
    replace (List.length pre + 1) with (next (List.length pre)) in IH
      by (unfold next; lia).
    rewrite <- !app_assoc in IH. cbn [app] in IH.
    apply IH. cbn in Hn. lia.
Qed.

(** X14. At the top level stray semicolons are skipped without a word:
    for tokens that are semicolons up to [Eof], [parse] returns an empty
    [CompilationUnit] and reports nothing; on no token at all it returns
    null, again without a report, since the only error sits at
    [tokens.end()]. *)
Theorem parse_skips_lone_semicolons :
  (forall semis eof n prog,
     Forall (fun t => type t = TokenType.Semicolon) semis ->
     type eof = TokenType.Eof ->
     List.length semis < n ->
     parse token_to_string contains
       {| token_data := semis ++ [eof]; source_manager := sm |} n prog
     = Ok (Some (new_node NodeType.CompilationUnit), prog)) /\
  (forall n prog,
     parse token_to_string contains {| token_data := []; source_manager := sm |} n prog
     = Ok (None, prog)).
Proof.
  split.
  - intros semis eof n prog Hsemis Heof Hn. unfold parse, parse_with.
    unfold bind at 1. unfold parser_compilation_unit.
    unfold tend at 1, tokens at 1. cbn [token_data].
    replace (Nat.eqb 0 (List.length (semis ++ [eof]))) with false
      by (symmetry; apply Nat.eqb_neq; rewrite length_app; cbn; lia).
    cbn [negb].
    destruct semis as [|semi semis].
    + cbn [app]. unfold bind at 1. unfold deref, tokens. cbn [token_data nth_error].
      unfold ret at 1. rewrite Heof, TokenType.eqb_refl. cbn [negb].
      unfold ret at 1. cbv beta iota. cbn [giveup_to_expected].
      unfold tend, tokens, next. cbn. reflexivity.
    + inversion Hsemis as [|? ? Hsemi Hrest]; subst.
      unfold bind at 1. unfold deref, tokens. cbn [token_data nth_error app].
      unfold ret at 1. rewrite Hsemi.
      replace (TokenType.eqb TokenType.Semicolon TokenType.Eof) with false by reflexivity.
      cbn [negb].
      rewrite (unit_loop_skips_semicolons n (run token_to_string contains
                 {| token_data := semi :: semis ++ [eof]; source_manager := sm |} n)
                 (semis := semi :: semis) eof [] (n := n) _ _ Hsemis Heof Hn).
      cbv beta iota. cbn [giveup_to_expected app].
      unfold tend, tokens. cbn [token_data]. rewrite Nat.eqb_refl. reflexivity.
  - intros n prog. reflexivity.
Qed.

End TopLevel.

(** * Iterators stay between [begin] and [tokens.end()] *)

Lemma safe_weaken : forall (A : Type) (m : M A) (P Q : A -> Prop),
  safe m P -> (forall a, P a -> Q a) -> safe m Q.
Proof. intros A m P Q Hm HPQ c a c' H. apply HPQ. exact (Hm _ _ _ H). Qed.

Lemma safe_bind_assoc : forall (A B C : Type) (m : M A) (k1 : A -> M B)
    (k2 : B -> M C) (Q : C -> Prop),
  safe (bind m (fun x => bind (k1 x) k2)) Q -> safe (bind (bind m k1) k2) Q.
Proof.
  intros A B C m k1 k2 Q H c r c' E. apply (H c r c'). unfold bind in *.
  destruct (m c) as [[a c1]|f]; [exact E|discriminate E].
Qed.

Lemma safe_bind_ret : forall (A B : Type) (a : A) (k : A -> M B) (Q : B -> Prop),
  safe (k a) Q -> safe (bind (ret a) k) Q.
Proof. intros A B a k Q H c r c' E. exact (H c r c' E). Qed.

Ltac range_clean :=
  repeat match goal with
         | H : true = true -> _ |- _ => specialize (H eq_refl)
         | H : false = true -> _ |- _ => clear H
         | H : in_range _ _ _ |- _ => unfold in_range in H; cbn [fst snd] in H
         | H : _ /\ _ |- _ => destruct H
         | H : any _ |- _ => clear H
         end.

Ltac case_on b :=
  lazymatch b with
  | negb ?b' => case_on b'
  | andb ?b1 ?b2 => case_on b1
  | orb ?b1 ?b2 => case_on b1
  | Nat.eqb ?x ?y => destruct (Nat.eqb_spec x y)
  | Nat.leb ?x ?y => destruct (Nat.leb_spec x y)
  | _ => destruct b eqn:?
  end;
  cbn [negb andb orb]; range_clean.

Ltac range_solve :=
  range_clean; unfold in_range, next, prev in *; cbn [fst snd] in *;
  repeat match goal with
         | H : context [if _ then _ else _] |- _ => revert H
         end;
  repeat match goal with
         | |- context [if ?b then _ else _] => case_on b
         end;
  intros; try split; try lia.

Ltac split_pair a :=
  let T := type of a in
  let T := eval hnf in T in
  lazymatch T with
  | prod _ _ => destruct a
  | _ => idtac
  end.

Section RangedPrimitives.

Variable token_to_string : TokenType.t -> string.
Variable token_stream : TokenStream.

Lemma range_deref : forall it,
  safe (deref token_stream it) (fun _ => it < tend token_stream).
Proof. intros it c tok c' H. apply deref_inv in H. apply H. Qed.

Lemma range_token_is : forall it k,
  safe (token_is token_stream it k) (fun b => b = true -> it < tend token_stream).
Proof. intros it k c b c' H Hb. apply token_is_inv in H. apply H. exact Hb. Qed.

Lemma range_expect_token : forall state it k,
  safe (expect_token token_to_string token_stream state it k)
    (fun answer => fst answer = true -> it < tend token_stream).
Proof.
  intros state it k c [answer state'] c' H Ha. cbn [fst] in Ha. subst answer.
  unfold expect_token in H.
  destruct (Nat.eqb it (tend token_stream)); cbn [negb] in H; [ret_inv H; discriminate|].
  bind_inv_as H tok c1 Htok. apply deref_inv in Htok. apply Htok.
Qed.

Lemma range_expect_end_token : forall state begin it k,
  safe (expect_end_token token_to_string token_stream state begin it k)
    (fun answer => fst answer = true -> it < tend token_stream).
Proof.
  intros state begin it k c [answer state'] c' H Ha. cbn [fst] in Ha. subst answer.
  unfold expect_end_token in H.
  destruct (Nat.eqb it (tend token_stream)); cbn [negb] in H; [ret_inv H; discriminate|].
  bind_inv_as H tok c1 Htok. apply deref_inv in Htok. apply Htok.
Qed.

Lemma range_giveup_at : forall begin what lo,
  lo <= tend token_stream ->
  safe (giveup_at token_stream begin what) (in_range token_stream lo).
Proof. intros begin what lo H. apply safe_ret. split; [exact H|apply Nat.le_refl]. Qed.

End RangedPrimitives.

Create HintDb range.

Ltac range_go :=
  cbv beta iota zeta;
  lazymatch goal with
  | |- safe _ any => apply safe_any
  | |- safe (ret _) _ =>
      apply safe_ret; solve [range_solve]
  | |- safe (stuck _) _ => apply safe_stuck
  | |- safe out_of_fuel _ => apply safe_out_of_fuel
  | |- safe (giveup_at _ _ _) _ => apply range_giveup_at; solve [range_solve]
  | |- safe (bind (bind ?m ?k1) ?k2) ?Q =>
      apply (@safe_bind_assoc _ _ _ m k1 k2 Q); range_go
  | |- safe (bind (ret ?a) ?k) ?Q => apply (@safe_bind_ret _ _ a k Q); range_go
  | |- safe (bind (if ?b then _ else _) _) _ => case_on b; range_go
  | |- safe (bind (match ?x with _ => _ end) _) _ => destruct x; range_go
  | |- safe (bind ?m ?k) ?Q =>
      let a := fresh "a" in
      let H := fresh "H" in
      eapply (@safe_bind _ _ m k _ Q);
      [ first [ apply range_deref
              | apply range_token_is
              | apply range_expect_token
              | apply range_expect_end_token
              | solve [eauto with range nocore]
              | apply safe_any ]
      | intros a H; cbv beta in H; split_pair a; range_clean; range_go ]
  | |- safe (if ?b then _ else _) _ => case_on b; range_go
  | |- safe (match ?x with _ => _ end) _ => destruct x; range_go
  | |- safe ?m ?Q =>
      eapply (@safe_weaken _ m _ Q);
      [ solve [eauto with range nocore]
      | let a := fresh "a" in
        let H := fresh "H" in
        intros a H; cbv beta in H; split_pair a; solve [range_solve] ]
  end.

#[export] Hint Extern 1 (_ <= _) => solve [range_solve] : range.
#[export] Hint Extern 1 (_ < _) => solve [range_solve] : range.
#[export] Hint Extern 1 (ranged_rule _ _) =>
  let it := fresh "it" in
  let H := fresh "H" in
  unfold ranged_rule; intros it H; solve [range_go] : range.
#[export] Hint Extern 1 (Forall (ranged_rule _) _) =>
  repeat first [apply Forall_cons | apply Forall_nil] : range.

Section RangedCombinators.

Variable token_to_string : TokenType.t -> string.
Variable contains : SourceRange -> SourceLocation -> bool.
Variable token_stream : TokenStream.
Variable fuel : nat.

Local Abbreviation ranged := (ranged_rule token_stream).
Local Abbreviation within := (in_range token_stream).

Lemma ranged_parser_one_of : forall rules begin what,
  begin <= tend token_stream ->
  Forall ranged rules ->
  safe (parser_one_of token_stream begin what rules) (within begin).
Proof.
  induction rules as [|rule rules IH]; intros begin what Hbegin Hall;
    cbn [parser_one_of].
  - apply range_giveup_at. exact Hbegin.
  - inversion Hall as [|? ? Hrule Hrest]; subst.
    eapply safe_bind; [apply Hrule; exact Hbegin|]. intros [it state] Hres.
    destruct (negb _); [apply safe_ret; exact Hres|]. apply IH; assumption.
Qed.

Lemma ranged_many_of_loop : forall rule pred,
  ranged rule ->
  forall n it s, it <= tend token_stream ->
  safe (many_of_loop token_stream rule pred n it s) (within it).
Proof.
  intros rule pred Hrule. induction n as [|n IH]; intros it s Hit; cbn [many_of_loop];
    range_go.
Qed.

Lemma ranged_one_many_of_loop : forall rule,
  ranged rule ->
  forall n it s, it <= tend token_stream ->
  safe (one_many_of_loop contains token_stream rule n it s) (within it).
Proof.
  intros rule Hrule. induction n as [|n IH]; intros it s Hit; cbn [one_many_of_loop];
    range_go.
Qed.

Lemma ranged_one_many_of_while_loop : forall rule pred,
  ranged rule ->
  forall n it s, it <= tend token_stream ->
  safe (one_many_of_while_loop token_stream rule pred n it s) (within it).
Proof.
  intros rule pred Hrule. induction n as [|n IH]; intros it s Hit;
    cbn [one_many_of_while_loop]; range_go.
Qed.

Lemma ranged_left_binary_loop : forall op_rule rhs_rule,
  ranged op_rule -> ranged rhs_rule ->
  forall n it s, it <= tend token_stream ->
  safe (left_binary_loop token_to_string token_stream op_rule rhs_rule n it s)
    (within it).
Proof.
  intros op_rule rhs_rule Hop Hrhs. induction n as [|n IH]; intros it s Hit;
    cbn [left_binary_loop]; range_go.
Qed.

Lemma ranged_list_of_loop : forall rule allow,
  ranged rule ->
  forall n it s, it <= tend token_stream ->
  safe (list_of_loop token_stream rule allow n it s) (within it).
Proof.
  intros rule allow Hrule. induction n as [|n IH]; intros it s Hit; cbn [list_of_loop];
    range_go.
Qed.

Lemma ranged_parser_many_of : forall rule pred begin,
  ranged rule -> begin <= tend token_stream ->
  safe (parser_many_of token_stream fuel begin rule pred) (within begin).
Proof.
  intros rule pred begin Hrule Hbegin. unfold parser_many_of.
  pose proof (ranged_many_of_loop pred Hrule) as Hloop. range_go.
Qed.

Lemma ranged_parser_one_many_of : forall rule begin what,
  ranged rule -> begin <= tend token_stream ->
  safe (parser_one_many_of contains token_stream fuel begin what rule) (within begin).
Proof.
  intros rule begin what Hrule Hbegin. unfold parser_one_many_of.
  pose proof (ranged_one_many_of_loop Hrule) as Hloop. range_go.
Qed.

Lemma ranged_parser_one_many_of_while : forall rule pred begin what,
  ranged rule -> begin <= tend token_stream ->
  safe (parser_one_many_of_while token_stream fuel begin what rule pred) (within begin).
Proof.
  intros rule pred begin what Hrule Hbegin. unfold parser_one_many_of_while.
  pose proof (ranged_one_many_of_while_loop pred Hrule) as Hloop. range_go.
Qed.

Lemma ranged_parser_operator : forall op_type op_match,
  ranged (parser_operator token_stream op_type op_match).
Proof. intros op_type op_match it Hit. unfold parser_operator. range_go. Qed.

Lemma ranged_parser_left_binary_operator : forall lhs_rule op_rule rhs_rule,
  ranged lhs_rule -> ranged op_rule -> ranged rhs_rule ->
  ranged (parser_left_binary_operator token_to_string token_stream fuel
            lhs_rule op_rule rhs_rule).
Proof.
  intros lhs_rule op_rule rhs_rule Hlhs Hop Hrhs it Hit.
  unfold parser_left_binary_operator.
  pose proof (ranged_left_binary_loop Hop Hrhs) as Hloop. range_go.
Qed.

Lemma ranged_parser_right_binary_operator : forall lhs_rule op_rule rhs_rule,
  ranged lhs_rule -> ranged op_rule -> ranged rhs_rule ->
  ranged (parser_right_binary_operator token_to_string token_stream
            lhs_rule op_rule rhs_rule).
Proof.
  intros lhs_rule op_rule rhs_rule Hlhs Hop Hrhs it Hit.
  unfold parser_right_binary_operator. range_go.
Qed.

Lemma ranged_parser_opt : forall rule, ranged rule -> ranged (parser_opt rule).
Proof. intros rule Hrule it Hit. unfold parser_opt. range_go. Qed.

Lemma ranged_parser_parens : forall rule left_brace right_brace,
  ranged rule ->
  ranged (parser_parens token_to_string token_stream rule left_brace right_brace).
Proof. intros rule l r Hrule it Hit. unfold parser_parens. range_go. Qed.

Lemma ranged_parser_list_of : forall rule allow,
  ranged rule -> ranged (parser_list_of token_stream fuel rule allow).
Proof.
  intros rule allow Hrule it Hit. unfold parser_list_of.
  pose proof (ranged_list_of_loop allow Hrule) as Hloop. range_go.
Qed.

End RangedCombinators.

#[export] Hint Extern 1 (safe (parser_one_of _ _ _ _) _) =>
  eapply ranged_parser_one_of : range.
#[export] Hint Extern 1 (safe (parser_many_of _ _ _ _ _) _) =>
  eapply ranged_parser_many_of : range.
#[export] Hint Extern 1 (safe (parser_one_many_of _ _ _ _ _ _) _) =>
  eapply ranged_parser_one_many_of : range.
#[export] Hint Extern 1 (safe (parser_one_many_of_while _ _ _ _ _ _) _) =>
  eapply ranged_parser_one_many_of_while : range.
#[export] Hint Extern 1 (safe (parser_operator _ _ _ _) _) =>
  eapply ranged_parser_operator : range.
#[export] Hint Extern 1 (safe (parser_left_binary_operator _ _ _ _ _ _ _) _) =>
  eapply ranged_parser_left_binary_operator : range.
#[export] Hint Extern 1 (safe (parser_right_binary_operator _ _ _ _ _ _) _) =>
  eapply ranged_parser_right_binary_operator : range.
#[export] Hint Extern 1 (safe (parser_opt _ _) _) => eapply ranged_parser_opt : range.
#[export] Hint Extern 1 (safe (parser_parens _ _ _ _ _ _) _) =>
  eapply ranged_parser_parens : range.
#[export] Hint Extern 1 (safe (parser_list_of _ _ _ _ _) _) =>
  eapply ranged_parser_list_of : range.

(** ** Every grammar rule keeps its iterator in range *)

Section RangedRules.

Variable token_to_string : TokenType.t -> string.
Variable contains : SourceRange -> SourceLocation -> bool.
Variable token_stream : TokenStream.
Variable fuel : nat.
Variable self : RuleName -> Rule.
Hypothesis ranged_self : forall r it,
  it <= tend token_stream -> safe (self r it) (in_range token_stream it).

Lemma ranged_parser_identifier : forall begin,
  begin <= tend token_stream ->
  safe (parser_identifier token_stream begin)
    (in_range token_stream begin).
Proof. intros begin Hbegin. unfold parser_identifier. range_go. Qed.

#[local] Hint Resolve ranged_parser_identifier : range.

Lemma ranged_parser_identifier_list : forall begin,
  begin <= tend token_stream ->
  safe (parser_identifier_list token_to_string token_stream fuel begin)
    (in_range token_stream begin).
Proof. intros begin Hbegin. unfold parser_identifier_list. range_go. Qed.

#[local] Hint Resolve ranged_parser_identifier_list : range.

Lemma ranged_parser_string_literal : forall begin,
  begin <= tend token_stream ->
  safe (parser_string_literal token_stream begin)
    (in_range token_stream begin).
Proof. intros begin Hbegin. unfold parser_string_literal. range_go. Qed.

#[local] Hint Resolve ranged_parser_string_literal : range.

Lemma ranged_parser_string_literal_list : forall begin,
  begin <= tend token_stream ->
  safe (parser_string_literal_list token_stream fuel begin)
    (in_range token_stream begin).
Proof. intros begin Hbegin. unfold parser_string_literal_list. range_go. Qed.

#[local] Hint Resolve ranged_parser_string_literal_list : range.

Lemma ranged_parser_constant : forall begin,
  begin <= tend token_stream ->
  safe (parser_constant token_stream begin)
    (in_range token_stream begin).
Proof. intros begin Hbegin. unfold parser_constant. range_go. Qed.

#[local] Hint Resolve ranged_parser_constant : range.

Lemma ranged_parser_parameter_declaration : forall begin,
  begin <= tend token_stream ->
  safe (parser_parameter_declaration token_stream self begin)
    (in_range token_stream begin).
Proof. intros begin Hbegin. unfold parser_parameter_declaration. range_go. Qed.

#[local] Hint Resolve ranged_parser_parameter_declaration : range.

Lemma ranged_parameter_list_loop : forall n it s,
  it <= tend token_stream ->
  safe (parameter_list_loop token_stream self n it s)
    (in_range token_stream it).
Proof.
  induction n as [|n IH]; intros it s Hit; cbn [parameter_list_loop]; [apply safe_out_of_fuel|].
  range_go.
Qed.

#[local] Hint Resolve ranged_parameter_list_loop : range.

Lemma ranged_parser_parameter_type_list : forall begin,
  begin <= tend token_stream ->
  safe (parser_parameter_type_list token_stream fuel self begin)
    (in_range token_stream begin).
Proof. intros begin Hbegin. unfold parser_parameter_type_list. range_go. Qed.

#[local] Hint Resolve ranged_parser_parameter_type_list : range.

Lemma ranged_parser_typedef_name : forall begin,
  begin <= tend token_stream ->
  safe (parser_typedef_name token_stream begin)
    (in_range token_stream begin).
Proof. intros begin Hbegin. unfold parser_typedef_name. range_go. Qed.

#[local] Hint Resolve ranged_parser_typedef_name : range.

Lemma ranged_parser_atomic_type_specifier : forall begin,
  begin <= tend token_stream ->
  safe (parser_atomic_type_specifier token_to_string token_stream self begin)
    (in_range token_stream begin).
Proof. intros begin Hbegin. unfold parser_atomic_type_specifier. range_go. Qed.

#[local] Hint Resolve ranged_parser_atomic_type_specifier : range.

Lemma ranged_parser_type_specifier : forall begin,
  begin <= tend token_stream ->
  safe (parser_type_specifier token_to_string token_stream self begin)
    (in_range token_stream begin).
Proof. intros begin Hbegin. unfold parser_type_specifier. range_go. Qed.

#[local] Hint Resolve ranged_parser_type_specifier : range.

Lemma ranged_parser_type_qualifier : forall begin,
  begin <= tend token_stream ->
  safe (parser_type_qualifier token_stream begin)
    (in_range token_stream begin).
Proof. intros begin Hbegin. unfold parser_type_qualifier. range_go. Qed.

#[local] Hint Resolve ranged_parser_type_qualifier : range.

Lemma ranged_parser_type_qualifier_list : forall begin,
  begin <= tend token_stream ->
  safe (parser_type_qualifier_list token_stream fuel begin)
    (in_range token_stream begin).
Proof. intros begin Hbegin. unfold parser_type_qualifier_list. range_go. Qed.

#[local] Hint Resolve ranged_parser_type_qualifier_list : range.

Lemma ranged_parser_pointer : forall begin,
  begin <= tend token_stream ->
  safe (parser_pointer token_to_string token_stream fuel self begin)
    (in_range token_stream begin).
Proof. intros begin Hbegin. unfold parser_pointer. range_go. Qed.

#[local] Hint Resolve ranged_parser_pointer : range.

Lemma ranged_abstract_function_declarator : forall begin,
  begin <= tend token_stream ->
  safe (abstract_function_declarator token_stream fuel self begin)
    (in_range token_stream begin).
Proof. intros begin Hbegin. unfold abstract_function_declarator. range_go. Qed.

#[local] Hint Resolve ranged_abstract_function_declarator : range.

Lemma ranged_abstract_array_declarator : forall begin,
  begin <= tend token_stream ->
  safe (abstract_array_declarator token_to_string token_stream fuel self begin)
    (in_range token_stream begin).
Proof. intros begin Hbegin. unfold abstract_array_declarator. range_go. Qed.

#[local] Hint Resolve ranged_abstract_array_declarator : range.

Lemma ranged_abstract_array_declarator_production : forall begin,
  begin <= tend token_stream ->
  safe (abstract_array_declarator_production token_to_string token_stream fuel self begin)
    (in_range token_stream begin).
Proof. intros begin Hbegin. unfold abstract_array_declarator_production. range_go. Qed.

#[local] Hint Resolve ranged_abstract_array_declarator_production : range.

Lemma ranged_direct_abstract_declarator_loop : forall n it s,
  it <= tend token_stream ->
  safe (direct_abstract_declarator_loop token_to_string token_stream fuel self n it s)
    (in_range token_stream it).
Proof.
  induction n as [|n IH]; intros it s Hit; cbn [direct_abstract_declarator_loop]; [apply safe_out_of_fuel|].
  range_go.
Qed.

#[local] Hint Resolve ranged_direct_abstract_declarator_loop : range.

Lemma ranged_parser_direct_abstract_declarator : forall begin,
  begin <= tend token_stream ->
  safe (parser_direct_abstract_declarator token_to_string token_stream fuel self begin)
    (in_range token_stream begin).
Proof. intros begin Hbegin. unfold parser_direct_abstract_declarator. range_go. Qed.

#[local] Hint Resolve ranged_parser_direct_abstract_declarator : range.

Lemma ranged_parser_abstract_declarator : forall begin,
  begin <= tend token_stream ->
  safe (parser_abstract_declarator token_to_string token_stream fuel self begin)
    (in_range token_stream begin).
Proof. intros begin Hbegin. unfold parser_abstract_declarator. range_go. Qed.

#[local] Hint Resolve ranged_parser_abstract_declarator : range.

Lemma ranged_specifier_or_qualifier : forall begin,
  begin <= tend token_stream ->
  safe (specifier_or_qualifier token_to_string token_stream self begin)
    (in_range token_stream begin).
Proof. intros begin Hbegin. unfold specifier_or_qualifier. range_go. Qed.

#[local] Hint Resolve ranged_specifier_or_qualifier : range.

Lemma ranged_specifier_qualifier_loop : forall n it s,
  it <= tend token_stream ->
  safe (specifier_qualifier_loop token_to_string token_stream self n it s)
    (in_range token_stream it).
Proof.
  induction n as [|n IH]; intros it s Hit; cbn [specifier_qualifier_loop]; [apply safe_out_of_fuel|].
  range_go.
Qed.

#[local] Hint Resolve ranged_specifier_qualifier_loop : range.

Lemma ranged_parser_specifier_qualifier_list : forall begin,
  begin <= tend token_stream ->
  safe (parser_specifier_qualifier_list token_to_string token_stream fuel self begin)
    (in_range token_stream begin).
Proof. intros begin Hbegin. unfold parser_specifier_qualifier_list. range_go. Qed.

#[local] Hint Resolve ranged_parser_specifier_qualifier_list : range.

Lemma ranged_parser_type_name : forall begin,
  begin <= tend token_stream ->
  safe (parser_type_name token_to_string token_stream fuel self begin)
    (in_range token_stream begin).
Proof. intros begin Hbegin. unfold parser_type_name. range_go. Qed.

#[local] Hint Resolve ranged_parser_type_name : range.

Lemma ranged_parser_constant_expression : forall begin,
  begin <= tend token_stream ->
  safe (parser_constant_expression self begin)
    (in_range token_stream begin).
Proof. intros begin Hbegin. unfold parser_constant_expression. range_go. Qed.

#[local] Hint Resolve ranged_parser_constant_expression : range.

Lemma ranged_static_assert_args_production : forall begin,
  begin <= tend token_stream ->
  safe (static_assert_args_production token_to_string token_stream fuel self begin)
    (in_range token_stream begin).
Proof. intros begin Hbegin. unfold static_assert_args_production. range_go. Qed.

#[local] Hint Resolve ranged_static_assert_args_production : range.

Lemma ranged_parser_static_assert_declaration : forall begin,
  begin <= tend token_stream ->
  safe (parser_static_assert_declaration token_to_string token_stream fuel self begin)
    (in_range token_stream begin).
Proof. intros begin Hbegin. unfold parser_static_assert_declaration. range_go. Qed.

#[local] Hint Resolve ranged_parser_static_assert_declaration : range.

Lemma ranged_array_declarator_production : forall begin,
  begin <= tend token_stream ->
  safe (array_declarator_production token_to_string token_stream fuel self begin)
    (in_range token_stream begin).
Proof. intros begin Hbegin. unfold array_declarator_production. range_go. Qed.

#[local] Hint Resolve ranged_array_declarator_production : range.

Lemma ranged_ident_or_decl_production : forall begin,
  begin <= tend token_stream ->
  safe (ident_or_decl_production token_to_string token_stream self begin)
    (in_range token_stream begin).
Proof. intros begin Hbegin. unfold ident_or_decl_production. range_go. Qed.

#[local] Hint Resolve ranged_ident_or_decl_production : range.

Lemma ranged_direct_declarator_loop : forall n it s,
  it <= tend token_stream ->
  safe (direct_declarator_loop token_to_string token_stream fuel self n it s)
    (in_range token_stream it).
Proof.
  induction n as [|n IH]; intros it s Hit; cbn [direct_declarator_loop]; [apply safe_out_of_fuel|].
  range_go.
Qed.

#[local] Hint Resolve ranged_direct_declarator_loop : range.

Lemma ranged_parser_direct_declarator : forall begin,
  begin <= tend token_stream ->
  safe (parser_direct_declarator token_to_string token_stream fuel self begin)
    (in_range token_stream begin).
Proof. intros begin Hbegin. unfold parser_direct_declarator. range_go. Qed.

#[local] Hint Resolve ranged_parser_direct_declarator : range.

Lemma ranged_parser_declarator : forall begin,
  begin <= tend token_stream ->
  safe (parser_declarator token_to_string token_stream fuel self begin)
    (in_range token_stream begin).
Proof. intros begin Hbegin. unfold parser_declarator. range_go. Qed.

#[local] Hint Resolve ranged_parser_declarator : range.

Lemma ranged_parser_init_declarator : forall begin,
  begin <= tend token_stream ->
  safe (parser_init_declarator token_to_string token_stream fuel self begin)
    (in_range token_stream begin).
Proof. intros begin Hbegin. unfold parser_init_declarator. range_go. Qed.

#[local] Hint Resolve ranged_parser_init_declarator : range.

Lemma ranged_parser_init_declarator_list : forall begin,
  begin <= tend token_stream ->
  safe (parser_init_declarator_list token_to_string token_stream fuel self begin)
    (in_range token_stream begin).
Proof. intros begin Hbegin. unfold parser_init_declarator_list. range_go. Qed.

#[local] Hint Resolve ranged_parser_init_declarator_list : range.

Lemma ranged_parser_storage_class_specifier : forall begin,
  begin <= tend token_stream ->
  safe (parser_storage_class_specifier token_stream begin)
    (in_range token_stream begin).
Proof. intros begin Hbegin. unfold parser_storage_class_specifier. range_go. Qed.

#[local] Hint Resolve ranged_parser_storage_class_specifier : range.

Lemma ranged_parser_function_specifier : forall begin,
  begin <= tend token_stream ->
  safe (parser_function_specifier token_to_string token_stream begin)
    (in_range token_stream begin).
Proof. intros begin Hbegin. unfold parser_function_specifier. range_go. Qed.

#[local] Hint Resolve ranged_parser_function_specifier : range.

Lemma ranged_alignas_arg_production : forall begin,
  begin <= tend token_stream ->
  safe (alignas_arg_production token_to_string token_stream fuel self begin)
    (in_range token_stream begin).
Proof. intros begin Hbegin. unfold alignas_arg_production. range_go. Qed.

#[local] Hint Resolve ranged_alignas_arg_production : range.

Lemma ranged_parser_alignment_specifier : forall begin,
  begin <= tend token_stream ->
  safe (parser_alignment_specifier token_to_string token_stream fuel self begin)
    (in_range token_stream begin).
Proof. intros begin Hbegin. unfold parser_alignment_specifier. range_go. Qed.

#[local] Hint Resolve ranged_parser_alignment_specifier : range.

Lemma ranged_parser_declaration_specifier : forall begin,
  begin <= tend token_stream ->
  safe (parser_declaration_specifier token_to_string token_stream fuel self begin)
    (in_range token_stream begin).
Proof. intros begin Hbegin. unfold parser_declaration_specifier. range_go. Qed.

#[local] Hint Resolve ranged_parser_declaration_specifier : range.

Lemma ranged_parser_declaration_specifiers : forall begin,
  begin <= tend token_stream ->
  safe (parser_declaration_specifiers token_to_string contains token_stream fuel self begin)
    (in_range token_stream begin).
Proof. intros begin Hbegin. unfold parser_declaration_specifiers. range_go. Qed.

#[local] Hint Resolve ranged_parser_declaration_specifiers : range.

Lemma ranged_parser_declaration : forall begin,
  begin <= tend token_stream ->
  safe (parser_declaration token_to_string contains token_stream fuel self begin)
    (in_range token_stream begin).
Proof. intros begin Hbegin. unfold parser_declaration. range_go. Qed.

#[local] Hint Resolve ranged_parser_declaration : range.

Lemma ranged_parser_enumeration_constant : forall begin,
  begin <= tend token_stream ->
  safe (parser_enumeration_constant token_stream begin)
    (in_range token_stream begin).
Proof. intros begin Hbegin. unfold parser_enumeration_constant. range_go. Qed.

#[local] Hint Resolve ranged_parser_enumeration_constant : range.

Lemma ranged_enumerator_production : forall begin,
  begin <= tend token_stream ->
  safe (enumerator_production token_to_string token_stream self begin)
    (in_range token_stream begin).
Proof. intros begin Hbegin. unfold enumerator_production. range_go. Qed.

#[local] Hint Resolve ranged_enumerator_production : range.

Lemma ranged_enum_list_production : forall begin,
  begin <= tend token_stream ->
  safe (enum_list_production token_to_string token_stream fuel self begin)
    (in_range token_stream begin).
Proof. intros begin Hbegin. unfold enum_list_production. range_go. Qed.

#[local] Hint Resolve ranged_enum_list_production : range.

Lemma ranged_parser_enum_specifier : forall begin,
  begin <= tend token_stream ->
  safe (parser_enum_specifier token_to_string token_stream fuel self begin)
    (in_range token_stream begin).
Proof. intros begin Hbegin. unfold parser_enum_specifier. range_go. Qed.

#[local] Hint Resolve ranged_parser_enum_specifier : range.

Lemma ranged_struct_declarator : forall msg begin,
  begin <= tend token_stream ->
  safe (struct_declarator token_to_string token_stream fuel self msg begin)
    (in_range token_stream begin).
Proof. intros msg begin Hbegin. unfold struct_declarator. range_go. Qed.

#[local] Hint Resolve ranged_struct_declarator : range.

Lemma ranged_struct_declaration : forall msg begin,
  begin <= tend token_stream ->
  safe (struct_declaration token_to_string token_stream fuel self msg begin)
    (in_range token_stream begin).
Proof. intros msg begin Hbegin. unfold struct_declaration. range_go. Qed.

#[local] Hint Resolve ranged_struct_declaration : range.

Lemma ranged_struct_decl_list_production : forall msg begin,
  begin <= tend token_stream ->
  safe (struct_decl_list_production token_to_string token_stream fuel self msg begin)
    (in_range token_stream begin).
Proof. intros msg begin Hbegin. unfold struct_decl_list_production. range_go. Qed.

#[local] Hint Resolve ranged_struct_decl_list_production : range.

Lemma ranged_parser_struct_or_union_specifier : forall begin,
  begin <= tend token_stream ->
  safe (parser_struct_or_union_specifier token_to_string token_stream fuel self begin)
    (in_range token_stream begin).
Proof. intros begin Hbegin. unfold parser_struct_or_union_specifier. range_go. Qed.

#[local] Hint Resolve ranged_parser_struct_or_union_specifier : range.

Lemma ranged_parser_initializer : forall begin,
  begin <= tend token_stream ->
  safe (parser_initializer token_to_string token_stream self begin)
    (in_range token_stream begin).
Proof. intros begin Hbegin. unfold parser_initializer. range_go. Qed.

#[local] Hint Resolve ranged_parser_initializer : range.

Lemma ranged_designator_production : forall begin,
  begin <= tend token_stream ->
  safe (designator_production token_to_string token_stream self begin)
    (in_range token_stream begin).
Proof. intros begin Hbegin. unfold designator_production. range_go. Qed.

#[local] Hint Resolve ranged_designator_production : range.

Lemma ranged_designation_loop : forall n it s,
  it <= tend token_stream ->
  safe (designation_loop token_to_string token_stream self n it s)
    (in_range token_stream it).
Proof.
  induction n as [|n IH]; intros it s Hit; cbn [designation_loop]; [apply safe_out_of_fuel|].
  range_go.
Qed.

#[local] Hint Resolve ranged_designation_loop : range.

Lemma ranged_designation_production : forall begin,
  begin <= tend token_stream ->
  safe (designation_production token_to_string token_stream fuel self begin)
    (in_range token_stream begin).
Proof. intros begin Hbegin. unfold designation_production. range_go. Qed.

#[local] Hint Resolve ranged_designation_production : range.

Lemma ranged_init_list_production : forall begin,
  begin <= tend token_stream ->
  safe (init_list_production token_to_string token_stream fuel self begin)
    (in_range token_stream begin).
Proof. intros begin Hbegin. unfold init_list_production. range_go. Qed.

#[local] Hint Resolve ranged_init_list_production : range.

Lemma ranged_parser_initializer_list : forall begin,
  begin <= tend token_stream ->
  safe (parser_initializer_list token_to_string token_stream fuel self begin)
    (in_range token_stream begin).
Proof. intros begin Hbegin. unfold parser_initializer_list. range_go. Qed.

#[local] Hint Resolve ranged_parser_initializer_list : range.

Lemma ranged_compound_literal_production : forall begin,
  begin <= tend token_stream ->
  safe (compound_literal_production token_to_string token_stream fuel self begin)
    (in_range token_stream begin).
Proof. intros begin Hbegin. unfold compound_literal_production. range_go. Qed.

#[local] Hint Resolve ranged_compound_literal_production : range.

Lemma ranged_postfix_production : forall begin,
  begin <= tend token_stream ->
  safe (postfix_production token_to_string token_stream fuel self begin)
    (in_range token_stream begin).
Proof. intros begin Hbegin. unfold postfix_production. range_go. Qed.

#[local] Hint Resolve ranged_postfix_production : range.

Lemma ranged_postfix_loop : forall n it s,
  it <= tend token_stream ->
  safe (postfix_loop token_to_string token_stream fuel self n it s)
    (in_range token_stream it).
Proof.
  induction n as [|n IH]; intros it s Hit; cbn [postfix_loop]; [apply safe_out_of_fuel|].
  range_go.
Qed.

#[local] Hint Resolve ranged_postfix_loop : range.

Lemma ranged_parser_postfix_expression : forall begin,
  begin <= tend token_stream ->
  safe (parser_postfix_expression token_to_string token_stream fuel self begin)
    (in_range token_stream begin).
Proof. intros begin Hbegin. unfold parser_postfix_expression. range_go. Qed.

#[local] Hint Resolve ranged_parser_postfix_expression : range.

Lemma ranged_incremental_unary_production : forall begin,
  begin <= tend token_stream ->
  safe (incremental_unary_production token_to_string token_stream self begin)
    (in_range token_stream begin).
Proof. intros begin Hbegin. unfold incremental_unary_production. range_go. Qed.

#[local] Hint Resolve ranged_incremental_unary_production : range.

Lemma ranged_unary_cast_production : forall begin,
  begin <= tend token_stream ->
  safe (unary_cast_production token_stream self begin)
    (in_range token_stream begin).
Proof. intros begin Hbegin. unfold unary_cast_production. range_go. Qed.

#[local] Hint Resolve ranged_unary_cast_production : range.

Lemma ranged_parens_type_name : forall begin,
  begin <= tend token_stream ->
  safe (parens_type_name token_to_string token_stream fuel self begin)
    (in_range token_stream begin).
Proof. intros begin Hbegin. unfold parens_type_name. range_go. Qed.

#[local] Hint Resolve ranged_parens_type_name : range.

Lemma ranged_size_of_production : forall begin,
  begin <= tend token_stream ->
  safe (size_of_production token_to_string token_stream fuel self begin)
    (in_range token_stream begin).
Proof. intros begin Hbegin. unfold size_of_production. range_go. Qed.

#[local] Hint Resolve ranged_size_of_production : range.

Lemma ranged_parser_unary_expression : forall begin,
  begin <= tend token_stream ->
  safe (parser_unary_expression token_to_string token_stream fuel self begin)
    (in_range token_stream begin).
Proof. intros begin Hbegin. unfold parser_unary_expression. range_go. Qed.

#[local] Hint Resolve ranged_parser_unary_expression : range.

Lemma ranged_cast_production : forall begin,
  begin <= tend token_stream ->
  safe (cast_production token_to_string token_stream fuel self begin)
    (in_range token_stream begin).
Proof. intros begin Hbegin. unfold cast_production. range_go. Qed.

#[local] Hint Resolve ranged_cast_production : range.

Lemma ranged_parser_cast_expression : forall begin,
  begin <= tend token_stream ->
  safe (parser_cast_expression token_to_string token_stream fuel self begin)
    (in_range token_stream begin).
Proof. intros begin Hbegin. unfold parser_cast_expression. range_go. Qed.

#[local] Hint Resolve ranged_parser_cast_expression : range.

Lemma ranged_multiplicative_operator : forall begin,
  begin <= tend token_stream ->
  safe (multiplicative_operator token_stream begin)
    (in_range token_stream begin).
Proof. intros begin Hbegin. unfold multiplicative_operator. range_go. Qed.

#[local] Hint Resolve ranged_multiplicative_operator : range.

Lemma ranged_parser_multiplicative_expression : forall begin,
  begin <= tend token_stream ->
  safe (parser_multiplicative_expression token_to_string token_stream fuel self begin)
    (in_range token_stream begin).
Proof. intros begin Hbegin. unfold parser_multiplicative_expression. range_go. Qed.

#[local] Hint Resolve ranged_parser_multiplicative_expression : range.

Lemma ranged_additive_operator : forall begin,
  begin <= tend token_stream ->
  safe (additive_operator token_stream begin)
    (in_range token_stream begin).
Proof. intros begin Hbegin. unfold additive_operator. range_go. Qed.

#[local] Hint Resolve ranged_additive_operator : range.

Lemma ranged_parser_additive_expression : forall begin,
  begin <= tend token_stream ->
  safe (parser_additive_expression token_to_string token_stream fuel self begin)
    (in_range token_stream begin).
Proof. intros begin Hbegin. unfold parser_additive_expression. range_go. Qed.

#[local] Hint Resolve ranged_parser_additive_expression : range.

Lemma ranged_shift_operator : forall begin,
  begin <= tend token_stream ->
  safe (shift_operator token_stream begin)
    (in_range token_stream begin).
Proof. intros begin Hbegin. unfold shift_operator. range_go. Qed.

#[local] Hint Resolve ranged_shift_operator : range.

Lemma ranged_parser_shift_expression : forall begin,
  begin <= tend token_stream ->
  safe (parser_shift_expression token_to_string token_stream fuel self begin)
    (in_range token_stream begin).
Proof. intros begin Hbegin. unfold parser_shift_expression. range_go. Qed.

#[local] Hint Resolve ranged_parser_shift_expression : range.

Lemma ranged_relational_operator : forall begin,
  begin <= tend token_stream ->
  safe (relational_operator token_stream begin)
    (in_range token_stream begin).
Proof. intros begin Hbegin. unfold relational_operator. range_go. Qed.

#[local] Hint Resolve ranged_relational_operator : range.

Lemma ranged_parser_relational_expression : forall begin,
  begin <= tend token_stream ->
  safe (parser_relational_expression token_to_string token_stream fuel self begin)
    (in_range token_stream begin).
Proof. intros begin Hbegin. unfold parser_relational_expression. range_go. Qed.

#[local] Hint Resolve ranged_parser_relational_expression : range.

Lemma ranged_equality_operator : forall begin,
  begin <= tend token_stream ->
  safe (equality_operator token_stream begin)
    (in_range token_stream begin).
Proof. intros begin Hbegin. unfold equality_operator. range_go. Qed.

#[local] Hint Resolve ranged_equality_operator : range.

Lemma ranged_parser_equality_expression : forall begin,
  begin <= tend token_stream ->
  safe (parser_equality_expression token_to_string token_stream fuel self begin)
    (in_range token_stream begin).
Proof. intros begin Hbegin. unfold parser_equality_expression. range_go. Qed.

#[local] Hint Resolve ranged_parser_equality_expression : range.

Lemma ranged_and_operator : forall begin,
  begin <= tend token_stream ->
  safe (and_operator token_stream begin)
    (in_range token_stream begin).
Proof. intros begin Hbegin. unfold and_operator. range_go. Qed.

#[local] Hint Resolve ranged_and_operator : range.

Lemma ranged_parser_and_expression : forall begin,
  begin <= tend token_stream ->
  safe (parser_and_expression token_to_string token_stream fuel self begin)
    (in_range token_stream begin).
Proof. intros begin Hbegin. unfold parser_and_expression. range_go. Qed.

#[local] Hint Resolve ranged_parser_and_expression : range.

Lemma ranged_exclusive_or_operator : forall begin,
  begin <= tend token_stream ->
  safe (exclusive_or_operator token_stream begin)
    (in_range token_stream begin).
Proof. intros begin Hbegin. unfold exclusive_or_operator. range_go. Qed.

#[local] Hint Resolve ranged_exclusive_or_operator : range.

Lemma ranged_parser_exclusive_or_expression : forall begin,
  begin <= tend token_stream ->
  safe (parser_exclusive_or_expression token_to_string token_stream fuel self begin)
    (in_range token_stream begin).
Proof. intros begin Hbegin. unfold parser_exclusive_or_expression. range_go. Qed.

#[local] Hint Resolve ranged_parser_exclusive_or_expression : range.

Lemma ranged_inclusive_or_operator : forall begin,
  begin <= tend token_stream ->
  safe (inclusive_or_operator token_stream begin)
    (in_range token_stream begin).
Proof. intros begin Hbegin. unfold inclusive_or_operator. range_go. Qed.

#[local] Hint Resolve ranged_inclusive_or_operator : range.

Lemma ranged_parser_inclusive_or_expression : forall begin,
  begin <= tend token_stream ->
  safe (parser_inclusive_or_expression token_to_string token_stream fuel self begin)
    (in_range token_stream begin).
Proof. intros begin Hbegin. unfold parser_inclusive_or_expression. range_go. Qed.

#[local] Hint Resolve ranged_parser_inclusive_or_expression : range.

Lemma ranged_logical_and_operator : forall begin,
  begin <= tend token_stream ->
  safe (logical_and_operator token_stream begin)
    (in_range token_stream begin).
Proof. intros begin Hbegin. unfold logical_and_operator. range_go. Qed.

#[local] Hint Resolve ranged_logical_and_operator : range.

Lemma ranged_parser_logical_and_expression : forall begin,
  begin <= tend token_stream ->
  safe (parser_logical_and_expression token_to_string token_stream fuel self begin)
    (in_range token_stream begin).
Proof. intros begin Hbegin. unfold parser_logical_and_expression. range_go. Qed.

#[local] Hint Resolve ranged_parser_logical_and_expression : range.

Lemma ranged_logical_or_operator : forall begin,
  begin <= tend token_stream ->
  safe (logical_or_operator token_stream begin)
    (in_range token_stream begin).
Proof. intros begin Hbegin. unfold logical_or_operator. range_go. Qed.

#[local] Hint Resolve ranged_logical_or_operator : range.

Lemma ranged_parser_logical_or_expression : forall begin,
  begin <= tend token_stream ->
  safe (parser_logical_or_expression token_to_string token_stream fuel self begin)
    (in_range token_stream begin).
Proof. intros begin Hbegin. unfold parser_logical_or_expression. range_go. Qed.

#[local] Hint Resolve ranged_parser_logical_or_expression : range.

Lemma ranged_parser_conditional_expression : forall begin,
  begin <= tend token_stream ->
  safe (parser_conditional_expression token_to_string token_stream fuel self begin)
    (in_range token_stream begin).
Proof. intros begin Hbegin. unfold parser_conditional_expression. range_go. Qed.

#[local] Hint Resolve ranged_parser_conditional_expression : range.

Lemma ranged_assign_operator : forall begin,
  begin <= tend token_stream ->
  safe (assign_operator token_stream begin)
    (in_range token_stream begin).
Proof. intros begin Hbegin. unfold assign_operator. range_go. Qed.

#[local] Hint Resolve ranged_assign_operator : range.

Lemma ranged_parser_assignment_expression : forall begin,
  begin <= tend token_stream ->
  safe (parser_assignment_expression token_to_string token_stream fuel self begin)
    (in_range token_stream begin).
Proof. intros begin Hbegin. unfold parser_assignment_expression. range_go. Qed.

#[local] Hint Resolve ranged_parser_assignment_expression : range.

Lemma ranged_comma_operator : forall begin,
  begin <= tend token_stream ->
  safe (comma_operator token_stream begin)
    (in_range token_stream begin).
Proof. intros begin Hbegin. unfold comma_operator. range_go. Qed.

#[local] Hint Resolve ranged_comma_operator : range.

Lemma ranged_parser_expression : forall begin,
  begin <= tend token_stream ->
  safe (parser_expression token_to_string token_stream fuel self begin)
    (in_range token_stream begin).
Proof. intros begin Hbegin. unfold parser_expression. range_go. Qed.

#[local] Hint Resolve ranged_parser_expression : range.

Lemma ranged_parser_parens_expr : forall begin,
  begin <= tend token_stream ->
  safe (parser_parens_expr token_to_string token_stream fuel self begin)
    (in_range token_stream begin).
Proof. intros begin Hbegin. unfold parser_parens_expr. range_go. Qed.

#[local] Hint Resolve ranged_parser_parens_expr : range.

Lemma ranged_parser_primary_expression : forall begin,
  begin <= tend token_stream ->
  safe (parser_primary_expression token_to_string token_stream fuel self begin)
    (in_range token_stream begin).
Proof. intros begin Hbegin. unfold parser_primary_expression. range_go. Qed.

#[local] Hint Resolve ranged_parser_primary_expression : range.

Lemma ranged_parser_statement : forall begin,
  begin <= tend token_stream ->
  safe (parser_statement token_stream self begin)
    (in_range token_stream begin).
Proof. intros begin Hbegin. unfold parser_statement. range_go. Qed.

#[local] Hint Resolve ranged_parser_statement : range.

Lemma ranged_parser_jump_statement : forall begin,
  begin <= tend token_stream ->
  safe (parser_jump_statement token_to_string token_stream fuel self begin)
    (in_range token_stream begin).
Proof. intros begin Hbegin. unfold parser_jump_statement. range_go. Qed.

#[local] Hint Resolve ranged_parser_jump_statement : range.

Lemma ranged_parens_expression : forall begin,
  begin <= tend token_stream ->
  safe (parens_expression token_to_string token_stream fuel self begin)
    (in_range token_stream begin).
Proof. intros begin Hbegin. unfold parens_expression. range_go. Qed.

#[local] Hint Resolve ranged_parens_expression : range.

Lemma ranged_while_statement : forall begin,
  begin <= tend token_stream ->
  safe (while_statement token_to_string token_stream fuel self begin)
    (in_range token_stream begin).
Proof. intros begin Hbegin. unfold while_statement. range_go. Qed.

#[local] Hint Resolve ranged_while_statement : range.

Lemma ranged_do_while_statement : forall begin,
  begin <= tend token_stream ->
  safe (do_while_statement token_to_string token_stream fuel self begin)
    (in_range token_stream begin).
Proof. intros begin Hbegin. unfold do_while_statement. range_go. Qed.

#[local] Hint Resolve ranged_do_while_statement : range.

Lemma ranged_for_clause_expression : forall it s,
  it <= tend token_stream ->
  safe (for_clause_expression token_to_string token_stream fuel self it s)
    (in_range token_stream it).
Proof. intros it s Hit. unfold for_clause_expression. range_go. Qed.

#[local] Hint Resolve ranged_for_clause_expression : range.

Lemma ranged_for_exprs_production : forall begin,
  begin <= tend token_stream ->
  safe (for_exprs_production token_to_string contains token_stream fuel self begin)
    (in_range token_stream begin).
Proof. intros begin Hbegin. unfold for_exprs_production. range_go. Qed.

#[local] Hint Resolve ranged_for_exprs_production : range.

Lemma ranged_for_statement : forall begin,
  begin <= tend token_stream ->
  safe (for_statement token_to_string contains token_stream fuel self begin)
    (in_range token_stream begin).
Proof. intros begin Hbegin. unfold for_statement. range_go. Qed.

#[local] Hint Resolve ranged_for_statement : range.

Lemma ranged_parser_iteration_statement : forall begin,
  begin <= tend token_stream ->
  safe (parser_iteration_statement token_to_string contains token_stream fuel self begin)
    (in_range token_stream begin).
Proof. intros begin Hbegin. unfold parser_iteration_statement. range_go. Qed.

#[local] Hint Resolve ranged_parser_iteration_statement : range.

Lemma ranged_if_statement : forall begin,
  begin <= tend token_stream ->
  safe (if_statement token_to_string token_stream fuel self begin)
    (in_range token_stream begin).
Proof. intros begin Hbegin. unfold if_statement. range_go. Qed.

#[local] Hint Resolve ranged_if_statement : range.

Lemma ranged_switch_statement : forall begin,
  begin <= tend token_stream ->
  safe (switch_statement token_to_string token_stream fuel self begin)
    (in_range token_stream begin).
Proof. intros begin Hbegin. unfold switch_statement. range_go. Qed.

#[local] Hint Resolve ranged_switch_statement : range.

Lemma ranged_parser_selection_statement : forall begin,
  begin <= tend token_stream ->
  safe (parser_selection_statement token_to_string token_stream fuel self begin)
    (in_range token_stream begin).
Proof. intros begin Hbegin. unfold parser_selection_statement. range_go. Qed.

#[local] Hint Resolve ranged_parser_selection_statement : range.

Lemma ranged_parser_expression_statement : forall begin,
  begin <= tend token_stream ->
  safe (parser_expression_statement token_to_string token_stream fuel self begin)
    (in_range token_stream begin).
Proof. intros begin Hbegin. unfold parser_expression_statement. range_go. Qed.

#[local] Hint Resolve ranged_parser_expression_statement : range.

Lemma ranged_decl_or_stmt : forall begin,
  begin <= tend token_stream ->
  safe (decl_or_stmt token_to_string contains token_stream fuel self begin)
    (in_range token_stream begin).
Proof. intros begin Hbegin. unfold decl_or_stmt. range_go. Qed.

#[local] Hint Resolve ranged_decl_or_stmt : range.

Lemma ranged_block_item_list_production : forall begin,
  begin <= tend token_stream ->
  safe (block_item_list_production token_to_string contains token_stream fuel self begin)
    (in_range token_stream begin).
Proof. intros begin Hbegin. unfold block_item_list_production. range_go. Qed.

#[local] Hint Resolve ranged_block_item_list_production : range.

Lemma ranged_parser_compound_statement : forall begin,
  begin <= tend token_stream ->
  safe (parser_compound_statement token_to_string contains token_stream fuel self begin)
    (in_range token_stream begin).
Proof. intros begin Hbegin. unfold parser_compound_statement. range_go. Qed.

#[local] Hint Resolve ranged_parser_compound_statement : range.

Lemma ranged_parser_labeled_statement : forall begin,
  begin <= tend token_stream ->
  safe (parser_labeled_statement token_to_string token_stream self begin)
    (in_range token_stream begin).
Proof. intros begin Hbegin. unfold parser_labeled_statement. range_go. Qed.

#[local] Hint Resolve ranged_parser_labeled_statement : range.

Lemma ranged_declaration_list : forall begin,
  begin <= tend token_stream ->
  safe (declaration_list token_to_string contains token_stream fuel self begin)
    (in_range token_stream begin).
Proof. intros begin Hbegin. unfold declaration_list. range_go. Qed.

#[local] Hint Resolve ranged_declaration_list : range.

Lemma ranged_parser_function_definition : forall begin,
  begin <= tend token_stream ->
  safe (parser_function_definition token_to_string contains token_stream fuel self begin)
    (in_range token_stream begin).
Proof. intros begin Hbegin. unfold parser_function_definition. range_go. Qed.

#[local] Hint Resolve ranged_parser_function_definition : range.

Lemma ranged_compilation_unit_loop : forall n it s,
  it <= tend token_stream ->
  safe (compilation_unit_loop token_to_string contains token_stream fuel self n it s)
    (in_range token_stream it).
Proof.
  induction n as [|n IH]; intros it s Hit; cbn [compilation_unit_loop]; [apply safe_out_of_fuel|].
  range_go.
Qed.

#[local] Hint Resolve ranged_compilation_unit_loop : range.

Lemma ranged_parser_compilation_unit : forall begin,
  begin <= tend token_stream ->
  safe (parser_compilation_unit token_to_string contains token_stream fuel self begin)
    (in_range token_stream begin).
Proof. intros begin Hbegin. unfold parser_compilation_unit. range_go. Qed.

#[local] Hint Resolve ranged_parser_compilation_unit : range.

Lemma ranged_dispatch : forall r it,
  it <= tend token_stream ->
  safe (dispatch token_to_string contains token_stream fuel self r it)
    (in_range token_stream it).
Proof. intros r it Hit. destruct r; cbn [dispatch]; auto with range nocore. Qed.

End RangedRules.

(** ** The iterator of every rule *)

Section RangedRun.

Variable token_to_string : TokenType.t -> string.
Variable contains : SourceRange -> SourceLocation -> bool.
Variable token_stream : TokenStream.

Lemma ranged_run : forall n r it,
  it <= tend token_stream ->
  safe (run token_to_string contains token_stream n r it) (in_range token_stream it).
Proof.
  induction n as [|n IH]; intros r it Hit; cbn [run].
  - apply safe_out_of_fuel.
  - apply ranged_dispatch; [exact IH|exact Hit].
Qed.

(** X15. No rule moves backwards and no rule leaves the tokens: started at
    an iterator that is not behind [tokens.end()], every rule returns an
    iterator between the one it was given and [tokens.end()].  The same holds
    for the compilation unit, whose rules keep the [Ensures(r_it <= end)] of
    [parser_list_of]. *)
Theorem rules_stay_in_range : forall n,
  (forall r begin c result c',
     begin <= tend token_stream ->
     run token_to_string contains token_stream n r begin c = Ok (result, c') ->
     begin <= fst result /\ fst result <= tend token_stream) /\
  (forall begin c result c',
     begin <= tend token_stream ->
     parser_compilation_unit token_to_string contains token_stream n
       (run token_to_string contains token_stream n) begin c = Ok (result, c') ->
     begin <= fst result /\ fst result <= tend token_stream).
Proof.
  intro n. split.
  - intros r begin c result c' Hbegin H. exact (ranged_run n r Hbegin _ H).
  - intros begin c result c' Hbegin H.
    exact (@ranged_parser_compilation_unit token_to_string contains token_stream n
             (run token_to_string contains token_stream n) (ranged_run n)
             begin Hbegin c result c' H).
Qed.

End RangedRun.

Lemma rules_stay_in_range_witness :
  4 <= fst (7, Success (Some (new_leaf NodeType.CompoundStatement
                                {| type := TokenType.LeftBrace;
                                   data := {| range_begin := 11; range_end := 12 |} |})))
  /\
  fst (7, Success (Some (new_leaf NodeType.CompoundStatement
                           {| type := TokenType.LeftBrace;
                              data := {| range_begin := 11; range_end := 12 |} |})))
  <= tend Inputs.empty_body.
Proof.
  refine (proj1 (rules_stay_in_range Examples.token_spelling Examples.range_contains
                   Inputs.empty_body 40)
            CompoundStatement 4 Examples.fresh_context _ _ _ _).
  - vm_compute. lia.
  - vm_compute. reflexivity.
Defined.

(** * No null tree, no empty failure *)

Lemma whole_not_empty : forall s, whole s -> not_empty s.
Proof. intros [[|e es]|[t|]] H; try exact I; destruct H. Qed.

Lemma whole_add_node : forall s n, not_empty s -> whole (add_node s n).
Proof.
  intros [[|e es]|[t|]] n H; cbn [add_node]; try exact I; [destruct H|].
  destruct (_ || _); exact I.
Qed.

Lemma whole_add_error : forall s e, whole (add_error s e).
Proof. intros [[|e0 es]|t] e; exact I. Qed.

Lemma whole_add_errors : forall es s, whole s -> whole (add_errors s es).
Proof.
  induction es as [|e es IH]; intros s H; [exact H|].
  rewrite add_errors_cons. apply IH. apply whole_add_error.
Qed.

Lemma not_empty_add_errors : forall es s, not_empty s -> not_empty (add_errors s es).
Proof.
  intros [|e es] s H; [exact H|]. rewrite add_errors_cons.
  apply whole_not_empty, whole_add_errors, whole_add_error.
Qed.

Lemma whole_add_error_state : forall s o, whole s -> whole (add_error_state s o).
Proof. intros s [es|t] H; cbn [add_error_state]; [apply whole_add_errors|]; exact H. Qed.

Lemma not_empty_add_error_state : forall s o,
  not_empty s -> not_empty (add_error_state s o).
Proof.
  intros s [es|t] H; cbn [add_error_state]; [apply not_empty_add_errors|]; exact H.
Qed.

Lemma whole_add_error_state_make : forall s st it msg,
  whole (add_error_state s (make_error st it msg)).
Proof. intros s st it msg. apply whole_add_error. Qed.

Lemma whole_giveup_to_expected : forall s, whole s -> whole (giveup_to_expected s).
Proof.
  intros [[|e es]|t] H; [destruct H| |exact H].
  rewrite giveup_to_expected_cons. exact I.
Qed.

Lemma not_empty_giveup_to_expected : forall s,
  not_empty s -> not_empty (giveup_to_expected s).
Proof.
  intros [[|e es]|t] H; [destruct H| |exact I].
  rewrite giveup_to_expected_cons. exact I.
Qed.

Lemma whole_failure : forall s, is_success s = false -> not_empty s -> whole s.
Proof. intros [[|e es]|t] Hf Hs; [destruct Hs|exact I|discriminate Hf]. Qed.

Create HintDb whole.

#[export] Hint Resolve whole_failure | 5 : whole.

#[export] Hint Resolve whole_add_node whole_add_error whole_add_error_state
  whole_add_error_state_make whole_giveup_to_expected
  not_empty_add_error_state not_empty_giveup_to_expected : whole.
#[export] Hint Resolve whole_not_empty : whole.
#[export] Hint Extern 0 (whole (Success (Some _))) => exact I : whole.
#[export] Hint Extern 0 (whole (make_error _ _ _)) => exact I : whole.
#[export] Hint Extern 0 (not_empty (Success _)) => exact I : whole.
#[export] Hint Extern 0 (not_empty (make_error _ _ _)) => exact I : whole.

Ltac whole_clean :=
  repeat match goal with
         | H : whole_result _ |- _ => unfold whole_result in H; cbn [snd] in H
         | H : any _ |- _ => clear H
         end.

Ltac whole_solve :=
  whole_clean; unfold whole_result; cbn [snd];
  repeat match goal with
         | |- context [if ?b then _ else _] => destruct b eqn:?
         end;
  auto 8 with whole nocore.

Lemma safe_whole_add_state : forall s o,
  not_empty s -> not_empty o -> safe (add_state s o) whole.
Proof.
  intros s [[|e es]|[t|]] Hs Ho; cbn [add_state].
  - destruct Ho.
  - apply safe_ret. cbn [add_error_state]. rewrite add_errors_cons.
    apply whole_add_errors, whole_add_error.
  - apply safe_ret. apply whole_add_node. exact Hs.
  - apply safe_stuck.
Qed.

Section WholePrimitives.

Variable token_to_string : TokenType.t -> string.
Variable token_stream : TokenStream.

Lemma safe_whole_giveup_at : forall begin what,
  safe (giveup_at token_stream begin what) whole_result.
Proof. intros begin what. apply safe_ret. exact I. Qed.

Lemma safe_whole_giveup_to_expected_loop : forall what es s0,
  (es = [] -> whole s0) ->
  safe (giveup_to_expected_loop token_to_string token_stream what es s0) whole.
Proof.
  intros what es. induction es as [|e es IH]; intros s0 H0.
  - apply safe_ret. apply H0. reflexivity.
  - cbn [giveup_to_expected_loop].
    destruct (is_GiveUp (status e)).
    + destruct (String.eqb (error e) "").
      * apply IH. intros _. apply whole_add_error.
      * eapply safe_bind; [apply safe_any|]. intros tok _.
        apply IH. intros _. apply whole_add_error.
    + apply IH. intros _. apply whole_add_error.
Qed.

Lemma safe_whole_giveup_to_expected_what : forall s what,
  whole s ->
  safe (giveup_to_expected_what token_to_string token_stream s what) whole.
Proof.
  intros [[|e es]|t] what Hs; cbn [giveup_to_expected_what].
  - destruct Hs.
  - apply safe_whole_giveup_to_expected_loop. discriminate.
  - apply safe_ret. exact Hs.
Qed.

Lemma safe_not_empty_giveup_to_expected_what : forall s what,
  not_empty s ->
  safe (giveup_to_expected_what token_to_string token_stream s what) not_empty.
Proof.
  intros [[|e es]|t] what Hs; cbn [giveup_to_expected_what].
  - destruct Hs.
  - eapply safe_weaken; [apply safe_whole_giveup_to_expected_loop; discriminate|].
    apply whole_not_empty.
  - apply safe_ret. exact I.
Qed.

Lemma safe_whole_expect_token : forall s it k,
  whole s ->
  safe (expect_token token_to_string token_stream s it k) (fun r => whole (snd r)).
Proof.
  intros s it k Hs. unfold expect_token.
  destruct (negb _); [|apply safe_ret; exact Hs].
  eapply safe_bind; [apply safe_any|]. intros tok _.
  destruct (negb _); apply safe_ret; cbn [snd]; [apply whole_add_error|exact Hs].
Qed.

Lemma safe_not_empty_expect_token : forall s it k,
  not_empty s ->
  safe (expect_token token_to_string token_stream s it k) (fun r => not_empty (snd r)).
Proof.
  intros s it k Hs. unfold expect_token.
  destruct (negb _); [|apply safe_ret; exact Hs].
  eapply safe_bind; [apply safe_any|]. intros tok _.
  destruct (negb _); apply safe_ret; cbn [snd];
    [apply whole_not_empty, whole_add_error|exact Hs].
Qed.

Lemma safe_whole_expect_end_token : forall s begin it k,
  whole s ->
  safe (expect_end_token token_to_string token_stream s begin it k)
    (fun r => whole (snd r)).
Proof.
  intros s begin it k Hs. unfold expect_end_token.
  destruct (negb _); [|apply safe_ret; apply whole_add_error].
  eapply safe_bind; [apply safe_any|]. intros tok _.
  destruct (negb _); [|apply safe_ret; exact Hs].
  eapply safe_bind; [apply safe_any|]. intros open _.
  apply safe_ret. apply whole_add_error.
Qed.

Lemma safe_not_empty_expect_end_token : forall s begin it k,
  not_empty s ->
  safe (expect_end_token token_to_string token_stream s begin it k)
    (fun r => not_empty (snd r)).
Proof.
  intros s begin it k Hs. unfold expect_end_token.
  destruct (negb _); [|apply safe_ret; apply whole_not_empty, whole_add_error].
  eapply safe_bind; [apply safe_any|]. intros tok _.
  destruct (negb _); [|apply safe_ret; exact Hs].
  eapply safe_bind; [apply safe_any|]. intros open _.
  apply safe_ret. apply whole_not_empty, whole_add_error.
Qed.

End WholePrimitives.

Create HintDb wholego.

#[export] Hint Extern 1 (whole _) => solve [whole_solve] : wholego.
#[export] Hint Extern 1 (not_empty _) => solve [whole_solve] : wholego.
#[export] Hint Resolve safe_whole_add_state | 1 : wholego.
#[export] Hint Resolve safe_whole_giveup_to_expected_what | 1 : wholego.
#[export] Hint Resolve safe_not_empty_giveup_to_expected_what | 3 : wholego.
#[export] Hint Resolve safe_whole_expect_token safe_whole_expect_end_token | 1 : wholego.
#[export] Hint Resolve safe_not_empty_expect_token safe_not_empty_expect_end_token | 3
  : wholego.

Ltac whole_go :=
  cbv beta iota zeta;
  lazymatch goal with
  | |- safe _ any => apply safe_any
  | |- safe (ret _) _ => apply safe_ret; solve [whole_solve]
  | |- safe (stuck _) _ => apply safe_stuck
  | |- safe out_of_fuel _ => apply safe_out_of_fuel
  | |- safe (giveup_at _ _ _) _ => apply safe_whole_giveup_at
  | |- safe (bind (bind ?m ?k1) ?k2) ?Q =>
      apply (@safe_bind_assoc _ _ _ m k1 k2 Q); whole_go
  | |- safe (bind (ret ?a) ?k) ?Q => apply (@safe_bind_ret _ _ a k Q); whole_go
  | |- safe (bind (if ?b then _ else _) _) _ => destruct b; whole_go
  | |- safe (bind (match (if ?b then _ else _) with _ => _ end) _) _ =>
      destruct b; whole_go
  | |- safe (bind (match ?x with _ => _ end) _) _ => destruct x; whole_go
  | |- safe (bind ?m ?k) ?Q =>
      let a := fresh "a" in
      let H := fresh "H" in
      eapply (@safe_bind _ _ m k _ Q);
      [ first [ solve [eauto with wholego nocore] | apply safe_any ]
      | intros a H; cbv beta in H; split_pair a; cbn [snd] in H; whole_clean; whole_go ]
  | |- safe (if ?b then _ else _) _ => destruct b; whole_go
  | |- safe (match pop_child ?t with _ => _ end) _ => destruct (pop_child t); whole_go
  | |- safe (match ?x with _ => _ end) _ => destruct x; whole_go
  | |- safe ?m ?Q =>
      eapply (@safe_weaken _ m _ Q);
      [ solve [eauto with wholego nocore]
      | let a := fresh "a" in
        let H := fresh "H" in
        intros a H; cbv beta in H; split_pair a; solve [whole_solve] ]
  end.

#[export] Hint Extern 1 (whole_rule _) =>
  let it := fresh "it" in unfold whole_rule; intro it; solve [whole_go] : wholego.
#[export] Hint Extern 1 (Forall whole_rule _) =>
  repeat first [apply Forall_cons | apply Forall_nil] : wholego.

Section WholeCombinators.

Variable token_to_string : TokenType.t -> string.
Variable contains : SourceRange -> SourceLocation -> bool.
Variable token_stream : TokenStream.
Variable fuel : nat.

Lemma whole_parser_one_of : forall rules begin what,
  Forall whole_rule rules ->
  safe (parser_one_of token_stream begin what rules) whole_result.
Proof.
  induction rules as [|rule rules IH]; intros begin what Hall; cbn [parser_one_of].
  - apply safe_whole_giveup_at.
  - inversion Hall as [|? ? Hrule Hrest]; subst.
    eapply safe_bind; [apply Hrule|]. intros [it state] Hres.
    destruct (negb _); [apply safe_ret; exact Hres|]. apply IH. exact Hrest.
Qed.

Lemma whole_many_of_loop : forall rule pred,
  whole_rule rule ->
  forall n it s, whole s ->
  safe (many_of_loop token_stream rule pred n it s) whole_result.
Proof.
  intros rule pred Hrule. induction n as [|n IH]; intros it s Hs; cbn [many_of_loop];
    whole_go.
Qed.

Lemma whole_one_many_of_loop : forall rule,
  whole_rule rule ->
  forall n it s, whole s ->
  safe (one_many_of_loop contains token_stream rule n it s) whole_result.
Proof.
  intros rule Hrule. induction n as [|n IH]; intros it s Hs; cbn [one_many_of_loop];
    whole_go.
Qed.

Lemma whole_one_many_of_while_loop : forall rule pred,
  whole_rule rule ->
  forall n it s, whole s ->
  safe (one_many_of_while_loop token_stream rule pred n it s) whole_result.
Proof.
  intros rule pred Hrule. induction n as [|n IH]; intros it s Hs;
    cbn [one_many_of_while_loop]; whole_go.
Qed.

Lemma whole_left_binary_loop : forall op_rule rhs_rule,
  whole_rule op_rule -> whole_rule rhs_rule ->
  forall n it s, whole s ->
  safe (left_binary_loop token_to_string token_stream op_rule rhs_rule n it s)
    whole_result.
Proof.
  intros op_rule rhs_rule Hop Hrhs. induction n as [|n IH]; intros it s Hs;
    cbn [left_binary_loop]; whole_go.
Qed.

Lemma whole_list_of_loop : forall rule allow,
  whole_rule rule ->
  forall n it s, whole s ->
  safe (list_of_loop token_stream rule allow n it s) whole_result.
Proof.
  intros rule allow Hrule. induction n as [|n IH]; intros it s Hs; cbn [list_of_loop];
    whole_go.
Qed.

Lemma whole_parser_many_of : forall rule pred begin,
  whole_rule rule ->
  safe (parser_many_of token_stream fuel begin rule pred) whole_result.
Proof.
  intros rule pred begin Hrule. unfold parser_many_of.
  pose proof (whole_many_of_loop pred Hrule) as Hloop. whole_go.
Qed.

Lemma whole_parser_one_many_of : forall rule begin what,
  whole_rule rule ->
  safe (parser_one_many_of contains token_stream fuel begin what rule) whole_result.
Proof.
  intros rule begin what Hrule. unfold parser_one_many_of.
  pose proof (whole_one_many_of_loop Hrule) as Hloop. whole_go.
Qed.

Lemma whole_parser_one_many_of_while : forall rule pred begin what,
  whole_rule rule ->
  safe (parser_one_many_of_while token_stream fuel begin what rule pred) whole_result.
Proof.
  intros rule pred begin what Hrule. unfold parser_one_many_of_while.
  pose proof (whole_one_many_of_while_loop pred Hrule) as Hloop. whole_go.
Qed.

Lemma whole_parser_operator : forall op_type op_match,
  whole_rule (parser_operator token_stream op_type op_match).
Proof. intros op_type op_match it. unfold parser_operator. whole_go. Qed.

Lemma whole_parser_left_binary_operator : forall lhs_rule op_rule rhs_rule,
  whole_rule lhs_rule -> whole_rule op_rule -> whole_rule rhs_rule ->
  whole_rule (parser_left_binary_operator token_to_string token_stream fuel
                lhs_rule op_rule rhs_rule).
Proof.
  intros lhs_rule op_rule rhs_rule Hlhs Hop Hrhs it.
  unfold parser_left_binary_operator.
  pose proof (whole_left_binary_loop Hop Hrhs) as Hloop. whole_go.
Qed.

Lemma whole_parser_right_binary_operator : forall lhs_rule op_rule rhs_rule,
  whole_rule lhs_rule -> whole_rule op_rule -> whole_rule rhs_rule ->
  whole_rule (parser_right_binary_operator token_to_string token_stream
                lhs_rule op_rule rhs_rule).
Proof.
  intros lhs_rule op_rule rhs_rule Hlhs Hop Hrhs it.
  unfold parser_right_binary_operator. whole_go.
Qed.

Lemma whole_parser_opt : forall rule, whole_rule rule -> whole_rule (parser_opt rule).
Proof. intros rule Hrule it. unfold parser_opt. whole_go. Qed.

Lemma whole_parser_parens : forall rule left_brace right_brace,
  whole_rule rule ->
  whole_rule (parser_parens token_to_string token_stream rule left_brace right_brace).
Proof. intros rule l r Hrule it. unfold parser_parens. whole_go. Qed.

Lemma whole_parser_list_of : forall rule allow,
  whole_rule rule -> whole_rule (parser_list_of token_stream fuel rule allow).
Proof.
  intros rule allow Hrule it. unfold parser_list_of.
  pose proof (whole_list_of_loop allow Hrule) as Hloop. whole_go.
Qed.

End WholeCombinators.

#[export] Hint Extern 1 (safe (parser_one_of _ _ _ _) _) =>
  eapply whole_parser_one_of : wholego.
#[export] Hint Extern 1 (safe (parser_many_of _ _ _ _ _) _) =>
  eapply whole_parser_many_of : wholego.
#[export] Hint Extern 1 (safe (parser_one_many_of _ _ _ _ _ _) _) =>
  eapply whole_parser_one_many_of : wholego.
#[export] Hint Extern 1 (safe (parser_one_many_of_while _ _ _ _ _ _) _) =>
  eapply whole_parser_one_many_of_while : wholego.
#[export] Hint Extern 1 (safe (parser_operator _ _ _ _) _) =>
  eapply whole_parser_operator : wholego.
#[export] Hint Extern 1 (safe (parser_left_binary_operator _ _ _ _ _ _ _) _) =>
  eapply whole_parser_left_binary_operator : wholego.
#[export] Hint Extern 1 (safe (parser_right_binary_operator _ _ _ _ _ _) _) =>
  eapply whole_parser_right_binary_operator : wholego.
#[export] Hint Extern 1 (safe (parser_opt _ _) _) => eapply whole_parser_opt : wholego.
#[export] Hint Extern 1 (safe (parser_parens _ _ _ _ _ _) _) =>
  eapply whole_parser_parens : wholego.
#[export] Hint Extern 1 (safe (parser_list_of _ _ _ _ _) _) =>
  eapply whole_parser_list_of : wholego.

(** ** Every grammar rule returns a whole state *)

Section WholeRules.

Variable token_to_string : TokenType.t -> string.
Variable contains : SourceRange -> SourceLocation -> bool.
Variable token_stream : TokenStream.
Variable fuel : nat.
Variable self : RuleName -> Rule.
Hypothesis whole_self : forall r it, safe (self r it) whole_result.

Lemma whole_parser_identifier : forall begin,
  safe (parser_identifier token_stream begin) whole_result.
Proof. intros begin. unfold parser_identifier. whole_go. Qed.

#[local] Hint Resolve whole_parser_identifier : wholego.

Lemma whole_parser_identifier_list : forall begin,
  safe (parser_identifier_list token_to_string token_stream fuel begin) whole_result.
Proof. intros begin. unfold parser_identifier_list. whole_go. Qed.

#[local] Hint Resolve whole_parser_identifier_list : wholego.

Lemma whole_parser_string_literal : forall begin,
  safe (parser_string_literal token_stream begin) whole_result.
Proof. intros begin. unfold parser_string_literal. whole_go. Qed.

#[local] Hint Resolve whole_parser_string_literal : wholego.

Lemma whole_parser_string_literal_list : forall begin,
  safe (parser_string_literal_list token_stream fuel begin) whole_result.
Proof. intros begin. unfold parser_string_literal_list. whole_go. Qed.

#[local] Hint Resolve whole_parser_string_literal_list : wholego.

Lemma whole_parser_constant : forall begin,
  safe (parser_constant token_stream begin) whole_result.
Proof. intros begin. unfold parser_constant. whole_go. Qed.

#[local] Hint Resolve whole_parser_constant : wholego.

Lemma whole_parser_parameter_declaration : forall begin,
  safe (parser_parameter_declaration token_stream self begin) whole_result.
Proof. intros begin. unfold parser_parameter_declaration. whole_go. Qed.

#[local] Hint Resolve whole_parser_parameter_declaration : wholego.

Lemma whole_parameter_list_loop : forall n it s,
  whole s ->
  safe (parameter_list_loop token_stream self n it s)
    whole_result.
Proof.
  induction n as [|n IH]; intros it s Hs; cbn [parameter_list_loop]; [apply safe_out_of_fuel|].
  whole_go.
Qed.

#[local] Hint Resolve whole_parameter_list_loop : wholego.

Lemma whole_parser_parameter_type_list : forall begin,
  safe (parser_parameter_type_list token_stream fuel self begin) whole_result.
Proof. intros begin. unfold parser_parameter_type_list. whole_go. Qed.

#[local] Hint Resolve whole_parser_parameter_type_list : wholego.

Lemma whole_parser_typedef_name : forall begin,
  safe (parser_typedef_name token_stream begin) whole_result.
Proof. intros begin. unfold parser_typedef_name. whole_go. Qed.

#[local] Hint Resolve whole_parser_typedef_name : wholego.

Lemma whole_parser_atomic_type_specifier : forall begin,
  safe (parser_atomic_type_specifier token_to_string token_stream self begin)
    whole_result.
Proof. intros begin. unfold parser_atomic_type_specifier. whole_go. Qed.

#[local] Hint Resolve whole_parser_atomic_type_specifier : wholego.

Lemma whole_parser_type_specifier : forall begin,
  safe (parser_type_specifier token_to_string token_stream self begin) whole_result.
Proof. intros begin. unfold parser_type_specifier. whole_go. Qed.

#[local] Hint Resolve whole_parser_type_specifier : wholego.

Lemma whole_parser_type_qualifier : forall begin,
  safe (parser_type_qualifier token_stream begin) whole_result.
Proof. intros begin. unfold parser_type_qualifier. whole_go. Qed.

#[local] Hint Resolve whole_parser_type_qualifier : wholego.

Lemma whole_parser_type_qualifier_list : forall begin,
  safe (parser_type_qualifier_list token_stream fuel begin) whole_result.
Proof. intros begin. unfold parser_type_qualifier_list. whole_go. Qed.

#[local] Hint Resolve whole_parser_type_qualifier_list : wholego.

Lemma whole_parser_pointer : forall begin,
  safe (parser_pointer token_to_string token_stream fuel self begin) whole_result.
Proof. intros begin. unfold parser_pointer. whole_go. Qed.

#[local] Hint Resolve whole_parser_pointer : wholego.

Lemma whole_abstract_function_declarator : forall begin,
  safe (abstract_function_declarator token_stream fuel self begin) whole_result.
Proof. intros begin. unfold abstract_function_declarator. whole_go. Qed.

#[local] Hint Resolve whole_abstract_function_declarator : wholego.

Lemma whole_abstract_array_declarator : forall begin,
  safe (abstract_array_declarator token_to_string token_stream fuel self begin)
    whole_result.
Proof. intros begin. unfold abstract_array_declarator. whole_go. Qed.

#[local] Hint Resolve whole_abstract_array_declarator : wholego.

Lemma whole_abstract_array_declarator_production : forall begin,
  safe (abstract_array_declarator_production token_to_string token_stream fuel self begin)
    whole_result.
Proof. intros begin. unfold abstract_array_declarator_production. whole_go. Qed.

#[local] Hint Resolve whole_abstract_array_declarator_production : wholego.

Lemma whole_direct_abstract_declarator_loop : forall n it s,
  whole s ->
  safe (direct_abstract_declarator_loop token_to_string token_stream fuel self n it s)
    whole_result.
Proof.
  induction n as [|n IH]; intros it s Hs; cbn [direct_abstract_declarator_loop]; [apply safe_out_of_fuel|].
  whole_go.
Qed.

#[local] Hint Resolve whole_direct_abstract_declarator_loop : wholego.

Lemma whole_parser_direct_abstract_declarator : forall begin,
  safe (parser_direct_abstract_declarator token_to_string token_stream fuel self begin)
    whole_result.
Proof. intros begin. unfold parser_direct_abstract_declarator. whole_go. Qed.

#[local] Hint Resolve whole_parser_direct_abstract_declarator : wholego.

Lemma whole_parser_abstract_declarator : forall begin,
  safe (parser_abstract_declarator token_to_string token_stream fuel self begin)
    whole_result.
Proof. intros begin. unfold parser_abstract_declarator. whole_go. Qed.

#[local] Hint Resolve whole_parser_abstract_declarator : wholego.

Lemma whole_specifier_or_qualifier : forall begin,
  safe (specifier_or_qualifier token_to_string token_stream self begin) whole_result.
Proof. intros begin. unfold specifier_or_qualifier. whole_go. Qed.

#[local] Hint Resolve whole_specifier_or_qualifier : wholego.

Lemma whole_specifier_qualifier_loop : forall n it s,
  whole s ->
  safe (specifier_qualifier_loop token_to_string token_stream self n it s)
    whole_result.
Proof.
  induction n as [|n IH]; intros it s Hs; cbn [specifier_qualifier_loop]; [apply safe_out_of_fuel|].
  whole_go.
Qed.

#[local] Hint Resolve whole_specifier_qualifier_loop : wholego.

Lemma whole_parser_specifier_qualifier_list : forall begin,
  safe (parser_specifier_qualifier_list token_to_string token_stream fuel self begin)
    whole_result.
Proof. intros begin. unfold parser_specifier_qualifier_list. whole_go. Qed.

#[local] Hint Resolve whole_parser_specifier_qualifier_list : wholego.

Lemma whole_parser_type_name : forall begin,
  safe (parser_type_name token_to_string token_stream fuel self begin) whole_result.
Proof. intros begin. unfold parser_type_name. whole_go. Qed.

#[local] Hint Resolve whole_parser_type_name : wholego.

Lemma whole_parser_constant_expression : forall begin,
  safe (parser_constant_expression self begin) whole_result.
Proof. intros begin. unfold parser_constant_expression. whole_go. Qed.

#[local] Hint Resolve whole_parser_constant_expression : wholego.

Lemma whole_static_assert_args_production : forall begin,
  safe (static_assert_args_production token_to_string token_stream fuel self begin)
    whole_result.
Proof. intros begin. unfold static_assert_args_production. whole_go. Qed.

#[local] Hint Resolve whole_static_assert_args_production : wholego.

Lemma whole_parser_static_assert_declaration : forall begin,
  safe (parser_static_assert_declaration token_to_string token_stream fuel self begin)
    whole_result.
Proof. intros begin. unfold parser_static_assert_declaration. whole_go. Qed.

#[local] Hint Resolve whole_parser_static_assert_declaration : wholego.

Lemma whole_array_declarator_production : forall begin,
  safe (array_declarator_production token_to_string token_stream fuel self begin)
    whole_result.
Proof. intros begin. unfold array_declarator_production. whole_go. Qed.

#[local] Hint Resolve whole_array_declarator_production : wholego.

Lemma whole_ident_or_decl_production : forall begin,
  safe (ident_or_decl_production token_to_string token_stream self begin) whole_result.
Proof. intros begin. unfold ident_or_decl_production. whole_go. Qed.

#[local] Hint Resolve whole_ident_or_decl_production : wholego.

Lemma whole_direct_declarator_loop : forall n it s,
  whole s ->
  safe (direct_declarator_loop token_to_string token_stream fuel self n it s)
    whole_result.
Proof.
  induction n as [|n IH]; intros it s Hs; cbn [direct_declarator_loop]; [apply safe_out_of_fuel|].
  whole_go.
Qed.

#[local] Hint Resolve whole_direct_declarator_loop : wholego.

Lemma whole_parser_direct_declarator : forall begin,
  safe (parser_direct_declarator token_to_string token_stream fuel self begin)
    whole_result.
Proof. intros begin. unfold parser_direct_declarator. whole_go. Qed.

#[local] Hint Resolve whole_parser_direct_declarator : wholego.

Lemma whole_parser_declarator : forall begin,
  safe (parser_declarator token_to_string token_stream fuel self begin) whole_result.
Proof. intros begin. unfold parser_declarator. whole_go. Qed.

#[local] Hint Resolve whole_parser_declarator : wholego.

Lemma whole_parser_init_declarator : forall begin,
  safe (parser_init_declarator token_to_string token_stream fuel self begin)
    whole_result.
Proof. intros begin. unfold parser_init_declarator. whole_go. Qed.

#[local] Hint Resolve whole_parser_init_declarator : wholego.

Lemma whole_parser_init_declarator_list : forall begin,
  safe (parser_init_declarator_list token_to_string token_stream fuel self begin)
    whole_result.
Proof. intros begin. unfold parser_init_declarator_list. whole_go. Qed.

#[local] Hint Resolve whole_parser_init_declarator_list : wholego.

Lemma whole_parser_storage_class_specifier : forall begin,
  safe (parser_storage_class_specifier token_stream begin) whole_result.
Proof. intros begin. unfold parser_storage_class_specifier. whole_go. Qed.

#[local] Hint Resolve whole_parser_storage_class_specifier : wholego.

Lemma whole_parser_function_specifier : forall begin,
  safe (parser_function_specifier token_to_string token_stream begin) whole_result.
Proof. intros begin. unfold parser_function_specifier. whole_go. Qed.

#[local] Hint Resolve whole_parser_function_specifier : wholego.

Lemma whole_alignas_arg_production : forall begin,
  safe (alignas_arg_production token_to_string token_stream fuel self begin)
    whole_result.
Proof. intros begin. unfold alignas_arg_production. whole_go. Qed.

#[local] Hint Resolve whole_alignas_arg_production : wholego.

Lemma whole_parser_alignment_specifier : forall begin,
  safe (parser_alignment_specifier token_to_string token_stream fuel self begin)
    whole_result.
Proof. intros begin. unfold parser_alignment_specifier. whole_go. Qed.

#[local] Hint Resolve whole_parser_alignment_specifier : wholego.

Lemma whole_parser_declaration_specifier : forall begin,
  safe (parser_declaration_specifier token_to_string token_stream fuel self begin)
    whole_result.
Proof. intros begin. unfold parser_declaration_specifier. whole_go. Qed.

#[local] Hint Resolve whole_parser_declaration_specifier : wholego.

Lemma whole_parser_declaration_specifiers : forall begin,
  safe (parser_declaration_specifiers token_to_string contains token_stream fuel self begin)
    whole_result.
Proof. intros begin. unfold parser_declaration_specifiers. whole_go. Qed.

#[local] Hint Resolve whole_parser_declaration_specifiers : wholego.

Lemma whole_parser_declaration : forall begin,
  safe (parser_declaration token_to_string contains token_stream fuel self begin)
    whole_result.
Proof. intros begin. unfold parser_declaration. whole_go. Qed.

#[local] Hint Resolve whole_parser_declaration : wholego.

Lemma whole_parser_enumeration_constant : forall begin,
  safe (parser_enumeration_constant token_stream begin) whole_result.
Proof. intros begin. unfold parser_enumeration_constant. whole_go. Qed.

#[local] Hint Resolve whole_parser_enumeration_constant : wholego.

Lemma whole_enumerator_production : forall begin,
  safe (enumerator_production token_to_string token_stream self begin) whole_result.
Proof. intros begin. unfold enumerator_production. whole_go. Qed.

#[local] Hint Resolve whole_enumerator_production : wholego.

Lemma whole_enum_list_production : forall begin,
  safe (enum_list_production token_to_string token_stream fuel self begin) whole_result.
Proof. intros begin. unfold enum_list_production. whole_go. Qed.

#[local] Hint Resolve whole_enum_list_production : wholego.

Lemma whole_missing_semicolon_check : forall spec it msg,
  whole spec -> safe (missing_semicolon_check token_stream spec it msg) whole.
Proof. intros spec it msg Hs. unfold missing_semicolon_check. whole_go. Qed.

#[local] Hint Resolve whole_missing_semicolon_check : wholego.

Lemma whole_parser_enum_specifier : forall begin,
  safe (parser_enum_specifier token_to_string token_stream fuel self begin)
    whole_result.
Proof. intros begin. unfold parser_enum_specifier. whole_go. Qed.

#[local] Hint Resolve whole_parser_enum_specifier : wholego.

Lemma whole_struct_declarator : forall msg begin,
  safe (struct_declarator token_to_string token_stream fuel self msg begin)
    whole_result.
Proof. intros msg begin. unfold struct_declarator. whole_go. Qed.

#[local] Hint Resolve whole_struct_declarator : wholego.

Lemma whole_struct_declaration : forall msg begin,
  safe (struct_declaration token_to_string token_stream fuel self msg begin)
    whole_result.
Proof. intros msg begin. unfold struct_declaration. whole_go. Qed.

#[local] Hint Resolve whole_struct_declaration : wholego.

Lemma whole_struct_decl_list_production : forall msg begin,
  safe (struct_decl_list_production token_to_string token_stream fuel self msg begin)
    whole_result.
Proof. intros msg begin. unfold struct_decl_list_production. whole_go. Qed.

#[local] Hint Resolve whole_struct_decl_list_production : wholego.

Lemma whole_parser_struct_or_union_specifier : forall begin,
  safe (parser_struct_or_union_specifier token_to_string token_stream fuel self begin)
    whole_result.
Proof. intros begin. unfold parser_struct_or_union_specifier. whole_go. Qed.

#[local] Hint Resolve whole_parser_struct_or_union_specifier : wholego.

Lemma whole_parser_initializer : forall begin,
  safe (parser_initializer token_to_string token_stream self begin) whole_result.
Proof. intros begin. unfold parser_initializer. whole_go. Qed.

#[local] Hint Resolve whole_parser_initializer : wholego.

Lemma whole_designator_production : forall begin,
  safe (designator_production token_to_string token_stream self begin) whole_result.
Proof. intros begin. unfold designator_production. whole_go. Qed.

#[local] Hint Resolve whole_designator_production : wholego.

Lemma whole_designation_loop : forall n it s,
  whole s ->
  safe (designation_loop token_to_string token_stream self n it s)
    whole_result.
Proof.
  induction n as [|n IH]; intros it s Hs; cbn [designation_loop]; [apply safe_out_of_fuel|].
  whole_go.
Qed.

#[local] Hint Resolve whole_designation_loop : wholego.

Lemma whole_designation_production : forall begin,
  safe (designation_production token_to_string token_stream fuel self begin)
    whole_result.
Proof. intros begin. unfold designation_production. whole_go. Qed.

#[local] Hint Resolve whole_designation_production : wholego.

Lemma whole_init_list_production : forall begin,
  safe (init_list_production token_to_string token_stream fuel self begin) whole_result.
Proof. intros begin. unfold init_list_production. whole_go. Qed.

#[local] Hint Resolve whole_init_list_production : wholego.

Lemma whole_parser_initializer_list : forall begin,
  safe (parser_initializer_list token_to_string token_stream fuel self begin)
    whole_result.
Proof. intros begin. unfold parser_initializer_list. whole_go. Qed.

#[local] Hint Resolve whole_parser_initializer_list : wholego.

Lemma whole_compound_literal_production : forall begin,
  safe (compound_literal_production token_to_string token_stream fuel self begin)
    whole_result.
Proof. intros begin. unfold compound_literal_production. whole_go. Qed.

#[local] Hint Resolve whole_compound_literal_production : wholego.

Lemma whole_postfix_production : forall begin,
  safe (postfix_production token_to_string token_stream fuel self begin) whole_result.
Proof. intros begin. unfold postfix_production. whole_go. Qed.

#[local] Hint Resolve whole_postfix_production : wholego.

Lemma whole_postfix_loop : forall n it s,
  whole s ->
  safe (postfix_loop token_to_string token_stream fuel self n it s)
    whole_result.
Proof.
  induction n as [|n IH]; intros it s Hs; cbn [postfix_loop]; [apply safe_out_of_fuel|].
  whole_go.
Qed.

#[local] Hint Resolve whole_postfix_loop : wholego.

Lemma whole_parser_postfix_expression : forall begin,
  safe (parser_postfix_expression token_to_string token_stream fuel self begin)
    whole_result.
Proof. intros begin. unfold parser_postfix_expression. whole_go. Qed.

#[local] Hint Resolve whole_parser_postfix_expression : wholego.

Lemma whole_incremental_unary_production : forall begin,
  safe (incremental_unary_production token_to_string token_stream self begin)
    whole_result.
Proof. intros begin. unfold incremental_unary_production. whole_go. Qed.

#[local] Hint Resolve whole_incremental_unary_production : wholego.

Lemma whole_unary_cast_production : forall begin,
  safe (unary_cast_production token_stream self begin) whole_result.
Proof. intros begin. unfold unary_cast_production. whole_go. Qed.

#[local] Hint Resolve whole_unary_cast_production : wholego.

Lemma whole_parens_type_name : forall begin,
  safe (parens_type_name token_to_string token_stream fuel self begin) whole_result.
Proof. intros begin. unfold parens_type_name. whole_go. Qed.

#[local] Hint Resolve whole_parens_type_name : wholego.

Lemma whole_size_of_production : forall begin,
  safe (size_of_production token_to_string token_stream fuel self begin) whole_result.
Proof. intros begin. unfold size_of_production. whole_go. Qed.

#[local] Hint Resolve whole_size_of_production : wholego.

Lemma whole_parser_unary_expression : forall begin,
  safe (parser_unary_expression token_to_string token_stream fuel self begin)
    whole_result.
Proof. intros begin. unfold parser_unary_expression. whole_go. Qed.

#[local] Hint Resolve whole_parser_unary_expression : wholego.

Lemma whole_cast_production : forall begin,
  safe (cast_production token_to_string token_stream fuel self begin) whole_result.
Proof. intros begin. unfold cast_production. whole_go. Qed.

#[local] Hint Resolve whole_cast_production : wholego.

Lemma whole_parser_cast_expression : forall begin,
  safe (parser_cast_expression token_to_string token_stream fuel self begin)
    whole_result.
Proof. intros begin. unfold parser_cast_expression. whole_go. Qed.

#[local] Hint Resolve whole_parser_cast_expression : wholego.

Lemma whole_multiplicative_operator : forall begin,
  safe (multiplicative_operator token_stream begin) whole_result.
Proof. intros begin. unfold multiplicative_operator. whole_go. Qed.

#[local] Hint Resolve whole_multiplicative_operator : wholego.

Lemma whole_parser_multiplicative_expression : forall begin,
  safe (parser_multiplicative_expression token_to_string token_stream fuel self begin)
    whole_result.
Proof. intros begin. unfold parser_multiplicative_expression. whole_go. Qed.

#[local] Hint Resolve whole_parser_multiplicative_expression : wholego.

Lemma whole_additive_operator : forall begin,
  safe (additive_operator token_stream begin) whole_result.
Proof. intros begin. unfold additive_operator. whole_go. Qed.

#[local] Hint Resolve whole_additive_operator : wholego.

Lemma whole_parser_additive_expression : forall begin,
  safe (parser_additive_expression token_to_string token_stream fuel self begin)
    whole_result.
Proof. intros begin. unfold parser_additive_expression. whole_go. Qed.

#[local] Hint Resolve whole_parser_additive_expression : wholego.

Lemma whole_shift_operator : forall begin,
  safe (shift_operator token_stream begin) whole_result.
Proof. intros begin. unfold shift_operator. whole_go. Qed.

#[local] Hint Resolve whole_shift_operator : wholego.

Lemma whole_parser_shift_expression : forall begin,
  safe (parser_shift_expression token_to_string token_stream fuel self begin)
    whole_result.
Proof. intros begin. unfold parser_shift_expression. whole_go. Qed.

#[local] Hint Resolve whole_parser_shift_expression : wholego.

Lemma whole_relational_operator : forall begin,
  safe (relational_operator token_stream begin) whole_result.
Proof. intros begin. unfold relational_operator. whole_go. Qed.

#[local] Hint Resolve whole_relational_operator : wholego.

Lemma whole_parser_relational_expression : forall begin,
  safe (parser_relational_expression token_to_string token_stream fuel self begin)
    whole_result.
Proof. intros begin. unfold parser_relational_expression. whole_go. Qed.

#[local] Hint Resolve whole_parser_relational_expression : wholego.

Lemma whole_equality_operator : forall begin,
  safe (equality_operator token_stream begin) whole_result.
Proof. intros begin. unfold equality_operator. whole_go. Qed.

#[local] Hint Resolve whole_equality_operator : wholego.

Lemma whole_parser_equality_expression : forall begin,
  safe (parser_equality_expression token_to_string token_stream fuel self begin)
    whole_result.
Proof. intros begin. unfold parser_equality_expression. whole_go. Qed.

#[local] Hint Resolve whole_parser_equality_expression : wholego.

Lemma whole_and_operator : forall begin,
  safe (and_operator token_stream begin) whole_result.
Proof. intros begin. unfold and_operator. whole_go. Qed.

#[local] Hint Resolve whole_and_operator : wholego.

Lemma whole_parser_and_expression : forall begin,
  safe (parser_and_expression token_to_string token_stream fuel self begin)
    whole_result.
Proof. intros begin. unfold parser_and_expression. whole_go. Qed.

#[local] Hint Resolve whole_parser_and_expression : wholego.

Lemma whole_exclusive_or_operator : forall begin,
  safe (exclusive_or_operator token_stream begin) whole_result.
Proof. intros begin. unfold exclusive_or_operator. whole_go. Qed.

#[local] Hint Resolve whole_exclusive_or_operator : wholego.

Lemma whole_parser_exclusive_or_expression : forall begin,
  safe (parser_exclusive_or_expression token_to_string token_stream fuel self begin)
    whole_result.
Proof. intros begin. unfold parser_exclusive_or_expression. whole_go. Qed.

#[local] Hint Resolve whole_parser_exclusive_or_expression : wholego.

Lemma whole_inclusive_or_operator : forall begin,
  safe (inclusive_or_operator token_stream begin) whole_result.
Proof. intros begin. unfold inclusive_or_operator. whole_go. Qed.

#[local] Hint Resolve whole_inclusive_or_operator : wholego.

Lemma whole_parser_inclusive_or_expression : forall begin,
  safe (parser_inclusive_or_expression token_to_string token_stream fuel self begin)
    whole_result.
Proof. intros begin. unfold parser_inclusive_or_expression. whole_go. Qed.

#[local] Hint Resolve whole_parser_inclusive_or_expression : wholego.

Lemma whole_logical_and_operator : forall begin,
  safe (logical_and_operator token_stream begin) whole_result.
Proof. intros begin. unfold logical_and_operator. whole_go. Qed.

#[local] Hint Resolve whole_logical_and_operator : wholego.

Lemma whole_parser_logical_and_expression : forall begin,
  safe (parser_logical_and_expression token_to_string token_stream fuel self begin)
    whole_result.
Proof. intros begin. unfold parser_logical_and_expression. whole_go. Qed.

#[local] Hint Resolve whole_parser_logical_and_expression : wholego.

Lemma whole_logical_or_operator : forall begin,
  safe (logical_or_operator token_stream begin) whole_result.
Proof. intros begin. unfold logical_or_operator. whole_go. Qed.

#[local] Hint Resolve whole_logical_or_operator : wholego.

Lemma whole_parser_logical_or_expression : forall begin,
  safe (parser_logical_or_expression token_to_string token_stream fuel self begin)
    whole_result.
Proof. intros begin. unfold parser_logical_or_expression. whole_go. Qed.

#[local] Hint Resolve whole_parser_logical_or_expression : wholego.

Lemma whole_parser_conditional_expression : forall begin,
  safe (parser_conditional_expression token_to_string token_stream fuel self begin)
    whole_result.
Proof. intros begin. unfold parser_conditional_expression. whole_go. Qed.

#[local] Hint Resolve whole_parser_conditional_expression : wholego.

Lemma whole_assign_operator : forall begin,
  safe (assign_operator token_stream begin) whole_result.
Proof. intros begin. unfold assign_operator. whole_go. Qed.

#[local] Hint Resolve whole_assign_operator : wholego.

Lemma whole_parser_assignment_expression : forall begin,
  safe (parser_assignment_expression token_to_string token_stream fuel self begin)
    whole_result.
Proof. intros begin. unfold parser_assignment_expression. whole_go. Qed.

#[local] Hint Resolve whole_parser_assignment_expression : wholego.

Lemma whole_comma_operator : forall begin,
  safe (comma_operator token_stream begin) whole_result.
Proof. intros begin. unfold comma_operator. whole_go. Qed.

#[local] Hint Resolve whole_comma_operator : wholego.

Lemma whole_parser_expression : forall begin,
  safe (parser_expression token_to_string token_stream fuel self begin) whole_result.
Proof. intros begin. unfold parser_expression. whole_go. Qed.

#[local] Hint Resolve whole_parser_expression : wholego.

Lemma whole_parser_parens_expr : forall begin,
  safe (parser_parens_expr token_to_string token_stream fuel self begin) whole_result.
Proof. intros begin. unfold parser_parens_expr. whole_go. Qed.

#[local] Hint Resolve whole_parser_parens_expr : wholego.

Lemma whole_parser_primary_expression : forall begin,
  safe (parser_primary_expression token_to_string token_stream fuel self begin)
    whole_result.
Proof. intros begin. unfold parser_primary_expression. whole_go. Qed.

#[local] Hint Resolve whole_parser_primary_expression : wholego.

Lemma whole_parser_statement : forall begin,
  safe (parser_statement token_stream self begin) whole_result.
Proof. intros begin. unfold parser_statement. whole_go. Qed.

#[local] Hint Resolve whole_parser_statement : wholego.

Lemma whole_parser_jump_statement : forall begin,
  safe (parser_jump_statement token_to_string token_stream fuel self begin)
    whole_result.
Proof. intros begin. unfold parser_jump_statement. whole_go. Qed.

#[local] Hint Resolve whole_parser_jump_statement : wholego.

Lemma whole_parens_expression : forall begin,
  safe (parens_expression token_to_string token_stream fuel self begin) whole_result.
Proof. intros begin. unfold parens_expression. whole_go. Qed.

#[local] Hint Resolve whole_parens_expression : wholego.

Lemma whole_while_statement : forall begin,
  safe (while_statement token_to_string token_stream fuel self begin) whole_result.
Proof. intros begin. unfold while_statement. whole_go. Qed.

#[local] Hint Resolve whole_while_statement : wholego.

Lemma whole_do_while_statement : forall begin,
  safe (do_while_statement token_to_string token_stream fuel self begin) whole_result.
Proof. intros begin. unfold do_while_statement. whole_go. Qed.

#[local] Hint Resolve whole_do_while_statement : wholego.

Lemma whole_for_clause_expression : forall it s,
  whole s ->
  safe (for_clause_expression token_to_string token_stream fuel self it s)
    whole_result.
Proof. intros it s Hs. unfold for_clause_expression. whole_go. Qed.

#[local] Hint Resolve whole_for_clause_expression : wholego.

Lemma whole_for_exprs_production : forall begin,
  safe (for_exprs_production token_to_string contains token_stream fuel self begin)
    whole_result.
Proof. intros begin. unfold for_exprs_production. whole_go. Qed.

#[local] Hint Resolve whole_for_exprs_production : wholego.

Lemma whole_for_statement : forall begin,
  safe (for_statement token_to_string contains token_stream fuel self begin)
    whole_result.
Proof. intros begin. unfold for_statement. whole_go. Qed.

#[local] Hint Resolve whole_for_statement : wholego.

Lemma whole_parser_iteration_statement : forall begin,
  safe (parser_iteration_statement token_to_string contains token_stream fuel self begin)
    whole_result.
Proof. intros begin. unfold parser_iteration_statement. whole_go. Qed.

#[local] Hint Resolve whole_parser_iteration_statement : wholego.

Lemma whole_if_statement : forall begin,
  safe (if_statement token_to_string token_stream fuel self begin) whole_result.
Proof. intros begin. unfold if_statement. whole_go. Qed.

#[local] Hint Resolve whole_if_statement : wholego.

Lemma whole_switch_statement : forall begin,
  safe (switch_statement token_to_string token_stream fuel self begin) whole_result.
Proof. intros begin. unfold switch_statement. whole_go. Qed.

#[local] Hint Resolve whole_switch_statement : wholego.

Lemma whole_parser_selection_statement : forall begin,
  safe (parser_selection_statement token_to_string token_stream fuel self begin)
    whole_result.
Proof. intros begin. unfold parser_selection_statement. whole_go. Qed.

#[local] Hint Resolve whole_parser_selection_statement : wholego.

Lemma whole_parser_expression_statement : forall begin,
  safe (parser_expression_statement token_to_string token_stream fuel self begin)
    whole_result.
Proof. intros begin. unfold parser_expression_statement. whole_go. Qed.

#[local] Hint Resolve whole_parser_expression_statement : wholego.

Lemma whole_decl_or_stmt : forall begin,
  safe (decl_or_stmt token_to_string contains token_stream fuel self begin)
    whole_result.
Proof. intros begin. unfold decl_or_stmt. whole_go. Qed.

#[local] Hint Resolve whole_decl_or_stmt : wholego.

Lemma whole_block_item_list_production : forall begin,
  safe (block_item_list_production token_to_string contains token_stream fuel self begin)
    whole_result.
Proof. intros begin. unfold block_item_list_production. whole_go. Qed.

#[local] Hint Resolve whole_block_item_list_production : wholego.

Lemma whole_parser_compound_statement : forall begin,
  safe (parser_compound_statement token_to_string contains token_stream fuel self begin)
    whole_result.
Proof. intros begin. unfold parser_compound_statement. whole_go. Qed.

#[local] Hint Resolve whole_parser_compound_statement : wholego.

Lemma whole_parser_labeled_statement : forall begin,
  safe (parser_labeled_statement token_to_string token_stream self begin) whole_result.
Proof. intros begin. unfold parser_labeled_statement. whole_go. Qed.

#[local] Hint Resolve whole_parser_labeled_statement : wholego.

Lemma whole_declaration_list : forall begin,
  safe (declaration_list token_to_string contains token_stream fuel self begin)
    whole_result.
Proof. intros begin. unfold declaration_list. whole_go. Qed.

#[local] Hint Resolve whole_declaration_list : wholego.

Lemma whole_parser_function_definition : forall begin,
  safe (parser_function_definition token_to_string contains token_stream fuel self begin)
    whole_result.
Proof. intros begin. unfold parser_function_definition. whole_go. Qed.

#[local] Hint Resolve whole_parser_function_definition : wholego.

Lemma whole_compilation_unit_loop : forall n it s,
  whole s ->
  safe (compilation_unit_loop token_to_string contains token_stream fuel self n it s)
    whole_result.
Proof.
  induction n as [|n IH]; intros it s Hs; cbn [compilation_unit_loop]; [apply safe_out_of_fuel|].
  whole_go.
Qed.

#[local] Hint Resolve whole_compilation_unit_loop : wholego.

Lemma whole_parser_compilation_unit : forall begin,
  safe (parser_compilation_unit token_to_string contains token_stream fuel self begin)
    whole_result.
Proof. intros begin. unfold parser_compilation_unit. whole_go. Qed.

#[local] Hint Resolve whole_parser_compilation_unit : wholego.

Lemma whole_dispatch : forall r it,
  safe (dispatch token_to_string contains token_stream fuel self r it) whole_result.
Proof. intros r it. destruct r; cbn [dispatch]; auto with wholego nocore. Qed.

End WholeRules.

(** ** The state of every rule *)

Section WholeRun.

Variable token_to_string : TokenType.t -> string.
Variable contains : SourceRange -> SourceLocation -> bool.
Variable token_stream : TokenStream.

Lemma whole_run : forall n r it,
  safe (run token_to_string contains token_stream n r it) whole_result.
Proof.
  induction n as [|n IH]; intros r it; cbn [run].
  - apply safe_out_of_fuel.
  - apply whole_dispatch. exact IH.
Qed.

(** X16. No rule hands back a success with a null tree or a failure without
    an error: the state of every result is a failure that holds at least one
    entry or a success that holds a tree, so that the tree of a success may
    be read through its pointer, as [parser_one_many_of] and
    [parser_string_literal_list] do. *)
Theorem rules_return_whole_states : forall n r begin c result c',
  run token_to_string contains token_stream n r begin c = Ok (result, c') ->
  (exists e es, snd result = Failure (e :: es)) \/
  (exists tree, snd result = Success (Some tree)).
Proof.
  intros n r begin c result c' H.
  pose proof (whole_run n r begin _ H) as Hw. unfold whole_result in Hw.
  destruct (snd result) as [[|e es]|[t|]]; try destruct Hw.
  - left. exists e, es. reflexivity.
  - right. exists t. reflexivity.
Qed.

End WholeRun.

Lemma rules_return_whole_states_witness :
  exists result c',
    run Examples.token_spelling Examples.range_contains Inputs.empty_body 40
      CompoundStatement 4 Examples.fresh_context = Ok (result, c') /\
    ((exists e es, snd result = Failure (e :: es)) \/
     (exists tree, snd result = Success (Some tree))).
Proof.
  eexists. eexists.
  assert (Hrun : run Examples.token_spelling Examples.range_contains Inputs.empty_body 40
                   CompoundStatement 4 Examples.fresh_context = Ok (_, _))
    by (vm_compute; reflexivity).
  split; [exact Hrun|].
  exact (rules_return_whole_states _ _ _ _ _ _ _ Hrun).
Defined.

(** ** The properties at concrete inputs *)

Lemma one_of_picks_a_rule_witness :
  exists result c',
    parser_one_of Examples.lone_identifier 0 "primary expression"
      [ parser_string_literal Examples.lone_identifier;
        parser_identifier Examples.lone_identifier ] Examples.fresh_context
    = Ok (result, c') /\
    ((exists before rule after c1,
        [ parser_string_literal Examples.lone_identifier;
          parser_identifier Examples.lone_identifier ]
        = before ++ rule :: after /\
        all_gave_up before 0 Examples.fresh_context c1 /\
        rule 0 c1 = Ok (result, c') /\ is_giveup (snd result) = false) \/
     (all_gave_up [ parser_string_literal Examples.lone_identifier;
                    parser_identifier Examples.lone_identifier ]
        0 Examples.fresh_context c' /\
      result = (tend Examples.lone_identifier,
                make_error GiveUp 0 "primary expression"))).
Proof.
  eexists. eexists.
  assert (Hrun : parser_one_of Examples.lone_identifier 0 "primary expression"
                   [ parser_string_literal Examples.lone_identifier;
                     parser_identifier Examples.lone_identifier ]
                   Examples.fresh_context = Ok (_, _))
    by (vm_compute; reflexivity).
  split; [exact Hrun|].
  exact (proj1 (one_of_picks_a_rule _ _ _ _ _ _ _) Hrun).
Defined.

Lemma expect_token_answers_witness :
  exists answer state' c',
    expect_token Examples.token_spelling Examples.lone_identifier
      (Success (Some new_tree)) 0 TokenType.Semicolon Examples.fresh_context
    = Ok ((answer, state'), c') /\
    c' = Examples.fresh_context /\
    (answer = false -> 0 <> tend Examples.lone_identifier ->
     exists tok,
       nth_error (tokens Examples.lone_identifier) 0 = Some tok /\
       type tok <> TokenType.Semicolon /\
       state' = add_error (Success (Some new_tree))
                  {| status := Error; where_ := 0;
                     error := "expected '" +++ Examples.token_spelling TokenType.Semicolon
                              +++ "' before '"
                              +++ Examples.token_spelling (type tok) +++ "'" |}).
Proof.
  eexists. eexists. eexists.
  assert (Hrun : expect_token Examples.token_spelling Examples.lone_identifier
                   (Success (Some new_tree)) 0 TokenType.Semicolon
                   Examples.fresh_context = Ok ((_, _), _))
    by (vm_compute; reflexivity).
  split; [exact Hrun|].
  destruct (expect_token_answers _ _ _ _ _ _ Hrun) as (Hc & _ & _ & Hwrong).
  split; [exact Hc|exact Hwrong].
Defined.

Lemma expect_end_token_answers_witness :
  exists answer state' c',
    expect_end_token Examples.token_spelling Examples.lone_identifier
      (Success (Some new_tree)) 0 1 TokenType.RightParen Examples.fresh_context
    = Ok ((answer, state'), c') /\
    c' = Examples.fresh_context /\
    (answer = false -> is_failure state' = true).
Proof.
  eexists. eexists. eexists.
  assert (Hrun : expect_end_token Examples.token_spelling Examples.lone_identifier
                   (Success (Some new_tree)) 0 1 TokenType.RightParen
                   Examples.fresh_context = Ok ((_, _), _))
    by (vm_compute; reflexivity).
  split; [exact Hrun|].
  destruct (expect_end_token_answers _ _ _ _ _ _ _ Hrun) as (Hc & _ & Hfalse).
  split; [exact Hc|]. intro Ha. exact (proj1 (Hfalse Ha)).
Defined.

Lemma list_of_never_gives_up_witness :
  exists result c',
    parser_list_of Examples.call_with_arguments 10
      (parser_identifier Examples.call_with_arguments) false 2 Examples.fresh_context
    = Ok (result, c') /\
    is_giveup (snd result) = false /\ fst result <= tend Examples.call_with_arguments.
Proof.
  eexists. eexists.
  assert (Hrun : parser_list_of Examples.call_with_arguments 10
                   (parser_identifier Examples.call_with_arguments) false 2
                   Examples.fresh_context = Ok (_, _))
    by (vm_compute; reflexivity).
  split; [exact Hrun|].
  assert (Hbegin : 2 <= tend Examples.call_with_arguments) by (vm_compute; lia).
  exact (@list_of_never_gives_up Examples.call_with_arguments 10
           (parser_identifier Examples.call_with_arguments) false 2 _ _ _ Hbegin Hrun).
Defined.

Lemma parse_skips_lone_semicolons_witness :
  parse Examples.token_spelling Examples.range_contains
    {| token_data :=
         [ {| type := TokenType.Semicolon;
              data := {| range_begin := 0; range_end := 1 |} |};
           {| type := TokenType.Semicolon;
              data := {| range_begin := 1; range_end := 2 |} |} ]
         ++ [ {| type := TokenType.Eof; data := {| range_begin := 2; range_end := 2 |} |} ];
       source_manager := {| SourceManager.content := ";;"; SourceManager.offsets := [] |} |}
    3 Examples.no_diagnostics
  = Ok (Some (new_node NodeType.CompilationUnit), Examples.no_diagnostics).
Proof.
  apply (proj1 (parse_skips_lone_semicolons Examples.token_spelling
                  Examples.range_contains
                  {| SourceManager.content := ";;"; SourceManager.offsets := [] |})).
  - repeat constructor.
  - reflexivity.
  - cbn. lia.
Defined.

(** * Promotion of give-ups with [what] *)

Section PromotionWithWhat.

Variable token_to_string : TokenType.t -> string.
Variable token_stream : TokenStream.

Lemma giveup_to_expected_loop_entries : forall what es s0 c,
  (forall x, In x es -> status x = GiveUp -> String.eqb (error x) "" = false ->
     where_ x < tend token_stream) ->
  giveup_to_expected_loop token_to_string token_stream what es s0 c
  = Ok (add_errors s0 (flat_map (expected_entries token_to_string token_stream what) es),
        c).
Proof.
  intros what es. induction es as [|e es IH]; intros s0 c Hplaced; [reflexivity|].
  cbn [giveup_to_expected_loop flat_map]. rewrite add_errors_app.
  assert (Hrest : forall x, In x es -> status x = GiveUp ->
                    String.eqb (error x) "" = false -> where_ x < tend token_stream)
    by (intros x Hx; apply Hplaced; right; exact Hx).
  unfold expected_entries at 1.
  destruct (is_GiveUp (status e)) eqn:Hg.
  - destruct (String.eqb (error e) "") eqn:Hmsg.
    + rewrite IH by exact Hrest. reflexivity.
    + assert (Hin : where_ e < tend token_stream).
      { apply Hplaced; [left; reflexivity| |exact Hmsg].
        destruct (status e); try discriminate Hg. reflexivity. }
      unfold tend in Hin. apply nth_error_Some in Hin.
      destruct (nth_error (tokens token_stream) (where_ e)) as [tok|] eqn:Htok;
        [|congruence].
      unfold bind, deref. rewrite Htok. unfold ret at 1.
      rewrite IH by exact Hrest. reflexivity.
  - rewrite IH by exact Hrest. reflexivity.
Qed.

Lemma giveup_to_expected_loop_reads_past : forall what es s0 c,
  (exists x, In x es /\ status x = GiveUp /\ String.eqb (error x) "" = false /\
             tend token_stream <= where_ x) ->
  giveup_to_expected_loop token_to_string token_stream what es s0 c
  = Stuck InvalidDereference.
Proof.
  intros what es. induction es as [|e es IH]; intros s0 c (x & Hin & Hst & Hmsg & Hout);
    [destruct Hin|].
  cbn [giveup_to_expected_loop].
  destruct (is_GiveUp (status e)) eqn:Hg.
  - destruct (String.eqb (error e) "") eqn:Hmsg'.
    + destruct Hin as [->|Hin]; [congruence|].
      apply IH. exists x. repeat split; assumption.
    + destruct (nth_error (tokens token_stream) (where_ e)) as [tok|] eqn:Htok.
      * unfold bind, deref. rewrite Htok. unfold ret at 1.
        destruct Hin as [->|Hin].
        -- exfalso. assert (where_ x < List.length (tokens token_stream))
             by (apply nth_error_Some; congruence).
           unfold tend in Hout. lia.
        -- apply IH. exists x. repeat split; assumption.
      * unfold bind, deref. rewrite Htok. reflexivity.
  - destruct Hin as [->|Hin]; [rewrite Hst in Hg; discriminate Hg|].
    apply IH. exists x. repeat split; assumption.
Qed.

(** X17. [giveup_to_expected] with [what] rewrites a failure entry by
    entry, in order: a [GiveUp] becomes the [Error] ["expected <what>"] at
    the same token, followed, when the give-up had a message, by an
    [ErrorNote] ["<message> instead of this '<token>'"] naming the token at
    that iterator; other entries are kept.  This needs a token at the
    iterator of every give-up with a message: one stored at [tokens.end()]
    makes the function read past the tokens. *)
Theorem giveup_to_expected_what_promotes : forall what e es c,
  ((forall x, In x (e :: es) -> status x = GiveUp ->
      String.eqb (error x) "" = false -> where_ x < tend token_stream) ->
   giveup_to_expected_what token_to_string token_stream (Failure (e :: es)) what c
   = Ok (Failure (flat_map (expected_entries token_to_string token_stream what)
                    (e :: es)), c)) /\
  ((exists x, In x (e :: es) /\ status x = GiveUp /\
              String.eqb (error x) "" = false /\ tend token_stream <= where_ x) ->
   giveup_to_expected_what token_to_string token_stream (Failure (e :: es)) what c
   = Stuck InvalidDereference).
Proof.
  intros what e es c. split.
  - intro Hplaced. cbn [giveup_to_expected_what].
    rewrite giveup_to_expected_loop_entries by exact Hplaced.
    rewrite add_errors_Success; [reflexivity|].
    cbn [flat_map]. unfold expected_entries at 1.
    destruct (is_GiveUp (status e)); discriminate.
  - intro Hout. cbn [giveup_to_expected_what].
    apply giveup_to_expected_loop_reads_past. exact Hout.
Qed.

End PromotionWithWhat.

Lemma giveup_to_expected_what_promotes_witness :
  giveup_to_expected_what Examples.token_spelling Examples.lone_identifier
    (Failure [ {| status := GiveUp; where_ := 1; error := "identifier" |} ])
    "declarator" Examples.fresh_context
  = Ok (Failure
          (flat_map (expected_entries Examples.token_spelling Examples.lone_identifier
                       "declarator")
             [ {| status := GiveUp; where_ := 1; error := "identifier" |} ]),
        Examples.fresh_context)
  /\
  giveup_to_expected_what Examples.token_spelling Examples.lone_identifier
    (Failure [ {| status := GiveUp; where_ := 3; error := "identifier" |} ])
    "declarator" Examples.fresh_context
  = Stuck InvalidDereference.
Proof.
  split.
  - apply (proj1 (giveup_to_expected_what_promotes Examples.token_spelling
                    Examples.lone_identifier "declarator"
                    {| status := GiveUp; where_ := 1; error := "identifier" |} []
                    Examples.fresh_context)).
    intros x [<-|[]] _ _. vm_compute. lia.
  - apply (proj2 (giveup_to_expected_what_promotes Examples.token_spelling
                    Examples.lone_identifier "declarator"
                    {| status := GiveUp; where_ := 3; error := "identifier" |} []
                    Examples.fresh_context)).
    exists {| status := GiveUp; where_ := 3; error := "identifier" |}.
    split; [left; reflexivity|]. split; [reflexivity|]. split; [reflexivity|].
    vm_compute. lia.
Defined.

(** * Every error points into the tokens *)

Section PlacedStates.

Variable token_stream : TokenStream.

Local Abbreviation placed_here := (placed token_stream).

Lemma placed_Success : forall t, placed_here (Success t).
Proof. intro t. constructor. Qed.

Lemma placed_make_error : forall st pos msg,
  pos <= tend token_stream -> placed_here (make_error st pos msg).
Proof. intros st pos msg H. constructor; [exact H|constructor]. Qed.

Lemma placed_add_error : forall s e,
  placed_here s -> where_ e <= tend token_stream -> placed_here (add_error s e).
Proof.
  intros s e Hs He. rewrite add_error_errors_of. unfold placed. cbn [errors_of].
  apply Forall_app. split; [exact Hs|]. constructor; [exact He|constructor].
Qed.

Lemma placed_add_errors : forall es s,
  placed_here s -> Forall (fun e => where_ e <= tend token_stream) es ->
  placed_here (add_errors s es).
Proof.
  induction es as [|e es IH]; intros s Hs Hes; [exact Hs|].
  inversion Hes; subst. rewrite add_errors_cons. apply IH; [|assumption].
  apply placed_add_error; assumption.
Qed.

Lemma placed_add_error_state : forall s o,
  placed_here s -> placed_here o -> placed_here (add_error_state s o).
Proof.
  intros s [es|t] Hs Ho; cbn [add_error_state]; [|exact Hs].
  apply placed_add_errors; [exact Hs|exact Ho].
Qed.

Lemma placed_add_node : forall s n, placed_here s -> placed_here (add_node s n).
Proof.
  intros s n Hs. unfold placed. rewrite (proj1 (add_node_errors_of s n)). exact Hs.
Qed.

Lemma placed_giveup_to_expected : forall s,
  placed_here s -> placed_here (giveup_to_expected s).
Proof.
  intros [[|e es]|t] Hs; [constructor| |exact Hs].
  rewrite giveup_to_expected_cons. unfold placed in *. cbn [errors_of] in *.
  apply Forall_map. revert Hs. apply Forall_impl. intros a Ha.
  unfold promoted. destruct (is_GiveUp (status a)); exact Ha.
Qed.

Lemma safe_placed_add_state : forall s o,
  placed_here s -> placed_here o -> safe (add_state s o) placed_here.
Proof.
  intros s [es|[t|]] Hs Ho; cbn [add_state].
  - apply safe_ret. apply placed_add_error_state; assumption.
  - apply safe_ret. apply placed_add_node. exact Hs.
  - apply safe_stuck.
Qed.

End PlacedStates.

Section PlacedPrimitives.

Variable token_to_string : TokenType.t -> string.
Variable token_stream : TokenStream.

Local Abbreviation placed_here := (placed token_stream).

Lemma safe_placed_giveup_to_expected_loop : forall what es s0,
  Forall (fun e => where_ e <= tend token_stream) es ->
  placed_here s0 ->
  safe (giveup_to_expected_loop token_to_string token_stream what es s0) placed_here.
Proof.
  intros what es. induction es as [|e es IH]; intros s0 Hes H0.
  - apply safe_ret. exact H0.
  - inversion Hes as [|? ? He Hrest]; subst. cbn [giveup_to_expected_loop].
    destruct (is_GiveUp (status e)).
    + destruct (String.eqb (error e) "").
      * apply IH; [exact Hrest|]. apply placed_add_error; [exact H0|exact He].
      * eapply safe_bind; [apply safe_any|]. intros tok _.
        apply IH; [exact Hrest|].
        apply placed_add_error; [|exact He].
        apply placed_add_error; [exact H0|exact He].
    + apply IH; [exact Hrest|]. apply placed_add_error; [exact H0|exact He].
Qed.

Lemma safe_placed_giveup_to_expected_what : forall s what,
  placed_here s ->
  safe (giveup_to_expected_what token_to_string token_stream s what) placed_here.
Proof.
  intros [es|t] what Hs; cbn [giveup_to_expected_what].
  - apply safe_placed_giveup_to_expected_loop; [exact Hs|constructor].
  - apply safe_ret. exact Hs.
Qed.

Lemma safe_and : forall (A : Type) (m : M A) (P Q : A -> Prop),
  safe m P -> safe m Q -> safe m (fun a => P a /\ Q a).
Proof. intros A m P Q HP HQ c a c' H. split; [exact (HP _ _ _ H)|exact (HQ _ _ _ H)]. Qed.

Lemma safe_placed_expect_token : forall s it k,
  placed_here s -> it <= tend token_stream ->
  safe (expect_token token_to_string token_stream s it k)
    (fun r => (fst r = true -> it < tend token_stream) /\ placed_here (snd r)).
Proof.
  intros s it k Hs Hit. apply safe_and; [apply range_expect_token|].
  unfold expect_token.
  destruct (negb _); [|apply safe_ret; exact Hs].
  eapply safe_bind; [apply safe_any|]. intros tok _.
  destruct (negb _); apply safe_ret; cbn [snd]; [|exact Hs].
  apply placed_add_error_state; [exact Hs|]. apply placed_make_error. exact Hit.
Qed.

Lemma safe_placed_expect_end_token : forall s begin it k,
  placed_here s -> begin <= tend token_stream -> it <= tend token_stream ->
  safe (expect_end_token token_to_string token_stream s begin it k)
    (fun r => (fst r = true -> it < tend token_stream) /\ placed_here (snd r)).
Proof.
  intros s begin it k Hs Hbegin Hit. apply safe_and; [apply range_expect_end_token|].
  unfold expect_end_token.
  destruct (negb _).
  - eapply safe_bind; [apply safe_any|]. intros tok _.
    destruct (negb _); [|apply safe_ret; exact Hs].
    eapply safe_bind; [apply safe_any|]. intros open _.
    apply safe_ret. cbn [snd].
    apply placed_add_error_state; [|apply placed_make_error; exact Hbegin].
    apply placed_add_error_state; [exact Hs|apply placed_make_error; exact Hit].
  - apply safe_ret. cbn [snd].
    apply placed_add_error_state; [exact Hs|apply placed_make_error; exact Hbegin].
Qed.

Lemma safe_placed_giveup_at : forall begin what lo,
  lo <= tend token_stream -> begin <= tend token_stream ->
  safe (giveup_at token_stream begin what) (placed_result token_stream lo).
Proof.
  intros begin what lo Hlo Hbegin. apply safe_ret. split; [split|].
  - exact Hlo.
  - apply Nat.le_refl.
  - apply placed_make_error. exact Hbegin.
Qed.

End PlacedPrimitives.

Create HintDb placedb.

#[export] Hint Resolve placed_Success placed_make_error placed_add_error_state
  placed_add_node placed_giveup_to_expected : placedb.
#[export] Hint Extern 1 (_ <= _) => solve [range_solve] : placedb.

Ltac placed_clean :=
  repeat match goal with
         | H : placed_result _ _ _ |- _ => unfold placed_result in H; cbn [fst snd] in H
         | H : _ /\ _ |- _ => destruct H
         end;
  range_clean.

Ltac placed_solve :=
  placed_clean; cbn [fst snd];
  repeat match goal with
         | |- context [if ?b then _ else _] => case_on b
         end;
  auto 8 with placedb nocore.

Ltac placed_finish :=
  placed_clean; split; [ solve [range_solve] | solve [placed_solve] ].

Create HintDb placedgo.

#[export] Hint Extern 1 (_ <= _) => solve [range_solve] : placedgo.
#[export] Hint Extern 1 (_ < _) => solve [range_solve] : placedgo.
#[export] Hint Extern 1 (placed _ _) => solve [placed_solve] : placedgo.
#[export] Hint Resolve safe_placed_giveup_to_expected_what
  safe_placed_expect_token safe_placed_expect_end_token : placedgo.
#[export] Hint Extern 1 (safe (add_state _ _) _) =>
  match goal with
  | ts : TokenStream |- _ => apply (@safe_placed_add_state ts)
  end : placedgo.

Ltac placed_go :=
  cbv beta iota zeta;
  lazymatch goal with
  | |- safe _ any => apply safe_any
  | |- safe (ret _) _ => apply safe_ret; solve [placed_finish]
  | |- safe (stuck _) _ => apply safe_stuck
  | |- safe out_of_fuel _ => apply safe_out_of_fuel
  | |- safe (giveup_at _ _ _) _ =>
      apply safe_placed_giveup_at; solve [range_solve]
  | |- safe (bind (bind ?m ?k1) ?k2) ?Q =>
      apply (@safe_bind_assoc _ _ _ m k1 k2 Q); placed_go
  | |- safe (bind (ret ?a) ?k) ?Q => apply (@safe_bind_ret _ _ a k Q); placed_go
  | |- safe (bind (if ?b then _ else _) _) _ => case_on b; placed_go
  | |- safe (bind (match (if ?b then _ else _) with _ => _ end) _) _ =>
      case_on b; placed_go
  | |- safe (bind (match ?x with _ => _ end) _) _ => destruct x; placed_go
  | |- safe (bind ?m ?k) ?Q =>
      let a := fresh "a" in
      let H := fresh "H" in
      eapply (@safe_bind _ _ m k _ Q);
      [ first [ apply range_deref
              | apply range_token_is
              | solve [eauto with placedgo nocore]
              | apply safe_any ]
      | intros a H; cbv beta in H; split_pair a; placed_clean; placed_go ]
  | |- safe (if ?b then _ else _) _ => case_on b; placed_go
  | |- safe (match ?x with _ => _ end) _ => destruct x; placed_go
  | |- safe ?m ?Q =>
      eapply (@safe_weaken _ m _ Q);
      [ solve [eauto with placedgo nocore]
      | let a := fresh "a" in
        let H := fresh "H" in
        intros a H; cbv beta in H; split_pair a; solve [placed_finish] ]
  end.

#[export] Hint Extern 1 (placed_rule _ _) =>
  let it := fresh "it" in
  let H := fresh "H" in
  unfold placed_rule; intros it H; solve [placed_go] : placedgo.
#[export] Hint Extern 1 (Forall (placed_rule _) _) =>
  repeat first [apply Forall_cons | apply Forall_nil] : placedgo.

Section PlacedCombinators.

Variable token_to_string : TokenType.t -> string.
Variable contains : SourceRange -> SourceLocation -> bool.
Variable token_stream : TokenStream.
Variable fuel : nat.

Local Abbreviation rule_ok := (placed_rule token_stream).
Local Abbreviation result_ok := (placed_result token_stream).
Local Abbreviation state_ok := (placed token_stream).

Lemma placed_parser_one_of : forall rules begin what,
  begin <= tend token_stream ->
  Forall rule_ok rules ->
  safe (parser_one_of token_stream begin what rules) (result_ok begin).
Proof.
  induction rules as [|rule rules IH]; intros begin what Hbegin Hall;
    cbn [parser_one_of].
  - apply safe_placed_giveup_at; exact Hbegin.
  - inversion Hall as [|? ? Hrule Hrest]; subst.
    eapply safe_bind; [apply Hrule; exact Hbegin|]. intros [it state] Hres.
    destruct (negb _); [apply safe_ret; exact Hres|]. apply IH; assumption.
Qed.

Lemma placed_many_of_loop : forall rule pred,
  rule_ok rule ->
  forall n it s, it <= tend token_stream -> state_ok s ->
  safe (many_of_loop token_stream rule pred n it s) (result_ok it).
Proof.
  intros rule pred Hrule. induction n as [|n IH]; intros it s Hit Hs;
    cbn [many_of_loop]; placed_go.
Qed.

Lemma placed_one_many_of_loop : forall rule,
  rule_ok rule ->
  forall n it s, it <= tend token_stream -> state_ok s ->
  safe (one_many_of_loop contains token_stream rule n it s) (result_ok it).
Proof.
  intros rule Hrule. induction n as [|n IH]; intros it s Hit Hs;
    cbn [one_many_of_loop]; placed_go.
Qed.

Lemma placed_one_many_of_while_loop : forall rule pred,
  rule_ok rule ->
  forall n it s, it <= tend token_stream -> state_ok s ->
  safe (one_many_of_while_loop token_stream rule pred n it s) (result_ok it).
Proof.
  intros rule pred Hrule. induction n as [|n IH]; intros it s Hit Hs;
    cbn [one_many_of_while_loop]; placed_go.
Qed.

Lemma placed_left_binary_loop : forall op_rule rhs_rule,
  rule_ok op_rule -> rule_ok rhs_rule ->
  forall n it s, it <= tend token_stream -> state_ok s ->
  safe (left_binary_loop token_to_string token_stream op_rule rhs_rule n it s)
    (result_ok it).
Proof.
  intros op_rule rhs_rule Hop Hrhs. induction n as [|n IH]; intros it s Hit Hs;
    cbn [left_binary_loop]; placed_go.
Qed.

Lemma placed_list_of_loop : forall rule allow,
  rule_ok rule ->
  forall n it s, it <= tend token_stream -> state_ok s ->
  safe (list_of_loop token_stream rule allow n it s) (result_ok it).
Proof.
  intros rule allow Hrule. induction n as [|n IH]; intros it s Hit Hs;
    cbn [list_of_loop]; placed_go.
Qed.

Lemma placed_parser_many_of : forall rule pred begin,
  rule_ok rule -> begin <= tend token_stream ->
  safe (parser_many_of token_stream fuel begin rule pred) (result_ok begin).
Proof.
  intros rule pred begin Hrule Hbegin. unfold parser_many_of.
  pose proof (placed_many_of_loop pred Hrule) as Hloop. placed_go.
Qed.

Lemma placed_parser_one_many_of : forall rule begin what,
  rule_ok rule -> begin <= tend token_stream ->
  safe (parser_one_many_of contains token_stream fuel begin what rule)
    (result_ok begin).
Proof.
  intros rule begin what Hrule Hbegin. unfold parser_one_many_of.
  pose proof (placed_one_many_of_loop Hrule) as Hloop. placed_go.
Qed.

Lemma placed_parser_one_many_of_while : forall rule pred begin what,
  rule_ok rule -> begin <= tend token_stream ->
  safe (parser_one_many_of_while token_stream fuel begin what rule pred)
    (result_ok begin).
Proof.
  intros rule pred begin what Hrule Hbegin. unfold parser_one_many_of_while.
  pose proof (placed_one_many_of_while_loop pred Hrule) as Hloop. placed_go.
Qed.

Lemma placed_parser_operator : forall op_type op_match,
  rule_ok (parser_operator token_stream op_type op_match).
Proof. intros op_type op_match it Hit. unfold parser_operator. placed_go. Qed.

Lemma placed_parser_left_binary_operator : forall lhs_rule op_rule rhs_rule,
  rule_ok lhs_rule -> rule_ok op_rule -> rule_ok rhs_rule ->
  rule_ok (parser_left_binary_operator token_to_string token_stream fuel
             lhs_rule op_rule rhs_rule).
Proof.
  intros lhs_rule op_rule rhs_rule Hlhs Hop Hrhs it Hit.
  unfold parser_left_binary_operator.
  pose proof (placed_left_binary_loop Hop Hrhs) as Hloop. placed_go.
Qed.

Lemma placed_parser_right_binary_operator : forall lhs_rule op_rule rhs_rule,
  rule_ok lhs_rule -> rule_ok op_rule -> rule_ok rhs_rule ->
  rule_ok (parser_right_binary_operator token_to_string token_stream
             lhs_rule op_rule rhs_rule).
Proof.
  intros lhs_rule op_rule rhs_rule Hlhs Hop Hrhs it Hit.
  unfold parser_right_binary_operator. placed_go.
Qed.

Lemma placed_parser_opt : forall rule, rule_ok rule -> rule_ok (parser_opt rule).
Proof. intros rule Hrule it Hit. unfold parser_opt. placed_go. Qed.

Lemma placed_parser_parens : forall rule left_brace right_brace,
  rule_ok rule ->
  rule_ok (parser_parens token_to_string token_stream rule left_brace right_brace).
Proof. intros rule l r Hrule it Hit. unfold parser_parens. placed_go. Qed.

Lemma placed_parser_list_of : forall rule allow,
  rule_ok rule -> rule_ok (parser_list_of token_stream fuel rule allow).
Proof.
  intros rule allow Hrule it Hit. unfold parser_list_of.
  pose proof (placed_list_of_loop allow Hrule) as Hloop. placed_go.
Qed.

End PlacedCombinators.

#[export] Hint Extern 1 (safe (parser_one_of _ _ _ _) _) =>
  eapply placed_parser_one_of : placedgo.
#[export] Hint Extern 1 (safe (parser_many_of _ _ _ _ _) _) =>
  eapply placed_parser_many_of : placedgo.
#[export] Hint Extern 1 (safe (parser_one_many_of _ _ _ _ _ _) _) =>
  eapply placed_parser_one_many_of : placedgo.
#[export] Hint Extern 1 (safe (parser_one_many_of_while _ _ _ _ _ _) _) =>
  eapply placed_parser_one_many_of_while : placedgo.
#[export] Hint Extern 1 (safe (parser_operator _ _ _ _) _) =>
  eapply placed_parser_operator : placedgo.
#[export] Hint Extern 1 (safe (parser_left_binary_operator _ _ _ _ _ _ _) _) =>
  eapply placed_parser_left_binary_operator : placedgo.
#[export] Hint Extern 1 (safe (parser_right_binary_operator _ _ _ _ _ _) _) =>
  eapply placed_parser_right_binary_operator : placedgo.
#[export] Hint Extern 1 (safe (parser_opt _ _) _) => eapply placed_parser_opt : placedgo.
#[export] Hint Extern 1 (safe (parser_parens _ _ _ _ _ _) _) =>
  eapply placed_parser_parens : placedgo.
#[export] Hint Extern 1 (safe (parser_list_of _ _ _ _ _) _) =>
  eapply placed_parser_list_of : placedgo.

(** ** Every grammar rule places its errors *)

Section PlacedRules.

Variable token_to_string : TokenType.t -> string.
Variable contains : SourceRange -> SourceLocation -> bool.
Variable token_stream : TokenStream.
Variable fuel : nat.
Variable self : RuleName -> Rule.
Hypothesis placed_self : forall r it,
  it <= tend token_stream -> safe (self r it) (placed_result token_stream it).

Lemma placed_parser_identifier : forall begin,
  begin <= tend token_stream ->
  safe (parser_identifier token_stream begin)
    (placed_result token_stream begin).
Proof. intros begin Hbegin. unfold parser_identifier. placed_go. Qed.

#[local] Hint Resolve placed_parser_identifier : placedgo.

Lemma placed_parser_identifier_list : forall begin,
  begin <= tend token_stream ->
  safe (parser_identifier_list token_to_string token_stream fuel begin)
    (placed_result token_stream begin).
Proof. intros begin Hbegin. unfold parser_identifier_list. placed_go. Qed.

#[local] Hint Resolve placed_parser_identifier_list : placedgo.

Lemma placed_parser_string_literal : forall begin,
  begin <= tend token_stream ->
  safe (parser_string_literal token_stream begin)
    (placed_result token_stream begin).
Proof. intros begin Hbegin. unfold parser_string_literal. placed_go. Qed.

#[local] Hint Resolve placed_parser_string_literal : placedgo.

Lemma placed_parser_string_literal_list : forall begin,
  begin <= tend token_stream ->
  safe (parser_string_literal_list token_stream fuel begin)
    (placed_result token_stream begin).
Proof. intros begin Hbegin. unfold parser_string_literal_list. placed_go. Qed.

#[local] Hint Resolve placed_parser_string_literal_list : placedgo.

Lemma placed_parser_constant : forall begin,
  begin <= tend token_stream ->
  safe (parser_constant token_stream begin)
    (placed_result token_stream begin).
Proof. intros begin Hbegin. unfold parser_constant. placed_go. Qed.

#[local] Hint Resolve placed_parser_constant : placedgo.

Lemma placed_parser_parameter_declaration : forall begin,
  begin <= tend token_stream ->
  safe (parser_parameter_declaration token_stream self begin)
    (placed_result token_stream begin).
Proof. intros begin Hbegin. unfold parser_parameter_declaration. placed_go. Qed.

#[local] Hint Resolve placed_parser_parameter_declaration : placedgo.

Lemma placed_parameter_list_loop : forall n it s,
  it <= tend token_stream -> placed token_stream s ->
  safe (parameter_list_loop token_stream self n it s)
    (placed_result token_stream it).
Proof.
  induction n as [|n IH]; intros it s Hit Hs; cbn [parameter_list_loop]; [apply safe_out_of_fuel|].
  placed_go.
Qed.

#[local] Hint Resolve placed_parameter_list_loop : placedgo.

Lemma placed_parser_parameter_type_list : forall begin,
  begin <= tend token_stream ->
  safe (parser_parameter_type_list token_stream fuel self begin)
    (placed_result token_stream begin).
Proof. intros begin Hbegin. unfold parser_parameter_type_list. placed_go. Qed.

#[local] Hint Resolve placed_parser_parameter_type_list : placedgo.

Lemma placed_parser_typedef_name : forall begin,
  begin <= tend token_stream ->
  safe (parser_typedef_name token_stream begin)
    (placed_result token_stream begin).
Proof. intros begin Hbegin. unfold parser_typedef_name. placed_go. Qed.

#[local] Hint Resolve placed_parser_typedef_name : placedgo.

Lemma placed_parser_atomic_type_specifier : forall begin,
  begin <= tend token_stream ->
  safe (parser_atomic_type_specifier token_to_string token_stream self begin)
    (placed_result token_stream begin).
Proof. intros begin Hbegin. unfold parser_atomic_type_specifier. placed_go. Qed.

#[local] Hint Resolve placed_parser_atomic_type_specifier : placedgo.

Lemma placed_parser_type_specifier : forall begin,
  begin <= tend token_stream ->
  safe (parser_type_specifier token_to_string token_stream self begin)
    (placed_result token_stream begin).
Proof. intros begin Hbegin. unfold parser_type_specifier. placed_go. Qed.

#[local] Hint Resolve placed_parser_type_specifier : placedgo.

Lemma placed_parser_type_qualifier : forall begin,
  begin <= tend token_stream ->
  safe (parser_type_qualifier token_stream begin)
    (placed_result token_stream begin).
Proof. intros begin Hbegin. unfold parser_type_qualifier. placed_go. Qed.

#[local] Hint Resolve placed_parser_type_qualifier : placedgo.

Lemma placed_parser_type_qualifier_list : forall begin,
  begin <= tend token_stream ->
  safe (parser_type_qualifier_list token_stream fuel begin)
    (placed_result token_stream begin).
Proof. intros begin Hbegin. unfold parser_type_qualifier_list. placed_go. Qed.

#[local] Hint Resolve placed_parser_type_qualifier_list : placedgo.

Lemma placed_parser_pointer : forall begin,
  begin <= tend token_stream ->
  safe (parser_pointer token_to_string token_stream fuel self begin)
    (placed_result token_stream begin).
Proof. intros begin Hbegin. unfold parser_pointer. placed_go. Qed.

#[local] Hint Resolve placed_parser_pointer : placedgo.

Lemma placed_abstract_function_declarator : forall begin,
  begin <= tend token_stream ->
  safe (abstract_function_declarator token_stream fuel self begin)
    (placed_result token_stream begin).
Proof. intros begin Hbegin. unfold abstract_function_declarator. placed_go. Qed.

#[local] Hint Resolve placed_abstract_function_declarator : placedgo.

Lemma placed_abstract_array_declarator : forall begin,
  begin <= tend token_stream ->
  safe (abstract_array_declarator token_to_string token_stream fuel self begin)
    (placed_result token_stream begin).
Proof. intros begin Hbegin. unfold abstract_array_declarator. placed_go. Qed.

#[local] Hint Resolve placed_abstract_array_declarator : placedgo.

Lemma placed_abstract_array_declarator_production : forall begin,
  begin <= tend token_stream ->
  safe (abstract_array_declarator_production token_to_string token_stream fuel self begin)
    (placed_result token_stream begin).
Proof. intros begin Hbegin. unfold abstract_array_declarator_production. placed_go. Qed.

#[local] Hint Resolve placed_abstract_array_declarator_production : placedgo.

Lemma placed_direct_abstract_declarator_loop : forall n it s,
  it <= tend token_stream -> placed token_stream s ->
  safe (direct_abstract_declarator_loop token_to_string token_stream fuel self n it s)
    (placed_result token_stream it).
Proof.
  induction n as [|n IH]; intros it s Hit Hs; cbn [direct_abstract_declarator_loop]; [apply safe_out_of_fuel|].
  placed_go.
Qed.

#[local] Hint Resolve placed_direct_abstract_declarator_loop : placedgo.

Lemma placed_parser_direct_abstract_declarator : forall begin,
  begin <= tend token_stream ->
  safe (parser_direct_abstract_declarator token_to_string token_stream fuel self begin)
    (placed_result token_stream begin).
Proof. intros begin Hbegin. unfold parser_direct_abstract_declarator. placed_go. Qed.

#[local] Hint Resolve placed_parser_direct_abstract_declarator : placedgo.

Lemma placed_parser_abstract_declarator : forall begin,
  begin <= tend token_stream ->
  safe (parser_abstract_declarator token_to_string token_stream fuel self begin)
    (placed_result token_stream begin).
Proof. intros begin Hbegin. unfold parser_abstract_declarator. placed_go. Qed.

#[local] Hint Resolve placed_parser_abstract_declarator : placedgo.

Lemma placed_specifier_or_qualifier : forall begin,
  begin <= tend token_stream ->
  safe (specifier_or_qualifier token_to_string token_stream self begin)
    (placed_result token_stream begin).
Proof. intros begin Hbegin. unfold specifier_or_qualifier. placed_go. Qed.

#[local] Hint Resolve placed_specifier_or_qualifier : placedgo.

Lemma placed_specifier_qualifier_loop : forall n it s,
  it <= tend token_stream -> placed token_stream s ->
  safe (specifier_qualifier_loop token_to_string token_stream self n it s)
    (placed_result token_stream it).
Proof.
  induction n as [|n IH]; intros it s Hit Hs; cbn [specifier_qualifier_loop]; [apply safe_out_of_fuel|].
  placed_go.
Qed.

#[local] Hint Resolve placed_specifier_qualifier_loop : placedgo.

Lemma placed_parser_specifier_qualifier_list : forall begin,
  begin <= tend token_stream ->
  safe (parser_specifier_qualifier_list token_to_string token_stream fuel self begin)
    (placed_result token_stream begin).
Proof. intros begin Hbegin. unfold parser_specifier_qualifier_list. placed_go. Qed.

#[local] Hint Resolve placed_parser_specifier_qualifier_list : placedgo.

Lemma placed_parser_type_name : forall begin,
  begin <= tend token_stream ->
  safe (parser_type_name token_to_string token_stream fuel self begin)
    (placed_result token_stream begin).
Proof. intros begin Hbegin. unfold parser_type_name. placed_go. Qed.

#[local] Hint Resolve placed_parser_type_name : placedgo.

Lemma placed_parser_constant_expression : forall begin,
  begin <= tend token_stream ->
  safe (parser_constant_expression self begin)
    (placed_result token_stream begin).
Proof. intros begin Hbegin. unfold parser_constant_expression. placed_go. Qed.

#[local] Hint Resolve placed_parser_constant_expression : placedgo.

Lemma placed_static_assert_args_production : forall begin,
  begin <= tend token_stream ->
  safe (static_assert_args_production token_to_string token_stream fuel self begin)
    (placed_result token_stream begin).
Proof. intros begin Hbegin. unfold static_assert_args_production. placed_go. Qed.

#[local] Hint Resolve placed_static_assert_args_production : placedgo.

Lemma placed_parser_static_assert_declaration : forall begin,
  begin <= tend token_stream ->
  safe (parser_static_assert_declaration token_to_string token_stream fuel self begin)
    (placed_result token_stream begin).
Proof. intros begin Hbegin. unfold parser_static_assert_declaration. placed_go. Qed.

#[local] Hint Resolve placed_parser_static_assert_declaration : placedgo.

Lemma placed_array_declarator_production : forall begin,
  begin <= tend token_stream ->
  safe (array_declarator_production token_to_string token_stream fuel self begin)
    (placed_result token_stream begin).
Proof. intros begin Hbegin. unfold array_declarator_production. placed_go. Qed.

#[local] Hint Resolve placed_array_declarator_production : placedgo.

Lemma placed_ident_or_decl_production : forall begin,
  begin <= tend token_stream ->
  safe (ident_or_decl_production token_to_string token_stream self begin)
    (placed_result token_stream begin).
Proof. intros begin Hbegin. unfold ident_or_decl_production. placed_go. Qed.

#[local] Hint Resolve placed_ident_or_decl_production : placedgo.

Lemma placed_direct_declarator_loop : forall n it s,
  it <= tend token_stream -> placed token_stream s ->
  safe (direct_declarator_loop token_to_string token_stream fuel self n it s)
    (placed_result token_stream it).
Proof.
  induction n as [|n IH]; intros it s Hit Hs; cbn [direct_declarator_loop]; [apply safe_out_of_fuel|].
  placed_go.
Qed.

#[local] Hint Resolve placed_direct_declarator_loop : placedgo.

Lemma placed_parser_direct_declarator : forall begin,
  begin <= tend token_stream ->
  safe (parser_direct_declarator token_to_string token_stream fuel self begin)
    (placed_result token_stream begin).
Proof. intros begin Hbegin. unfold parser_direct_declarator. placed_go. Qed.

#[local] Hint Resolve placed_parser_direct_declarator : placedgo.

Lemma placed_parser_declarator : forall begin,
  begin <= tend token_stream ->
  safe (parser_declarator token_to_string token_stream fuel self begin)
    (placed_result token_stream begin).
Proof. intros begin Hbegin. unfold parser_declarator. placed_go. Qed.

#[local] Hint Resolve placed_parser_declarator : placedgo.

Lemma placed_parser_init_declarator : forall begin,
  begin <= tend token_stream ->
  safe (parser_init_declarator token_to_string token_stream fuel self begin)
    (placed_result token_stream begin).
Proof. intros begin Hbegin. unfold parser_init_declarator. placed_go. Qed.

#[local] Hint Resolve placed_parser_init_declarator : placedgo.

Lemma placed_parser_init_declarator_list : forall begin,
  begin <= tend token_stream ->
  safe (parser_init_declarator_list token_to_string token_stream fuel self begin)
    (placed_result token_stream begin).
Proof. intros begin Hbegin. unfold parser_init_declarator_list. placed_go. Qed.

#[local] Hint Resolve placed_parser_init_declarator_list : placedgo.

Lemma placed_parser_storage_class_specifier : forall begin,
  begin <= tend token_stream ->
  safe (parser_storage_class_specifier token_stream begin)
    (placed_result token_stream begin).
Proof. intros begin Hbegin. unfold parser_storage_class_specifier. placed_go. Qed.

#[local] Hint Resolve placed_parser_storage_class_specifier : placedgo.

Lemma placed_parser_function_specifier : forall begin,
  begin <= tend token_stream ->
  safe (parser_function_specifier token_to_string token_stream begin)
    (placed_result token_stream begin).
Proof. intros begin Hbegin. unfold parser_function_specifier. placed_go. Qed.

#[local] Hint Resolve placed_parser_function_specifier : placedgo.

Lemma placed_alignas_arg_production : forall begin,
  begin <= tend token_stream ->
  safe (alignas_arg_production token_to_string token_stream fuel self begin)
    (placed_result token_stream begin).
Proof. intros begin Hbegin. unfold alignas_arg_production. placed_go. Qed.

#[local] Hint Resolve placed_alignas_arg_production : placedgo.

Lemma placed_parser_alignment_specifier : forall begin,
  begin <= tend token_stream ->
  safe (parser_alignment_specifier token_to_string token_stream fuel self begin)
    (placed_result token_stream begin).
Proof. intros begin Hbegin. unfold parser_alignment_specifier. placed_go. Qed.

#[local] Hint Resolve placed_parser_alignment_specifier : placedgo.

Lemma placed_parser_declaration_specifier : forall begin,
  begin <= tend token_stream ->
  safe (parser_declaration_specifier token_to_string token_stream fuel self begin)
    (placed_result token_stream begin).
Proof. intros begin Hbegin. unfold parser_declaration_specifier. placed_go. Qed.

#[local] Hint Resolve placed_parser_declaration_specifier : placedgo.

Lemma placed_parser_declaration_specifiers : forall begin,
  begin <= tend token_stream ->
  safe (parser_declaration_specifiers token_to_string contains token_stream fuel self begin)
    (placed_result token_stream begin).
Proof. intros begin Hbegin. unfold parser_declaration_specifiers. placed_go. Qed.

#[local] Hint Resolve placed_parser_declaration_specifiers : placedgo.

Lemma placed_parser_declaration : forall begin,
  begin <= tend token_stream ->
  safe (parser_declaration token_to_string contains token_stream fuel self begin)
    (placed_result token_stream begin).
Proof. intros begin Hbegin. unfold parser_declaration. placed_go. Qed.

#[local] Hint Resolve placed_parser_declaration : placedgo.

Lemma placed_parser_enumeration_constant : forall begin,
  begin <= tend token_stream ->
  safe (parser_enumeration_constant token_stream begin)
    (placed_result token_stream begin).
Proof. intros begin Hbegin. unfold parser_enumeration_constant. placed_go. Qed.

#[local] Hint Resolve placed_parser_enumeration_constant : placedgo.

Lemma placed_enumerator_production : forall begin,
  begin <= tend token_stream ->
  safe (enumerator_production token_to_string token_stream self begin)
    (placed_result token_stream begin).
Proof. intros begin Hbegin. unfold enumerator_production. placed_go. Qed.

#[local] Hint Resolve placed_enumerator_production : placedgo.

Lemma placed_enum_list_production : forall begin,
  begin <= tend token_stream ->
  safe (enum_list_production token_to_string token_stream fuel self begin)
    (placed_result token_stream begin).
Proof. intros begin Hbegin. unfold enum_list_production. placed_go. Qed.

#[local] Hint Resolve placed_enum_list_production : placedgo.

Lemma placed_missing_semicolon_check : forall spec it msg,
  placed token_stream spec -> it <= tend token_stream ->
  safe (missing_semicolon_check token_stream spec it msg) (placed token_stream).
Proof.
  intros spec it msg Hs Hit. unfold missing_semicolon_check.
  eapply safe_bind; [apply safe_any|]. intros inside _.
  destruct (inside && is_success spec); [|apply safe_ret; exact Hs].
  eapply safe_bind; [apply safe_any|]. intros semi _.
  destruct (_ && _); [|apply safe_ret; exact Hs].
  eapply safe_bind; [apply safe_any|]. intros declarator _.
  destruct (negb declarator); apply safe_ret; [|exact Hs].
  apply placed_add_error_state; [exact Hs|]. apply placed_make_error.
  unfold prev. lia.
Qed.

#[local] Hint Resolve placed_missing_semicolon_check : placedgo.

Lemma placed_parser_enum_specifier : forall begin,
  begin <= tend token_stream ->
  safe (parser_enum_specifier token_to_string token_stream fuel self begin)
    (placed_result token_stream begin).
Proof. intros begin Hbegin. unfold parser_enum_specifier. placed_go. Qed.

#[local] Hint Resolve placed_parser_enum_specifier : placedgo.

Lemma placed_struct_declarator : forall msg begin,
  begin <= tend token_stream ->
  safe (struct_declarator token_to_string token_stream fuel self msg begin)
    (placed_result token_stream begin).
Proof. intros msg begin Hbegin. unfold struct_declarator. placed_go. Qed.

#[local] Hint Resolve placed_struct_declarator : placedgo.

Lemma placed_struct_declaration : forall msg begin,
  begin <= tend token_stream ->
  safe (struct_declaration token_to_string token_stream fuel self msg begin)
    (placed_result token_stream begin).
Proof. intros msg begin Hbegin. unfold struct_declaration. placed_go. Qed.

#[local] Hint Resolve placed_struct_declaration : placedgo.

Lemma placed_struct_decl_list_production : forall msg begin,
  begin <= tend token_stream ->
  safe (struct_decl_list_production token_to_string token_stream fuel self msg begin)
    (placed_result token_stream begin).
Proof. intros msg begin Hbegin. unfold struct_decl_list_production. placed_go. Qed.

#[local] Hint Resolve placed_struct_decl_list_production : placedgo.

Lemma placed_parser_struct_or_union_specifier : forall begin,
  begin <= tend token_stream ->
  safe (parser_struct_or_union_specifier token_to_string token_stream fuel self begin)
    (placed_result token_stream begin).
Proof. intros begin Hbegin. unfold parser_struct_or_union_specifier. placed_go. Qed.

#[local] Hint Resolve placed_parser_struct_or_union_specifier : placedgo.

Lemma placed_parser_initializer : forall begin,
  begin <= tend token_stream ->
  safe (parser_initializer token_to_string token_stream self begin)
    (placed_result token_stream begin).
Proof. intros begin Hbegin. unfold parser_initializer. placed_go. Qed.

#[local] Hint Resolve placed_parser_initializer : placedgo.

Lemma placed_designator_production : forall begin,
  begin <= tend token_stream ->
  safe (designator_production token_to_string token_stream self begin)
    (placed_result token_stream begin).
Proof. intros begin Hbegin. unfold designator_production. placed_go. Qed.

#[local] Hint Resolve placed_designator_production : placedgo.

Lemma placed_designation_loop : forall n it s,
  it <= tend token_stream -> placed token_stream s ->
  safe (designation_loop token_to_string token_stream self n it s)
    (placed_result token_stream it).
Proof.
  induction n as [|n IH]; intros it s Hit Hs; cbn [designation_loop]; [apply safe_out_of_fuel|].
  placed_go.
Qed.

#[local] Hint Resolve placed_designation_loop : placedgo.

Lemma placed_designation_production : forall begin,
  begin <= tend token_stream ->
  safe (designation_production token_to_string token_stream fuel self begin)
    (placed_result token_stream begin).
Proof. intros begin Hbegin. unfold designation_production. placed_go. Qed.

#[local] Hint Resolve placed_designation_production : placedgo.

Lemma placed_init_list_production : forall begin,
  begin <= tend token_stream ->
  safe (init_list_production token_to_string token_stream fuel self begin)
    (placed_result token_stream begin).
Proof. intros begin Hbegin. unfold init_list_production. placed_go. Qed.

#[local] Hint Resolve placed_init_list_production : placedgo.

Lemma placed_parser_initializer_list : forall begin,
  begin <= tend token_stream ->
  safe (parser_initializer_list token_to_string token_stream fuel self begin)
    (placed_result token_stream begin).
Proof. intros begin Hbegin. unfold parser_initializer_list. placed_go. Qed.

#[local] Hint Resolve placed_parser_initializer_list : placedgo.

Lemma placed_compound_literal_production : forall begin,
  begin <= tend token_stream ->
  safe (compound_literal_production token_to_string token_stream fuel self begin)
    (placed_result token_stream begin).
Proof. intros begin Hbegin. unfold compound_literal_production. placed_go. Qed.

#[local] Hint Resolve placed_compound_literal_production : placedgo.

Lemma placed_postfix_production : forall begin,
  begin <= tend token_stream ->
  safe (postfix_production token_to_string token_stream fuel self begin)
    (placed_result token_stream begin).
Proof. intros begin Hbegin. unfold postfix_production. placed_go. Qed.

#[local] Hint Resolve placed_postfix_production : placedgo.

Lemma placed_postfix_loop : forall n it s,
  it <= tend token_stream -> placed token_stream s ->
  safe (postfix_loop token_to_string token_stream fuel self n it s)
    (placed_result token_stream it).
Proof.
  induction n as [|n IH]; intros it s Hit Hs; cbn [postfix_loop]; [apply safe_out_of_fuel|].
  placed_go.
Qed.

#[local] Hint Resolve placed_postfix_loop : placedgo.

Lemma placed_parser_postfix_expression : forall begin,
  begin <= tend token_stream ->
  safe (parser_postfix_expression token_to_string token_stream fuel self begin)
    (placed_result token_stream begin).
Proof. intros begin Hbegin. unfold parser_postfix_expression. placed_go. Qed.

#[local] Hint Resolve placed_parser_postfix_expression : placedgo.

Lemma placed_incremental_unary_production : forall begin,
  begin <= tend token_stream ->
  safe (incremental_unary_production token_to_string token_stream self begin)
    (placed_result token_stream begin).
Proof. intros begin Hbegin. unfold incremental_unary_production. placed_go. Qed.

#[local] Hint Resolve placed_incremental_unary_production : placedgo.

Lemma placed_unary_cast_production : forall begin,
  begin <= tend token_stream ->
  safe (unary_cast_production token_stream self begin)
    (placed_result token_stream begin).
Proof. intros begin Hbegin. unfold unary_cast_production. placed_go. Qed.

#[local] Hint Resolve placed_unary_cast_production : placedgo.

Lemma placed_parens_type_name : forall begin,
  begin <= tend token_stream ->
  safe (parens_type_name token_to_string token_stream fuel self begin)
    (placed_result token_stream begin).
Proof. intros begin Hbegin. unfold parens_type_name. placed_go. Qed.

#[local] Hint Resolve placed_parens_type_name : placedgo.

Lemma placed_size_of_production : forall begin,
  begin <= tend token_stream ->
  safe (size_of_production token_to_string token_stream fuel self begin)
    (placed_result token_stream begin).
Proof. intros begin Hbegin. unfold size_of_production. placed_go. Qed.

#[local] Hint Resolve placed_size_of_production : placedgo.

Lemma placed_parser_unary_expression : forall begin,
  begin <= tend token_stream ->
  safe (parser_unary_expression token_to_string token_stream fuel self begin)
    (placed_result token_stream begin).
Proof. intros begin Hbegin. unfold parser_unary_expression. placed_go. Qed.

#[local] Hint Resolve placed_parser_unary_expression : placedgo.

Lemma placed_cast_production : forall begin,
  begin <= tend token_stream ->
  safe (cast_production token_to_string token_stream fuel self begin)
    (placed_result token_stream begin).
Proof. intros begin Hbegin. unfold cast_production. placed_go. Qed.

#[local] Hint Resolve placed_cast_production : placedgo.

Lemma placed_parser_cast_expression : forall begin,
  begin <= tend token_stream ->
  safe (parser_cast_expression token_to_string token_stream fuel self begin)
    (placed_result token_stream begin).
Proof. intros begin Hbegin. unfold parser_cast_expression. placed_go. Qed.

#[local] Hint Resolve placed_parser_cast_expression : placedgo.

Lemma placed_multiplicative_operator : forall begin,
  begin <= tend token_stream ->
  safe (multiplicative_operator token_stream begin)
    (placed_result token_stream begin).
Proof. intros begin Hbegin. unfold multiplicative_operator. placed_go. Qed.

#[local] Hint Resolve placed_multiplicative_operator : placedgo.

Lemma placed_parser_multiplicative_expression : forall begin,
  begin <= tend token_stream ->
  safe (parser_multiplicative_expression token_to_string token_stream fuel self begin)
    (placed_result token_stream begin).
Proof. intros begin Hbegin. unfold parser_multiplicative_expression. placed_go. Qed.

#[local] Hint Resolve placed_parser_multiplicative_expression : placedgo.

Lemma placed_additive_operator : forall begin,
  begin <= tend token_stream ->
  safe (additive_operator token_stream begin)
    (placed_result token_stream begin).
Proof. intros begin Hbegin. unfold additive_operator. placed_go. Qed.

#[local] Hint Resolve placed_additive_operator : placedgo.

Lemma placed_parser_additive_expression : forall begin,
  begin <= tend token_stream ->
  safe (parser_additive_expression token_to_string token_stream fuel self begin)
    (placed_result token_stream begin).
Proof. intros begin Hbegin. unfold parser_additive_expression. placed_go. Qed.

#[local] Hint Resolve placed_parser_additive_expression : placedgo.

Lemma placed_shift_operator : forall begin,
  begin <= tend token_stream ->
  safe (shift_operator token_stream begin)
    (placed_result token_stream begin).
Proof. intros begin Hbegin. unfold shift_operator. placed_go. Qed.

#[local] Hint Resolve placed_shift_operator : placedgo.

Lemma placed_parser_shift_expression : forall begin,
  begin <= tend token_stream ->
  safe (parser_shift_expression token_to_string token_stream fuel self begin)
    (placed_result token_stream begin).
Proof. intros begin Hbegin. unfold parser_shift_expression. placed_go. Qed.

#[local] Hint Resolve placed_parser_shift_expression : placedgo.

Lemma placed_relational_operator : forall begin,
  begin <= tend token_stream ->
  safe (relational_operator token_stream begin)
    (placed_result token_stream begin).
Proof. intros begin Hbegin. unfold relational_operator. placed_go. Qed.

#[local] Hint Resolve placed_relational_operator : placedgo.

Lemma placed_parser_relational_expression : forall begin,
  begin <= tend token_stream ->
  safe (parser_relational_expression token_to_string token_stream fuel self begin)
    (placed_result token_stream begin).
Proof. intros begin Hbegin. unfold parser_relational_expression. placed_go. Qed.

#[local] Hint Resolve placed_parser_relational_expression : placedgo.

Lemma placed_equality_operator : forall begin,
  begin <= tend token_stream ->
  safe (equality_operator token_stream begin)
    (placed_result token_stream begin).
Proof. intros begin Hbegin. unfold equality_operator. placed_go. Qed.

#[local] Hint Resolve placed_equality_operator : placedgo.

Lemma placed_parser_equality_expression : forall begin,
  begin <= tend token_stream ->
  safe (parser_equality_expression token_to_string token_stream fuel self begin)
    (placed_result token_stream begin).
Proof. intros begin Hbegin. unfold parser_equality_expression. placed_go. Qed.

#[local] Hint Resolve placed_parser_equality_expression : placedgo.

Lemma placed_and_operator : forall begin,
  begin <= tend token_stream ->
  safe (and_operator token_stream begin)
    (placed_result token_stream begin).
Proof. intros begin Hbegin. unfold and_operator. placed_go. Qed.

#[local] Hint Resolve placed_and_operator : placedgo.

Lemma placed_parser_and_expression : forall begin,
  begin <= tend token_stream ->
  safe (parser_and_expression token_to_string token_stream fuel self begin)
    (placed_result token_stream begin).
Proof. intros begin Hbegin. unfold parser_and_expression. placed_go. Qed.

#[local] Hint Resolve placed_parser_and_expression : placedgo.

Lemma placed_exclusive_or_operator : forall begin,
  begin <= tend token_stream ->
  safe (exclusive_or_operator token_stream begin)
    (placed_result token_stream begin).
Proof. intros begin Hbegin. unfold exclusive_or_operator. placed_go. Qed.

#[local] Hint Resolve placed_exclusive_or_operator : placedgo.

Lemma placed_parser_exclusive_or_expression : forall begin,
  begin <= tend token_stream ->
  safe (parser_exclusive_or_expression token_to_string token_stream fuel self begin)
    (placed_result token_stream begin).
Proof. intros begin Hbegin. unfold parser_exclusive_or_expression. placed_go. Qed.

#[local] Hint Resolve placed_parser_exclusive_or_expression : placedgo.

Lemma placed_inclusive_or_operator : forall begin,
  begin <= tend token_stream ->
  safe (inclusive_or_operator token_stream begin)
    (placed_result token_stream begin).
Proof. intros begin Hbegin. unfold inclusive_or_operator. placed_go. Qed.

#[local] Hint Resolve placed_inclusive_or_operator : placedgo.

Lemma placed_parser_inclusive_or_expression : forall begin,
  begin <= tend token_stream ->
  safe (parser_inclusive_or_expression token_to_string token_stream fuel self begin)
    (placed_result token_stream begin).
Proof. intros begin Hbegin. unfold parser_inclusive_or_expression. placed_go. Qed.

#[local] Hint Resolve placed_parser_inclusive_or_expression : placedgo.

Lemma placed_logical_and_operator : forall begin,
  begin <= tend token_stream ->
  safe (logical_and_operator token_stream begin)
    (placed_result token_stream begin).
Proof. intros begin Hbegin. unfold logical_and_operator. placed_go. Qed.

#[local] Hint Resolve placed_logical_and_operator : placedgo.

Lemma placed_parser_logical_and_expression : forall begin,
  begin <= tend token_stream ->
  safe (parser_logical_and_expression token_to_string token_stream fuel self begin)
    (placed_result token_stream begin).
Proof. intros begin Hbegin. unfold parser_logical_and_expression. placed_go. Qed.

#[local] Hint Resolve placed_parser_logical_and_expression : placedgo.

Lemma placed_logical_or_operator : forall begin,
  begin <= tend token_stream ->
  safe (logical_or_operator token_stream begin)
    (placed_result token_stream begin).
Proof. intros begin Hbegin. unfold logical_or_operator. placed_go. Qed.

#[local] Hint Resolve placed_logical_or_operator : placedgo.

Lemma placed_parser_logical_or_expression : forall begin,
  begin <= tend token_stream ->
  safe (parser_logical_or_expression token_to_string token_stream fuel self begin)
    (placed_result token_stream begin).
Proof. intros begin Hbegin. unfold parser_logical_or_expression. placed_go. Qed.

#[local] Hint Resolve placed_parser_logical_or_expression : placedgo.

Lemma placed_parser_conditional_expression : forall begin,
  begin <= tend token_stream ->
  safe (parser_conditional_expression token_to_string token_stream fuel self begin)
    (placed_result token_stream begin).
Proof. intros begin Hbegin. unfold parser_conditional_expression. placed_go. Qed.

#[local] Hint Resolve placed_parser_conditional_expression : placedgo.

Lemma placed_assign_operator : forall begin,
  begin <= tend token_stream ->
  safe (assign_operator token_stream begin)
    (placed_result token_stream begin).
Proof. intros begin Hbegin. unfold assign_operator. placed_go. Qed.

#[local] Hint Resolve placed_assign_operator : placedgo.

Lemma placed_parser_assignment_expression : forall begin,
  begin <= tend token_stream ->
  safe (parser_assignment_expression token_to_string token_stream fuel self begin)
    (placed_result token_stream begin).
Proof. intros begin Hbegin. unfold parser_assignment_expression. placed_go. Qed.

#[local] Hint Resolve placed_parser_assignment_expression : placedgo.

Lemma placed_comma_operator : forall begin,
  begin <= tend token_stream ->
  safe (comma_operator token_stream begin)
    (placed_result token_stream begin).
Proof. intros begin Hbegin. unfold comma_operator. placed_go. Qed.

#[local] Hint Resolve placed_comma_operator : placedgo.

Lemma placed_parser_expression : forall begin,
  begin <= tend token_stream ->
  safe (parser_expression token_to_string token_stream fuel self begin)
    (placed_result token_stream begin).
Proof. intros begin Hbegin. unfold parser_expression. placed_go. Qed.

#[local] Hint Resolve placed_parser_expression : placedgo.

Lemma placed_parser_parens_expr : forall begin,
  begin <= tend token_stream ->
  safe (parser_parens_expr token_to_string token_stream fuel self begin)
    (placed_result token_stream begin).
Proof. intros begin Hbegin. unfold parser_parens_expr. placed_go. Qed.

#[local] Hint Resolve placed_parser_parens_expr : placedgo.

Lemma placed_parser_primary_expression : forall begin,
  begin <= tend token_stream ->
  safe (parser_primary_expression token_to_string token_stream fuel self begin)
    (placed_result token_stream begin).
Proof. intros begin Hbegin. unfold parser_primary_expression. placed_go. Qed.

#[local] Hint Resolve placed_parser_primary_expression : placedgo.

Lemma placed_parser_statement : forall begin,
  begin <= tend token_stream ->
  safe (parser_statement token_stream self begin)
    (placed_result token_stream begin).
Proof. intros begin Hbegin. unfold parser_statement. placed_go. Qed.

#[local] Hint Resolve placed_parser_statement : placedgo.

Lemma placed_parser_jump_statement : forall begin,
  begin <= tend token_stream ->
  safe (parser_jump_statement token_to_string token_stream fuel self begin)
    (placed_result token_stream begin).
Proof. intros begin Hbegin. unfold parser_jump_statement. placed_go. Qed.

#[local] Hint Resolve placed_parser_jump_statement : placedgo.

Lemma placed_parens_expression : forall begin,
  begin <= tend token_stream ->
  safe (parens_expression token_to_string token_stream fuel self begin)
    (placed_result token_stream begin).
Proof. intros begin Hbegin. unfold parens_expression. placed_go. Qed.

#[local] Hint Resolve placed_parens_expression : placedgo.

Lemma placed_while_statement : forall begin,
  begin <= tend token_stream ->
  safe (while_statement token_to_string token_stream fuel self begin)
    (placed_result token_stream begin).
Proof. intros begin Hbegin. unfold while_statement. placed_go. Qed.

#[local] Hint Resolve placed_while_statement : placedgo.

Lemma placed_do_while_statement : forall begin,
  begin <= tend token_stream ->
  safe (do_while_statement token_to_string token_stream fuel self begin)
    (placed_result token_stream begin).
Proof. intros begin Hbegin. unfold do_while_statement. placed_go. Qed.

#[local] Hint Resolve placed_do_while_statement : placedgo.

Lemma placed_for_clause_expression : forall it s,
  it <= tend token_stream -> placed token_stream s ->
  safe (for_clause_expression token_to_string token_stream fuel self it s)
    (placed_result token_stream it).
Proof. intros it s Hit Hs. unfold for_clause_expression. placed_go. Qed.

#[local] Hint Resolve placed_for_clause_expression : placedgo.

Lemma placed_for_exprs_production : forall begin,
  begin <= tend token_stream ->
  safe (for_exprs_production token_to_string contains token_stream fuel self begin)
    (placed_result token_stream begin).
Proof. intros begin Hbegin. unfold for_exprs_production. placed_go. Qed.

#[local] Hint Resolve placed_for_exprs_production : placedgo.

Lemma placed_for_statement : forall begin,
  begin <= tend token_stream ->
  safe (for_statement token_to_string contains token_stream fuel self begin)
    (placed_result token_stream begin).
Proof. intros begin Hbegin. unfold for_statement. placed_go. Qed.

#[local] Hint Resolve placed_for_statement : placedgo.

Lemma placed_parser_iteration_statement : forall begin,
  begin <= tend token_stream ->
  safe (parser_iteration_statement token_to_string contains token_stream fuel self begin)
    (placed_result token_stream begin).
Proof. intros begin Hbegin. unfold parser_iteration_statement. placed_go. Qed.

#[local] Hint Resolve placed_parser_iteration_statement : placedgo.

Lemma placed_if_statement : forall begin,
  begin <= tend token_stream ->
  safe (if_statement token_to_string token_stream fuel self begin)
    (placed_result token_stream begin).
Proof. intros begin Hbegin. unfold if_statement. placed_go. Qed.

#[local] Hint Resolve placed_if_statement : placedgo.

Lemma placed_switch_statement : forall begin,
  begin <= tend token_stream ->
  safe (switch_statement token_to_string token_stream fuel self begin)
    (placed_result token_stream begin).
Proof. intros begin Hbegin. unfold switch_statement. placed_go. Qed.

#[local] Hint Resolve placed_switch_statement : placedgo.

Lemma placed_parser_selection_statement : forall begin,
  begin <= tend token_stream ->
  safe (parser_selection_statement token_to_string token_stream fuel self begin)
    (placed_result token_stream begin).
Proof. intros begin Hbegin. unfold parser_selection_statement. placed_go. Qed.

#[local] Hint Resolve placed_parser_selection_statement : placedgo.

Lemma placed_parser_expression_statement : forall begin,
  begin <= tend token_stream ->
  safe (parser_expression_statement token_to_string token_stream fuel self begin)
    (placed_result token_stream begin).
Proof. intros begin Hbegin. unfold parser_expression_statement. placed_go. Qed.

#[local] Hint Resolve placed_parser_expression_statement : placedgo.

Lemma placed_decl_or_stmt : forall begin,
  begin <= tend token_stream ->
  safe (decl_or_stmt token_to_string contains token_stream fuel self begin)
    (placed_result token_stream begin).
Proof. intros begin Hbegin. unfold decl_or_stmt. placed_go. Qed.

#[local] Hint Resolve placed_decl_or_stmt : placedgo.

Lemma placed_block_item_list_production : forall begin,
  begin <= tend token_stream ->
  safe (block_item_list_production token_to_string contains token_stream fuel self begin)
    (placed_result token_stream begin).
Proof. intros begin Hbegin. unfold block_item_list_production. placed_go. Qed.

#[local] Hint Resolve placed_block_item_list_production : placedgo.

Lemma placed_parser_compound_statement : forall begin,
  begin <= tend token_stream ->
  safe (parser_compound_statement token_to_string contains token_stream fuel self begin)
    (placed_result token_stream begin).
Proof. intros begin Hbegin. unfold parser_compound_statement. placed_go. Qed.

#[local] Hint Resolve placed_parser_compound_statement : placedgo.

Lemma placed_parser_labeled_statement : forall begin,
  begin <= tend token_stream ->
  safe (parser_labeled_statement token_to_string token_stream self begin)
    (placed_result token_stream begin).
Proof. intros begin Hbegin. unfold parser_labeled_statement. placed_go. Qed.

#[local] Hint Resolve placed_parser_labeled_statement : placedgo.

Lemma placed_declaration_list : forall begin,
  begin <= tend token_stream ->
  safe (declaration_list token_to_string contains token_stream fuel self begin)
    (placed_result token_stream begin).
Proof. intros begin Hbegin. unfold declaration_list. placed_go. Qed.

#[local] Hint Resolve placed_declaration_list : placedgo.

Lemma placed_parser_function_definition : forall begin,
  begin <= tend token_stream ->
  safe (parser_function_definition token_to_string contains token_stream fuel self begin)
    (placed_result token_stream begin).
Proof. intros begin Hbegin. unfold parser_function_definition. placed_go. Qed.

#[local] Hint Resolve placed_parser_function_definition : placedgo.

Lemma placed_compilation_unit_loop : forall n it s,
  it <= tend token_stream -> placed token_stream s ->
  safe (compilation_unit_loop token_to_string contains token_stream fuel self n it s)
    (placed_result token_stream it).
Proof.
  induction n as [|n IH]; intros it s Hit Hs; cbn [compilation_unit_loop]; [apply safe_out_of_fuel|].
  placed_go.
Qed.

#[local] Hint Resolve placed_compilation_unit_loop : placedgo.

Lemma placed_parser_compilation_unit : forall begin,
  begin <= tend token_stream ->
  safe (parser_compilation_unit token_to_string contains token_stream fuel self begin)
    (placed_result token_stream begin).
Proof. intros begin Hbegin. unfold parser_compilation_unit. placed_go. Qed.

#[local] Hint Resolve placed_parser_compilation_unit : placedgo.

Lemma placed_dispatch : forall r it,
  it <= tend token_stream ->
  safe (dispatch token_to_string contains token_stream fuel self r it)
    (placed_result token_stream it).
Proof. intros r it Hit. destruct r; cbn [dispatch]; auto with placedgo nocore. Qed.

End PlacedRules.

(** ** The errors of every rule, and the reports of [parse] *)

Lemma linecol_scan_faults : forall contains ranges index loc f,
  SourceManager.linecol_scan contains ranges index loc = Stuck f ->
  f = ContractViolation.
Proof.
  intros contains ranges. induction ranges as [|r rs IH]; intros index loc f H;
    cbn [SourceManager.linecol_scan] in H.
  - inversion H. reflexivity.
  - destruct (contains r loc); [discriminate H|]. exact (IH _ _ _ H).
Qed.

Lemma linecol_faults : forall contains sm loc f,
  SourceManager.linecol_from_location contains sm loc = Stuck f ->
  f = ContractViolation.
Proof.
  intros contains sm loc f H. unfold SourceManager.linecol_from_location in H.
  destruct (SourceManager.offsets sm) as [|front rest]; [inversion H; reflexivity|].
  destruct (negb _); [inversion H; reflexivity|].
  destruct (negb _); [inversion H; reflexivity|].
  exact (linecol_scan_faults _ _ _ _ H).
Qed.

Section PlacedRun.

Variable token_to_string : TokenType.t -> string.
Variable contains : SourceRange -> SourceLocation -> bool.
Variable token_stream : TokenStream.

Lemma placed_run : forall n r it,
  it <= tend token_stream ->
  safe (run token_to_string contains token_stream n r it)
    (placed_result token_stream it).
Proof.
  induction n as [|n IH]; intros r it Hit; cbn [run].
  - apply safe_out_of_fuel.
  - apply placed_dispatch; [exact IH|exact Hit].
Qed.

(** X18. Every error a rule returns points into the token vector: started
    at an iterator that is not behind [tokens.end()], a rule stores in each
    entry of its failure an iterator that is not behind [tokens.end()]
    either. *)
Theorem errors_point_into_the_tokens : forall n r begin c result c' e,
  begin <= tend token_stream ->
  run token_to_string contains token_stream n r begin c = Ok (result, c') ->
  In e (errors_of (snd result)) ->
  where_ e <= tend token_stream.
Proof.
  intros n r begin c result c' e Hbegin H He.
  destruct (placed_run n r Hbegin _ H) as [_ Hplaced].
  unfold placed in Hplaced. rewrite Forall_forall in Hplaced.
  exact (Hplaced e He).
Qed.

(** The reports of a failure whose entries point into the tokens. *)
Lemma emit_at_a_token : forall k it msg c f,
  it < tend token_stream ->
  emit contains token_stream k it msg c = Stuck f -> f = ContractViolation.
Proof.
  intros k it msg c f Hit H. unfold emit, token_info, bind, deref in H.
  unfold tend in Hit. apply nth_error_Some in Hit.
  destruct (nth_error (tokens token_stream) it) as [tok|]; [|congruence].
  unfold ret at 1 in H. unfold lift in H.
  destruct (SourceManager.linecol_from_location contains
              (source_manager token_stream) (range_begin (data tok)))
    as [p|f'] eqn:Hp.
  - discriminate H.
  - inversion H; subst. exact (linecol_faults _ _ _ Hp).
Qed.

Lemma emit_failures_at_tokens : forall fails c f,
  Forall (fun e => where_ e <= tend token_stream) fails ->
  emit_failures contains token_stream fails c = Stuck f -> f = ContractViolation.
Proof.
  induction fails as [|fail fails IH]; intros c f Hall H; [discriminate H|].
  inversion Hall as [|? ? Hfail Hrest]; subst.
  cbn [emit_failures] in H. unfold bind at 1 in H.
  destruct (Nat.eqb_spec (where_ fail) (tend token_stream)) as [Heq|Hne];
    cbn [negb] in H.
  - unfold ret at 1 in H. exact (IH _ _ Hrest H).
  - assert (Hin : where_ fail < tend token_stream) by lia.
    destruct (is_ErrorNote (status fail)).
    + unfold note in H.
      destruct (emit contains token_stream DiagNote (where_ fail) (error fail) c)
        as [[u c1]|f'] eqn:He.
      * exact (IH _ _ Hrest H).
      * inversion H; subst. exact (emit_at_a_token _ _ _ Hin He).
    + unfold error_ in H.
      destruct (emit contains token_stream DiagError (where_ fail) (error fail) c)
        as [[u c1]|f'] eqn:He.
      * exact (IH _ _ Hrest H).
      * inversion H; subst. exact (emit_at_a_token _ _ _ Hin He).
Qed.

(** X19. Once the compilation unit is parsed, [parse] reads no token
    outside the vector: every failure it reports sits at a token, so that
    [parse] returns, or fails a contract (its own [Ensures], or one of the
    source manager's when a position is looked up). *)
Theorem parse_reports_at_tokens : forall n prog it ast c1,
  parser_compilation_unit token_to_string contains token_stream n
    (run token_to_string contains token_stream n) 0
    {| program := prog; is_inside_specifiers := false |}
  = Ok ((it, ast), c1) ->
  (exists tree prog',
     parse token_to_string contains token_stream n prog = Ok (tree, prog')) \/
  parse token_to_string contains token_stream n prog = Stuck ContractViolation.
Proof.
  intros n prog it ast c1 Hunit.
  assert (Hplaced : placed token_stream ast).
  { assert (Hbegin : 0 <= tend token_stream) by lia.
    exact (proj2 (@placed_parser_compilation_unit token_to_string contains token_stream
                    n (run token_to_string contains token_stream n) (placed_run n)
                    0 Hbegin _ _ _ Hunit)). }
  apply placed_giveup_to_expected in Hplaced.
  unfold parse, parse_with. erewrite bind_Ok by exact Hunit. cbv beta iota.
  destruct (negb _); [right; reflexivity|].
  destruct (giveup_to_expected ast) as [fails|tree].
  - unfold bind.
    destruct (emit_failures contains token_stream fails c1) as [[u c2]|f] eqn:Hemit.
    + left. eexists. eexists. reflexivity.
    + right. rewrite (emit_failures_at_tokens _ Hplaced Hemit). reflexivity.
  - left. eexists. eexists. reflexivity.
Qed.

End PlacedRun.

Lemma errors_point_into_the_tokens_witness :
  exists result c',
    run Examples.token_spelling Examples.range_contains
      Examples.while_unclosed 40 IterationStatement 0 Examples.fresh_context
    = Ok (result, c') /\
    In {| status := Error; where_ := 3; error := "expected ')'" |}
       (errors_of (snd result)) /\
    where_ {| status := Error; where_ := 3; error := "expected ')'" |}
    <= tend Examples.while_unclosed.
Proof.
  eexists. eexists.
  assert (Hrun :
    run Examples.token_spelling Examples.range_contains
      Examples.while_unclosed 40 IterationStatement 0 Examples.fresh_context
    = Ok (_, _)) by (vm_compute; reflexivity).
  assert (Hin :
    In {| status := Error; where_ := 3; error := "expected ')'" |}
       (errors_of (snd (5, Failure
          [ {| status := Error; where_ := 3; error := "expected ')'" |};
            {| status := ErrorNote; where_ := 1; error := "to match this '('" |} ]))))
    by (simpl; left; reflexivity).
  assert (Hbegin : 0 <= tend Examples.while_unclosed) by (vm_compute; lia).
  split; [exact Hrun|]. split; [exact Hin|].
  exact (@errors_point_into_the_tokens Examples.token_spelling Examples.range_contains
           Examples.while_unclosed 40 IterationStatement 0 Examples.fresh_context
           _ _ _ Hbegin Hrun Hin).
Defined.

Lemma parse_reports_at_tokens_witness :
  (exists tree prog',
     parse Examples.token_spelling Examples.range_contains
       Examples.unfinished_static_assert 40 Examples.no_diagnostics
     = Ok (tree, prog')) \/
  parse Examples.token_spelling Examples.range_contains
    Examples.unfinished_static_assert 40 Examples.no_diagnostics
  = Stuck ContractViolation.
Proof.
  assert (Hunit :
    parser_compilation_unit Examples.token_spelling Examples.range_contains
      Examples.unfinished_static_assert 40
      (run Examples.token_spelling Examples.range_contains
         Examples.unfinished_static_assert 40) 0
      {| program := Examples.no_diagnostics; is_inside_specifiers := false |}
    = Ok ((_, _), _)) by (vm_compute; reflexivity).
  exact (parse_reports_at_tokens _ _ _ _ _ Hunit).
Defined.

(** * Repetition *)

Section Repetition.

Variable contains : SourceRange -> SourceLocation -> bool.
Variable token_stream : TokenStream.

Lemma one_many_of_loop_no_giveup : forall rule n it state c result c',
  is_giveup state = false ->
  one_many_of_loop contains token_stream rule n it state c = Ok (result, c') ->
  is_giveup (snd result) = false.
Proof.
  intros rule. induction n as [|n IH]; intros it state c result c' Hs H;
    cbn [one_many_of_loop] in H; [discriminate H|].
  destruct (Nat.eqb it (tend token_stream)); [ret_inv H; exact Hs|].
  bind_inv_as H r c1 Hrule. destruct r as [r_it r_state].
  destruct (is_giveup r_state) eqn:Hg; cbn [negb] in H; [ret_inv H; exact Hs|].
  bind_inv_as H empty c2 Hempty.
  bind_inv_as H state' c3 Hstate.
  refine (IH _ _ _ _ _ _ H).
  destruct (negb empty).
  - exact (proj2 (@add_state_no_giveup state r_state _ _ _ Hs Hg Hstate)).
  - bind_inv_as Hstate p c4 Hp. bind_inv_as Hstate u c5 Hu. ret_inv Hstate. exact Hs.
Qed.

(** X20. [parser_one_many_of] (without predicate) gives up as a whole or
    not at all: a result that is a give-up is the single [GiveUp] of the
    caller at [begin], returned with [tokens.end()]; it arises when there is
    no token or the first application of the rule gives up, and the
    give-ups of later applications only end the repetition. *)
Theorem one_many_of_gives_up_as_a_whole : forall fuel rule begin what c result c',
  parser_one_many_of contains token_stream fuel begin what rule c = Ok (result, c') ->
  is_giveup (snd result) = true ->
  result = (tend token_stream, make_error GiveUp begin what).
Proof.
  intros fuel rule begin what c result c' H Hg. unfold parser_one_many_of in H.
  destruct (negb _); [|unfold giveup_at in H; ret_inv H; reflexivity].
  bind_inv_as H r c1 Hrule. destruct r as [r_it r_state].
  destruct (is_giveup r_state) eqn:Hfirst; cbn [negb] in H;
    [unfold giveup_at in H; ret_inv H; reflexivity|].
  bind_inv_as H empty c2 Hempty.
  bind_inv_as H state c3 Hstate.
  assert (Hs : is_giveup state = false).
  { destruct (negb empty).
    - exact (proj2 (@add_state_no_giveup (Success (Some new_tree)) r_state _ _ _
                      eq_refl Hfirst Hstate)).
    - bind_inv_as Hstate u c4 Hu. ret_inv Hstate. reflexivity. }
  rewrite (@one_many_of_loop_no_giveup rule fuel r_it state c3 result c' Hs H) in Hg.
  discriminate Hg.
Qed.

End Repetition.

Lemma one_many_of_gives_up_as_a_whole_witness :
  exists result c',
    parser_one_many_of Examples.range_contains Examples.lone_identifier 5 0
      "string literals" (parser_string_literal Examples.lone_identifier)
      Examples.fresh_context = Ok (result, c') /\
    result = (tend Examples.lone_identifier, make_error GiveUp 0 "string literals").
Proof.
  eexists. eexists.
  assert (Hrun : parser_one_many_of Examples.range_contains Examples.lone_identifier 5 0
                   "string literals" (parser_string_literal Examples.lone_identifier)
                   Examples.fresh_context = Ok (_, _)) by (vm_compute; reflexivity).
  split; [exact Hrun|].
  exact (@one_many_of_gives_up_as_a_whole Examples.range_contains
           Examples.lone_identifier 5 _ 0 "string literals" _ _ _ Hrun eq_refl).
Defined.

(** * String literals *)

Section StringLiterals.

Variable token_stream : TokenStream.

Lemma string_literal_at_a_constant : forall begin tok c,
  nth_error (tokens token_stream) begin = Some tok ->
  type tok = TokenType.StringConstant ->
  parser_string_literal token_stream begin c
  = Ok ((next begin, Success (Some (new_leaf NodeType.StringLiteral tok))), c).
Proof.
  intros begin tok c Htok Hty. unfold parser_string_literal.
  erewrite bind_Ok by (apply token_is_in_range; exact Htok). cbv beta iota.
  rewrite Hty. replace (TokenType.eqb TokenType.StringConstant TokenType.EncodingPrefix)
    with false by reflexivity.
  erewrite bind_Ok by reflexivity. cbv beta iota zeta.
  erewrite bind_Ok by (apply token_is_in_range; exact Htok). cbv beta iota.
  rewrite Hty, TokenType.eqb_refl.
  erewrite bind_Ok by (apply deref_in_range; exact Htok). reflexivity.
Qed.

(** X21. A string literal that stands alone is not wrapped: when the token
    at [begin] is a string constant and the next token is none,
    [parser_string_literal_list] returns the [StringLiteral] leaf itself,
    having popped it out of the list it built, and moves one token on. *)
Theorem lone_string_literal_is_not_wrapped : forall fuel begin tok c,
  nth_error (tokens token_stream) begin = Some tok ->
  type tok = TokenType.StringConstant ->
  (forall tok', nth_error (tokens token_stream) (next begin) = Some tok' ->
     type tok' <> TokenType.StringConstant) ->
  parser_string_literal_list token_stream (S fuel) begin c
  = Ok ((next begin, Success (Some (new_leaf NodeType.StringLiteral tok))), c).
Proof.
  intros fuel begin tok c Htok Hty Hnext.
  assert (Hloop :
    parser_one_many_of_while token_stream (S fuel) begin "string literal"
      (parser_string_literal token_stream)
      (fun t => TokenType.eqb (type t) TokenType.StringConstant) c
    = Ok ((next begin,
           Success (Some (add_child new_tree (new_leaf NodeType.StringLiteral tok)))),
          c)).
  { unfold parser_one_many_of_while. rewrite (in_range_not_end _ _ Htok). cbn [negb].
    cbn [one_many_of_while_loop].
    erewrite bind_Ok by (apply string_literal_at_a_constant; eassumption).
    cbv beta iota. erewrite bind_Ok by reflexivity. cbv beta iota zeta.
    destruct (Nat.eqb (next begin) (tend token_stream)) eqn:Hend; [reflexivity|].
    destruct (nth_error (tokens token_stream) (next begin)) as [tok'|] eqn:Htok'.
    - erewrite bind_Ok by (apply deref_in_range; exact Htok'). cbv beta iota.
      replace (TokenType.eqb (type tok') TokenType.StringConstant) with false;
        [reflexivity|].
      symmetry. destruct (TokenType.eqb (type tok') TokenType.StringConstant) eqn:E;
        [|reflexivity].
      apply TokenType.eqb_eq in E. exfalso. exact (Hnext tok' eq_refl E).
    - exfalso. apply nth_error_None in Htok'. apply Nat.eqb_neq in Hend.
      assert (begin < List.length (tokens token_stream))
        by (apply nth_error_Some; congruence).
      unfold tend, next in *. lia. }
  unfold parser_string_literal_list.
  erewrite bind_Ok by exact Hloop. reflexivity.
Qed.

End StringLiterals.

Lemma lone_string_literal_is_not_wrapped_witness :
  parser_string_literal_list
    {| token_data :=
         [ {| type := TokenType.StringConstant;
              data := {| range_begin := 0; range_end := 4 |} |};
           {| type := TokenType.Semicolon;
              data := {| range_begin := 4; range_end := 5 |} |} ];
       source_manager := {| SourceManager.content := ""; SourceManager.offsets := [] |} |}
    1 0 Examples.fresh_context
  = Ok ((1, Success (Some (new_leaf NodeType.StringLiteral
                             {| type := TokenType.StringConstant;
                                data := {| range_begin := 0; range_end := 4 |} |}))),
        Examples.fresh_context).
Proof.
  apply (@lone_string_literal_is_not_wrapped
           {| token_data :=
                [ {| type := TokenType.StringConstant;
                     data := {| range_begin := 0; range_end := 4 |} |};
                  {| type := TokenType.Semicolon;
                     data := {| range_begin := 4; range_end := 5 |} |} ];
              source_manager :=
                {| SourceManager.content := ""; SourceManager.offsets := [] |} |}
           0 0 _ Examples.fresh_context eq_refl eq_refl).
  intros tok' H. inversion H; subst. discriminate.
Defined.

(** * Binary operators *)

Section BinaryOperators.

Variable token_to_string : TokenType.t -> string.
Variable token_stream : TokenStream.

Lemma promoted_operand : forall state what c state' c',
  giveup_to_expected_what token_to_string token_stream state what c = Ok (state', c') ->
  is_giveup state' = false.
Proof.
  intros [es|t] what c state' c' H.
  - exact (proj1 (proj2 (@giveup_to_expected_what_converts token_to_string token_stream
                           es what c state' c' H))).
  - cbn [giveup_to_expected_what] in H. ret_inv H. reflexivity.
Qed.

Lemma left_binary_loop_no_giveup : forall op_rule rhs_rule n lhs_it lhs_state c result c',
  is_giveup lhs_state = false ->
  left_binary_loop token_to_string token_stream op_rule rhs_rule n lhs_it lhs_state c
  = Ok (result, c') ->
  is_giveup (snd result) = false.
Proof.
  intros op_rule rhs_rule. induction n as [|n IH];
    intros lhs_it lhs_state c result c' Hs H; cbn [left_binary_loop] in H;
    [discriminate H|].
  bind_inv_as H op c1 Hop. destruct op as [op_it op_state].
  destruct (is_giveup op_state) eqn:Hg; cbn [negb] in H; [ret_inv H; exact Hs|].
  bind_inv_as H tok c2 Htok.
  bind_inv_as H rhs c3 Hrhs. destruct rhs as [rhs_it rhs_state].
  bind_inv_as H lhs' c4 Hlhs'. apply promoted_operand in Hlhs'.
  bind_inv_as H merged c5 Hmerged.
  apply (@add_state_no_giveup op_state lhs' _ _ _ Hg Hlhs') in Hmerged.
  bind_inv_as H rhs' c6 Hrhs'. apply promoted_operand in Hrhs'.
  bind_inv_as H merged' c7 Hmerged'.
  apply (@add_state_no_giveup merged rhs' _ _ _ (proj2 Hmerged) Hrhs') in Hmerged'.
  exact (@IH _ _ _ _ _ (proj2 Hmerged') H).
Qed.

(** X22. When a binary level gives up.  [parser_left_binary_operator]
    returns a give-up exactly when [begin] is [tokens.end()], and then it is
    ["binary operator"] at [begin], or when its left operand, run at
    [begin], gives up, and then it is the give-up of the left operand; both
    come with [tokens.end()].  [parser_right_binary_operator] returns a
    give-up exactly when [begin] is [tokens.end()], when its left operand
    gives up, or when the operator rule gives up behind the left operand;
    it is always the single ["binary operator"] at [begin], with
    [tokens.end()].  So once the left operand and the operator are there, a
    missing right operand is an error of the result, never a give-up. *)
Theorem when_binary_operators_give_up :
  (forall fuel lhs_rule op_rule rhs_rule begin c result c',
     parser_left_binary_operator token_to_string token_stream fuel
       lhs_rule op_rule rhs_rule begin c = Ok (result, c') ->
     (is_giveup (snd result) = true <->
      (begin = tend token_stream \/
       exists lhs_it lhs_state c1,
         lhs_rule begin c = Ok ((lhs_it, lhs_state), c1) /\
         is_giveup lhs_state = true)) /\
     (is_giveup (snd result) = true ->
      fst result = tend token_stream /\
      (begin = tend token_stream ->
       c' = c /\ snd result = make_error GiveUp begin "binary operator") /\
      (begin <> tend token_stream ->
       exists lhs_it, lhs_rule begin c = Ok ((lhs_it, snd result), c')))) /\
  (forall lhs_rule op_rule rhs_rule begin c result c',
     parser_right_binary_operator token_to_string token_stream
       lhs_rule op_rule rhs_rule begin c = Ok (result, c') ->
     (is_giveup (snd result) = true <->
      (begin = tend token_stream \/
       exists lhs_it lhs_state c1,
         lhs_rule begin c = Ok ((lhs_it, lhs_state), c1) /\
         (is_giveup lhs_state = true \/
          exists op_it op_state c2,
            op_rule lhs_it c1 = Ok ((op_it, op_state), c2) /\
            is_giveup op_state = true))) /\
     (is_giveup (snd result) = true ->
      result = (tend token_stream, make_error GiveUp begin "binary operator"))).
Proof.
  split.
  - intros fuel lhs_rule op_rule rhs_rule begin c result c' H.
    unfold parser_left_binary_operator in H.
    destruct (Nat.eqb_spec begin (tend token_stream)) as [Hend|Hend].
    + unfold giveup_at in H. ret_inv H. cbn [fst snd].
      split; [split; [intros _; left; reflexivity|reflexivity]|].
      intros _. split; [reflexivity|].
      split; [intros _; split; reflexivity|]. intros Hne. contradiction.
    + bind_inv_as H lhs c1 Hlhs. destruct lhs as [lhs_it lhs_state].
      destruct (is_giveup lhs_state) eqn:Hl.
      * ret_inv H. cbn [fst snd]. rewrite Hl.
        split; [split; [intros _; right; do 3 eexists; split; [exact Hlhs|exact Hl]
                       |reflexivity]|].
        intros _. split; [reflexivity|].
        split; [intros He; contradiction|]. intros _. exists lhs_it. exact Hlhs.
      * pose proof (@left_binary_loop_no_giveup op_rule rhs_rule fuel lhs_it lhs_state
                      c1 result c' Hl H) as Hn.
        rewrite Hn. split; [|discriminate].
        split; [discriminate|].
        intros [He|(it0 & s0 & c0 & Hr & Hg)]; [contradiction|].
        rewrite Hlhs in Hr. inversion Hr; subst. rewrite Hl in Hg. exact Hg.
  - intros lhs_rule op_rule rhs_rule begin c result c' H.
    unfold parser_right_binary_operator in H.
    destruct (Nat.eqb_spec begin (tend token_stream)) as [Hend|Hend]; cbn [negb] in H.
    + unfold giveup_at in H. ret_inv H. cbn [snd].
      split; [split; [intros _; left; reflexivity|reflexivity]|]. reflexivity.
    + bind_inv_as H lhs c1 Hlhs. destruct lhs as [lhs_it lhs_state].
      destruct (is_giveup lhs_state) eqn:Hl; cbn [negb] in H.
      * unfold giveup_at in H. ret_inv H. cbn [snd].
        split; [split; [intros _|reflexivity]|reflexivity].
        right. do 3 eexists. split; [exact Hlhs|]. left. exact Hl.
      * bind_inv_as H op c2 Hop. destruct op as [op_it op_state].
        destruct (is_giveup op_state) eqn:Ho; cbn [negb] in H.
        -- unfold giveup_at in H. ret_inv H. cbn [snd].
           split; [split; [intros _|reflexivity]|reflexivity].
           right. exists lhs_it, lhs_state, c1. split; [exact Hlhs|].
           right. do 3 eexists. split; [exact Hop|exact Ho].
        -- bind_inv_as H tok c3 Htok.
           bind_inv_as H rhs c4 Hrhs. destruct rhs as [rhs_it rhs_state].
           bind_inv_as H merged c5 Hmerged.
           apply (@add_state_no_giveup op_state lhs_state _ _ _ Ho Hl) in Hmerged.
           bind_inv_as H rhs' c6 Hrhs'. apply promoted_operand in Hrhs'.
           bind_inv_as H merged' c7 Hmerged'.
           apply (@add_state_no_giveup merged rhs' _ _ _ (proj2 Hmerged) Hrhs')
             in Hmerged'.
           ret_inv H. cbn [snd]. rewrite (proj2 Hmerged').
           split; [|discriminate]. split; [discriminate|].
           intros [He|(it0 & s0 & c0 & Hr & [Hg|(oi & os & c9 & Hor & Hg)])];
             [contradiction| |].
           ++ rewrite Hlhs in Hr. inversion Hr; subst. rewrite Hl in Hg. exact Hg.
           ++ rewrite Hlhs in Hr. inversion Hr; subst.
              rewrite Hop in Hor. inversion Hor; subst. rewrite Ho in Hg. exact Hg.
Qed.

End BinaryOperators.

Lemma when_binary_operators_give_up_witness :
  exists result c',
    parser_right_binary_operator Examples.token_spelling Examples.lone_identifier
      (parser_identifier Examples.lone_identifier)
      (assign_operator Examples.lone_identifier)
      (parser_identifier Examples.lone_identifier) 0 Examples.fresh_context
    = Ok (result, c') /\
    is_giveup (snd result) = true /\
    result = (tend Examples.lone_identifier, make_error GiveUp 0 "binary operator").
Proof.
  eexists. eexists.
  assert (Hrun :
    parser_right_binary_operator Examples.token_spelling Examples.lone_identifier
      (parser_identifier Examples.lone_identifier)
      (assign_operator Examples.lone_identifier)
      (parser_identifier Examples.lone_identifier) 0 Examples.fresh_context
    = Ok (_, _)) by (vm_compute; reflexivity).
  split; [exact Hrun|]. split; [reflexivity|].
  exact (proj2 (proj2 (when_binary_operators_give_up Examples.token_spelling
                         Examples.lone_identifier) _ _ _ _ _ _ _ Hrun) eq_refl).
Defined.
(** * Roots of expression trees *)

(** ** States *)

Lemma texted_rooted : forall s, texted s -> rooted s.
Proof.
  intros [es|[[ty tok ann cs]|]]; cbn; [trivial| |trivial].
  intros [Hty Htext]. unfold should_elide, has_text in *. cbn in *.
  destruct tok; [|discriminate Htext].
  destruct ty; try discriminate Hty; destruct ann; reflexivity.
Qed.

Lemma wide_rooted : forall k s, 2 <= k -> wide k s -> rooted s.
Proof.
  intros k [es|[[ty tok ann cs]|]]; cbn; [trivial| |trivial].
  intros Hk [Hty Hcount]. unfold should_elide, child_count in *. cbn in *.
  assert (Hn : Nat.eqb (List.length cs) 1 = false) by (apply Nat.eqb_neq; lia).
  rewrite Hn, andb_false_r.
  destruct ty; try discriminate Hty; destruct ann; reflexivity.
Qed.

Lemma rooted_filled : forall s, rooted s -> filled s.
Proof. intros [es|[t|]]; cbn; auto. Qed.

Lemma wide_filled : forall k s, 1 <= k -> wide k s -> filled s.
Proof. intros k [es|[t|]]; cbn; [trivial| |trivial]. intros Hk [_ H]. right. lia. Qed.

Lemma wide_le : forall k k' s, k' <= k -> wide k s -> wide k' s.
Proof. intros k k' [es|[t|]]; cbn; [trivial| |trivial]. intros Hk [H1 H2]. split; [exact H1|lia]. Qed.

Lemma kinded_rooted : forall ty s,
  preserved ty = true -> kinded ty s -> rooted s.
Proof.
  intros ty [es|[t|]]; cbn; [trivial| |trivial]. intros Hp Hk.
  destruct (should_elide t) eqn:He; [|reflexivity].
  apply should_elide_spec in He. rewrite Hk in He.
  destruct He as [He|(_ & He & _)].
  - rewrite He in Hp. discriminate Hp.
  - rewrite He in Hp. discriminate Hp.
Qed.

Lemma kinded_wide : forall ty s,
  is_None ty = false -> kinded ty s -> wide 0 s.
Proof.
  intros ty [es|[t|]]; cbn; [trivial| |trivial]. intros Hn Hk.
  rewrite Hk. split; [exact Hn|lia].
Qed.

(** ** Merging *)

Lemma add_errors_cases : forall s es,
  add_errors s es = s \/ exists es', add_errors s es = Failure es'.
Proof.
  intros s [|e es]; [left; reflexivity|]. right.
  rewrite add_errors_errors_of by discriminate. eexists. reflexivity.
Qed.

Lemma add_state_inv : forall s o c s' c',
  add_state s o c = Ok (s', c') ->
  c' = c /\
  ((exists n, o = Success (Some n) /\ s' = add_node s n) \/
   (exists es, o = Failure es /\ s' = add_errors s es)).
Proof.
  intros s [es|[n|]] c s' c' H; cbn [add_state] in H.
  - ret_inv H. split; [reflexivity|]. right. exists es. split; reflexivity.
  - ret_inv H. split; [reflexivity|]. left. exists n. split; reflexivity.
  - discriminate H.
Qed.

Lemma lenient_add_errors : forall (P : ParserState -> Prop) s es,
  lenient P -> P s -> P (add_errors s es).
Proof.
  intros P s es HP Hs. destruct (add_errors_cases s es) as [->|[es' ->]];
    [exact Hs|apply HP].
Qed.

Lemma lenient_texted : lenient texted.
Proof. intro es. exact I. Qed.

Lemma lenient_rooted : lenient rooted.
Proof. intro es. exact I. Qed.

Lemma lenient_filled : lenient filled.
Proof. intro es. exact I. Qed.

Lemma lenient_wide : forall k, lenient (wide k).
Proof. intros k es. exact I. Qed.

Lemma lenient_kinded : forall ty, lenient (kinded ty).
Proof. intros ty es. exact I. Qed.

Lemma texted_add_state : forall s o c s' c',
  texted s -> add_state s o c = Ok (s', c') -> texted s'.
Proof.
  intros s o c s' c' Hs H. apply add_state_inv in H.
  destruct H as [_ [(n & -> & ->)|(es & -> & ->)]];
    [|apply lenient_add_errors; [exact lenient_texted|exact Hs]].
  destruct s as [es|[[ty tok ann cs]|]]; cbn [add_node]; [exact I| |destruct Hs].
  destruct (_ || _); exact Hs.
Qed.

Lemma kinded_add_state : forall ty s o c s' c',
  kinded ty s -> add_state s o c = Ok (s', c') -> kinded ty s'.
Proof.
  intros ty s o c s' c' Hs H. apply add_state_inv in H.
  destruct H as [_ [(n & -> & ->)|(es & -> & ->)]];
    [|apply lenient_add_errors; [exact (lenient_kinded ty)|exact Hs]].
  destruct s as [es|[[ty0 tok ann cs]|]]; cbn [add_node]; [exact I| |destruct Hs].
  destruct (_ || _); exact Hs.
Qed.

Lemma wide_add_state_mono : forall k s o c s' c',
  wide k s -> add_state s o c = Ok (s', c') -> wide k s'.
Proof.
  intros k s o c s' c' Hs H. apply add_state_inv in H.
  destruct H as [_ [(n & -> & ->)|(es & -> & ->)]];
    [|apply lenient_add_errors; [exact (lenient_wide k)|exact Hs]].
  destruct s as [es|[[ty tok ann cs]|]]; cbn [add_node]; [exact I| |destruct Hs].
  destruct Hs as [Hty Hk]. unfold child_count in *. cbn in *.
  destruct (_ || _); cbn; (split; [exact Hty|]); rewrite length_app; lia.
Qed.

Lemma wide_add_state : forall k s o c s' c',
  wide k s -> filled o -> is_giveup o = false ->
  add_state s o c = Ok (s', c') -> wide (S k) s'.
Proof.
  intros k s o c s' c' Hs Ho Hg H. apply add_state_inv in H.
  destruct H as [_ [(n & -> & ->)|(es & -> & ->)]].
  - destruct s as [es|[[ty tok ann cs]|]]; cbn [add_node]; [exact I| |destruct Hs].
    destruct Hs as [Hty Hk]. unfold child_count in *. cbn in *.
    rewrite elide_covers_None.
    destruct (should_elide n) eqn:He; cbn; (split; [exact Hty|]);
      rewrite length_app.
    + destruct Ho as [Ho|Ho]; [discriminate Ho|]. unfold child_count in Ho. lia.
    + cbn. lia.
  - destruct es as [|e es]; [discriminate Hg|].
    rewrite add_errors_errors_of by discriminate. exact I.
Qed.

(** ** Combinators *)

Section RootedKernel.

Variable token_to_string : TokenType.t -> string.
Variable token_stream : TokenStream.

Lemma lenient_expect_end_token : forall (P : ParserState -> Prop) s begin it tk c closed s' c',
  lenient P -> P s ->
  expect_end_token token_to_string token_stream s begin it tk c
  = Ok ((closed, s'), c') ->
  P s' /\ (closed = true -> s' = s) /\ (closed = false -> is_success s' = false).
Proof.
  intros P s begin it tk c closed s' c' HP Hs H. unfold expect_end_token in H.
  destruct (Nat.eqb it (tend token_stream)); cbn [negb] in H.
  - ret_inv H. cbn [add_error_state make_error add_errors fold_left].
    rewrite add_error_errors_of.
    split; [apply HP|]. split; [discriminate|reflexivity].
  - bind_inv_as H tok c1 Htok.
    destruct (TokenType.eqb (type tok) tk); cbn [negb] in H.
    + ret_inv H. split; [exact Hs|]. split; [reflexivity|discriminate].
    + bind_inv_as H open c2 Hopen. ret_inv H.
      cbn [add_error_state make_error add_errors fold_left].
      rewrite (add_error_errors_of (add_error _ _)).
      split; [apply HP|]. split; [discriminate|reflexivity].
Qed.

Lemma lenient_promotion : forall (P : ParserState -> Prop) s what c g c',
  lenient P -> P (Success None) -> P s ->
  giveup_to_expected_what token_to_string token_stream s what c = Ok (g, c') ->
  P g.
Proof.
  intros P [es|t] what c g c' HP Hnone Hs H.
  - destruct es as [|e es].
    + cbn in H. ret_inv H. exact Hnone.
    + destruct (@giveup_to_expected_what_converts token_to_string token_stream
                  (e :: es) what c g c' H) as (_ & _ & Hf & _).
      specialize (Hf ltac:(discriminate)).
      destruct g as [es'|t]; [apply HP|discriminate Hf].
  - cbn [giveup_to_expected_what] in H. ret_inv H. exact Hs.
Qed.

Lemma one_of_yields : forall (P : ParserState -> Prop) begin what rules c result c',
  lenient P -> Forall (yields P) rules ->
  parser_one_of token_stream begin what rules c = Ok (result, c') ->
  P (snd result).
Proof.
  intros P begin what rules. induction rules as [|rule rules IH];
    intros c result c' HP Hrules H; cbn [parser_one_of] in H.
  - unfold giveup_at in H. ret_inv H. apply HP.
  - inversion Hrules as [|r rs Hrule Hrest]; subst.
    bind_inv_as H r c1 Hr. destruct r as [it state].
    destruct (is_giveup state); cbn [negb] in H.
    + exact (IH _ _ _ HP Hrest H).
    + ret_inv H. exact (Hrule _ _ _ _ Hr).
Qed.

Lemma operator_texted : forall ty op_match,
  is_None ty = false -> yields texted (parser_operator token_stream ty op_match).
Proof.
  intros ty op_match Hty it c result c' H. unfold parser_operator in H.
  destruct (Nat.eqb it (tend token_stream)); [unfold giveup_at in H; ret_inv H; exact I|].
  bind_inv_as H tok c1 Htok.
  destruct (op_match tok); [|unfold giveup_at in H; ret_inv H; exact I].
  ret_inv H. cbn. split; [exact Hty|reflexivity].
Qed.

Lemma left_binary_loop_rooted : forall op_rule rhs_rule,
  yields texted op_rule ->
  forall n lhs_it lhs_state c result c',
    rooted lhs_state ->
    left_binary_loop token_to_string token_stream op_rule rhs_rule n lhs_it lhs_state c
    = Ok (result, c') ->
    rooted (snd result).
Proof.
  intros op_rule rhs_rule Hop. induction n as [|n IH];
    intros lhs_it lhs_state c result c' Hs H; cbn [left_binary_loop] in H;
    [discriminate H|].
  bind_inv_as H op c1 Hopr. destruct op as [op_it op_state].
  destruct (is_giveup op_state) eqn:Hg; cbn [negb] in H; [ret_inv H; exact Hs|].
  bind_inv_as H tok c2 Htok.
  bind_inv_as H rhs c3 Hrhs. destruct rhs as [rhs_it rhs_state].
  bind_inv_as H lhs' c4 Hlhs'.
  bind_inv_as H merged c5 Hmerged.
  bind_inv_as H rhs' c6 Hrhs'.
  bind_inv_as H merged' c7 Hmerged'.
  refine (IH _ _ _ _ _ _ H). apply texted_rooted.
  refine (@texted_add_state _ _ _ _ _ _ Hmerged'). refine (@texted_add_state _ _ _ _ _ _ Hmerged).
  exact (Hop _ _ _ _ Hopr).
Qed.

Lemma left_binary_rooted : forall fuel lhs_rule op_rule rhs_rule,
  yields rooted lhs_rule -> yields texted op_rule ->
  yields rooted (parser_left_binary_operator token_to_string token_stream fuel
                   lhs_rule op_rule rhs_rule).
Proof.
  intros fuel lhs_rule op_rule rhs_rule Hlhs Hop it c result c' H.
  unfold parser_left_binary_operator in H.
  destruct (Nat.eqb it (tend token_stream)); [unfold giveup_at in H; ret_inv H; exact I|].
  bind_inv_as H lhs c1 Hl. destruct lhs as [lhs_it lhs_state].
  pose proof (Hlhs _ _ _ _ Hl) as Hs. cbn [snd] in Hs.
  destruct (is_giveup lhs_state); [ret_inv H; exact Hs|].
  exact (@left_binary_loop_rooted _ _ Hop _ _ _ _ _ _ Hs H).
Qed.

Lemma right_binary_rooted : forall lhs_rule op_rule rhs_rule,
  yields texted op_rule ->
  yields rooted (parser_right_binary_operator token_to_string token_stream
                   lhs_rule op_rule rhs_rule).
Proof.
  intros lhs_rule op_rule rhs_rule Hop it c result c' H.
  unfold parser_right_binary_operator in H.
  destruct (Nat.eqb it (tend token_stream)); cbn [negb] in H;
    [unfold giveup_at in H; ret_inv H; exact I|].
  bind_inv_as H lhs c1 Hl. destruct lhs as [lhs_it lhs_state].
  destruct (is_giveup lhs_state); cbn [negb] in H;
    [unfold giveup_at in H; ret_inv H; exact I|].
  bind_inv_as H op c2 Hopr. destruct op as [op_it op_state].
  destruct (is_giveup op_state); cbn [negb] in H;
    [unfold giveup_at in H; ret_inv H; exact I|].
  bind_inv_as H tok c3 Htok.
  bind_inv_as H rhs c4 Hrhs. destruct rhs as [rhs_it rhs_state].
  bind_inv_as H merged c5 Hmerged.
  bind_inv_as H rhs' c6 Hrhs'.
  bind_inv_as H merged' c7 Hmerged'.
  ret_inv H. cbn [snd]. apply texted_rooted.
  refine (@texted_add_state _ _ _ _ _ _ Hmerged'). refine (@texted_add_state _ _ _ _ _ _ Hmerged).
  exact (Hop _ _ _ _ Hopr).
Qed.

Lemma parens_yields : forall (P : ParserState -> Prop) rule left_brace right_brace,
  lenient P -> yields P rule ->
  yields P (parser_parens token_to_string token_stream rule left_brace right_brace).
Proof.
  intros P rule left_brace right_brace HP Hrule begin c result c' H.
  unfold parser_parens in H.
  bind_inv_as H opened c1 Hopened.
  destruct opened; [|unfold giveup_at in H; ret_inv H; apply HP].
  bind_inv_as H r c2 Hr. destruct r as [it state].
  pose proof (Hrule _ _ _ _ Hr) as Hs. cbn [snd] in Hs.
  destruct (is_giveup state); cbn [negb] in H; [ret_inv H; exact Hs|].
  destruct (Nat.eqb it (tend token_stream)); cbn [negb] in H; [ret_inv H; exact Hs|].
  bind_inv_as H e c3 He. destruct e as [closed state'].
  ret_inv H. cbn [snd].
  exact (proj1 (@lenient_expect_end_token P _ _ _ _ _ _ _ _ HP Hs He)).
Qed.

End RootedKernel.
(** ** Leaves *)

Section RootedRules.

Variable token_to_string : TokenType.t -> string.
Variable token_stream : TokenStream.
Variable fuel : nat.
Variable self : RuleName -> Rule.

Hypothesis rooted_self : forall r, expression_rule r = true -> yields rooted (self r).

Ltac gave_up H := unfold giveup_at in H; ret_inv H; exact I.

Lemma identifier_texted : yields texted (parser_identifier token_stream).
Proof.
  intros it c result c' H. unfold parser_identifier in H.
  bind_inv_as H ident c1 Hident. destruct ident; [|gave_up H].
  bind_inv_as H tok c2 Htok. ret_inv H. cbn. split; reflexivity.
Qed.

Lemma constant_texted : yields texted (parser_constant token_stream).
Proof.
  intros it c result c' H. unfold parser_constant in H.
  destruct (Nat.eqb it (tend token_stream)); [gave_up H|].
  bind_inv_as H tok c1 Htok.
  destruct (is_None (const_type (type tok))) eqn:Hty; cbn [negb] in H; [gave_up H|].
  ret_inv H. cbn. split; [exact Hty|reflexivity].
Qed.

Lemma pop_child_In : forall t c, pop_child t = Some c -> In c (children t).
Proof.
  intros [ty tok ann cs] c. unfold pop_child. cbn [children].
  induction cs as [|c0 cs IH]; [discriminate|].
  cbn [map]. destruct cs as [|c1 cs].
  - cbn. intros H. injection H as ->. left. reflexivity.
  - intros H. right. apply IH. exact H.
Qed.

Lemma one_many_of_while_loop_kinded : forall ty rule pred n it state c result c',
  kinded ty state ->
  one_many_of_while_loop token_stream rule pred n it state c = Ok (result, c') ->
  kinded ty (snd result).
Proof.
  intros ty rule pred. induction n as [|n IH]; intros it state c result c' Hs H;
    cbn [one_many_of_while_loop] in H; [discriminate H|].
  bind_inv_as H r c1 Hr. destruct r as [r_it r_state].
  bind_inv_as H state' c2 Hstate.
  pose proof (@kinded_add_state _ _ _ _ _ _ Hs Hstate) as Hs'.
  destruct (Nat.eqb r_it (tend token_stream)); [ret_inv H; exact Hs'|].
  bind_inv_as H tok c3 Htok.
  destruct (pred tok); [exact (IH _ _ _ _ _ Hs' H)|ret_inv H; exact Hs'].
Qed.

Lemma string_literal_list_rooted :
  yields rooted (parser_string_literal_list token_stream fuel).
Proof.
  intros it c result c' H. unfold parser_string_literal_list in H.
  bind_inv_as H r c1 Hr. destruct r as [s_it strings].
  assert (Hk : kinded NodeType.None strings).
  { unfold parser_one_many_of_while in Hr.
    destruct (Nat.eqb it (tend token_stream)); cbn [negb] in Hr;
      [unfold giveup_at in Hr; ret_inv Hr; exact I|].
    exact (@one_many_of_while_loop_kinded NodeType.None _ _ _ _ (Success (Some new_tree)) _ _ _ eq_refl Hr). }
  pose proof (@safe_parser_one_many_of_while token_stream fuel _ _ it "string literal"
                (@safe_parser_string_literal token_stream) _ _ _ Hr) as Hok.
  unfold ok_result, ok_state in Hok. cbn [snd] in Hok.
  destruct strings as [es|[[ty tok ann cs]|]]; [| |discriminate H].
  - destruct (is_giveup (Failure es)); cbn [negb] in H; [gave_up H|].
    bind_inv_as H state c2 Hstate. ret_inv H. cbn [snd].
    apply add_state_inv in Hstate.
    destruct Hstate as [_ [(n & Hn & _)|(es' & _ & ->)]]; [discriminate Hn|].
    apply lenient_add_errors; [exact lenient_rooted|reflexivity].
  - cbn in Hk. subst ty.
    destruct (Nat.eqb (child_count (Node NodeType.None tok ann cs)) 1) eqn:Hcount.
    + destruct (pop_child _) as [child|] eqn:Hpop; [|discriminate H].
      ret_inv H. cbn [snd rooted].
      apply pop_child_In in Hpop. cbn [children] in Hpop.
      cbn [settled_state] in Hok. apply settled_children in Hok.
      rewrite Forall_forall in Hok. exact (proj1 (Hok _ Hpop)).
    + cbn [is_giveup negb] in H.
      bind_inv_as H state c2 Hstate. ret_inv H. cbn [snd].
      cbn in Hstate. ret_inv Hstate. cbn.
      unfold should_elide. cbn. unfold child_count in *. cbn in *.
      rewrite Hcount. reflexivity.
Qed.

(** ** Type names and initializer lists *)

Lemma specifier_qualifier_loop_kinded : forall ty n it qualifiers c result c',
  kinded ty qualifiers ->
  specifier_qualifier_loop token_to_string token_stream self n it qualifiers c
  = Ok (result, c') ->
  kinded ty (snd result).
Proof.
  intros ty. induction n as [|n IH]; intros it qualifiers c result c' Hq H;
    cbn [specifier_qualifier_loop] in H; [discriminate H|].
  bind_inv_as H r c1 Hr. destruct r as [s_it spec_qual].
  destruct (is_giveup spec_qual); cbn [negb] in H; [ret_inv H; exact Hq|].
  bind_inv_as H qualifiers' c2 Hadd.
  exact (IH _ _ _ _ _ (@kinded_add_state _ _ _ _ _ _ Hq Hadd) H).
Qed.

Lemma giveup_is_failure : forall (P : ParserState -> Prop) s,
  lenient P -> is_giveup s = true -> P s.
Proof. intros P [es|t] HP H; [apply HP|discriminate H]. Qed.

Lemma specifier_qualifier_list_kinded :
  yields (kinded NodeType.SpecifierQualifierList)
    (parser_specifier_qualifier_list token_to_string token_stream fuel self).
Proof.
  intros it c result c' H. unfold parser_specifier_qualifier_list in H.
  destruct (Nat.eqb it (tend token_stream)); cbn [negb] in H; [gave_up H|].
  bind_inv_as H r c1 Hr. destruct r as [s_it spec_qual].
  destruct (is_giveup spec_qual) eqn:Hg; cbn [negb] in H.
  - ret_inv H. cbn [snd]. apply giveup_is_failure; [apply lenient_kinded|exact Hg].
  - bind_inv_as H qualifiers c2 Hadd.
    refine (@specifier_qualifier_loop_kinded _ _ _ _ _ _ _ _ H).
    exact (@kinded_add_state NodeType.SpecifierQualifierList
             (Success (Some (new_node NodeType.SpecifierQualifierList)))
             _ _ _ _ eq_refl Hadd).
Qed.

Lemma type_name_filled :
  yields filled (parser_type_name token_to_string token_stream fuel self).
Proof.
  intros it c result c' H. unfold parser_type_name in H.
  destruct (Nat.eqb it (tend token_stream)); cbn [negb] in H; [gave_up H|].
  bind_inv_as H r c1 Hr. destruct r as [spec_it spec_qual_list].
  pose proof (@specifier_qualifier_list_kinded _ _ _ _ Hr) as Hk. cbn [snd] in Hk.
  destruct (is_giveup spec_qual_list) eqn:Hg.
  - ret_inv H. cbn [snd]. apply giveup_is_failure; [exact lenient_filled|exact Hg].
  - bind_inv_as H type_name c2 Hadd.
    assert (Hw : wide 1 type_name).
    { refine (@wide_add_state 0 (Success (Some (new_node NodeType.TypeName)))
                _ _ _ _ _ _ Hg Hadd).
      - split; [reflexivity|apply Nat.le_0_l].
      - apply rooted_filled. exact (@kinded_rooted NodeType.SpecifierQualifierList _ eq_refl Hk). }
    bind_inv_as H d c3 Hd. destruct d as [decl_it abstract_decl].
    destruct (is_giveup abstract_decl); cbn [negb] in H.
    + ret_inv H. cbn [snd]. exact (@wide_filled 1 _ (le_n 1) Hw).
    + bind_inv_as H type_name' c4 Hadd'. ret_inv H. cbn [snd].
      exact (@wide_filled 1 _ (le_n 1) (@wide_add_state_mono _ _ _ _ _ _ Hw Hadd')).
Qed.

Lemma initializer_list_kinded :
  yields (kinded NodeType.InitializerList)
    (parser_initializer_list token_to_string token_stream fuel self).
Proof.
  intros it c result c' H. unfold parser_initializer_list in H.
  bind_inv_as H r c1 Hr. destruct r as [l_it inits].
  destruct (is_giveup inits); cbn [negb] in H; [gave_up H|].
  bind_inv_as H init_list c2 Hadd. ret_inv H. cbn [snd].
  exact (@kinded_add_state NodeType.InitializerList
           (Success (Some (new_node NodeType.InitializerList)))
           _ _ _ _ eq_refl Hadd).
Qed.

(** ** Postfix expressions *)

Lemma compound_literal_rooted :
  yields rooted (compound_literal_production token_to_string token_stream fuel self).
Proof.
  intros it c result c' H. unfold compound_literal_production in H.
  destruct (Nat.eqb it (tend token_stream)); cbn [negb] in H; [gave_up H|].
  bind_inv_as H t c1 Ht. destruct t as [type_it type_name].
  pose proof (@parens_yields token_to_string token_stream filled _ _ _
                lenient_filled type_name_filled _ _ _ _ Ht) as Hty.
  cbn [snd] in Hty.
  destruct (is_giveup type_name) eqn:Hg; cbn [negb] in H; [gave_up H|].
  bind_inv_as H l c2 Hl. destruct l as [init_it initalizer_list].
  pose proof (@parens_yields token_to_string token_stream
                (kinded NodeType.InitializerList) _ _ _
                (lenient_kinded _) initializer_list_kinded _ _ _ _ Hl) as Hlist.
  cbn [snd] in Hlist.
  destruct (is_giveup initalizer_list) eqn:Hg'; cbn [negb] in H; [gave_up H|].
  bind_inv_as H literal c3 Hadd. bind_inv_as H literal' c4 Hadd'.
  ret_inv H. cbn [snd].
  refine (@wide_rooted 2 _ (le_n 2) _).
  refine (@wide_add_state 1 _ _ _ _ _ _ _ Hg' Hadd').
  - refine (@wide_add_state 0 (Success (Some (new_node NodeType.CompoundLiteral)))
              _ _ _ _ _ Hty Hg Hadd).
    split; [reflexivity|apply Nat.le_0_l].
  - apply rooted_filled. exact (@kinded_rooted NodeType.InitializerList _ eq_refl Hlist).
Qed.

Lemma expect_end_token_failed : forall s begin it tk c s' c',
  expect_end_token token_to_string token_stream s begin it tk c
  = Ok ((false, s'), c') ->
  forall P : ParserState -> Prop, lenient P -> P s'.
Proof.
  intros s begin it tk c s' c' H P HP.
  destruct (@lenient_expect_end_token token_to_string token_stream (fun _ => True)
              _ _ _ _ _ _ _ _ (fun _ => I) I H) as (_ & _ & Hf).
  specialize (Hf eq_refl). destruct s' as [es|t]; [apply HP|discriminate Hf].
Qed.

Lemma postfix_production_texted :
  yields texted (postfix_production token_to_string token_stream fuel self).
Proof.
  intros it c result c' H. unfold postfix_production in H.
  destruct (Nat.eqb it (tend token_stream)); [gave_up H|].
  bind_inv_as H tok c1 Htok.
  destruct (type tok) eqn:Hty; try (gave_up H).
  - ret_inv H. cbn. split; reflexivity.
  - bind_inv_as H r c2 Hr. destruct r as [ident_it identifier].
    bind_inv_as H op c3 Hadd. ret_inv H. cbn [snd].
    refine (@texted_add_state _ _ _ _ _ _ Hadd). cbn. split; reflexivity.
  - ret_inv H. cbn. split; reflexivity.
  - bind_inv_as H e c2 He. destruct e as [expr_it expression].
    bind_inv_as H x c3 Hx. destruct x as [closed expression'].
    destruct closed.
    + bind_inv_as H g c4 Hg. bind_inv_as H op c5 Hadd. ret_inv H. cbn [snd].
      refine (@texted_add_state _ _ _ _ _ _ Hadd). cbn. split; reflexivity.
    + ret_inv H. cbn [snd]. exact (@expect_end_token_failed _ _ _ _ _ _ _ Hx texted lenient_texted).
  - bind_inv_as H empty c2 Hempty. destruct empty.
    + ret_inv H. cbn. split; reflexivity.
    + bind_inv_as H a c3 Ha. destruct a as [arg_it argument_list].
      bind_inv_as H g c4 Hg. bind_inv_as H arguments c5 Hadd.
      bind_inv_as H op c6 Hadd'. ret_inv H. cbn [snd].
      refine (@texted_add_state _ _ _ _ _ _ Hadd'). cbn. split; reflexivity.
  - bind_inv_as H r c2 Hr. destruct r as [ident_it identifier].
    bind_inv_as H op c3 Hadd. ret_inv H. cbn [snd].
    refine (@texted_add_state _ _ _ _ _ _ Hadd). cbn. split; reflexivity.
Qed.

Lemma postfix_loop_rooted : forall n it expr c result c',
  rooted expr ->
  postfix_loop token_to_string token_stream fuel self n it expr c = Ok (result, c') ->
  rooted (snd result).
Proof.
  induction n as [|n IH]; intros it expr c result c' He H; cbn [postfix_loop] in H;
    [discriminate H|].
  bind_inv_as H op c1 Hop. destruct op as [op_it postfix_op].
  destruct (is_giveup postfix_op); cbn [negb] in H; [ret_inv H; exact He|].
  bind_inv_as H op' c2 Hadd.
  refine (IH _ _ _ _ _ _ H). apply texted_rooted.
  refine (@texted_add_state _ _ _ _ _ _ Hadd).
  exact (@postfix_production_texted _ _ _ _ Hop).
Qed.

Lemma callee_rooted : forall begin c result c',
  parser_one_of token_stream begin "compound literal or expression"
    [ compound_literal_production token_to_string token_stream fuel self;
      self PrimaryExpression ] c = Ok (result, c') ->
  rooted (snd result).
Proof.
  intros begin c result c' H.
  refine (@one_of_yields token_stream rooted _ _ _ _ _ _ lenient_rooted _ H).
  repeat constructor; [exact compound_literal_rooted|].
  apply rooted_self. reflexivity.
Qed.

Lemma postfix_expression_rooted :
  yields rooted (parser_postfix_expression token_to_string token_stream fuel self).
Proof.
  intros it c result c' H. unfold parser_postfix_expression in H.
  destruct (Nat.eqb it (tend token_stream)); cbn [negb] in H; [gave_up H|].
  bind_inv_as H e c1 He. destruct e as [expr_it expr].
  pose proof (@callee_rooted _ _ _ _ He) as Hr. cbn [snd] in Hr.
  destruct (is_giveup expr); [ret_inv H; exact Hr|].
  exact (@postfix_loop_rooted _ _ _ _ _ _ Hr H).
Qed.

(** ** Unary and cast expressions *)

Lemma incremental_unary_rooted :
  yields rooted (incremental_unary_production token_to_string token_stream self).
Proof.
  intros it c result c' H. unfold incremental_unary_production in H.
  bind_inv_as H op c1 Hop. destruct op as [incr_it incr_op].
  destruct (is_giveup incr_op); cbn [negb] in H; [gave_up H|].
  bind_inv_as H u c2 Hu. destruct u as [unary_it unary_expr].
  bind_inv_as H g c3 Hg. bind_inv_as H op' c4 Hadd. ret_inv H. cbn [snd].
  apply texted_rooted. refine (@texted_add_state _ _ _ _ _ _ Hadd).
  exact (@operator_texted token_stream NodeType.UnaryExpression _ eq_refl _ _ _ _ Hop).
Qed.

Lemma unary_cast_rooted :
  yields rooted (unary_cast_production token_stream self).
Proof.
  intros it c result c' H. unfold unary_cast_production in H.
  bind_inv_as H op c1 Hop. destruct op as [unary_it unary_op].
  destruct (is_giveup unary_op); cbn [negb] in H; [gave_up H|].
  bind_inv_as H e c2 He. destruct e as [cast_it cast_expr].
  bind_inv_as H op' c3 Hadd. ret_inv H. cbn [snd].
  apply texted_rooted. refine (@texted_add_state _ _ _ _ _ _ Hadd).
  exact (@operator_texted token_stream NodeType.UnaryExpression _ eq_refl _ _ _ _ Hop).
Qed.

Lemma size_of_rooted :
  yields rooted (size_of_production token_to_string token_stream fuel self).
Proof.
  intros it c result c' H. unfold size_of_production in H.
  bind_inv_as H tok c1 Htok.
  destruct (TokenType.eqb (type tok) TokenType.Sizeof).
  - bind_inv_as H u c2 Hu. destruct u as [u_it unary_expr].
    bind_inv_as H g c3 Hg. bind_inv_as H op c4 Hadd. ret_inv H. cbn [snd].
    apply texted_rooted. refine (@texted_add_state _ _ _ _ _ _ Hadd).
    cbn. split; reflexivity.
  - destruct (TokenType.eqb (type tok) TokenType.Alignof); [|gave_up H].
    bind_inv_as H t c2 Ht. destruct t as [t_it type_name].
    bind_inv_as H g c3 Hg. bind_inv_as H op c4 Hadd. ret_inv H. cbn [snd].
    apply texted_rooted. refine (@texted_add_state _ _ _ _ _ _ Hadd).
    cbn. split; reflexivity.
Qed.

Lemma unary_expression_rooted :
  yields rooted (parser_unary_expression token_to_string token_stream fuel self).
Proof.
  intros it c result c' H. unfold parser_unary_expression in H.
  destruct (Nat.eqb it (tend token_stream)); [gave_up H|].
  refine (@one_of_yields token_stream rooted _ _ _ _ _ _ lenient_rooted _ H).
  repeat constructor.
  - exact postfix_expression_rooted.
  - exact incremental_unary_rooted.
  - exact size_of_rooted.
  - exact unary_cast_rooted.
Qed.

Lemma cast_production_rooted :
  yields rooted (cast_production token_to_string token_stream fuel self).
Proof.
  intros it c result c' H. unfold cast_production in H.
  bind_inv_as H paren c1 Hparen. destruct paren; [|gave_up H].
  bind_inv_as H t c2 Ht. destruct t as [type_it type_name].
  pose proof (@type_name_filled _ _ _ _ Ht) as Hfilled. cbn [snd] in Hfilled.
  destruct (is_giveup type_name) eqn:Hg; cbn [negb] in H; [gave_up H|].
  bind_inv_as H x c3 Hx. destruct x as [closed type_name'].
  destruct closed; [|gave_up H].
  destruct (@lenient_expect_end_token token_to_string token_stream filled
              _ _ _ _ _ _ _ _ lenient_filled Hfilled Hx) as (_ & Hsame & _).
  specialize (Hsame eq_refl). subst type_name'.
  bind_inv_as H e c4 He. destruct e as [cast_it cast_expr].
  pose proof (@rooted_self CastExpression eq_refl _ _ _ _ He) as Hcast.
  cbn [snd] in Hcast.
  bind_inv_as H brace c5 Hbrace.
  destruct (negb (Nat.eqb cast_it (tend token_stream)) && negb brace); [|gave_up H].
  bind_inv_as H cast c6 Hadd. bind_inv_as H g c7 Hpromoted.
  bind_inv_as H cast' c8 Hadd'. ret_inv H. cbn [snd].
  refine (@wide_rooted 2 _ (le_n 2) _).
  refine (@wide_add_state 1 _ _ _ _ _ _ _ (promoted_operand _ _ _ _ _ Hpromoted) Hadd').
  - refine (@wide_add_state 0 (Success (Some (new_node NodeType.CastExpression)))
              _ _ _ _ _ Hfilled Hg Hadd).
    split; [reflexivity|apply Nat.le_0_l].
  - apply rooted_filled.
    exact (@lenient_promotion token_to_string token_stream rooted _ _ _ _ _
             lenient_rooted I Hcast Hpromoted).
Qed.

Lemma cast_expression_rooted :
  yields rooted (parser_cast_expression token_to_string token_stream fuel self).
Proof.
  intros it c result c' H. unfold parser_cast_expression in H.
  refine (@one_of_yields token_stream rooted _ _ _ _ _ _ lenient_rooted _ H).
  repeat constructor; [exact cast_production_rooted|exact unary_expression_rooted].
Qed.

(** ** The binary levels *)

Ltac binary_level H lower :=
  match type of H with
  | (if negb (Nat.eqb ?b ?e) then _ else _) _ = _ =>
      destruct (Nat.eqb b e); cbn [negb] in H; [gave_up H|];
      refine (@left_binary_rooted _ _ _ _ _ _ lower _ _ _ _ _ H);
      apply operator_texted; reflexivity
  end.

Lemma multiplicative_expression_rooted :
  yields rooted (parser_multiplicative_expression token_to_string token_stream fuel self).
Proof.
  intros it c result c' H. unfold parser_multiplicative_expression in H.
  binary_level H cast_expression_rooted.
Qed.

Lemma additive_expression_rooted :
  yields rooted (parser_additive_expression token_to_string token_stream fuel self).
Proof.
  intros it c result c' H. unfold parser_additive_expression in H.
  binary_level H multiplicative_expression_rooted.
Qed.

Lemma shift_expression_rooted :
  yields rooted (parser_shift_expression token_to_string token_stream fuel self).
Proof.
  intros it c result c' H. unfold parser_shift_expression in H.
  binary_level H additive_expression_rooted.
Qed.

Lemma relational_expression_rooted :
  yields rooted (parser_relational_expression token_to_string token_stream fuel self).
Proof.
  intros it c result c' H. unfold parser_relational_expression in H.
  binary_level H shift_expression_rooted.
Qed.

Lemma equality_expression_rooted :
  yields rooted (parser_equality_expression token_to_string token_stream fuel self).
Proof.
  intros it c result c' H. unfold parser_equality_expression in H.
  binary_level H relational_expression_rooted.
Qed.

Lemma and_expression_rooted :
  yields rooted (parser_and_expression token_to_string token_stream fuel self).
Proof.
  intros it c result c' H. unfold parser_and_expression in H.
  binary_level H equality_expression_rooted.
Qed.

Lemma exclusive_or_expression_rooted :
  yields rooted (parser_exclusive_or_expression token_to_string token_stream fuel self).
Proof.
  intros it c result c' H. unfold parser_exclusive_or_expression in H.
  binary_level H and_expression_rooted.
Qed.

Lemma inclusive_or_expression_rooted :
  yields rooted (parser_inclusive_or_expression token_to_string token_stream fuel self).
Proof.
  intros it c result c' H. unfold parser_inclusive_or_expression in H.
  binary_level H exclusive_or_expression_rooted.
Qed.

Lemma logical_and_expression_rooted :
  yields rooted (parser_logical_and_expression token_to_string token_stream fuel self).
Proof.
  intros it c result c' H. unfold parser_logical_and_expression in H.
  binary_level H inclusive_or_expression_rooted.
Qed.

Lemma logical_or_expression_rooted :
  yields rooted (parser_logical_or_expression token_to_string token_stream fuel self).
Proof.
  intros it c result c' H. unfold parser_logical_or_expression in H.
  binary_level H logical_and_expression_rooted.
Qed.

(** ** Conditional, assignment and comma expressions *)

Lemma conditional_expression_rooted :
  yields rooted (parser_conditional_expression token_to_string token_stream fuel self).
Proof.
  intros it c result c' H. unfold parser_conditional_expression in H.
  destruct (Nat.eqb it (tend token_stream)); cbn [negb] in H; [gave_up H|].
  bind_inv_as H o c1 Hor. destruct o as [or_it or_expr].
  pose proof (@logical_or_expression_rooted _ _ _ _ Hor) as Hroot. cbn [snd] in Hroot.
  destruct (is_giveup or_expr) eqn:Hg; cbn [negb] in H; [gave_up H|].
  bind_inv_as H question c2 Hquestion.
  destruct question; [|ret_inv H; exact Hroot].
  bind_inv_as H condition c3 Hadd.
  assert (H1 : wide 1 condition).
  { refine (@wide_add_state 0
              (Success (Some (new_node NodeType.ConditionalExpression)))
              _ _ _ _ _ (rooted_filled _ Hroot) Hg Hadd).
    split; [reflexivity|apply Nat.le_0_l]. }
  bind_inv_as H t c4 Ht. destruct t as [true_it true_expr].
  pose proof (@rooted_self Expression eq_refl _ _ _ _ Ht) as Htrue. cbn [snd] in Htrue.
  bind_inv_as H g c5 Hpromoted.
  bind_inv_as H condition' c6 Hadd'.
  assert (H2 : wide 2 condition').
  { refine (@wide_add_state 1 _ _ _ _ _ H1 _
              (promoted_operand _ _ _ _ _ Hpromoted) Hadd').
    apply rooted_filled.
    exact (@lenient_promotion token_to_string token_stream rooted _ _ _ _ _
             lenient_rooted I Htrue Hpromoted). }
  bind_inv_as H x c7 Hx. destruct x as [colon condition''].
  pose proof (proj1 (@lenient_expect_end_token token_to_string token_stream (wide 2)
                       _ _ _ _ _ _ _ _ (lenient_wide 2) H2 Hx)) as H3.
  destruct colon; [|ret_inv H; exact (@wide_rooted 2 _ (le_n 2) H3)].
  bind_inv_as H f c8 Hf. destruct f as [false_it false_expr].
  bind_inv_as H g' c9 Hpromoted'.
  bind_inv_as H condition3 c10 Hadd3. ret_inv H. cbn [snd].
  exact (@wide_rooted 2 _ (le_n 2) (@wide_add_state_mono _ _ _ _ _ _ H3 Hadd3)).
Qed.

Lemma assignment_expression_rooted :
  yields rooted (parser_assignment_expression token_to_string token_stream fuel self).
Proof.
  intros it c result c' H. unfold parser_assignment_expression in H.
  destruct (Nat.eqb it (tend token_stream)); [gave_up H|].
  refine (@one_of_yields token_stream rooted _ _ _ _ _ _ lenient_rooted _ H).
  repeat constructor; [|exact conditional_expression_rooted].
  apply right_binary_rooted. apply operator_texted. reflexivity.
Qed.

Lemma expression_rooted :
  yields rooted (parser_expression token_to_string token_stream fuel self).
Proof.
  intros it c result c' H. unfold parser_expression in H.
  binary_level H assignment_expression_rooted.
Qed.

(** ** Primary expressions *)

Lemma parens_expr_rooted :
  yields rooted (parser_parens_expr token_to_string token_stream fuel self).
Proof.
  intros it c result c' H. unfold parser_parens_expr in H.
  bind_inv_as H paren c1 Hparen. destruct paren; [|gave_up H].
  bind_inv_as H e c2 He. destruct e as [e_it expr].
  pose proof (@expression_rooted _ _ _ _ He) as Hroot. cbn [snd] in Hroot.
  bind_inv_as H x c3 Hx. destruct x as [x_it expr'].
  assert (Hroot' : rooted expr').
  { destruct (is_giveup expr); cbn [negb] in Hx; [ret_inv Hx; exact Hroot|].
    bind_inv_as Hx y c4 Hy. destruct y as [closed expr''].
    ret_inv Hx.
    exact (proj1 (@lenient_expect_end_token token_to_string token_stream rooted
                    _ _ _ _ _ _ _ _ lenient_rooted Hroot Hy)). }
  bind_inv_as H g c5 Hpromoted. ret_inv H. cbn [snd].
  exact (@lenient_promotion token_to_string token_stream rooted _ _ _ _ _
           lenient_rooted I Hroot' Hpromoted).
Qed.

Lemma primary_expression_rooted :
  yields rooted (parser_primary_expression token_to_string token_stream fuel self).
Proof.
  intros it c result c' H. unfold parser_primary_expression in H.
  refine (@one_of_yields token_stream rooted _ _ _ _ _ _ lenient_rooted _ H).
  repeat constructor.
  - intros i c0 r c0' H0. apply texted_rooted. exact (@identifier_texted _ _ _ _ H0).
  - intros i c0 r c0' H0. apply texted_rooted. exact (@constant_texted _ _ _ _ H0).
  - exact string_literal_list_rooted.
  - exact parens_expr_rooted.
Qed.

Variable contains : SourceRange -> SourceLocation -> bool.

Lemma dispatch_rooted : forall r,
  expression_rule r = true ->
  yields rooted (dispatch token_to_string contains token_stream fuel self r).
Proof.
  intros r Hr. destruct r; try discriminate Hr; cbn [dispatch].
  - exact expression_rooted.
  - exact primary_expression_rooted.
  - exact cast_expression_rooted.
  - exact assignment_expression_rooted.
  - exact conditional_expression_rooted.
  - exact unary_expression_rooted.
Qed.

End RootedRules.

Section RootedRun.

Variable token_to_string : TokenType.t -> string.
Variable contains : SourceRange -> SourceLocation -> bool.
Variable token_stream : TokenStream.

Lemma run_rooted : forall n r,
  expression_rule r = true ->
  yields rooted (run token_to_string contains token_stream n r).
Proof.
  induction n as [|n IH]; intros r Hr; cbn [run].
  - intros it c result c' H. discriminate H.
  - apply dispatch_rooted; [exact IH|exact Hr].
Qed.

End RootedRun.

(** * Function calls *)

Section FunctionCalls.

Variable token_to_string : TokenType.t -> string.
Variable contains : SourceRange -> SourceLocation -> bool.
Variable token_stream : TokenStream.






End FunctionCalls.


(** X24. The tree of an expression is never dissolved into its parent:
    whatever tree [parser_expression], [parser_primary_expression],
    [parser_cast_expression], [parser_assignment_expression],
    [parser_conditional_expression] or [parser_unary_expression] returns is
    no elision candidate, so [add_node] adds it as one child. *)
Theorem expression_trees_are_kept :
  forall token_to_string contains token_stream n r it c next_token tree c',
    expression_rule r = true ->
    run token_to_string contains token_stream n r it c
    = Ok ((next_token, Success (Some tree)), c') ->
    should_elide tree = false.
Proof.
  intros token_to_string contains token_stream n r it c next_token tree c' Hr H.
  exact (@run_rooted token_to_string contains token_stream n r Hr _ _ _ _ H).
Qed.

Lemma expression_trees_are_kept_witness :
  exists next_token tree c',
    run Examples.token_spelling Examples.range_contains
      Examples.call_with_arguments 40 Expression 0 Examples.fresh_context
    = Ok ((next_token, Success (Some tree)), c') /\
    should_elide tree = false.
Proof.
  eexists. eexists. eexists.
  assert (Hrun :
    run Examples.token_spelling Examples.range_contains
      Examples.call_with_arguments 40 Expression 0 Examples.fresh_context
    = Ok ((_, Success (Some _)), _)) by (vm_compute; reflexivity).
  split; [exact Hrun|].
  exact (@expression_trees_are_kept _ _ _ _ Expression _ _ _ _ _ eq_refl Hrun).
Defined.
